(* ===== verification/_CoqProject ===== *)
-Q . S2P
Prelude.v
Text.v
Ordered.v
Float.v
Fips.v
Sha256.v
Metadata.v
Registry.v
Health.v
Zk.v
ZkPaths.v
Net.v
JsonText.v
Http.v
ControlApi.v
ControlClient.v
Wire.v
WireCodec.v
ChunkStore.v
ChunkSpec.v
HeadNet.v
Cluster.v
ThreadPool.v
Upload.v
UploadSpec.v
Download.v
DownloadSpec.v
Heartbeat.v
Failover.v
Client.v
ClientSpec.v
RoundTrip.v
Consensus.v
FailoverSpec.v
Survival.v
Config.v
ConfigSpec.v
ConfigText.v
ZkMonitor.v
ZkMonitorSpec.v
ZkMonitorApi.v
HealthChecker.v
HealthCheckerSpec.v
Reactor.v
Coroutines.v
HeartbeatTcp.v
ClusterServer.v
FloatBounds.v
SystemInfo.v
SystemSpec.v
HeadMain.v
CliMain.v
RedisStore.v
RedisSpec.v
Registration.v
ZkMain.v
Metrics.v
Settings.v
Reports.v
Sockets.v
CheckerMain.v
Services.v
HeadThreads.v
CliSession.v
ClientStart.v
Endings.v
