(* ===== verification/Prelude.v ===== *)
(** * Distributed File Grid: verification development

    Distributed File Grid is a file store in C++.  A client cuts a file into
    chunks; a head server chooses cluster servers for each chunk, records where
    the replicas are and repairs what is lost; cluster servers keep the chunks.
    A stand-alone health checker and a ZooKeeper monitor watch the servers.
    This library translates the program's code into executable definitions and
    proves what makes each part, and their composition, correct.

    ** The parts and where they are

    Common ground.  [Prelude] (this file): byte strings, wrap-around, exceptions
    ([exc] with its monad), lemmas and tactics every file uses.  [Text]:
    std::string, streams, stoi and to_string.  [Ordered]: iteration orders of
    std::map, std::unordered_map ([HashOrder]) and std::sort ([StdSort]).
    [Float], [FloatBounds]: stod, printing, and bounds on rounded results.
    [Net]: addresses, send_all and recv_all (net_utils.hpp).  [Sockets]: which
    descriptors are open; connecting and the accept loops (net_utils.hpp,
    chunk_service.cpp, head_server.cpp).  [JsonText], [Http]: the text formats.
    [ThreadPool], [Reactor], [Coroutines], [HeartbeatTcp]: thread_pool.hpp and
    async_net.hpp.  [Metrics]: what every process exports to Prometheus.
    [Endings]: how the processes end, and the one that is forked.
    [Config], [ConfigSpec], [ConfigText], [Settings]: config_loader.hpp.

    Head server.  [Metadata] (the file backend of redis_handler.hpp),
    [RedisStore] and [RedisSpec] (its Redis backend), [Registry]
    (server_registry.hpp), [Health] (health_monitor.hpp), [ControlApi]
    (control_api.hpp), [HeadNet] (the calls to cluster servers), [Upload] and
    [UploadSpec] (file_upload.cpp), [Download], [DownloadSpec], [Failover],
    [FailoverSpec], [Consensus], [Heartbeat], [HeadMain] and [HeadThreads]
    (head_server.cpp), [Survival] (a file through uploads, failures and
    downloads), [Registration] (a self-registration and what follows from it),
    [Reports] (the tables it prints), [Sha256] (sha256.hpp) and [Fips], the
    standard it is compared with, written from FIPS 180-4 and not from the code.

    Cluster server.  [ChunkStore] and [ChunkSpec] (storage and the three ports
    of chunk_service.cpp), [Wire] and [WireCodec] (the messages of src/src/proto
    and their framing), [SystemInfo] and [SystemSpec] (system_info.hpp and the
    heartbeats made from it), [ClusterServer] (cluster_server.cpp), [Services]
    (the coroutines it starts).  [Cluster] puts many of them, with faults, behind
    the head server's network.

    Client and command line.  [Client], [ClientSpec], [ClientStart] and
    [RoundTrip] (client.cpp), [ControlClient], [CliSession] and [CliMain]
    (dfg_cli.cpp).

    Coordination.  [Zk] and [ZkPaths] (zookeeper_client.cpp), [ZkMonitor],
    [ZkMonitorSpec], [ZkMonitorApi] and [ZkMain] (zk_monitor.cpp),
    [HealthChecker], [HealthCheckerSpec] and [CheckerMain] (health_checker.cpp).

    ** How the model corresponds to the code

    A class is a Record of its fields, and a method a function from the state
    and the arguments to the new state and the result; a handler of a connection
    maps the bytes received to the bytes sent.  Definitions keep the names of
    the functions they translate.  A mutex makes what it protects one step.
    Concurrency is explicit where it matters: a step relation or a list of
    events over every interleaving ([ThreadPool.pool_step], [Reactor],
    [Coroutines.step], [Sockets.event], [ZkMain.mon_step], [Health],
    [HealthCheckerSpec], [CheckerMain.event], [HeadThreads.head_event]), an
    arbitrary order of the pool's jobs ([schedule] in [Upload], [Download],
    [Client]), or a view of the shared registry at each moment it is read
    ([Upload]).  What the kernel, the disk, the network, the clock and rand()
    answer are arguments, and the theorems hold for every answer unless a
    hypothesis says otherwise.  Integers are [Z] with their wrap-around written
    out (w32, w64); exceptions are values of [exc]; undefined results are
    arguments of the model.

    Interfaces.  [HeadNet.ChunkCluster] states what cluster servers promise to
    the head server; the theorems on uploads, downloads and failovers are proved
    against it, and [Cluster] proves it of the servers of [ChunkStore].
    [Wire.Protobuf] states the round trip the protobuf runtime documents, and
    [WireCodec] is an implementation for the witnesses.  [RedisStore.Redis]
    states what Redis does to the hash of a key, [Metrics.Prometheus] what a
    scrape reports of the counters and gauges of the client library.

    Coroutines.  [Coroutines] is a machine for the tasks of async_net.hpp: frames
    in a table, who resumes whom, the loop of [Reactor::run]; the code of the
    coroutines is an argument, a relation from a program point to what is done
    next.  [Services.service_code] is that relation for a cluster server;
    [CheckerMain] and [HeadThreads] give the two coroutines of the health checker
    and the two threads of the head server as steps on the state they share.

    ** What the theorems show

    The whole system: a download after a successful upload saves exactly the
    bytes that were uploaded ([RoundTrip]), also after any number of servers died
    one after the other and were failed over ([Survival]).  Uploads: what SUCCESS
    promises (also for an announced size of 0, which promises nothing), the
    choice of servers, the end of the receive loop ([UploadSpec]), what an honest
    client gets whose request fits in the buffer the server reads it into
    ([ClientSpec]).  Downloads: the plan from the answers the replicas gave, the
    majority ([DownloadSpec]).  Failover: exact effect on the
    metadata, copies that are held, at most one per server, and a vote that is
    always reached ([FailoverSpec], [Consensus]).  Stores: recovery of the
    metadata from its file, what the Redis and the file backend make of one
    upload and one failover, the refinement of a shelf of chunks by the chunk
    storage, fallback paths and faults included ([Metadata], [RedisSpec],
    [ChunkSpec]); SHA-256 against FIPS 180-4 ([Sha256]).  Watching: a silent
    server is failed over exactly once by the head server, from its start on,
    unless a datagram overruns its buffer,
    and reported exactly once by the health checker, whose program keeps its
    table right through every event; heartbeats arrive as sent over UDP and TCP
    and carry numbers ([Health], [HeadThreads], [HealthCheckerSpec],
    [CheckerMain], [Heartbeat], [HeartbeatTcp], [SystemSpec]);
    the monitor elects one leader and never stops itself, but one request stops
    it ([ZkMonitorSpec], [ZkMain], [ZkMonitorApi]).  Machinery: jobs run once,
    no wake-up is lost and shutdown ends, on a condition variable with spurious
    wake-ups and delayed notifications ([ThreadPool]), waiters are conserved ([Reactor]), no
    coroutine is resumed wrongly and a cluster server serves until it is stopped
    ([Coroutines], [Services]), descriptors do not leak ([Sockets]), the
    coordination store is a tree ([Zk]).  Start, settings and exit codes:
    [HeadMain], [CliMain], [CliSession], [ClientStart], [ClusterServer],
    [ConfigText], [Settings], [Endings].  Several theorems state what the code
    does where that is not what it means to do.

    ** Fuel and bounds

    The configuration parser runs on fuel because the program diverges on some
    texts; [ConfigText.config_parser_returns] shows that twice the length of the
    text plus two is enough whenever it returns at all.  [Upload.receive_chunks]
    has a fuel that [UploadSpec.upload_terminates] shows is never used up above
    the length of the stream, a result of its own ([RxOutOfFuel]).  [ZkMonitor.create_path]
    recurses on parents, which are shorter, so the length of the path is enough.
    [SystemInfo.scale_speed] divides at most three times, as the code's loop
    condition says.  The receive loops recurse on the bytes or the answers that
    are left; a list of answers that has run out is a call still blocked.

    ** Not modelled

    Banners and help texts; the buckets of the exported histograms; the expiry of
    Redis keys in time; the memory of a coroutine's frame (a frame is an entry of
    a table, and resuming a missing one is a fault); what happens to threads and
    coroutines that go on while the process destroys its globals.
    argparse, protobuf, Prometheus, Redis and the kernel are parameters.  The
    tests, build and deployment files are not code of the program. *)
From Stdlib Require Export Ascii String.
From stdpp Require Export base gmap sets list strings fin_maps sorting.

(** ** Byte strings

    [std::string], [std::vector<char>] and the payloads of sockets are all
    lists of 8-bit characters.  [lit] writes a C++ string literal. *)
Abbreviation bytes := (list ascii).

Definition lit (s : string) : bytes := list_ascii_of_string s.

Definition nl : ascii := "010"%char.
Definition cr : ascii := "013"%char.
Definition tab : ascii := "009"%char.
Definition sp : ascii := " "%char.
Definition dq : ascii := "034"%char.
Definition colon : ascii := ":"%char.

(** ** C++ exceptions

    A computation either returns a value or throws.  [try_catch] is
    [try { .. } catch (...) { .. }]. *)
Inductive exn := InvalidArgument | OutOfRange | RuntimeError (what : bytes).

Inductive exc (A : Type) := Val (a : A) | Throw (e : exn).
Arguments Val {A} a.
Arguments Throw {A} e.

#[export] Instance exc_ret : MRet exc := λ A a, Val a.
#[export] Instance exc_bind : MBind exc := λ A B f m,
  match m with Val a => f a | Throw e => Throw e end.

Definition try_catch {A} (m : exc A) (handler : A) : A :=
  match m with Val a => a | Throw _ => handler end.

#[export] Instance exn_eq_dec : EqDecision exn.
Proof. solve_decision. Defined.
#[export] Instance exc_eq_dec {A} `{EqDecision A} : EqDecision (exc A).
Proof. solve_decision. Defined.

(** ** Machine integers: wrap-around at a width *)
Definition wrap (w : Z) (x : Z) : Z := (x mod 2 ^ w)%Z.
Abbreviation w32 := (wrap 32).
Abbreviation w64 := (wrap 64).

(** Two's complement reading of a 32-bit [int]. *)
Definition sint32 (x : Z) : Z :=
  let y := wrap 32 x in (if y <? 2 ^ 31 then y else y - 2 ^ 32)%Z.

Definition INT_MIN : Z := (- 2 ^ 31)%Z.
Definition INT_MAX : Z := (2 ^ 31 - 1)%Z.
Definition LLONG_MIN : Z := (- 2 ^ 63)%Z.
Definition LLONG_MAX : Z := (2 ^ 63 - 1)%Z.
Definition ULLONG_MAX : Z := (2 ^ 64 - 1)%Z.

(** ** Filters that keep everything, or nothing *)
Lemma filter_all {A} (P : A → Prop) `{∀ x, Decision (P x)} (l : list A) :
  Forall P l → filter P l = l.
Proof.
  intros Hl. induction Hl as [|c l Hc Hl IH]; [done|].
  rewrite filter_cons, decide_True by done. by rewrite IH.
Qed.

Lemma filter_none {A} (P : A → Prop) `{∀ x, Decision (P x)} (l : list A) :
  (∀ x, x ∈ l → ¬ P x) → filter P l = [].
Proof.
  induction l as [|x l IH]; intros Hl; [done|].
  rewrite filter_cons, decide_False by (apply Hl; by left). apply IH. intros y Hy. apply Hl. by right.
Qed.

Lemma filter_ext_elem {A} (P Q : A → Prop) `{∀ x, Decision (P x), ∀ x, Decision (Q x)} (l : list A) :
  (∀ x, x ∈ l → P x ↔ Q x) → filter P l = filter Q l.
Proof.
  induction l as [|x l IH]; intros Hl; [done|]. rewrite !filter_cons, IH.
  - pose proof (Hl x ltac:(by left)). repeat case_decide; tauto.
  - intros y Hy. apply Hl. by right.
Qed.

Lemma filter_one {A} `{EqDecision A} (x : A) (l : list A) :
  NoDup l → filter (λ y, y = x) l = if decide (x ∈ l) then [x] else [].
Proof.
  induction 1 as [|y l Hy _ IH]; [by rewrite decide_False by apply not_elem_of_nil|].
  rewrite filter_cons, IH. destruct (decide (y = x)) as [<-|Hyx].
  - rewrite (decide_False (P := y ∈ l)), decide_True; [done|by left|done].
  - apply decide_ext. rewrite elem_of_cons. split; [by right|]. by intros [->|?].
Qed.

(** ** Closed decidable facts, by evaluation *)
Ltac by_decision :=
  lazymatch goal with |- ?P => apply (bool_decide_unpack P) end; vm_compute; exact I.
