(* ===== verification/Text.v ===== *)
(** * Text: the parts of [std::string], [std::istringstream] and
    [std::to_string] the program uses, over character lists. *)
From Stdlib Require Import Lia.
From S2P Require Import Prelude.

(** ** Character classes (the C locale) *)
Definition is_space (c : ascii) : bool :=
  match c with
  | "009" | "010" | "011" | "012" | "013" | " " => true
  | _ => false
  end%char.

Definition is_digit (c : ascii) : bool :=
  let n := N_of_ascii c in ((48 <=? n) && (n <=? 57))%N.

Definition digit_val (c : ascii) : N := (N_of_ascii c - 48)%N.
Definition digit_char (d : N) : ascii := ascii_of_N (d + 48).

(** ** Scanning *)
Fixpoint take_while (f : ascii → bool) (s : bytes) : bytes :=
  match s with
  | [] => []
  | c :: s' => if f c then c :: take_while f s' else []
  end.

Fixpoint drop_while (f : ascii → bool) (s : bytes) : bytes :=
  match s with
  | [] => []
  | c :: s' => if f c then drop_while f s' else s
  end.

(** [s.rfind(p, 0) == 0] *)
Fixpoint starts_with (p s : bytes) : bool :=
  match p, s with
  | [], _ => true
  | _ :: _, [] => false
  | a :: p', c :: s' => bool_decide (a = c) && starts_with p' s'
  end.

(** [s.find(p)]; [None] is [npos]. *)
Fixpoint find (p s : bytes) : option nat :=
  if starts_with p s then Some 0
  else match s with [] => None | _ :: s' => S <$> find p s' end.

(** [s.find(p, pos)] *)
Definition find_from (p s : bytes) (pos : nat) : option nat :=
  if length s <? pos then None else (λ i, pos + i) <$> find p (drop pos s).

(** [s.find(p) != npos] *)
Definition contains (p s : bytes) : bool := bool_decide (is_Some (find p s)).

(** [s.find(c)] *)
Fixpoint find_char (c : ascii) (s : bytes) : option nat :=
  match s with
  | [] => None
  | a :: s' => if decide (a = c) then Some 0 else S <$> find_char c s'
  end.

(** [s.find(c, pos)] *)
Definition find_char_from (c : ascii) (s : bytes) (pos : nat) : option nat :=
  if length s <? pos then None else (λ i, pos + i) <$> find_char c (drop pos s).

(** [s.find_last_of(c)] *)
Fixpoint find_last_of (c : ascii) (s : bytes) : option nat :=
  match s with
  | [] => None
  | a :: s' =>
      match find_last_of c s' with
      | Some i => Some (S i)
      | None => if decide (a = c) then Some 0 else None
      end
  end.

(** [s.substr(pos)] and [s.substr(pos, n)]: [out_of_range] past the end. *)
Definition substr (s : bytes) (pos : nat) : exc bytes :=
  if length s <? pos then Throw OutOfRange else Val (drop pos s).
Definition substr_n (s : bytes) (pos n : nat) : exc bytes :=
  if length s <? pos then Throw OutOfRange else Val (take n (drop pos s)).

(** [while (std::getline(in, line, d)) ...]: the lines read, in order. *)
Fixpoint getlines (d : ascii) (s : bytes) : list bytes :=
  match s with
  | [] => []
  | c :: s' =>
      if decide (c = d) then [] :: getlines d s'
      else match getlines d s' with
           | [] => [[c]]
           | l :: ls => (c :: l) :: ls
           end
  end.

(** One [std::getline(in, line, d)]: the line and what is left. *)
Definition getline (d : ascii) (s : bytes) : option (bytes * bytes) :=
  match s with
  | [] => None
  | _ => Some (take_while (λ c, negb (bool_decide (c = d))) s,
               tail (drop_while (λ c, negb (bool_decide (c = d))) s))
  end.

(** Trailing characters removed while [f] holds ([pop_back] loops). *)
Definition rtrim (f : ascii → bool) (s : bytes) : bytes :=
  rev (drop_while f (rev s)).

(** ** Formatted input: [in >> word], [in >> integer] *)
Definition not_space (c : ascii) : bool := negb (is_space c).
Definition skip_space (s : bytes) : bytes := drop_while is_space s.

(** [in >> str]: [None] sets the failbit. *)
Definition read_word (s : bytes) : option (bytes * bytes) :=
  let s' := skip_space s in
  match s' with
  | [] => None
  | _ :: _ => Some (take_while not_space s', drop_while not_space s')
  end.

(** [while (iss >> t) tokens.push_back(t)] *)
Fixpoint words_fuel (fuel : nat) (s : bytes) : list bytes :=
  match fuel with
  | O => []
  | S k => match read_word s with
           | Some (w, s') => w :: words_fuel k s'
           | None => []
           end
  end.
Definition words (s : bytes) : list bytes := words_fuel (S (length s)) s.

Definition dec_value (ds : bytes) : N :=
  fold_left (λ acc c, (10 * acc + digit_val c)%N) ds 0%N.

(** Optional white space, optional sign, digits: sign, magnitude, rest. *)
Definition scan_int (s : bytes) : option (bool * N * bytes) :=
  let s := skip_space s in
  let '(neg, s) := match s with
                   | "-"%char :: s' => (true, s')
                   | "+"%char :: s' => (false, s')
                   | _ => (false, s)
                   end in
  match take_while is_digit s with
  | [] => None
  | ds => Some (neg, dec_value ds, drop_while is_digit s)
  end.

Definition signed_of (neg : bool) (m : N) : Z :=
  if neg then (- Z.of_N m)%Z else Z.of_N m.

(** [std::stoi], [std::stoll], [std::stoull]: trailing text is ignored. *)
Definition sto_range (lo hi : Z) (s : bytes) : exc Z :=
  match scan_int s with
  | None => Throw InvalidArgument
  | Some (neg, m, _) =>
      let v := signed_of neg m in
      if decide (lo ≤ v ≤ hi)%Z then Val v else Throw OutOfRange
  end.
Definition stoi : bytes → exc Z := sto_range INT_MIN INT_MAX.
Definition stoll : bytes → exc Z := sto_range LLONG_MIN LLONG_MAX.
Definition stoull (s : bytes) : exc Z :=
  match scan_int s with
  | None => Throw InvalidArgument
  | Some (neg, m, _) =>
      if decide (Z.of_N m ≤ ULLONG_MAX)%Z then Val (w64 (signed_of neg m))
      else Throw OutOfRange
  end.

(** [in >> x] for a signed [x] of the range, and for [size_t]. *)
Definition read_range (lo hi : Z) (s : bytes) : option (Z * bytes) :=
  '(neg, m, rest) ← scan_int s;
  let v := signed_of neg m in
  if decide (lo ≤ v ≤ hi)%Z then Some (v, rest) else None.
Definition read_int : bytes → option (Z * bytes) := read_range INT_MIN INT_MAX.
Definition read_ll : bytes → option (Z * bytes) := read_range LLONG_MIN LLONG_MAX.
Definition read_u64 (s : bytes) : option (Z * bytes) :=
  '(neg, m, rest) ← scan_int s;
  if decide (Z.of_N m ≤ ULLONG_MAX)%Z then Some (w64 (signed_of neg m), rest)
  else None.

(** ** [std::to_string] of an integer *)
Fixpoint show_N_fuel (fuel : nat) (n : N) : bytes :=
  match fuel with
  | O => [digit_char n]
  | S k => if (n <? 10)%N then [digit_char n]
           else show_N_fuel k (n / 10) ++ [digit_char (n mod 10)]
  end.
Definition show_N (n : N) : bytes := show_N_fuel (N.to_nat (N.log2 n)) n.
Definition show_Z (z : Z) : bytes :=
  if (z <? 0)%Z then "-"%char :: show_N (Z.to_N (- z)) else show_N (Z.to_N z).
Definition show_nat (n : nat) : bytes := show_Z (Z.of_nat n).

(** ** Laws *)
Create HintDb text.

(** A word is what [>>] reads back whole: not empty, no white space. *)
Definition word (s : bytes) : Prop := s ≠ [] ∧ Forall (λ c, is_space c = false) s.
(** A line is what [getline] reads back whole. *)
Definition no_char (c : ascii) (s : bytes) : Prop := c ∉ s.

#[export] Instance word_dec s : Decision (word s).
Proof. unfold word. apply _. Defined.
#[export] Instance no_char_dec c s : Decision (no_char c s).
Proof. unfold no_char. apply _. Defined.

Lemma take_while_app f a b :
  Forall (λ c, f c = true) a →
  take_while f (a ++ b) = a ++ take_while f b.
Proof. induction 1 as [|c a Hc _ IH]; simpl; [done|]. by rewrite Hc, IH. Qed.

Lemma drop_while_app f a b :
  Forall (λ c, f c = true) a → drop_while f (a ++ b) = drop_while f b.
Proof. induction 1 as [|c a Hc _ IH]; simpl; [done|]. by rewrite Hc, IH. Qed.

Lemma take_drop_while f s : take_while f s ++ drop_while f s = s.
Proof. induction s as [|c s IH]; simpl; [done|]. destruct (f c); simpl; congruence. Qed.

Lemma take_while_Forall f s : Forall (λ c, f c = true) (take_while f s).
Proof. induction s as [|c s IH]; simpl; [done|]. destruct (f c) eqn:E; auto. Qed.

Lemma starts_with_app p s : starts_with p (p ++ s) = true.
Proof. induction p as [|a p IH]; simpl; [done|]. by rewrite bool_decide_true, IH. Qed.

Lemma starts_with_spec p s : starts_with p s = true ↔ ∃ t, s = p ++ t.
Proof.
  split; [|intros [t ->]; apply starts_with_app].
  revert s. induction p as [|a p IH]; intros s; simpl; [eauto|].
  destruct s as [|c s]; [done|]. rewrite andb_true_iff, bool_decide_eq_true.
  intros [-> H]. destruct (IH _ H) as [t ->]. by exists t.
Qed.

Lemma find_Some p s i :
  find p s = Some i → ∃ a b, s = a ++ p ++ b ∧ length a = i.
Proof.
  revert i. induction s as [|c s IH]; intros i; simpl.
  - destruct (starts_with p []) eqn:E; [|done]. intros [= <-].
    apply starts_with_spec in E as [t ->]. by exists [], t.
  - destruct (starts_with p (c :: s)) eqn:E.
    + intros [= <-]. apply starts_with_spec in E as [t ->]. by exists [], t.
    + intros (j & Hj & ->)%fmap_Some. destruct (IH _ Hj) as (a & b & -> & <-).
      by exists (c :: a), b.
Qed.

Lemma contains_spec p s : contains p s = true ↔ ∃ a b, s = a ++ p ++ b.
Proof.
  unfold contains. rewrite bool_decide_eq_true. split.
  - intros [i Hi]. destruct (find_Some _ _ _ Hi) as (a & b & H & _). eauto.
  - intros (a & b & ->). induction a as [|c a IHa]; simpl.
    + destruct p as [|x p]; [by destruct b|]. simpl.
      rewrite bool_decide_true by done. rewrite starts_with_app. by eexists.
    + destruct (starts_with p _); [by eexists|]. destruct IHa as [i ->]. by eexists.
Qed.

Lemma find_char_app c a b :
  c ∉ a → find_char c (a ++ c :: b) = Some (length a).
Proof.
  induction a as [|x a IH]; simpl; intros H.
  - by rewrite decide_True.
  - apply not_elem_of_cons in H as [Hx H]. rewrite decide_False by done.
    by rewrite IH.
Qed.

Lemma find_char_None c s : find_char c s = None ↔ c ∉ s.
Proof.
  induction s as [|x s IH]; simpl; [split; [intros _; apply not_elem_of_nil|done]|].
  rewrite not_elem_of_cons. case_decide as Hd.
  - split; [done|]. intros [? _]. congruence.
  - rewrite fmap_None, IH. split; [|by intros [_ ?]].
    intros Hs. split; [congruence|done].
Qed.

Lemma drop_past_char (a b : bytes) c : drop (length a + 1) (a ++ c :: b) = b.
Proof.
  rewrite drop_app_ge by lia. replace (length a + 1 - length a) with 1 by lia. done.
Qed.

Lemma find_last_of_app c (a b : bytes) :
  c ∉ b → find_last_of c (a ++ c :: b) = Some (length a).
Proof.
  intros Hb. assert (find_last_of c b = None) as Hn.
  { induction b as [|x b IH]; [done|]. apply not_elem_of_cons in Hb as [Hx Hb].
    simpl. rewrite (IH Hb). by rewrite decide_False by congruence. }
  induction a as [|x a IH]; simpl.
  - rewrite Hn. by rewrite decide_True.
  - by rewrite IH.
Qed.

(** *** Searching past text that cannot match *)
Lemma find_cons_no p c s : starts_with p (c :: s) = false → find p (c :: s) = S <$> find p s.
Proof. simpl. by intros ->. Qed.

Lemma find_here p s : find p (p ++ s) = Some 0.
Proof. destruct (p ++ s) eqn:E; simpl; rewrite <- E; by rewrite starts_with_app. Qed.

Lemma find_skip c p seg s :
  no_char c seg → find (c :: p) (seg ++ s) = (λ i, length seg + i) <$> find (c :: p) s.
Proof.
  unfold no_char. induction seg as [|x seg IH]; intros Hc; simpl app.
  - by destruct (find (c :: p) s).
  - apply not_elem_of_cons in Hc as [Hx Hc]. rewrite find_cons_no.
    + rewrite IH by done. by destruct (find (c :: p) s).
    + simpl. by rewrite bool_decide_false.
Qed.

Lemma app_char_inj c (a b s t : bytes) :
  no_char c a → no_char c b → a ++ c :: s = b ++ c :: t → a = b ∧ s = t.
Proof.
  intros Ha Hb H. assert (length a = length b) as Hl.
  { assert (Some (length a) = Some (length b)) as E; [|by injection E].
    by rewrite <- (find_char_app c a s), <- (find_char_app c b t), H. }
  apply app_inj_1 in H as [-> [= ->]]; done.
Qed.

Lemma find_char_from_app c (a b d : bytes) n :
  n = length a → c ∉ b → find_char_from c (a ++ b ++ c :: d) n = Some (length a + length b).
Proof.
  intros -> Hb. unfold find_char_from. rewrite !length_app.
  destruct (Nat.ltb_spec (length a + (length b + length (c :: d))) (length a)); [lia|].
  by rewrite drop_app_length, find_char_app.
Qed.

Lemma getlines_cons d l rest :
  d ∉ l → getlines d (l ++ d :: rest) = l :: getlines d rest.
Proof.
  induction l as [|c l IH]; simpl; intros H; [by rewrite decide_True|].
  apply not_elem_of_cons in H as [Hc H].
  by rewrite decide_False, IH by done.
Qed.

(** [drop]/[take] at an append boundary *)
Lemma skip_space_word w s : word w → skip_space (w ++ s) = w ++ s.
Proof.
  intros [Hne Hw]. destruct w as [|c w]; [done|]. inversion_clear Hw as [|? ? Hc].
  unfold skip_space. simpl. by rewrite Hc.
Qed.

Lemma word_not_space w : word w → Forall (λ c, not_space c = true) w.
Proof. intros [_ Hw]. eapply Forall_impl; [exact Hw|]. unfold not_space. by intros x ->. Qed.

Lemma read_word_sep w c s :
  word w → is_space c = true → read_word (w ++ c :: s) = Some (w, c :: s).
Proof.
  intros Hw Hc. unfold read_word. rewrite skip_space_word by done.
  rewrite take_while_app, drop_while_app by by apply word_not_space.
  simpl. unfold not_space. rewrite Hc. simpl. rewrite app_nil_r.
  destruct Hw. by destruct w.
Qed.

Lemma read_word_end w : word w → read_word w = Some (w, []).
Proof.
  intros Hw. unfold read_word. rewrite <- (app_nil_r w).
  rewrite skip_space_word by done.
  rewrite take_while_app, drop_while_app by by apply word_not_space.
  simpl. rewrite app_nil_r. destruct Hw. by destruct w.
Qed.

Lemma read_word_skip c s : is_space c = true → read_word (c :: s) = read_word s.
Proof. intros H. unfold read_word, skip_space. simpl. by rewrite H. Qed.

(** *** Decimal printing and reading are inverse *)
Lemma is_digit_char d : (d < 10)%N → is_digit (digit_char d) = true.
Proof.
  intros H. unfold is_digit, digit_char. rewrite N_ascii_embedding by lia.
  apply andb_true_intro; split; apply N.leb_le; lia.
Qed.

Lemma digit_val_char d : (d < 10)%N → digit_val (digit_char d) = d.
Proof. intros H. unfold digit_val, digit_char. rewrite N_ascii_embedding; lia. Qed.

Lemma is_digit_not_space c : is_digit c = true → is_space c = false.
Proof. destruct c as [[] [] [] [] [] [] [] []]; vm_compute; congruence. Qed.

Lemma show_N_fuel_digits fuel n :
  (n < 10 ^ N.of_nat (S fuel))%N →
  Forall (λ c, is_digit c = true) (show_N_fuel fuel n).
Proof.
  revert n. induction fuel as [|k IH]; intros n Hn; simpl.
  - constructor; [|done]. apply is_digit_char. by rewrite N.pow_1_r in Hn.
  - destruct (N.ltb_spec n 10).
    + constructor; [|done]. by apply is_digit_char.
    + apply Forall_app; split.
      * apply IH. apply N.Div0.div_lt_upper_bound.
        rewrite <- N.pow_succ_r'. by rewrite <- Nat2N.inj_succ.
      * constructor; [|done]. apply is_digit_char. apply N.mod_lt; lia.
Qed.

Lemma dec_value_snoc ds c : dec_value (ds ++ [c]) = (10 * dec_value ds + digit_val c)%N.
Proof. unfold dec_value. by rewrite fold_left_app. Qed.

Lemma dec_value_show_fuel fuel n :
  (n < 10 ^ N.of_nat (S fuel))%N → dec_value (show_N_fuel fuel n) = n.
Proof.
  revert n. induction fuel as [|k IH]; intros n Hn; simpl.
  - rewrite N.pow_1_r in Hn. unfold dec_value; simpl. by rewrite digit_val_char.
  - destruct (N.ltb_spec n 10).
    + unfold dec_value; simpl. by rewrite digit_val_char.
    + rewrite dec_value_snoc, IH, digit_val_char.
      * symmetry. apply N.div_mod'.
      * apply N.mod_lt; lia.
      * apply N.Div0.div_lt_upper_bound. rewrite <- N.pow_succ_r'.
        by rewrite <- Nat2N.inj_succ.
Qed.

Lemma show_N_bound n : (n < 10 ^ N.of_nat (S (N.to_nat (N.log2 n))))%N.
Proof.
  rewrite Nat2N.inj_succ, N2Nat.id. destruct (N.eq_dec n 0%N) as [->|Hn]; [done|].
  eapply N.lt_le_trans; [apply N.log2_spec; lia|]. apply N.pow_le_mono_l. lia.
Qed.

Lemma show_N_digits n : Forall (λ c, is_digit c = true) (show_N n).
Proof. apply show_N_fuel_digits, show_N_bound. Qed.
Lemma dec_value_show n : dec_value (show_N n) = n.
Proof. apply dec_value_show_fuel, show_N_bound. Qed.

Lemma show_N_ne n : show_N n ≠ [].
Proof.
  unfold show_N. destruct (N.to_nat (N.log2 n)); simpl; [done|].
  case_match; [done|]. intros [_ Hn]%app_eq_nil. done.
Qed.

Lemma show_Z_chars z c : c ∈ show_Z z → is_digit c = true ∨ c = "-"%char.
Proof.
  unfold show_Z.
  pose proof (show_N_digits (Z.to_N (- z))) as H1. pose proof (show_N_digits (Z.to_N z)) as H2.
  rewrite Forall_forall in H1. rewrite Forall_forall in H2.
  destruct (z <? 0)%Z; [intros [?|Hin]%elem_of_cons; [by right|left; by apply H1]|].
  intros Hin. left. by apply H2.
Qed.

Lemma digit_run_no c n : is_digit c = false → c ≠ "-"%char → c ∉ show_Z n.
Proof. intros Hd Hm [Hin|Hin]%show_Z_chars; congruence. Qed.

Lemma word_digits ds : ds ≠ [] → Forall (λ c, is_digit c = true) ds → word ds.
Proof.
  intros Hne H. split; [done|]. eapply Forall_impl; [exact H|].
  intros c. apply is_digit_not_space.
Qed.

Lemma word_cons c s : is_space c = false → word s → word (c :: s).
Proof. intros Hc [_ Hs]. split; [done|]. by constructor. Qed.

Lemma word_show_N n : word (show_N n).
Proof. apply word_digits; [apply show_N_ne | apply show_N_digits]. Qed.
Lemma word_show_Z z : word (show_Z z).
Proof.
  unfold show_Z. destruct (z <? 0)%Z; [apply word_cons; [done|]|]; apply word_show_N.
Qed.

Lemma word_app a b : word a → Forall (λ c, is_space c = false) b → word (a ++ b).
Proof. intros [Hne Ha] Hb. split; [by destruct a|]. by apply Forall_app. Qed.

Lemma scan_int_show z rest :
  match rest with c :: _ => is_digit c = false | [] => True end →
  scan_int (show_Z z ++ rest) =
    Some ((z <? 0)%Z, Z.to_N (Z.abs z), rest).
Proof.
  intros Hrest. unfold scan_int. rewrite skip_space_word by apply word_show_Z.
  assert (∀ n, take_while is_digit (show_N n ++ rest) = show_N n ∧
               drop_while is_digit (show_N n ++ rest) = rest) as Htd.
  { intros n. rewrite take_while_app, drop_while_app by apply show_N_digits.
    destruct rest as [|c r]; simpl; [by rewrite app_nil_r|].
    rewrite Hrest. by rewrite app_nil_r. }
  assert (∀ n (b : bool), match take_while is_digit (show_N n ++ rest) with
     | [] => None
     | ds => Some (b, dec_value ds, drop_while is_digit (show_N n ++ rest))
     end = Some (b, n, rest)) as Hscan.
  { intros n b. destruct (Htd n) as [-> ->].
    rewrite <- (dec_value_show n) at 2. pose proof (show_N_ne n).
    by destruct (show_N n). }
  unfold show_Z. destruct (Z.ltb_spec z 0).
  - simpl. rewrite Hscan. do 3 f_equal. lia.
  - assert (∃ d t, show_N (Z.to_N z) = d :: t ∧ is_digit d = true) as (d & t & Hd & Hdd).
    { pose proof (show_N_ne (Z.to_N z)). pose proof (show_N_digits (Z.to_N z)) as HF.
      destruct (show_N (Z.to_N z)) as [|d t]; [done|].
      inversion HF; subst. by exists d, t. }
    rewrite Z.abs_eq by lia.
    specialize (Hscan (Z.to_N z) false). rewrite Hd in Hscan |- *.
    rewrite <- Hscan. simpl.
    destruct d as [[] [] [] [] [] [] [] []]; vm_compute in Hdd; congruence || done.
Qed.

Lemma signed_of_show z : signed_of (z <? 0)%Z (Z.to_N (Z.abs z)) = z.
Proof. unfold signed_of. destruct (Z.ltb_spec z 0); lia. Qed.

Lemma sto_range_show lo hi z rest :
  (lo ≤ z ≤ hi)%Z →
  match rest with c :: _ => is_digit c = false | [] => True end →
  sto_range lo hi (show_Z z ++ rest) = Val z.
Proof.
  intros Hz Hr. unfold sto_range. rewrite scan_int_show by done.
  rewrite signed_of_show. by rewrite decide_True.
Qed.

Lemma read_range_show lo hi z rest :
  (lo ≤ z ≤ hi)%Z →
  match rest with c :: _ => is_digit c = false | [] => True end →
  read_range lo hi (show_Z z ++ rest) = Some (z, rest).
Proof.
  intros Hz Hr. unfold read_range. rewrite scan_int_show by done. simpl.
  rewrite signed_of_show. by rewrite decide_True.
Qed.

Lemma scan_int_skip c s : is_space c = true → scan_int (c :: s) = scan_int s.
Proof. intros H. unfold scan_int, skip_space. simpl. by rewrite H. Qed.
Lemma read_range_skip lo hi c s :
  is_space c = true → read_range lo hi (c :: s) = read_range lo hi s.
Proof. intros H. unfold read_range. by rewrite scan_int_skip. Qed.

(** A printed integer has digits and a sign only. *)
Lemma show_Z_avoids c z : is_digit c = false → c ≠ "-"%char → no_char c (show_Z z).
Proof.
  intros Hd Hm Hin. pose proof (show_N_digits (Z.to_N z)) as H1.
  pose proof (show_N_digits (Z.to_N (- z))) as H2. rewrite Forall_forall in H1, H2.
  unfold show_Z in Hin. destruct (z <? 0)%Z; [apply elem_of_cons in Hin as [?|Hin]; [done|]|].
  - specialize (H2 _ Hin). congruence.
  - specialize (H1 _ Hin). congruence.
Qed.

Lemma stoi_show z : (INT_MIN ≤ z ≤ INT_MAX)%Z → stoi (show_Z z) = Val z.
Proof. intros H. rewrite <- (app_nil_r (show_Z z)). by apply sto_range_show. Qed.
Lemma stoll_show z : (LLONG_MIN ≤ z ≤ LLONG_MAX)%Z → stoll (show_Z z) = Val z.
Proof. intros H. rewrite <- (app_nil_r (show_Z z)). by apply sto_range_show. Qed.

Lemma stoull_show z :
  (0 ≤ z ≤ ULLONG_MAX)%Z → stoull (show_Z z) = Val z.
Proof.
  intros Hz. unfold stoull. rewrite <- (app_nil_r (show_Z z)), scan_int_show by done.
  rewrite signed_of_show. rewrite decide_True by lia. f_equal.
  unfold wrap. apply Z.mod_small. unfold ULLONG_MAX in Hz. lia.
Qed.

Lemma read_u64_show z c s :
  (0 ≤ z ≤ ULLONG_MAX)%Z → is_digit c = false →
  read_u64 (show_Z z ++ c :: s) = Some (z, c :: s).
Proof.
  intros Hz Hc. unfold read_u64. rewrite scan_int_show by done. simpl.
  rewrite signed_of_show. rewrite decide_True by lia. do 2 f_equal.
  unfold wrap. apply Z.mod_small. unfold ULLONG_MAX in Hz. lia.
Qed.
Lemma read_u64_skip c s : is_space c = true → read_u64 (c :: s) = read_u64 s.
Proof. intros H. unfold read_u64. by rewrite scan_int_skip. Qed.

Lemma show_Z_inj z z' : show_Z z = show_Z z' → z = z'.
Proof.
  intros H. pose proof (scan_int_show z [] I) as H1.
  pose proof (scan_int_show z' [] I) as H2. rewrite H, H2 in H1.
  injection H1 as Hb Hm. rewrite <- (signed_of_show z), <- (signed_of_show z').
  congruence.
Qed.

Lemma show_nat_inj n n' : show_nat n = show_nat n' → n = n'.
Proof. intros H%show_Z_inj. lia. Qed.

(** Words separated by single spaces are read back. *)
Fixpoint join_words (ws : list bytes) : bytes :=
  match ws with
  | [] => []
  | [w] => w
  | w :: ws' => w ++ sp :: join_words ws'
  end.

Lemma words_fuel_skip fuel c s : is_space c = true → words_fuel fuel (c :: s) = words_fuel fuel s.
Proof. intros Hc. destruct fuel; [done|]. cbn [words_fuel]. by rewrite read_word_skip. Qed.

Lemma words_fuel_join fuel ws :
  Forall word ws → length ws < fuel → words_fuel fuel (join_words ws) = ws.
Proof.
  revert fuel. induction ws as [|w ws IH]; intros [|fuel] HF Hl; simpl in Hl; try lia; [done|].
  inversion_clear HF as [|? ? Hw HF']. destruct ws as [|w' ws].
  - cbn [join_words words_fuel]. rewrite read_word_end by done. destruct fuel; [simpl in Hl; lia|done].
  - change (join_words (w :: w' :: ws)) with (w ++ sp :: join_words (w' :: ws)).
    cbn [words_fuel]. rewrite read_word_sep, words_fuel_skip by done. f_equal.
    apply IH; [done|simpl in *; lia].
Qed.

Lemma length_join_words ws : Forall word ws → length ws <= length (join_words ws).
Proof.
  induction 1 as [|w ws Hw HF IH]; [done|].
  assert (1 <= length w) by (destruct Hw as [Hne _]; destruct w; [done|simpl; lia]).
  destruct ws as [|w' ws]; [simpl; lia|].
  change (join_words (w :: w' :: ws)) with (w ++ sp :: join_words (w' :: ws)).
  rewrite length_app. simpl in *. lia.
Qed.

Lemma read_word_word s w rest : read_word s = Some (w, rest) → word w.
Proof.
  unfold read_word. destruct (skip_space s) as [|c s'] eqn:E; [done|]. intros [= <- <-].
  assert (is_space c = false) as Hc.
  { clear -E. unfold skip_space in E. induction s as [|x s IH]; [done|]. simpl in E.
    destruct (is_space x) eqn:Ex; [by apply IH|]. by injection E as -> ->. }
  split.
  - unfold not_space. by rewrite Hc.
  - clear. induction s' as [|x s' IH] in c |- *; simpl; unfold not_space in *;
      (destruct (is_space c) eqn:Ec; simpl; [constructor|]); constructor; auto.
Qed.

Lemma words_words s : Forall word (words s).
Proof.
  unfold words. generalize (S (length s)) as fuel. intros fuel. revert s.
  induction fuel as [|fuel IH]; intros s; cbn [words_fuel]; [constructor|].
  destruct (read_word s) as [[w rest]|] eqn:E; constructor; [by eapply read_word_word|done].
Qed.

Lemma stoull_range s z : stoull s = Val z → (0 ≤ z ≤ ULLONG_MAX)%Z.
Proof.
  unfold stoull. destruct (scan_int s) as [[[neg m] r]|]; [|done]. case_decide; [|done].
  intros [= <-]. unfold wrap, ULLONG_MAX. pose proof (Z.mod_pos_bound (signed_of neg m) (2 ^ 64)). lia.
Qed.

Lemma words_join ws : Forall word ws → words (join_words ws) = ws.
Proof.
  intros HF. apply words_fuel_join; [done|]. pose proof (length_join_words ws HF). lia.
Qed.

#[export] Hint Resolve word_show_Z word_show_N : text.

(** Facts about literals, by evaluation. *)
Ltac lit_word :=
  match goal with |- word ?w => apply (bool_decide_unpack (word w)); vm_compute; exact I end.
Ltac lit_no_char :=
  match goal with |- no_char ?c ?w =>
    apply (bool_decide_unpack (no_char c w)); vm_compute; exact I end.
