(* ===== verification/Ordered.v ===== *)
(** * Ordered: iteration orders of the C++ containers

    [std::map] and [std::set] iterate in key order: [ordered R m] lists a
    [gmap] that way.  [std::unordered_map] iterates in an unspecified order:
    the class [HashOrder] is what a caller may rely on.  [std::sort] leaves
    equivalent elements in an unspecified order: the class [StdSort]. *)
From Stdlib Require Import Lia.
From S2P Require Import Prelude.

(** ** [std::string::operator<]: lexicographic on unsigned characters *)
Fixpoint str_leb (a b : bytes) : bool :=
  match a, b with
  | [], _ => true
  | _ :: _, [] => false
  | x :: a', y :: b' =>
      if decide (x = y) then str_leb a' b' else (N_of_ascii x <? N_of_ascii y)%N
  end.
Definition str_le (a b : bytes) : Prop := str_leb a b = true.
Definition str_ltb (a b : bytes) : bool := negb (str_leb b a).

#[export] Instance str_le_dec : RelDecision str_le.
Proof. intros a b. unfold str_le. apply _. Defined.

Lemma N_of_ascii_inj x y : N_of_ascii x = N_of_ascii y → x = y.
Proof. intros H. by rewrite <- (ascii_N_embedding x), H, ascii_N_embedding. Qed.

#[export] Instance str_le_trans : Transitive str_le.
Proof.
  intros a. unfold str_le. induction a as [|x a IH]; intros [|y b] [|z c]; simpl; try done.
  repeat case_decide; subst; try congruence; try done; [apply IH|..].
  - intros Ha Hb. apply N.ltb_lt in Ha, Hb. lia.
  - intros Ha%N.ltb_lt Hb%N.ltb_lt. apply N.ltb_lt. lia.
Qed.

#[export] Instance str_le_antisymm : AntiSymm (=) str_le.
Proof.
  intros a. unfold str_le. induction a as [|x a IH]; intros [|y b]; simpl; try done.
  repeat case_decide; subst; try congruence.
  - intros. f_equal. by apply IH.
  - intros Ha%N.ltb_lt Hb%N.ltb_lt. lia.
Qed.

#[export] Instance str_le_total : Total str_le.
Proof.
  intros a. unfold str_le. induction a as [|x a IH]; intros [|y b]; simpl; auto.
  repeat case_decide; subst; try congruence; auto.
  destruct (N.lt_trichotomy (N_of_ascii x) (N_of_ascii y)) as [|[E|]].
  - left. by apply N.ltb_lt.
  - by apply N_of_ascii_inj in E.
  - right. by apply N.ltb_lt.
Qed.

Lemma str_le_refl a : str_le a a.
Proof. by destruct (total str_le a a). Qed.

Lemma str_ltb_lt a b : str_ltb a b = true ↔ str_le a b ∧ a ≠ b.
Proof.
  unfold str_ltb. rewrite negb_true_iff. split.
  - intros H. destruct (total str_le a b) as [Hab|Hba]; unfold str_le in *; [|congruence].
    split; [done|]. intros ->. rewrite (str_le_refl b) in H. done.
  - intros [Hle Hne]. apply not_true_iff_false. intros Hba.
    by apply Hne, (anti_symm str_le).
Qed.

(** ** [std::map<K, A>] as the list of its entries in key order *)
Section ordered.
Context {K A : Type} `{Countable K} (R : relation K) `{!RelDecision R}.

Definition key_le (p q : K * A) : Prop := R p.1 q.1.
#[export] Instance key_le_dec : RelDecision key_le.
Proof. intros p q. unfold key_le. apply _. Defined.

Definition ordered (m : gmap K A) : list (K * A) := merge_sort key_le (map_to_list m).

Lemma ordered_perm m : ordered m ≡ₚ map_to_list m.
Proof. apply merge_sort_Permutation. Qed.

Lemma elem_of_ordered m i x : (i, x) ∈ ordered m ↔ m !! i = Some x.
Proof. rewrite ordered_perm. apply elem_of_map_to_list. Qed.

Lemma ordered_empty : ordered ∅ = [].
Proof. apply Permutation_nil_r. by rewrite ordered_perm, map_to_list_empty. Qed.

Lemma ordered_NoDup m : NoDup (ordered m).*1.
Proof. rewrite ordered_perm. apply NoDup_fst_map_to_list. Qed.

Lemma length_ordered m : length (ordered m) = size m.
Proof. by rewrite ordered_perm, length_map_to_list. Qed.

Lemma ordered_sorted m `{!Total R} : Sorted key_le (ordered m).
Proof. apply Sorted_merge_sort. intros p q. apply (total R). Qed.

Definition key_lt (p q : K * A) : Prop := R p.1 q.1 ∧ p.1 ≠ q.1.

Lemma ordered_strict m `{!Total R, !Transitive R} : StronglySorted key_lt (ordered m).
Proof.
  pose proof (ordered_NoDup m) as Hnd.
  assert (StronglySorted key_le (ordered m)) as Hs.
  { apply Sorted_StronglySorted; [|by apply ordered_sorted].
    intros x y z Hxy Hyz. unfold key_le in *. by etrans. }
  induction Hs as [|x l Hs IH Hx]; cbn in *; [constructor|].
  apply NoDup_cons in Hnd as [Hnin Hnd]. constructor; [by apply IH|].
  apply Forall_forall. intros y Hy. split; [by apply (proj1 (Forall_forall _ _) Hx)|].
  intros E. apply Hnin. rewrite E. by apply list_elem_of_fmap_2.
Qed.
End ordered.

Abbreviation zmap_list := (ordered Z.le).
Abbreviation smap_list := (ordered str_le).

Lemma zmap_keys_sorted {A} (m : gmap Z A) : StronglySorted Z.lt (zmap_list m).*1.
Proof.
  assert (Transitive Z.le) as Ht by (intros ???; lia).
  induction (ordered_strict Z.le m) as [|x l _ IH Hx]; cbn; constructor; [done|].
  apply Forall_fmap. eapply Forall_impl; [exact Hx|]. intros y [Hle Hne]. simpl in *. lia.
Qed.

(** *** Selecting from an association list *)
Lemma omap_cons_eq {A B} (f : A → option B) x l :
  omap f (x :: l) = match f x with Some y => y :: omap f l | None => omap f l end.
Proof. done. Qed.

Section omap_key.
Context {K A B : Type} `{EqDecision K} (f : K → A → option B).

Definition at_key (k : K) (kv : K * A) : option B :=
  if decide (kv.1 = k) then f kv.1 kv.2 else None.

Lemma omap_absent (l : list (K * A)) k : k ∉ l.*1 → omap (at_key k) l = [].
Proof.
  induction l as [|[i x] l IH]; [done|].
  rewrite fmap_cons, not_elem_of_cons. intros [Hne Hni].
  rewrite omap_cons_eq. unfold at_key at 1. rewrite decide_False by (simpl in *; congruence).
  auto.
Qed.

(** An association list with distinct keys holds one entry per key. *)
Lemma omap_at (l : list (K * A)) k a :
  NoDup l.*1 → (k, a) ∈ l →
  omap (at_key k) l = match f k a with Some b => [b] | None => [] end.
Proof.
  induction l as [|[i x] l IH]; intros Hnd Hin; [by apply elem_of_nil in Hin|].
  rewrite fmap_cons in Hnd. inversion_clear Hnd as [|? ? Hni Hnd'].
  rewrite omap_cons_eq. unfold at_key at 1. apply elem_of_cons in Hin as [[= <- <-]|Hin].
  - rewrite decide_True by done. simpl. rewrite omap_absent by done. done.
  - rewrite decide_False; [auto|]. simpl. intros ->. apply Hni.
    by apply (list_elem_of_fmap_2 fst) in Hin.
Qed.
End omap_key.

(** ** [std::unordered_map]: any permutation of the entries *)
Class HashOrder (K A : Type) `{Countable K} := {
  hash_order : gmap K A → list (K * A);
  hash_order_perm m : hash_order m ≡ₚ map_to_list m
}.

#[export] Instance canonical_order K A `{Countable K} : HashOrder K A | 100 :=
  {| hash_order := map_to_list; hash_order_perm m := Permutation_refl _ |}.

Lemma elem_of_hash_order {K A} `{HashOrder K A} m i x :
  (i, x) ∈ hash_order m ↔ m !! i = Some x.
Proof. rewrite hash_order_perm. apply elem_of_map_to_list. Qed.

Lemma hash_order_NoDup {K A} `{HashOrder K A} m : NoDup (hash_order m).*1.
Proof. rewrite hash_order_perm. apply NoDup_fst_map_to_list. Qed.

(** ** [std::sort] with a boolean [comp(a, b)] ("a goes before b")

    [comp] must be a strict weak ordering of the elements; otherwise the
    result is undefined. *)
Definition strict_weak {A} (lt : A → A → bool) (l : list A) : Prop :=
  (∀ x, x ∈ l → lt x x = false) ∧
  (∀ x y z, x ∈ l → y ∈ l → z ∈ l → lt x y = true → lt y z = true → lt x z = true) ∧
  (∀ x y z, x ∈ l → y ∈ l → z ∈ l → lt x y = false → lt y z = false → lt x z = false).

Class StdSort := {
  std_sort : ∀ {A}, (A → A → bool) → list A → list A;
  std_sort_perm : ∀ {A} (lt : A → A → bool) l, strict_weak lt l → std_sort lt l ≡ₚ l;
  std_sort_sorted : ∀ {A} (lt : A → A → bool) l,
    strict_weak lt l → StronglySorted (λ x y, lt y x = false) (std_sort lt l)
}.

(** One implementation, for the witnesses: insertion sort. *)
Fixpoint insert_by {A} (lt : A → A → bool) (x : A) (l : list A) : list A :=
  match l with
  | [] => [x]
  | y :: l' => if lt y x then y :: insert_by lt x l' else x :: l
  end.
Definition insertion_sort {A} (lt : A → A → bool) (l : list A) : list A :=
  foldr (insert_by lt) [] l.

Lemma insert_by_perm {A} lt (x : A) l : insert_by lt x l ≡ₚ x :: l.
Proof.
  induction l as [|y l IH]; simpl; [done|]. destruct (lt y x); [|done].
  rewrite IH. apply perm_swap.
Qed.

Lemma strict_weak_sub {A} (lt : A → A → bool) l l' :
  l' ⊆ l → strict_weak lt l → strict_weak lt l'.
Proof. intros Hs (H1 & H2 & H3). split_and!; eauto. Qed.

Lemma insertion_sort_perm {A} (lt : A → A → bool) l : insertion_sort lt l ≡ₚ l.
Proof.
  induction l as [|x l IH]; simpl; [done|]. rewrite insert_by_perm. by constructor.
Qed.

Lemma insert_by_sorted {A} (lt : A → A → bool) x l :
  strict_weak lt (x :: l) → StronglySorted (λ x y, lt y x = false) l →
  StronglySorted (λ x y, lt y x = false) (insert_by lt x l).
Proof.
  intros Hw Hl. induction Hl as [|y l Hl IH Hy]; simpl; [by repeat constructor|].
  assert (x ∈ x :: y :: l) as Hx by (by left).
  assert (y ∈ x :: y :: l) as Hyl by (by right; left).
  destruct (lt y x) eqn:E.
  - constructor.
    { apply IH. eapply strict_weak_sub; [|exact Hw].
      intros z [->|Hz]%elem_of_cons; [done|by do 2 right]. }
    rewrite insert_by_perm. constructor; [|done].
    destruct Hw as (Hirr & Htr & _). destruct (lt x y) eqn:E2; [|done].
    pose proof (Htr x y x Hx Hyl Hx E2 E) as Ht. by rewrite Hirr in Ht.
  - constructor; [by constructor|]. constructor; [done|].
    rewrite Forall_forall in Hy |- *. intros z Hz. destruct Hw as (_ & _ & Hng).
    apply (Hng z y x); [by do 2 right|done|done|by apply Hy|done].
Qed.

#[export] Program Instance insertion_std_sort : StdSort | 100 :=
  {| std_sort := @insertion_sort |}.
Next Obligation. intros A lt l _. apply insertion_sort_perm. Qed.
Next Obligation.
  intros A lt l Hw. induction l as [|x l IH]; simpl; [constructor|].
  apply insert_by_sorted; [|apply IH]; (eapply strict_weak_sub; [|exact Hw]);
    [|by intros y Hy; right].
  intros y [->|Hy]%elem_of_cons; [by left|]. rewrite insertion_sort_perm in Hy. by right.
Qed.

(** The first element of a sorted list is minimal. *)
Lemma std_sort_head {S : StdSort} {A} (lt : A → A → bool) l x l' :
  strict_weak lt l → std_sort lt l = x :: l' →
  x ∈ l ∧ ∀ y, y ∈ l → lt y x = false.
Proof.
  intros Hw Hs. pose proof (std_sort_sorted lt l Hw) as Hst.
  pose proof (std_sort_perm lt l Hw) as Hp. rewrite Hs in Hst, Hp.
  assert (x ∈ l) as Hx by (rewrite <- Hp; by left).
  split; [done|]. intros y Hy. rewrite <- Hp in Hy.
  apply elem_of_cons in Hy as [->|Hy]; [by apply Hw|].
  inversion_clear Hst as [|? ? _ HF]. rewrite Forall_forall in HF. by apply HF.
Qed.

(** Iterating an ordered map keyed by strings: sorted keys. *)
Definition sorted_strings (l : list bytes) : list bytes := merge_sort str_le l.
Lemma sorted_strings_perm l : sorted_strings l ≡ₚ l.
Proof. apply merge_sort_Permutation. Qed.

(** ** Grouping: [m[key(x)].push_back(x)] over a list *)
Section grouping.
Context {K A : Type} `{Countable K} (key : A → K).

Definition push_to (m : gmap K (list A)) (x : A) : gmap K (list A) :=
  <[key x := default [] (m !! key x) ++ [x]]> m.

Lemma group_lookup (l : list A) (k : K) :
  fold_left push_to l ∅ !! k =
    match filter (λ x, key x = k) l with [] => None | xs => Some xs end.
Proof.
  assert (∀ m : gmap K (list A), fold_left push_to l m !! k =
    match filter (λ x, key x = k) l with
    | [] => m !! k
    | xs => Some (default [] (m !! k) ++ xs) end) as Hm.
  { induction l as [|x l IH]; intros m; [done|]. cbn [fold_left].
    rewrite IH. unfold push_to. rewrite filter_cons, lookup_insert.
    repeat case_decide; subst; try done; cbn [default from_option id];
      destruct (filter _ l); rewrite <- ?app_assoc; try done. }
  rewrite Hm, lookup_empty. done.
Qed.

(** Grouping neither loses nor repeats an element. *)
Lemma push_to_perm (m : gmap K (list A)) (x : A) :
  concat (map_to_list (push_to m x)).*2 ≡ₚ concat (map_to_list m).*2 ++ [x].
Proof.
  unfold push_to. destruct (m !! key x) as [l|] eqn:E; cbn [default from_option id].
  - rewrite <- insert_delete_eq, map_to_list_insert by apply lookup_delete_eq.
    rewrite <- (map_to_list_delete m (key x) l E). cbn [fmap list_fmap concat snd].
    rewrite <- !app_assoc. apply Permutation_app_head, Permutation_app_comm.
  - rewrite map_to_list_insert by done. cbn [fmap list_fmap concat snd app].
    apply Permutation_cons_append.
Qed.

Lemma group_perm (l : list A) : concat (map_to_list (fold_left push_to l ∅)).*2 ≡ₚ l.
Proof.
  assert (∀ m : gmap K (list A),
    concat (map_to_list (fold_left push_to l m)).*2 ≡ₚ concat (map_to_list m).*2 ++ l) as Hm.
  { induction l as [|x l IH]; intros m; cbn [fold_left]; [by rewrite app_nil_r|].
    by rewrite IH, push_to_perm, <- app_assoc. }
  by rewrite Hm, map_to_list_empty.
Qed.

Lemma group_elem (l : list A) (k : K) (xs : list A) x :
  fold_left push_to l ∅ !! k = Some xs → x ∈ xs ↔ x ∈ l ∧ key x = k.
Proof.
  rewrite group_lookup. destruct (filter _ l) eqn:E; [done|]. intros [= <-].
  rewrite <- E, list_elem_of_filter. tauto.
Qed.
End grouping.
