(* ===== verification/Float.v ===== *)
(** * Float: the C++ standard library's conversions between text and
    [float]/[double], on the [spec_float]s of the Standard Library.

    [stod] follows [strtod] (decimal and hexadecimal numbers, infinities and
    NaN, correct rounding, range errors); [show_g] is what [<<] prints by
    default (six significant digits), [show_f1] is
    [std::fixed << std::setprecision(1)] and [show_f6] [std::to_string]. *)
From Stdlib Require Import Lia SpecFloat.
From S2P Require Import Prelude.
From S2P Require Import Text.
Local Open Scope Z_scope.

Definition f64_prec : Z := 53.
Definition f64_emax : Z := 1024.
Definition f32_prec : Z := 24.
Definition f32_emax : Z := 128.

(** ** Rounding an exact value [m * 10^e] or [m * 2^e] *)
Definition pos_float (m : Z) : spec_float :=
  match m with Zpos p => S754_finite false p 0 | _ => S754_zero false end.

Definition round_ratio (prec emax n d : Z) : spec_float :=
  match n with
  | Zpos _ => if decide (d = 1) then binary_normalize prec emax n 0 false
              else SFdiv prec emax (pos_float n) (pos_float d)
  | _ => S754_zero false
  end.

Definition ratio_of (base m e : Z) : Z * Z :=
  if decide (0 ≤ e) then (m * base ^ e, 1) else (m, base ^ (- e)).

Definition signed_float (neg : bool) (f : spec_float) : spec_float :=
  if neg then SFopp f else f.

(** The value of a finite float as a ratio (of its absolute value). *)
Definition float_ratio (f : spec_float) : Z * Z :=
  match f with S754_finite _ m e => ratio_of 2 (Zpos m) e | _ => (0, 1) end.

(** [ERANGE]: overflow, or a tiny inexact result. *)
Definition range_error (prec emax n d : Z) (f : spec_float) : bool :=
  match f with
  | S754_infinity _ => true
  | S754_zero _ => negb (bool_decide (n = 0))
  | S754_finite _ m e =>
      let '(a, b) := float_ratio f in
      bool_decide (Zpos m < 2 ^ (prec - 1)) && bool_decide (e = 3 - emax - prec)
      && negb (bool_decide (a * d = n * b))
  | S754_nan => false
  end.

(** ** Scanning *)
Definition digit_in (base : Z) (c : ascii) : option Z :=
  let n := Z.of_N (N_of_ascii c) in
  let v := if decide (48 ≤ n ≤ 57) then n - 48
           else if decide (97 ≤ n ≤ 102) then n - 87
           else if decide (65 ≤ n ≤ 70) then n - 55 else 99 in
  if decide (v < base) then Some v else None.
Definition is_digit_in (base : Z) (c : ascii) : bool := bool_decide (is_Some (digit_in base c)).
Definition value_in (base : Z) (ds : bytes) : Z :=
  fold_left (λ acc c, base * acc + default 0 (digit_in base c)) ds 0.

Definition lower (c : ascii) : ascii :=
  let n := N_of_ascii c in
  if ((65 <=? n) && (n <=? 90))%N then ascii_of_N (n + 32) else c.
Definition starts_with_ci (p s : bytes) : bool := starts_with p (map lower s).

(** An exponent part after one of the letters of [marks]: its value, or 0 if
    there is none. *)
Definition scan_exponent (mark : ascii) (s : bytes) : Z :=
  match s with
  | c :: s' =>
      if decide (lower c = mark) then
        match s' with
        | d :: _ => if is_space d then 0 else
            match scan_int s' with Some (neg, m, _) => signed_of neg m | None => 0 end
        | [] => 0
        end
      else 0
  | [] => 0
  end.

(** Digits with an optional point: mantissa, digits after the point, rest. *)
Definition scan_mantissa (base : Z) (s : bytes) : option (Z * Z * bytes) :=
  let ip := take_while (is_digit_in base) s in
  let s1 := drop_while (is_digit_in base) s in
  let '(fp, s2) := match s1 with
                   | "."%char :: s' => (take_while (is_digit_in base) s',
                                        drop_while (is_digit_in base) s')
                   | _ => ([], s1)
                   end in
  match ip ++ fp with
  | [] => None
  | ds => Some (value_in base ds, Z.of_nat (length fp), s2)
  end.

Definition strtod (prec emax : Z) (s : bytes) : option (spec_float * bool) :=
  let s := skip_space s in
  let '(neg, s) := match s with
                   | "-"%char :: s' => (true, s')
                   | "+"%char :: s' => (false, s')
                   | _ => (false, s)
                   end in
  let finish base m e :=
    let '(n, d) := ratio_of base m e in
    let f := round_ratio prec emax n d in
    Some (signed_float neg f, range_error prec emax n d f) in
  if starts_with_ci (lit "inf") s then Some (S754_infinity neg, false)
  else if starts_with_ci (lit "nan") s then Some (S754_nan, false)
  else
    match (if starts_with_ci (lit "0x") s then scan_mantissa 16 (drop 2 s) else None) with
    | Some (m, k, rest) => finish 2 m (scan_exponent "p"%char rest - 4 * k)
    | None =>
        match scan_mantissa 10 s with
        | Some (m, k, rest) => finish 10 m (scan_exponent "e"%char rest - k)
        | None => None
        end
    end.

Definition sto_float (prec emax : Z) (s : bytes) : exc spec_float :=
  match strtod prec emax s with
  | None => Throw InvalidArgument
  | Some (_, true) => Throw OutOfRange
  | Some (f, false) => Val f
  end.
Definition stod : bytes → exc spec_float := sto_float f64_prec f64_emax.

(** ** Printing *)
Definition round_half_even (n d : Z) : Z :=
  let q := n / d in
  let r := n mod d in
  if decide (2 * r < d) then q else if decide (d < 2 * r) then q + 1 else q + q mod 2.

Definition scaled (n d k : Z) : Z :=
  if decide (0 ≤ k) then round_half_even (n * 10 ^ k) d else round_half_even n (d * 10 ^ (- k)).

(** The decimal exponent of [n / d]; every double is at least [10^-400]. *)
Definition dec_exponent (n d : Z) : Z :=
  Z.of_nat (length (show_Z (n * 10 ^ 400 / d))) - 401.

Definition with_fraction (ip fp : bytes) : bytes :=
  match rtrim (λ c, bool_decide (c = "0"%char)) fp with
  | [] => ip
  | fp' => ip ++ "."%char :: fp'
  end.

Definition show_exponent (x : Z) : bytes :=
  let ds := show_Z (Z.abs x) in
  (if decide (x < 0) then "-"%char else "+"%char) ::
  replicate (2 - length ds) "0"%char ++ ds.

(** Six significant digits of a positive ratio. *)
Definition show_g_pos (n d : Z) : bytes :=
  let x0 := dec_exponent n d in
  let r0 := scaled n d (5 - x0) in
  let '(x, r) := if decide (r0 = 10 ^ 6) then (x0 + 1, 10 ^ 5) else (x0, r0) in
  let ds := show_Z r in
  if decide (x < -4 ∨ 6 ≤ x) then
    with_fraction (take 1 ds) (drop 1 ds) ++ "e"%char :: show_exponent x
  else if decide (0 ≤ x) then
    with_fraction (take (Z.to_nat x + 1) ds) (drop (Z.to_nat x + 1) ds)
  else with_fraction (lit "0") (replicate (Z.to_nat (- x - 1)) "0"%char ++ ds).

Definition with_sign (neg : bool) (s : bytes) : bytes := if neg then "-"%char :: s else s.

Definition show_g (f : spec_float) : bytes :=
  match f with
  | S754_zero neg => with_sign neg (lit "0")
  | S754_infinity neg => with_sign neg (lit "inf")
  | S754_nan => lit "nan"
  | S754_finite neg _ _ => let '(n, d) := float_ratio f in with_sign neg (show_g_pos n d)
  end.

Definition show_f1 (f : spec_float) : bytes :=
  match f with
  | S754_zero neg => with_sign neg (lit "0.0")
  | S754_infinity neg => with_sign neg (lit "inf")
  | S754_nan => lit "nan"
  | S754_finite neg _ _ =>
      let '(n, d) := float_ratio f in
      let r := scaled n d 1 in
      with_sign neg (show_Z (r / 10) ++ "."%char :: show_Z (r mod 10))
  end.

(** [std::to_string]: six digits after the point. *)
Definition show_f6 (f : spec_float) : bytes :=
  match f with
  | S754_zero neg => with_sign neg (lit "0.000000")
  | S754_infinity neg => with_sign neg (lit "inf")
  | S754_nan => lit "nan"
  | S754_finite neg _ _ =>
      let '(n, d) := float_ratio f in
      let r := scaled n d 6 in
      let fp := show_Z (r mod 10 ^ 6) in
      with_sign neg (show_Z (r / 10 ^ 6) ++ "."%char :: replicate (6 - length fp) "0"%char ++ fp)
  end.

Example show_f6_values :
  map (λ s, try_catch (f ← stod (lit s); Val (show_f6 f)) (lit "?")) ["12.5"; "-0.1"; "1e-7"; "99.9999999"]
  = [lit "12.500000"; lit "-0.100000"; lit "0.000000"; lit "100.000000"].
Proof. vm_compute. reflexivity. Qed.

Example stod_show :
  map (λ s, try_catch (f ← stod (lit s); Val (show_g f)) (lit "?"))
    ["0.1"; "-12.5e1"; "1e400"; "abc"; "  0x1.8p1"; "1234567"; "0.00001234"; "99999.95"]%string =
  map lit ["0.1"; "-125"; "?"; "?"; "3"; "1.23457e+06"; "1.234e-05"; "99999.9"]%string.
Proof. by vm_compute. Qed.

(** ** Comparison: [a < b] *)

(** Every number has a place on the line: a class, then two coordinates. *)
Definition float_key (f : spec_float) : Z * Z * Z :=
  match f with
  | S754_nan => (5, 0, 0)
  | S754_infinity true => (0, 0, 0)
  | S754_finite true m e => (1, - e, - Zpos m)
  | S754_zero _ => (2, 0, 0)
  | S754_finite false m e => (3, e, Zpos m)
  | S754_infinity false => (4, 0, 0)
  end.

Definition key_ltb (p q : Z * Z * Z) : bool :=
  let '(a, b, c) := p in let '(a', b', c') := q in
  (a <? a') || ((a =? a') && ((b <? b') || ((b =? b') && (c <? c')))).

Lemma key_ltb_spec a b c a' b' c' :
  key_ltb (a, b, c) (a', b', c') = true ↔
  a < a' ∨ a = a' ∧ (b < b' ∨ b = b' ∧ c < c').
Proof.
  unfold key_ltb. rewrite !orb_true_iff, !andb_true_iff, !orb_true_iff, !andb_true_iff,
    !Z.ltb_lt, !Z.eqb_eq. done.
Qed.

Lemma key_ltb_false a b c a' b' c' :
  key_ltb (a, b, c) (a', b', c') = false ↔
  ¬ (a < a' ∨ a = a' ∧ (b < b' ∨ b = b' ∧ c < c')).
Proof. by rewrite <- key_ltb_spec, not_true_iff_false. Qed.

Definition is_number (f : spec_float) : Prop := f ≠ S754_nan.

Lemma SFltb_key f g : is_number f → is_number g → SFltb f g = key_ltb (float_key f) (float_key g).
Proof.
  unfold is_number, SFltb. intros Hf Hg.
  assert (∀ m m', (m ?= m')%positive = (Zpos m ?= Zpos m')) as Hpos by done.
  destruct f as [s|s| |s m e], g as [s'|s'| |s' m' e']; try done; try (by destruct s);
    try (by destruct s'); try (by destruct s, s').
  destruct s, s'; try done; cbn [SFcompare float_key].
  - change (Pos.compare_cont Eq m m') with (m ?= m')%positive. rewrite Hpos.
    apply eq_bool_prop_intro. rewrite !Is_true_true, key_ltb_spec.
    destruct (Z.compare_spec e e'); [|split; [done|lia]|split; [lia|done]].
    destruct (Z.compare_spec (Zpos m) (Zpos m')); simpl; split; try done; lia.
  - change (Pos.compare_cont Eq m m') with (m ?= m')%positive. rewrite Hpos.
    apply eq_bool_prop_intro. rewrite !Is_true_true, key_ltb_spec.
    destruct (Z.compare_spec e e'); [|split; [lia|done]|split; [done|lia]].
    destruct (Z.compare_spec (Zpos m) (Zpos m')); simpl; split; try done; lia.
Qed.

(** Numbers are compared by a strict weak ordering. *)
Lemma SFltb_irrefl f : SFltb f f = false.
Proof.
  unfold SFltb. destruct f as [[]|[]| |[] m e]; try done; cbn [SFcompare];
    rewrite Z.compare_refl; change (Pos.compare_cont Eq m m) with (m ?= m)%positive;
    by rewrite Pos.compare_refl.
Qed.

Lemma SFltb_trans f g h : is_number f → is_number g → is_number h →
  SFltb f g = true → SFltb g h = true → SFltb f h = true.
Proof.
  intros Hf Hg Hh. rewrite !SFltb_key by done.
  destruct (float_key f) as [[? ?] ?], (float_key g) as [[? ?] ?], (float_key h) as [[? ?] ?].
  rewrite !key_ltb_spec. lia.
Qed.

Lemma SFltb_cotrans f g h : is_number f → is_number g → is_number h →
  SFltb f g = false → SFltb g h = false → SFltb f h = false.
Proof.
  intros Hf Hg Hh. rewrite !SFltb_key by done.
  destruct (float_key f) as [[? ?] ?], (float_key g) as [[? ?] ?], (float_key h) as [[? ?] ?].
  rewrite !key_ltb_false. lia.
Qed.

(** [==]: equal numbers have the same place. *)
Lemma SFeqb_key f g : SFeqb f g = true → is_number f ∧ is_number g ∧ float_key f = float_key g.
Proof.
  unfold is_number, SFeqb. intros H. split_and!; [by intros ->|by intros ->; destruct f as [| | |[]]|].
  destruct f as [s|s| |s m e], g as [s'|s'| |s' m' e']; try done; try (by destruct s);
    try (by destruct s'); try (by destruct s, s').
  destruct s, s'; try done; cbn [SFcompare float_key] in *;
    change (Pos.compare_cont Eq m m') with (m ?= m')%positive in H;
    destruct (Z.compare_spec e e'); try done; subst;
    destruct (Pos.compare_spec m m'); try done; by subst.
Qed.

Lemma SFltb_numbers f g : SFltb f g = true → is_number f ∧ is_number g.
Proof. unfold is_number, SFltb. split; intros ->; [done|]. by destruct f as [| | |[]]. Qed.

Lemma SFeqb_ltb f g h : SFeqb f g = true → SFltb g h = true → SFltb f h = true.
Proof.
  intros (Hf & Hg & E)%SFeqb_key Hlt. destruct (SFltb_numbers _ _ Hlt) as [_ Hh].
  rewrite SFltb_key in * by done. by rewrite E.
Qed.
