(* ===== verification/Fips.v ===== *)
(** * Fips: SHA-256 as FIPS 180-4 describes it

    The reference the hasher of [Sha256] is proved against.  Nothing here is
    taken from the code: words are given bit by bit, the constants are computed
    from the prime numbers they come from, the schedule, the rounds, the padding
    and the printing are the recurrences of the standard over plain arithmetic. *)
From Stdlib Require Import Lia.
From S2P Require Import Prelude.
Local Open Scope Z_scope.

(** ** Words (2.2, 3.2) *)
(** The number whose bits are [f 0], ..., [f (n - 1)]. *)
Fixpoint number (n : nat) (f : nat → bool) : Z :=
  match n with
  | O => 0
  | S n => Z.b2z (f 0%nat) + 2 * number n (λ i, f (S i))
  end.
Definition word32 (f : nat → bool) : Z := number 32 f.
Definition bit (x : Z) (i : nat) : bool := Z.odd (x / 2 ^ Z.of_nat i).
Definition modulo (x : Z) : Z := x mod 2 ^ 32.

Definition ROTR (n : nat) (x : Z) : Z := word32 (λ i, bit x ((i + n) mod 32)).
Definition SHR (n : nat) (x : Z) : Z := x / 2 ^ Z.of_nat n.
Definition XOR (x y : Z) : Z := word32 (λ i, xorb (bit x i) (bit y i)).

(** ** Functions (4.1.2): a choice and a majority in each bit *)
Definition Ch (x y z : Z) : Z := word32 (λ i, if bit x i then bit y i else bit z i).
Definition Maj (x y z : Z) : Z :=
  word32 (λ i, (2 <=? Z.b2z (bit x i) + Z.b2z (bit y i) + Z.b2z (bit z i))).
Definition Sum0 (x : Z) : Z := XOR (XOR (ROTR 2 x) (ROTR 13 x)) (ROTR 22 x).
Definition Sum1 (x : Z) : Z := XOR (XOR (ROTR 6 x) (ROTR 11 x)) (ROTR 25 x).
Definition sig0 (x : Z) : Z := XOR (XOR (ROTR 7 x) (ROTR 18 x)) (SHR 3 x).
Definition sig1 (x : Z) : Z := XOR (XOR (ROTR 17 x) (ROTR 19 x)) (SHR 10 x).

(** ** Constants (4.2.2, 5.3.3): the first thirty-two bits of the fractional
    parts of the cube and square roots of the first prime numbers *)
Definition is_prime (p : nat) : bool :=
  forallb (λ d, negb (p mod d =? 0)%nat) (seq 2 (p - 2)).
Definition primes (count : nat) : list Z :=
  map Z.of_nat (take count (List.filter is_prime (seq 2 400))).

(** The integer [e]-th root, bit by bit from bit [n - 1] down. *)
Fixpoint root (e : Z) (n : nat) (r x : Z) : Z :=
  match n with
  | O => r
  | S n => let r' := r + 2 ^ Z.of_nat n in root e n (if r' ^ e <=? x then r' else r) x
  end.
(** [floor (x^(1/e) * 2^32)], without its integer part *)
Definition fraction (e x : Z) : Z := modulo (root e 40 0 (x * 2 ^ (32 * e))).
Definition K : list Z := map (fraction 3) (primes 64).
Definition H0 : list Z := map (fraction 2) (primes 8).

(** ** Padding and blocks (5.1.1, 5.2.1), for a message of whole bytes *)
(** The smallest number of zero bytes after the byte that carries the 1 bit. *)
Definition zeros (len : nat) : nat :=
  match List.filter (λ z, ((len + 1 + z) mod 64 =? 56)%nat) (seq 0 64) with
  | z :: _ => z
  | [] => 0
  end%nat.
Definition length_bytes (len : nat) : list Z :=
  map (λ i, 8 * Z.of_nat len / 256 ^ (7 - Z.of_nat i) mod 256) (seq 0 8).
Definition padded (m : list Z) : list Z :=
  m ++ [128] ++ replicate (zeros (length m)) 0 ++ length_bytes (length m).

(** Big-endian words, and blocks of sixteen of them. *)
Definition be_word (b0 b1 b2 b3 : Z) : Z := ((b0 * 256 + b1) * 256 + b2) * 256 + b3.
Fixpoint words (l : list Z) : list Z :=
  match l with
  | b0 :: b1 :: b2 :: b3 :: l => be_word b0 b1 b2 b3 :: words l
  | _ => []
  end.
Fixpoint sixteens (n : nat) (l : list Z) : list (list Z) :=
  match n with O => [] | S n => take 16 l :: sixteens n (drop 16 l) end.

(** ** Hash computation (6.2.2) *)
(** The schedule so far, latest word first. *)
Definition next_word (W : list Z) : Z :=
  modulo (sig1 (nth 1 W 0) + nth 6 W 0 + sig0 (nth 14 W 0) + nth 15 W 0).
Definition message_schedule (M : list Z) : list Z :=
  reverse (Nat.iter 48 (λ W, next_word W :: W) (reverse M)).

Definition hash : Type := Z * Z * Z * Z * Z * Z * Z * Z.
Definition round_t (v : hash) (KW : Z * Z) : hash :=
  let '(a, b, c, d, e, f, g, h) := v in
  let '(Kt, Wt) := KW in
  let T1 := modulo (h + Sum1 e + Ch e f g + Kt + Wt) in
  let T2 := modulo (Sum0 a + Maj a b c) in
  (modulo (T1 + T2), a, b, c, modulo (d + T1), e, f, g).
Definition add_hash (u v : hash) : hash :=
  let '(a, b, c, d, e, f, g, h) := u in
  let '(a', b', c', d', e', f', g', h') := v in
  (modulo (a + a'), modulo (b + b'), modulo (c + c'), modulo (d + d'),
   modulo (e + e'), modulo (f + f'), modulo (g + g'), modulo (h + h')).
Definition compress (H : hash) (M : list Z) : hash :=
  add_hash H (fold_left round_t (zip K (message_schedule M)) H).

Definition initial : hash :=
  match H0 with
  | [a; b; c; d; e; f; g; h] => (a, b, c, d, e, f, g, h)
  | _ => (0, 0, 0, 0, 0, 0, 0, 0)
  end.
Definition final (m : list Z) : hash :=
  let ws := words (padded m) in
  fold_left compress (sixteens (length ws / 16) ws) initial.

(** ** The digest in hexadecimal *)
Definition hex_digits : list ascii := lit "0123456789abcdef".
Definition hex_word (x : Z) : bytes :=
  map (λ i, nth (Z.to_nat (x / 16 ^ (7 - Z.of_nat i) mod 16)) hex_digits "0"%char) (seq 0 8).
Definition SHA256 (m : list Z) : bytes :=
  let '(a, b, c, d, e, f, g, h) := final m in
  hex_word a ++ hex_word b ++ hex_word c ++ hex_word d
    ++ hex_word e ++ hex_word f ++ hex_word g ++ hex_word h.

(** The example of FIPS 180 on one block. *)
Example fips_abc :
  SHA256 [97; 98; 99] =
  lit "ba7816bf8f01cfea414140de5dae2223b00361a396177a9cb410ff61f20015ad".
Proof. vm_compute. reflexivity. Qed.
