(* ===== verification/Sha256.v ===== *)
(** * Sha256: [dfg::hash::SHA256] (src/src/common/include/dfg/sha256.hpp)

    The class state is the record [SHA256]; [uint8_t]/[uint32_t]/[uint64_t]
    are [Z] with the wrap-around written out.  The reference is [Fips.SHA256],
    written from the standard alone. *)
From Stdlib Require Import Lia.
From S2P Require Import Prelude.
From S2P Require Import Fips.
From S2P Require Import Text.
Local Open Scope Z_scope.

(** ** The class *)
Record SHA256 := mkSHA256 {
  data_ : list Z;          (* uint8_t data_[64] *)
  datalen_ : nat;
  bitlen_ : Z;
  state_ : list Z          (* uint32_t state_[8] *)
}.

Definition initial_state : list Z :=
  [0x6A09E667; 0xBB67AE85; 0x3C6EF372; 0xA54FF53A;
   0x510E527F; 0x9B05688C; 0x1F83D9AB; 0x5BE0CD19].

(** The buffer keeps whatever it held: [reset] does not clear it. *)
Definition reset (s : SHA256) : SHA256 :=
  mkSHA256 (data_ s) 0 0 initial_state.

Definition k : list Z :=
  [0x428A2F98;0x71374491;0xB5C0FBCF;0xE9B5DBA5;0x3956C25B;0x59F111F1;0x923F82A4;0xAB1C5ED5;
   0xD807AA98;0x12835B01;0x243185BE;0x550C7DC3;0x72BE5D74;0x80DEB1FE;0x9BDC06A7;0xC19BF174;
   0xE49B69C1;0xEFBE4786;0x0FC19DC6;0x240CA1CC;0x2DE92C6F;0x4A7484AA;0x5CB0A9DC;0x76F988DA;
   0x983E5152;0xA831C66D;0xB00327C8;0xBF597FC7;0xC6E00BF3;0xD5A79147;0x06CA6351;0x14292967;
   0x27B70A85;0x2E1B2138;0x4D2C6DFC;0x53380D13;0x650A7354;0x766A0ABB;0x81C2C92E;0x92722C85;
   0xA2BFE8A1;0xA81A664B;0xC24B8B70;0xC76C51A3;0xD192E819;0xD6990624;0xF40E3585;0x106AA070;
   0x19A4C116;0x1E376C08;0x2748774C;0x34B0BCB5;0x391C0CB3;0x4ED8AA4A;0x5B9CCA4F;0x682E6FF3;
   0x748F82EE;0x78A5636F;0x84C87814;0x8CC70208;0x90BEFFFA;0xA4506CEB;0xBEF9A3F7;0xC67178F2].

Definition rotr (x n : Z) : Z :=
  if n =? 0 then x else Z.lor (Z.shiftr x n) (w32 (Z.shiftl x (32 - n))).

Definition not32 (x : Z) : Z := w32 (Z.lnot x).
Definition ch (x y z : Z) : Z := Z.lxor (Z.land x y) (Z.land (not32 x) z).
Definition maj (x y z : Z) : Z :=
  Z.lxor (Z.lxor (Z.land x y) (Z.land x z)) (Z.land y z).
Definition SIGMA0 (x : Z) : Z := Z.lxor (Z.lxor (rotr x 2) (rotr x 13)) (rotr x 22).
Definition SIGMA1 (x : Z) : Z := Z.lxor (Z.lxor (rotr x 6) (rotr x 11)) (rotr x 25).
Definition sigma0 (x : Z) : Z := Z.lxor (Z.lxor (rotr x 7) (rotr x 18)) (Z.shiftr x 3).
Definition sigma1 (x : Z) : Z := Z.lxor (Z.lxor (rotr x 17) (rotr x 19)) (Z.shiftr x 10).

(** The [m] array: 16 big-endian words, then 48 extended ones. *)
Definition at_ (l : list Z) (i : nat) : Z := nth i l 0.

Definition load_word (chunk : list Z) (j : nat) : Z :=
  Z.lor (Z.lor (Z.lor (Z.shiftl (at_ chunk j) 24) (Z.shiftl (at_ chunk (j + 1)) 16))
               (Z.shiftl (at_ chunk (j + 2)) 8))
        (at_ chunk (j + 3)).

Fixpoint extend (n : nat) (m : list Z) : list Z :=
  match n with
  | O => m
  | S n' =>
      let i := length m in
      extend n' (m ++ [w32 (sigma1 (at_ m (i - 2)) + at_ m (i - 7)
                            + sigma0 (at_ m (i - 15)) + at_ m (i - 16))])
  end.

Definition schedule (chunk : list Z) : list Z :=
  extend 48 (map (λ i, load_word chunk (4 * i)%nat) (seq 0 16)).

Record regs := Regs { ra : Z; rb : Z; rc : Z; rd : Z; re : Z; rf : Z; rg : Z; rh : Z }.

Definition round (r : regs) (km : Z * Z) : regs :=
  let t1 := w32 (rh r + SIGMA1 (re r) + ch (re r) (rf r) (rg r) + fst km + snd km) in
  let t2 := w32 (SIGMA0 (ra r) + maj (ra r) (rb r) (rc r)) in
  Regs (w32 (t1 + t2)) (ra r) (rb r) (rc r) (w32 (rd r + t1)) (re r) (rf r) (rg r).

(** [transform]: the new [state_] for one 64-byte chunk. *)
Definition transform (st chunk : list Z) : list Z :=
  let r0 := Regs (at_ st 0) (at_ st 1) (at_ st 2) (at_ st 3)
                 (at_ st 4) (at_ st 5) (at_ st 6) (at_ st 7) in
  let r := fold_left round (zip k (schedule chunk)) r0 in
  [w32 (at_ st 0 + ra r); w32 (at_ st 1 + rb r); w32 (at_ st 2 + rc r);
   w32 (at_ st 3 + rd r); w32 (at_ st 4 + re r); w32 (at_ st 5 + rf r);
   w32 (at_ st 6 + rg r); w32 (at_ st 7 + rh r)].

(** [memcpy(buf + off, src, n)], and a store loop over [off .. off+n) *)
Definition splice (buf : list Z) (off : nat) (src : list Z) : list Z :=
  take off buf ++ src ++ drop (off + length src) buf.

(** [transform(p); bitlen_ += 512;] *)
Definition absorb_block (s : SHA256) (chunk : list Z) : SHA256 :=
  mkSHA256 (data_ s) (datalen_ s) (w64 (bitlen_ s + 512)) (transform (state_ s) chunk).

(** [while (offset + 64 <= length)] *)
Fixpoint block_loop (fuel : nat) (s : SHA256) (data : list Z) (offset : nat)
  : SHA256 * nat :=
  match fuel with
  | O => (s, offset)
  | S f =>
      if (offset + 64 <=? length data)%nat
      then block_loop f (absorb_block s (take 64 (drop offset data))) data (offset + 64)
      else (s, offset)
  end.

Definition update_rest (s : SHA256) (data : list Z) (offset : nat) : SHA256 :=
  let '(s, offset) := block_loop (S (length data / 64)) s data offset in
  if (offset <? length data)%nat
  then mkSHA256 (splice (data_ s) 0 (drop offset data)) (length data - offset)
                (bitlen_ s) (state_ s)
  else s.

Definition update (s : SHA256) (data : list Z) : SHA256 :=
  if (length data =? 0)%nat then s
  else if (0 <? datalen_ s)%nat then
    let to_fill := (64 - datalen_ s)%nat in
    if (length data <? to_fill)%nat
    then mkSHA256 (splice (data_ s) (datalen_ s) data) (datalen_ s + length data)
                  (bitlen_ s) (state_ s)
    else
      let buf := splice (data_ s) (datalen_ s) (take to_fill data) in
      let s1 := absorb_block (mkSHA256 buf (datalen_ s) (bitlen_ s) (state_ s)) buf in
      update_rest (mkSHA256 (data_ s1) 0 (bitlen_ s1) (state_ s1)) data to_fill
  else update_rest s data 0.

Definition be64 (x : Z) : list Z :=
  map (λ i, Z.land (Z.shiftr x (56 - 8 * Z.of_nat i)) 255) (seq 0 8).

Definition word_bytes (x : Z) : list Z :=
  map (λ i, Z.land (Z.shiftr x (24 - Z.of_nat i * 8)) 0xff) (seq 0 4).

Definition hex_digit (d : Z) : ascii :=
  ascii_of_N (Z.to_N (if d <? 10 then 48 + d else 87 + d)).
Definition hex_byte (b : Z) : bytes := [hex_digit (b / 16); hex_digit (b mod 16)].

Definition finalize (s : SHA256) : bytes :=
  let i := datalen_ s in
  let buf := splice (data_ s) i [0x80] in
  let '(buf, st) :=
    if (i <? 56)%nat
    then (splice buf (S i) (replicate (56 - S i) 0), state_ s)
    else let full := splice buf (S i) (replicate (64 - S i) 0) in
         (splice full 0 (replicate 56 0), transform (state_ s) full) in
  let bitlen := w64 (bitlen_ s + Z.of_nat (datalen_ s) * 8) in
  let st := transform st (splice buf 56 (be64 bitlen)) in
  concat (map hex_byte (concat (map word_bytes st))).

(** [digest] works on a copy, so the running state is kept. *)
Definition digest (s : SHA256) : bytes := finalize s.

Definition byte_val (c : ascii) : Z := Z.of_N (N_of_ascii c).

(** [SHA256 hash;] on a zeroed stack slot; [any_buffer] shows the slot's
    earlier content is irrelevant. *)
Definition fresh : SHA256 := reset (mkSHA256 (replicate 64 0) 0 0 []).

(** [sha256(const std::vector<char>&)] and [sha256(const std::string&)] *)
Definition sha256 (data : bytes) : bytes := digest (update fresh (map byte_val data)).

(** [hasher.update(chunk)] on characters *)
Definition update_bytes (s : SHA256) (data : bytes) : SHA256 :=
  update s (map byte_val data).

(** ** The padded message folded with the code's [transform]

    What the streaming state is compared with first; [folded_is_fips] below
    shows that it is the digest of FIPS 180-4 ([Fips.SHA256]). *)
Fixpoint blocks (n : nat) (l : list Z) : list (list Z) :=
  match n with O => [] | S n' => take 64 l :: blocks n' (drop 64 l) end.
Definition chunk64 (l : list Z) : list (list Z) := blocks (length l / 64) l.

Definition pad_zeros (len : nat) : nat := ((119 - len mod 64) mod 64)%nat.
Definition pad (m : list Z) : list Z :=
  m ++ [0x80] ++ replicate (pad_zeros (length m)) 0
    ++ be64 (w64 (8 * Z.of_nat (length m))).

Definition folded_state (m : list Z) : list Z :=
  fold_left transform (chunk64 (pad m)) initial_state.
Definition folded_sha256 (m : list Z) : bytes :=
  concat (map hex_byte (concat (map word_bytes (folded_state m)))).

Example sha256_abc :
  sha256 (lit "abc") =
  lit "ba7816bf8f01cfea414140de5dae2223b00361a396177a9cb410ff61f20015ad".
Proof. vm_compute. reflexivity. Qed.
Example sha256_empty :
  sha256 [] =
  lit "e3b0c44298fc1c149afbf4c8996fb92427ae41e4649b934ca495991b7852b855".
Proof. vm_compute. reflexivity. Qed.

(** ** Streaming: what the state represents

    [absorbed s m]: [s] has taken in exactly [m]: the complete blocks are in
    [state_], the rest is the first [datalen_] bytes of the buffer. *)
Definition absorbed (s : SHA256) (m : list Z) : Prop :=
  ∃ full rem, m = concat full ++ rem ∧ Forall (λ b, length b = 64%nat) full ∧
    length rem = datalen_ s ∧ (datalen_ s < 64)%nat ∧
    take (datalen_ s) (data_ s) = rem ∧ length (data_ s) = 64%nat ∧
    bitlen_ s = w64 (512 * Z.of_nat (length full)) ∧
    state_ s = fold_left transform full initial_state.

Lemma length_splice buf off src :
  (off + length src ≤ length buf)%nat → length (splice buf off src) = length buf.
Proof. intros. unfold splice. rewrite !length_app, length_take, length_drop. lia. Qed.

Lemma take_splice buf off src :
  (off + length src ≤ length buf)%nat →
  take (off + length src) (splice buf off src) = take off buf ++ src.
Proof.
  intros. unfold splice. rewrite app_assoc.
  rewrite take_app_le; [rewrite take_ge; [done|]|];
    rewrite length_app, length_take; lia.
Qed.

Lemma take_splice_le n buf off src :
  (off ≤ length buf)%nat → (n ≤ off)%nat → take n (splice buf off src) = take n buf.
Proof.
  intros. unfold splice. rewrite take_app_le by (rewrite length_take; lia).
  by rewrite take_take, Nat.min_l.
Qed.

Lemma w64_add_l a b : w64 (w64 a + b) = w64 (a + b).
Proof. unfold wrap. apply Zplus_mod_idemp_l. Qed.
Lemma w64_id a : w64 (w64 a) = w64 a.
Proof. unfold wrap. apply Zmod_mod. Qed.

(** Complete blocks only touch [bitlen_] and [state_]. *)
Definition absorb_blocks (s : SHA256) (full : list (list Z)) : SHA256 :=
  mkSHA256 (data_ s) (datalen_ s) (w64 (bitlen_ s + 512 * Z.of_nat (length full)))
           (fold_left transform full (state_ s)).

Lemma absorb_blocks_nil s : bitlen_ s = w64 (bitlen_ s) → absorb_blocks s [] = s.
Proof. intros H. unfold absorb_blocks. simpl. rewrite Z.add_0_r, <- H. by destruct s. Qed.

Lemma absorb_blocks_cons s b full :
  absorb_blocks (absorb_block s b) full = absorb_blocks s (b :: full).
Proof.
  unfold absorb_blocks, absorb_block; simpl. f_equal.
  rewrite w64_add_l. f_equal. lia.
Qed.

Lemma block_loop_spec fuel s data offset :
  (offset ≤ length data)%nat → ((length data - offset) / 64 < fuel)%nat →
  bitlen_ s = w64 (bitlen_ s) →
  ∃ full rem, drop offset data = concat full ++ rem ∧
    Forall (λ b, length b = 64%nat) full ∧ (length rem < 64)%nat ∧
    block_loop fuel s data offset = (absorb_blocks s full, (length data - length rem)%nat).
Proof.
  revert s offset. induction fuel as [|f IH]; intros s offset Ho Hf Hb; [lia|]. simpl.
  destruct (Nat.leb_spec (offset + 64) (length data)) as [Hle|Hgt].
  - destruct (IH (absorb_block s (take 64 (drop offset data))) (offset + 64)%nat)
      as (full & rem & Hd & HF & Hr & ->); [lia| |by simpl; rewrite w64_id|].
    { replace (length data - offset)%nat
        with (length data - (offset + 64) + 1 * 64)%nat in Hf by lia.
      rewrite Nat.div_add in Hf; lia. }
    exists (take 64 (drop offset data) :: full), rem. split; [|split; [|split; [done|]]].
    + simpl. rewrite <- app_assoc, <- Hd, <- drop_drop. by rewrite take_drop.
    + constructor; [|done]. rewrite length_take, length_drop. lia.
    + by rewrite absorb_blocks_cons.
  - exists [], (drop offset data). simpl. rewrite length_drop.
    split; [done|]. split; [done|]. split; [lia|].
    rewrite absorb_blocks_nil by done. f_equal. lia.
Qed.

Lemma concat_snoc_length full (b : list (list Z)) :
  length (full ++ b) = (length full + length b)%nat.
Proof. apply length_app. Qed.

(** [update_rest] on a state whose buffer is drained. *)
Lemma update_rest_absorbed s m data offset full :
  m = concat full → Forall (λ b, length b = 64%nat) full →
  datalen_ s = 0%nat → length (data_ s) = 64%nat →
  bitlen_ s = w64 (512 * Z.of_nat (length full)) →
  state_ s = fold_left transform full initial_state →
  (offset ≤ length data)%nat →
  absorbed (update_rest s data offset) (m ++ drop offset data).
Proof.
  intros -> Hfull Hdl Hbuf Hbit Hst Ho. unfold update_rest.
  destruct (block_loop_spec (S (length data / 64)) s data offset)
    as (full' & rem & Hd & HF & Hr & ->); [done| | |].
  { assert ((length data - offset) / 64 ≤ length data / 64)%nat; [|lia].
    apply Nat.Div0.div_le_mono. lia. }
  { by rewrite Hbit, w64_id. }
  assert (length rem ≤ length data)%nat as Hlr.
  { apply (f_equal length) in Hd. rewrite length_drop, length_app in Hd. lia. }
  assert (drop (length data - length rem) data = rem) as Hrem.
  { assert (data = take offset data ++ concat full' ++ rem) as Hdata.
    { by rewrite <- Hd, take_drop. }
    rewrite Hdata at 2. rewrite app_assoc, drop_app_ge.
    - rewrite Hdata at 1. rewrite app_assoc, length_app.
      replace (_ + length rem - length rem - _)%nat with 0%nat by lia. done.
    - rewrite Hdata at 2. rewrite app_assoc, (length_app _ rem). lia. }
  exists (full ++ full'), rem. rewrite Hd, concat_app, <- app_assoc.
  split; [done|]. split; [by apply Forall_app|].
  rewrite concat_snoc_length, fold_left_app.
  assert (w64 (bitlen_ s + 512 * Z.of_nat (length full')) =
          w64 (512 * Z.of_nat (length full + length full'))) as Hbits.
  { rewrite Hbit, w64_add_l. f_equal. lia. }
  destruct (Nat.ltb_spec (length data - length rem) (length data)) as [Hlt|Hge]; simpl.
  - rewrite Hrem. replace (length data - (length data - length rem))%nat
      with (length rem) by lia.
    split; [done|]. split; [done|]. split.
    { pose proof (take_splice (data_ s) 0 rem) as H. simpl in H. apply H. lia. }
    split; [rewrite length_splice; simpl; lia|]. split; [done|]. by rewrite <- Hst.
  - assert (length rem = 0%nat) as Hr0 by lia. rewrite Hdl. apply nil_length_inv in Hr0 as ->.
    simpl. repeat split; [lia|done|done|by rewrite <- Hst].
Qed.

Lemma update_absorbed s m data :
  absorbed s m → absorbed (update s data) (m ++ data).
Proof.
  intros Habs. pose proof Habs as (full & rem & -> & Hfull & Hlr & Hlt & Htk & Hbuf & Hbit & Hst).
  unfold update. destruct (Nat.eqb_spec (length data) 0) as [H0|Hne].
  { apply nil_length_inv in H0 as ->. by rewrite app_nil_r. }
  destruct (Nat.ltb_spec 0 (datalen_ s)) as [Hpos|Hz].
  - destruct (Nat.ltb_spec (length data) (64 - datalen_ s)) as [Hs|Hl].
    + exists full, (rem ++ data). simpl. rewrite <- app_assoc, length_app, Hlr.
      repeat split; try done; [lia| |rewrite length_splice; lia].
      rewrite take_splice by lia. by rewrite Htk.
    + simpl. set (buf := splice _ _ _).
      assert (buf = rem ++ take (64 - datalen_ s) data) as Hbufeq.
      { unfold buf, splice. rewrite Htk, length_take, Nat.min_l by lia.
        replace (datalen_ s + (64 - datalen_ s))%nat with 64%nat by lia.
        rewrite drop_ge by lia. by rewrite app_nil_r. }
      assert (length buf = 64%nat) as Hlb.
      { rewrite Hbufeq, length_app, length_take. lia. }
      replace ((concat full ++ rem) ++ data)
        with (concat (full ++ [buf]) ++ drop (64 - datalen_ s) data).
      * apply (update_rest_absorbed _ _ _ _ (full ++ [buf])); simpl; try done; [| |].
        -- apply Forall_app; split; [done|]. by constructor.
        -- rewrite Hbit, w64_add_l, length_app. f_equal. simpl. lia.
        -- rewrite fold_left_app, Hst. done.
      * rewrite concat_app. simpl. rewrite app_nil_r, Hbufeq.
        rewrite <- !app_assoc. by rewrite take_drop.
  - assert (datalen_ s = 0%nat) as Hd0 by lia. rewrite Hd0 in Hlr.
    apply nil_length_inv in Hlr as ->. rewrite app_nil_r in *.
    pose proof (update_rest_absorbed s (concat full) data 0 full) as H.
    rewrite drop_0 in H. apply H; auto. lia.
Qed.

Lemma reset_absorbed s : length (data_ s) = 64%nat → absorbed (reset s) [].
Proof. intros H. exists [], []. simpl. repeat split; done || lia. Qed.
Lemma fresh_absorbed : absorbed fresh [].
Proof. by apply reset_absorbed. Qed.

Lemma blocks_concat full r :
  Forall (λ b, length b = 64%nat) full →
  blocks (length full + length r / 64) (concat full ++ r) = full ++ blocks (length r / 64) r.
Proof.
  induction 1 as [|b full Hb _ IH]; simpl; [done|].
  rewrite <- app_assoc. f_equal; [by rewrite take_app_length'|].
  rewrite drop_app_length' by done. exact IH.
Qed.

Lemma length_concat_blocks (full : list (list Z)) :
  Forall (λ b, length b = 64%nat) full → length (concat full) = (length full * 64)%nat.
Proof. induction 1 as [|b l Hb _ IH]; simpl; [done|]. rewrite length_app, Hb, IH. lia. Qed.

Lemma chunk64_concat full r :
  Forall (λ b, length b = 64%nat) full →
  chunk64 (concat full ++ r) = full ++ chunk64 r.
Proof.
  intros H. unfold chunk64. rewrite <- blocks_concat by done. f_equal.
  rewrite length_app, length_concat_blocks by done.
  rewrite Nat.add_comm, Nat.div_add; lia.
Qed.

Lemma length_be64 x : length (be64 x) = 8%nat.
Proof. done. Qed.

Lemma splice_length_field l x :
  length l = 64%nat → splice l 56 (be64 x) = take 56 l ++ be64 x.
Proof.
  intros Hl. unfold splice. rewrite length_be64, drop_ge by lia. by rewrite app_nil_r.
Qed.

(** The padded tail of a message is one block, or two when the length does
    not fit behind the 0x80 byte. *)
Lemma pad_tail_small (rem buf : list Z) bits :
  length buf = 64%nat → take (length rem) buf = rem → (length rem < 56)%nat →
  splice (splice (splice buf (length rem) [0x80]) (S (length rem))
            (replicate (56 - S (length rem)) 0)) 56 (be64 bits) =
  rem ++ [0x80] ++ replicate (55 - length rem) 0 ++ be64 bits.
Proof.
  intros Hb Ht Hr. set (n := length rem) in *.
  rewrite splice_length_field.
  2: { rewrite !length_splice; rewrite ?length_replicate; simpl; try lia.
       rewrite length_splice; simpl; lia. }
  replace 56%nat with (S n + length (replicate (56 - S n) 0%Z))%nat at 1
    by (rewrite length_replicate; lia).
  rewrite take_splice by (rewrite length_replicate, length_splice; simpl; lia).
  replace (S n) with (n + length [0x80%Z])%nat at 1 by (simpl; lia).
  rewrite take_splice by (simpl; lia). rewrite Ht.
  replace (56 - S n)%nat with (55 - n)%nat by lia.
  by rewrite <- !app_assoc.
Qed.

Lemma pad_tail_large (rem buf : list Z) bits :
  length buf = 64%nat → take (length rem) buf = rem →
  (56 ≤ length rem)%nat → (length rem < 64)%nat →
  let full := splice (splice buf (length rem) [0x80]) (S (length rem))
                (replicate (64 - S (length rem)) 0) in
  full = rem ++ [0x80] ++ replicate (63 - length rem) 0 ∧
  splice (splice full 0 (replicate 56 0)) 56 (be64 bits) = replicate 56 0 ++ be64 bits.
Proof.
  intros Hb Ht Hr1 Hr2. set (n := length rem) in *. simpl.
  set (b1 := splice buf n [0x80]).
  assert (length b1 = 64%nat) as H1 by (unfold b1; rewrite length_splice; simpl; lia).
  assert (take (S n) b1 = rem ++ [0x80]) as Ht1.
  { unfold b1. replace (S n) with (n + length [0x80%Z])%nat by (simpl; lia).
    rewrite take_splice by (simpl; lia). by rewrite Ht. }
  split.
  - unfold splice at 1. rewrite Ht1, length_replicate, drop_ge by lia.
    rewrite app_nil_r, <- app_assoc. done.
  - set (b2 := splice b1 (S n) _).
    assert (length b2 = 64%nat) as H2.
    { unfold b2. rewrite length_splice; rewrite ?length_replicate; lia. }
    assert (length (splice b2 0 (replicate 56 0)) = 64%nat) as H3.
    { rewrite length_splice; rewrite ?length_replicate; lia. }
    by rewrite splice_length_field.
Qed.

Lemma pad_app full rem :
  Forall (λ b, length b = 64%nat) full →
  pad (concat full ++ rem) =
  concat full ++ rem ++ [0x80] ++ replicate (pad_zeros (length rem)) 0
    ++ be64 (w64 (8 * Z.of_nat (length full * 64 + length rem))).
Proof.
  intros H. unfold pad. rewrite length_app, length_concat_blocks by done.
  rewrite <- app_assoc. do 4 f_equal. unfold pad_zeros. do 3 f_equal.
  rewrite Nat.add_comm, Nat.Div0.mod_add. done.
Qed.

Lemma chunk64_one l : length l = 64%nat → chunk64 l = [l].
Proof.
  intros H. unfold chunk64. rewrite H.
  change (blocks (64 / 64) l) with [take 64 l]. f_equal. apply take_ge. lia.
Qed.

Lemma finalize_folded s m : absorbed s m → finalize s = folded_sha256 m.
Proof.
  intros (full & rem & -> & Hfull & Hlr & Hlt & Htk & Hbuf & Hbit & Hst).
  unfold folded_sha256, folded_state. rewrite pad_app, chunk64_concat by done.
  rewrite fold_left_app, <- Hst. unfold finalize. rewrite <- Hlr in Htk, Hlt |- *.
  assert (w64 (bitlen_ s + Z.of_nat (length rem) * 8) =
          w64 (8 * Z.of_nat (length full * 64 + length rem))) as ->.
  { rewrite Hbit, w64_add_l. f_equal. lia. }
  set (bits := w64 _). unfold pad_zeros. rewrite (Nat.mod_small (length rem)) by lia.
  destruct (Nat.ltb_spec (length rem) 56) as [Hs|Hl].
  - rewrite pad_tail_small by done.
    replace ((119 - length rem) mod 64)%nat with (55 - length rem)%nat.
    2: { replace (119 - length rem)%nat with (55 - length rem + 1 * 64)%nat by lia.
         rewrite Nat.Div0.mod_add, Nat.mod_small; lia. }
    rewrite chunk64_one; [done|].
    rewrite !length_app, length_replicate, length_be64. simpl. lia.
  - destruct (pad_tail_large rem (data_ s) bits) as [Hf Hz]; try done.
    cbv zeta. rewrite Hz, Hf.
    replace ((119 - length rem) mod 64)%nat with (63 - length rem + 56)%nat
      by (rewrite Nat.mod_small; lia).
    rewrite replicate_add.
    replace (rem ++ [0x80] ++ (replicate (63 - length rem) 0 ++ replicate 56 0) ++ be64 bits)
      with (concat [rem ++ [0x80] ++ replicate (63 - length rem) 0]
              ++ (replicate 56 0 ++ be64 bits))
      by (simpl; rewrite app_nil_r, <- !app_assoc; done).
    rewrite chunk64_concat.
    2: { constructor; [|done]. rewrite !length_app, length_replicate. simpl. lia. }
    rewrite (chunk64_one (replicate 56 0 ++ _)) by done. done.
Qed.

(** ** Shape of the digest *)
Definition hex_char (c : ascii) : bool :=
  let n := N_of_ascii c in
  ((48 <=? n) && (n <=? 57) || (97 <=? n) && (n <=? 102))%N.

Lemma hex_digit_char d : 0 ≤ d < 16 → hex_char (hex_digit d) = true.
Proof.
  intros H. assert (d ∈ map Z.of_nat (seq 0 16)) as Hin.
  { apply list_elem_of_fmap. exists (Z.to_nat d). split; [lia|]. apply elem_of_seq. lia. }
  clear H. revert d Hin. apply Forall_forall. repeat constructor.
Qed.

Lemma hex_byte_chars b : 0 ≤ b < 256 → Forall (λ c, hex_char c = true) (hex_byte b).
Proof.
  intros H. repeat constructor; apply hex_digit_char.
  - split; [apply Z.div_pos; lia|]. apply Z.div_lt_upper_bound; lia.
  - apply Z.mod_pos_bound. lia.
Qed.

Lemma word_bytes_range x : Forall (λ b, 0 ≤ b < 256) (word_bytes x).
Proof.
  apply Forall_forall. intros b (i & -> & _)%list_elem_of_fmap.
  change 0xff with (Z.ones 8). rewrite Z.land_ones by lia. apply Z.mod_pos_bound. lia.
Qed.

Lemma hex_words_shape ws :
  let h := concat (map hex_byte (concat (map word_bytes ws))) in
  length h = (8 * length ws)%nat ∧ Forall (λ c, hex_char c = true) h.
Proof.
  induction ws as [|w ws [IHl IHf]]; [done|].
  cbv zeta in *. cbn [map concat]. rewrite map_app, concat_app, length_app. split.
  - rewrite IHl. change (length (concat (map hex_byte (word_bytes w)))) with 8%nat.
    simpl length. lia.
  - apply Forall_app; split; [|done].
    pose proof (word_bytes_range w) as Hw. induction Hw; simpl; [done|].
    constructor; [by apply hex_digit_char; split; [apply Z.div_pos|apply Z.div_lt_upper_bound]; lia|].
    constructor; [apply hex_digit_char, Z.mod_pos_bound; lia|done].
Qed.

Lemma finalize_shape s :
  length (finalize s) = 64%nat ∧ Forall (λ c, hex_char c = true) (finalize s).
Proof.
  unfold finalize. destruct (if (datalen_ s <? 56)%nat then _ else _) as [buf st].
  apply (hex_words_shape (transform st _)).
Qed.

Lemma hex_char_not_space c : hex_char c = true → is_space c = false.
Proof. destruct c as [[] [] [] [] [] [] [] []]; vm_compute; congruence. Qed.

(** The digest is one word of a metadata line. *)
Lemma sha256_word data : word (sha256 data).
Proof.
  destruct (finalize_shape (update fresh (map byte_val data))) as [Hl Hf].
  split.
  - unfold sha256, digest. intros H. by rewrite H in Hl.
  - eapply Forall_impl; [exact Hf|]. apply hex_char_not_space.
Qed.

Lemma updates_absorbed s m ds :
  absorbed s m → absorbed (fold_left update ds s) (m ++ concat ds).
Proof.
  revert s m. induction ds as [|d ds IH]; intros s m H; simpl.
  - by rewrite app_nil_r.
  - rewrite app_assoc. by apply IH, update_absorbed.
Qed.

(** [sha256] of a whole buffer is what streaming its pieces gives. *)
Lemma sha256_pieces ds :
  digest (fold_left update_bytes ds fresh) = sha256 (concat ds).
Proof.
  unfold sha256, digest.
  assert (fold_left update_bytes ds fresh = fold_left update (map (map byte_val) ds) fresh) as ->.
  { generalize fresh. induction ds as [|d ds IH]; intros s; simpl; [done|]. apply IH. }
  rewrite (finalize_folded _ _ (updates_absorbed _ [] (map (map byte_val) ds) fresh_absorbed)).
  rewrite (finalize_folded _ _ (update_absorbed _ [] _ fresh_absorbed)).
  by rewrite !app_nil_l, concat_map.
Qed.

(** ** Words: the code's operations are those of FIPS 180-4

    [in32]: the value of a [uint32_t]. *)
Definition in32 (x : Z) : Prop := 0 ≤ x < 2 ^ 32.
Definition is_byte (b : Z) : Prop := 0 ≤ b < 256.

Lemma w32_testbit x i : 0 ≤ i → Z.testbit (w32 x) i = (i <? 32) && Z.testbit x i.
Proof.
  intros Hi. unfold wrap. destruct (Z.ltb_spec i 32).
  - rewrite Z.mod_pow2_bits_low by lia. done.
  - by rewrite Z.mod_pow2_bits_high by lia.
Qed.

(** [rotr] is the 32-bit rotation: bit [i] of the result is bit
    [(i + n) mod 32] of the operand. *)
Lemma rotr_rotates (x n i : Z) :
  in32 x → 0 ≤ n < 32 → 0 ≤ i < 32 →
  Z.testbit (rotr x n) i = Z.testbit x ((i + n) mod 32).
Proof.
  intros Hx Hn Hi. unfold rotr. destruct (Z.eqb_spec n 0) as [->|Hn0].
  { by rewrite Z.add_0_r, Z.mod_small. }
  rewrite Z.lor_spec, Z.shiftr_spec, w32_testbit, Z.shiftl_spec by lia.
  destruct (Z.ltb_spec i 32); [|lia]. simpl.
  destruct (Z.lt_ge_cases (i + n) 32).
  - rewrite (Z.mod_small (i + n)) by lia.
    rewrite (Z.testbit_neg_r x (i - (32 - n))) by lia. apply orb_false_r.
  - replace ((i + n) mod 32) with (i - (32 - n)).
    2: { replace (i + n) with (i - (32 - n) + 1 * 32) by lia.
         rewrite Z.mod_add, Z.mod_small by lia. done. }
    unfold in32 in Hx. rewrite <- (Z.mod_small x (2 ^ 32)) at 1 by lia.
    by rewrite Z.mod_pow2_bits_high by lia.
Qed.

Lemma in32_w32 x : in32 (w32 x).
Proof. apply Z.mod_pos_bound. lia. Qed.
Lemma in32_iff x : in32 x ↔ w32 x = x.
Proof. split; [apply Z.mod_small|]. intros <-. apply in32_w32. Qed.
Lemma in32_high x i : in32 x → 32 ≤ i → Z.testbit x i = false.
Proof.
  intros <-%in32_iff Hi. rewrite w32_testbit by lia. destruct (Z.ltb_spec i 32); [lia|done].
Qed.

Lemma in32_ext x : (∀ i, 32 ≤ i → Z.testbit x i = false) → in32 x.
Proof.
  intros H. apply in32_iff. apply Z.bits_inj'. intros i Hi. rewrite w32_testbit by done.
  destruct (Z.ltb_spec i 32); [done|]. by rewrite H.
Qed.

Lemma in32_lxor x y : in32 x → in32 y → in32 (Z.lxor x y).
Proof. intros. apply in32_ext. intros i Hi. by rewrite Z.lxor_spec, !in32_high. Qed.
Lemma in32_land x y : in32 x → in32 (Z.land x y).
Proof. intros. apply in32_ext. intros i Hi. by rewrite Z.land_spec, in32_high. Qed.
Lemma in32_lor x y : in32 x → in32 y → in32 (Z.lor x y).
Proof. intros. apply in32_ext. intros i Hi. by rewrite Z.lor_spec, !in32_high. Qed.
Lemma in32_shiftr x n : 0 ≤ n → in32 x → in32 (Z.shiftr x n).
Proof. intros. apply in32_ext. intros i Hi. rewrite Z.shiftr_spec by lia. apply in32_high; [done|lia]. Qed.
Lemma in32_rotr x n : 0 ≤ n → in32 x → in32 (rotr x n).
Proof.
  intros. unfold rotr. destruct (n =? 0); [done|]. by apply in32_lor; [apply in32_shiftr|apply in32_w32].
Qed.
Create HintDb in32.
#[local] Hint Resolve in32_w32 in32_lxor in32_land in32_lor in32_shiftr in32_rotr : in32.
#[local] Hint Extern 1 (0 ≤ _) => lia : in32.

Lemma bit_testbit x i : Fips.bit x i = Z.testbit x (Z.of_nat i).
Proof. unfold Fips.bit. by rewrite Z.testbit_odd, Z.shiftr_div_pow2 by lia. Qed.

Lemma number_testbit n f (i : nat) :
  Z.testbit (Fips.number n f) (Z.of_nat i) = (i <? n)%nat && f i.
Proof.
  revert f i. induction n as [|n IH]; intros f i; cbn [Fips.number]; [apply Z.testbit_0_l|].
  rewrite Z.add_comm. destruct i as [|i]; [by rewrite Z.testbit_0_r|].
  rewrite Nat2Z.inj_succ, Z.testbit_succ_r by lia. apply (IH (λ j, f (S j))).
Qed.

Lemma word32_eq f x :
  in32 x → (∀ i, (i < 32)%nat → f i = Z.testbit x (Z.of_nat i)) → Fips.word32 f = x.
Proof.
  intros Hx Hf. apply Z.bits_inj'. intros i Hi. rewrite <- (Z2Nat.id i) by done.
  unfold Fips.word32. rewrite number_testbit. destruct (Nat.ltb_spec (Z.to_nat i) 32); simpl; [by apply Hf|].
  symmetry. apply in32_high; [done|lia].
Qed.

Lemma fips_rotr x n : in32 x → (n < 32)%nat → Fips.ROTR n x = rotr x (Z.of_nat n).
Proof.
  intros Hx Hn. apply word32_eq; [auto with in32|]. intros i Hi.
  rewrite bit_testbit, rotr_rotates by (done || lia). f_equal.
  by rewrite Nat2Z.inj_mod, Nat2Z.inj_add.
Qed.

Lemma fips_shr x n : Fips.SHR n x = Z.shiftr x (Z.of_nat n).
Proof. unfold Fips.SHR. by rewrite Z.shiftr_div_pow2 by lia. Qed.

Lemma fips_xor x y : in32 x → in32 y → Fips.XOR x y = Z.lxor x y.
Proof.
  intros. apply word32_eq; [auto with in32|]. intros i _. by rewrite !bit_testbit, Z.lxor_spec.
Qed.

Lemma fips_xor3 x y z :
  in32 x → in32 y → in32 z → Fips.XOR (Fips.XOR x y) z = Z.lxor (Z.lxor x y) z.
Proof. intros. rewrite (fips_xor x y), fips_xor by auto with in32. done. Qed.

Lemma fips_ch x y z : in32 x → in32 y → in32 z → Fips.Ch x y z = ch x y z.
Proof.
  intros. unfold ch, not32. apply word32_eq; [auto with in32|]. intros i Hi.
  rewrite !bit_testbit, Z.lxor_spec, !Z.land_spec, w32_testbit, Z.lnot_spec by lia.
  destruct (Z.ltb_spec (Z.of_nat i) 32); [|lia].
  by destruct (Z.testbit x _), (Z.testbit y _), (Z.testbit z _).
Qed.

Lemma fips_maj x y z : in32 x → in32 y → in32 z → Fips.Maj x y z = maj x y z.
Proof.
  intros. unfold maj. apply word32_eq; [auto with in32|]. intros i Hi.
  rewrite !bit_testbit, !Z.lxor_spec, !Z.land_spec.
  by destruct (Z.testbit x _), (Z.testbit y _), (Z.testbit z _).
Qed.

Lemma fips_sums x :
  in32 x → Fips.Sum0 x = SIGMA0 x ∧ Fips.Sum1 x = SIGMA1 x ∧
           Fips.sig0 x = sigma0 x ∧ Fips.sig1 x = sigma1 x.
Proof.
  intros Hx. unfold Fips.Sum0, Fips.Sum1, Fips.sig0, Fips.sig1.
  rewrite !fips_rotr, !fips_shr by (done || lia).
  split_and!; rewrite fips_xor3 by auto with in32; reflexivity.
Qed.

(** The constants are the fractional parts of the roots of the primes. *)
Lemma fips_constants : Fips.K = k ∧ Fips.H0 = initial_state.
Proof. split; vm_compute; reflexivity. Qed.

(** ** The schedule *)
Lemma words_app a b : (length a mod 4 = 0)%nat → Fips.words (a ++ b) = Fips.words a ++ Fips.words b.
Proof.
  intros Ha. remember (length a / 4)%nat as n eqn:En.
  assert (length a = 4 * n)%nat as Hl by (rewrite (Nat.div_mod_eq (length a) 4); lia).
  clear Ha En. revert a Hl. induction n as [|n IH]; intros a Hl.
  - by apply nil_length_inv in Hl as ->.
  - destruct a as [|b0 [|b1 [|b2 [|b3 a]]]]; simpl in Hl; try lia.
    simpl. f_equal. apply IH. lia.
Qed.

Lemma lor_shiftl a b n : 0 ≤ n → 0 ≤ b < 2 ^ n → Z.lor (Z.shiftl a n) b = a * 2 ^ n + b.
Proof.
  intros Hn Hb. rewrite <- Z.shiftl_mul_pow2 by done.
  assert (Z.land (Z.shiftl a n) b = 0) as Hno.
  { apply Z.bits_inj'. intros i Hi. rewrite Z.land_spec, Z.shiftl_spec, Z.bits_0 by done.
    destruct (Z.lt_ge_cases i n); [by rewrite Z.testbit_neg_r by lia|].
    rewrite <- (Z.mod_small b (2 ^ n)), Z.mod_pow2_bits_high by lia. apply andb_false_r. }
  by rewrite Z.add_nocarry_lxor, Z.lxor_lor.
Qed.

Lemma be_word_load b0 b1 b2 b3 :
  is_byte b0 → is_byte b1 → is_byte b2 → is_byte b3 →
  let x := Z.lor (Z.lor (Z.lor (Z.shiftl b0 24) (Z.shiftl b1 16)) (Z.shiftl b2 8)) b3 in
  x = Fips.be_word b0 b1 b2 b3 ∧ in32 x.
Proof.
  unfold is_byte, in32. intros. cbv zeta.
  replace (Z.lor (Z.lor (Z.lor (Z.shiftl b0 24) (Z.shiftl b1 16)) (Z.shiftl b2 8)) b3)
    with (Fips.be_word b0 b1 b2 b3); [unfold Fips.be_word; lia|].
  rewrite <- !Z.lor_assoc. unfold Fips.be_word.
  rewrite (lor_shiftl b2 b3 8), (lor_shiftl b1 _ 16), (lor_shiftl b0 _ 24) by lia. lia.
Qed.

Lemma fips_words n chunk :
  length chunk = (4 * n)%nat → Forall is_byte chunk →
  map (λ i, load_word chunk (4 * i)%nat) (seq 0 n) = Fips.words chunk ∧
  Forall in32 (Fips.words chunk) ∧ length (Fips.words chunk) = n.
Proof.
  revert chunk. induction n as [|n IH]; intros chunk Hl Hb.
  { by apply nil_length_inv in Hl as ->. }
  destruct chunk as [|b0 [|b1 [|b2 [|b3 c]]]]; simpl in Hl; try lia.
  repeat (apply Forall_cons in Hb as [? Hb]).
  destruct (be_word_load b0 b1 b2 b3) as [Hw Hr]; try done.
  destruct (IH c) as (IH1 & IH2 & IH3); [lia|done|].
  cbn [Fips.words seq map]. split_and!; [|constructor; [by rewrite <- Hw|done]|by rewrite <- IH3].
  f_equal; [exact Hw|]. rewrite <- seq_shift, map_map, <- IH1.
  apply map_ext. intros i. unfold load_word, at_.
  replace (4 * S i)%nat with (S (S (S (S (4 * i)))))%nat by lia. done.
Qed.

(** The code appends to [m]; the reference keeps the latest word in front. *)
Lemma nth_front (m : list Z) (i : nat) :
  (i < length m)%nat → nth i (reverse m) 0 = at_ m (length m - S i).
Proof. intros Hi. unfold reverse, at_. rewrite <- rev_alt. by rewrite rev_nth. Qed.

Lemma extend_in32 n m : Forall in32 m → Forall in32 (extend n m).
Proof.
  revert m. induction n as [|n IH]; intros m Hm; [done|]. apply IH, Forall_app. split; [done|].
  repeat constructor; apply in32_w32.
Qed.

Lemma fips_extend n m :
  (16 ≤ length m)%nat → Forall in32 m →
  extend n m = reverse (Nat.iter n (λ W, Fips.next_word W :: W) (reverse m)).
Proof.
  revert m. induction n as [|n IH]; intros m Hl Hm; [simpl; by rewrite reverse_involutive|]. cbn [extend].
  assert (∀ i, in32 (at_ m i)) as Hat.
  { intros i. unfold at_. destruct (nth_in_or_default i m 0) as [Hin| ->]; [|done].
    rewrite Forall_forall in Hm. by apply Hm, list_elem_of_In. }
  rewrite IH; [|rewrite length_app; lia|apply Forall_app; split; [done|repeat constructor; apply in32_w32]].
  f_equal. rewrite Nat.iter_succ_r. f_equal. rewrite reverse_app. simpl. f_equal.
  unfold Fips.next_word. rewrite !nth_front by lia.
  rewrite (proj2 (proj2 (proj2 (fips_sums _ (Hat _))))), (proj1 (proj2 (proj2 (fips_sums _ (Hat _))))).
  done.
Qed.

Lemma fips_schedule chunk :
  length chunk = 64%nat → Forall is_byte chunk →
  schedule chunk = Fips.message_schedule (Fips.words chunk) ∧ Forall in32 (schedule chunk).
Proof.
  intros Hl Hb. destruct (fips_words 16 chunk) as (Hw & Hr & Hn); [done..|].
  unfold schedule. rewrite Hw. split; [|by apply extend_in32].
  apply fips_extend; [lia|done].
Qed.

(** ** The compression function *)
Definition hash_of (r : regs) : Fips.hash :=
  (ra r, rb r, rc r, rd r, re r, rf r, rg r, rh r).
Definition regs_ok (r : regs) : Prop :=
  Forall in32 [ra r; rb r; rc r; rd r; re r; rf r; rg r; rh r].
Definition regs_of (st : list Z) : regs :=
  Regs (at_ st 0) (at_ st 1) (at_ st 2) (at_ st 3) (at_ st 4) (at_ st 5) (at_ st 6) (at_ st 7).

Lemma fips_round r km :
  regs_ok r → Fips.round_t (hash_of r) km = hash_of (round r km) ∧ regs_ok (round r km).
Proof.
  destruct r as [a b c d e f g h], km as [Kt Wt]. unfold regs_ok. cbn [ra rb rc rd re rf rg rh]. intros Hr.
  repeat (apply Forall_cons in Hr as [? Hr]). split.
  - unfold hash_of, Fips.round_t, round. cbn [ra rb rc rd re rf rg rh fst snd].
    rewrite fips_ch, fips_maj by done.
    rewrite (proj1 (fips_sums a ltac:(done))), (proj1 (proj2 (fips_sums e ltac:(done)))). done.
  - repeat apply Forall_cons_2; try apply Forall_nil_2; done || apply in32_w32.
Qed.

Lemma fips_rounds kms r :
  regs_ok r →
  fold_left Fips.round_t kms (hash_of r) = hash_of (fold_left round kms r).
Proof.
  revert r. induction kms as [|km kms IH]; intros r Hr; [done|]. cbn [fold_left].
  destruct (fips_round r km Hr) as [-> Hr']. by apply IH.
Qed.

Definition add_regs (u v : regs) : list Z :=
  [w32 (ra u + ra v); w32 (rb u + rb v); w32 (rc u + rc v); w32 (rd u + rd v);
   w32 (re u + re v); w32 (rf u + rf v); w32 (rg u + rg v); w32 (rh u + rh v)].

Lemma transform_regs st chunk :
  transform st chunk = add_regs (regs_of st) (fold_left round (zip k (schedule chunk)) (regs_of st)).
Proof. unfold transform, add_regs. cbn [regs_of ra rb rc rd re rf rg rh]. reflexivity. Qed.

Lemma fips_add u v :
  Fips.add_hash (hash_of u) (hash_of v) = hash_of (regs_of (add_regs u v)) ∧ regs_ok (regs_of (add_regs u v)).
Proof.
  split; [by destruct u, v|]. unfold regs_ok, add_regs, regs_of, at_. cbn [nth ra rb rc rd re rf rg rh].
  by repeat apply Forall_cons_2; try apply Forall_nil_2; try apply in32_w32.
Qed.

Lemma fips_compress st chunk :
  length chunk = 64%nat → Forall is_byte chunk → regs_ok (regs_of st) →
  Fips.compress (hash_of (regs_of st)) (Fips.words chunk) =
    Fips.add_hash (hash_of (regs_of st))
      (hash_of (fold_left round (zip k (schedule chunk)) (regs_of st))).
Proof.
  intros Hl Hb Hst. rewrite <- fips_rounds by done.
  rewrite (proj1 (fips_schedule chunk Hl Hb)), <- (proj1 fips_constants). reflexivity.
Qed.

Lemma fips_transform st chunk :
  length chunk = 64%nat → Forall is_byte chunk → regs_ok (regs_of st) →
  Fips.compress (hash_of (regs_of st)) (Fips.words chunk) = hash_of (regs_of (transform st chunk)) ∧
  regs_ok (regs_of (transform st chunk)).
Proof.
  intros Hl Hb Hst. rewrite fips_compress, transform_regs by done.
  set (v := fold_left _ _ _). apply fips_add.
Qed.

(** Folds in step. *)
Lemma fold_left_sim {A B C D} (R : A → C → Prop) (P : D → Prop) (f : A → B → A) (g : C → D → C)
    (w : D → B) (ds : list D) :
  (∀ a c d, P d → R a c → R (f a (w d)) (g c d)) → Forall P ds →
  ∀ a c, R a c → R (fold_left f (map w ds) a) (fold_left g ds c).
Proof. intros Hs Hds. induction Hds as [|d ds Hd _ IH]; intros a c Hr; simpl; auto. Qed.

Definition same_hash (H : Fips.hash) (st : list Z) : Prop :=
  H = hash_of (regs_of st) ∧ regs_ok (regs_of st).

Lemma fips_transforms cs H st :
  Forall (λ c, length c = 64%nat ∧ Forall is_byte c) cs → same_hash H st →
  same_hash (fold_left Fips.compress (map Fips.words cs) H) (fold_left transform cs st).
Proof.
  intros Hcs. revert H st. apply (fold_left_sim same_hash _ _ _ _ _) with (2 := Hcs).
  intros H s c [Hl Hb] [-> Hok]. by apply fips_transform.
Qed.

(** ** Padding, blocks and printing *)
Lemma zeros_mod len : Fips.zeros len = Fips.zeros (len mod 64).
Proof.
  unfold Fips.zeros.
  rewrite (List.filter_ext _ (λ z, ((len mod 64 + 1 + z) mod 64 =? 56)%nat)); [done|]. intros z.
  replace ((len + 1 + z) mod 64)%nat with ((len mod 64 + 1 + z) mod 64)%nat; [done|].
  rewrite <- !Nat.add_assoc. by rewrite Nat.Div0.add_mod_idemp_l.
Qed.

Lemma fips_zeros len : Fips.zeros len = pad_zeros len.
Proof.
  rewrite zeros_mod. unfold pad_zeros.
  assert (∀ r, r ∈ seq 0 64 → Fips.zeros r = ((119 - r) mod 64)%nat) as H.
  { apply Forall_forall. by_decision. }
  apply H, elem_of_seq. pose proof (Nat.mod_upper_bound len 64). lia.
Qed.

(** A byte of a number shifted down. *)
Lemma land_byte x s : 0 ≤ s → Z.land (Z.shiftr x s) 255 = x / 2 ^ s mod 256.
Proof. intros Hs. change 255 with (Z.ones 8). by rewrite Z.land_ones, Z.shiftr_div_pow2. Qed.

Lemma w64_byte x s : 0 ≤ s → s + 8 ≤ 64 → Z.land (Z.shiftr (w64 x) s) 255 = x / 2 ^ s mod 256.
Proof.
  intros Hs H64. rewrite <- land_byte by done. apply Z.bits_inj'. intros i Hi.
  rewrite !Z.land_spec, !Z.shiftr_spec by done. unfold wrap.
  destruct (Z.lt_ge_cases i 8).
  - by rewrite Z.mod_pow2_bits_low by lia.
  - change 255 with (Z.ones 8). by rewrite (Z.ones_spec_high 8 i), !andb_false_r by lia.
Qed.

Lemma fips_length len : Fips.length_bytes len = be64 (w64 (8 * Z.of_nat len)).
Proof.
  unfold Fips.length_bytes, be64. apply map_ext_in. intros i [_ Hi]%in_seq.
  rewrite w64_byte by lia. f_equal. f_equal. change 256 with (2 ^ 8).
  rewrite <- Z.pow_mul_r by lia. f_equal. lia.
Qed.

Lemma fips_pad m : Fips.padded m = pad m.
Proof. unfold Fips.padded, pad. by rewrite fips_zeros, fips_length. Qed.

Lemma pad_bytes m : Forall is_byte m → Forall is_byte (pad m).
Proof.
  intros Hm. unfold pad. repeat (apply Forall_app; split); [done|by repeat constructor| |].
  - by apply Forall_replicate.
  - apply Forall_forall. intros b (i & -> & _)%list_elem_of_fmap.
    change 255 with (Z.ones 8). rewrite Z.land_ones by lia. apply Z.mod_pos_bound. lia.
Qed.

Lemma pad_length m : ∃ n, length (pad m) = (64 * n)%nat.
Proof.
  unfold pad. rewrite !length_app, length_replicate, length_be64. unfold pad_zeros.
  change (length [0x80]) with 1%nat.
  pose proof (Nat.div_mod_eq (length m) 64) as Hm.
  assert (length m mod 64 < 64)%nat as Hr by by apply Nat.mod_upper_bound.
  set (q := (length m / 64)%nat) in *. set (r := (length m mod 64)%nat) in *.
  destruct (Nat.le_gt_cases r 55).
  - exists (q + 1)%nat. replace (119 - r)%nat with (55 - r + 1 * 64)%nat by lia.
    rewrite Nat.Div0.mod_add, Nat.mod_small; lia.
  - exists (q + 2)%nat. rewrite (Nat.mod_small (119 - r)); lia.
Qed.

Lemma words_length n l : length l = (4 * n)%nat → length (Fips.words l) = n.
Proof.
  revert l. induction n as [|n IH]; intros l Hl; [by apply nil_length_inv in Hl as ->|].
  destruct l as [|b0 [|b1 [|b2 [|b3 l]]]]; simpl in *; try lia. f_equal. apply IH. lia.
Qed.

Lemma fips_blocks n l :
  length l = (64 * n)%nat → Forall is_byte l →
  Fips.sixteens n (Fips.words l) = map Fips.words (blocks n l) ∧
  Forall (λ c, length c = 64%nat ∧ Forall is_byte c) (blocks n l).
Proof.
  revert l. induction n as [|n IH]; intros l Hl Hb; [done|].
  assert (length (take 64 l) = 64%nat) as Ht by (rewrite length_take; lia).
  pose proof (words_length 16 (take 64 l) Ht) as H16.
  destruct (IH (drop 64 l)) as [IH1 IH2]; [rewrite length_drop; lia|by apply Forall_drop|].
  cbn [Fips.sixteens blocks map]. split.
  - assert (Fips.words l = Fips.words (take 64 l) ++ Fips.words (drop 64 l)) as ->.
    { rewrite <- words_app by (by rewrite Ht). by rewrite take_drop. }
    by rewrite take_app_length', drop_app_length', IH1 by done.
  - constructor; [|done]. split; [done|by apply Forall_take].
Qed.

Lemma hex_digit_at d : 0 ≤ d < 16 → hex_digit d = nth (Z.to_nat d) Fips.hex_digits "0"%char.
Proof.
  intros H. assert (d ∈ map Z.of_nat (seq 0 16)) as Hin.
  { apply list_elem_of_fmap. exists (Z.to_nat d). split; [lia|]. apply elem_of_seq. lia. }
  clear H. revert d Hin. apply Forall_forall. by_decision.
Qed.

(** One byte prints as two digits of the word. *)
Lemma hex_byte_digits x s :
  0 ≤ s → hex_byte (Z.land (Z.shiftr x s) 255) =
  map (λ t, nth (Z.to_nat (x / t mod 16)) Fips.hex_digits "0"%char) [2 ^ (s + 4); 2 ^ s].
Proof.
  intros Hs. rewrite land_byte by done. unfold hex_byte.
  rewrite !hex_digit_at by (split; [apply Z.div_pos || apply Z.mod_pos_bound|
    apply Z.div_lt_upper_bound || apply Z.mod_pos_bound]; try lia; apply Z.mod_pos_bound; lia).
  cbn [map]. rewrite Z.pow_add_r, <- Z.div_div by lia. change (2 ^ 4) with 16.
  set (y := x / 2 ^ s).
  assert (y mod 256 / 16 = y / 16 mod 16 ∧ (y mod 256) mod 16 = y mod 16) as [-> ->]; [|done].
  clearbody y. split; Z.to_euclidean_division_equations; lia.
Qed.

Lemma fips_hex x : Fips.hex_word x = concat (map hex_byte (word_bytes x)).
Proof.
  unfold Fips.hex_word, word_bytes. cbn [seq map concat]. rewrite !hex_byte_digits by lia.
  cbn [map app]. reflexivity.
Qed.

Lemma folded_eight m : ∃ a b c d e f g h, folded_state m = [a; b; c; d; e; f; g; h].
Proof.
  unfold folded_state. generalize (chunk64 (pad m)) as cs. intros cs.
  assert (∀ st, (∃ a b c d e f g h, st = [a; b; c; d; e; f; g; h]) →
    ∃ a b c d e f g h, fold_left transform cs st = [a; b; c; d; e; f; g; h]) as H.
  { induction cs as [|c cs IH]; intros st Hst; [done|]. apply IH. unfold transform. by eauto 10. }
  apply H. unfold initial_state. by eauto 10.
Qed.

(** The message's digest, padded and folded with the code's own [transform],
    is the standard's. *)
Lemma folded_is_fips m : Forall is_byte m → folded_sha256 m = Fips.SHA256 m.
Proof.
  intros Hm. destruct (pad_length m) as [n Hn].
  pose proof (pad_bytes m Hm) as Hb. destruct (fips_blocks n (pad m) Hn Hb) as [Hw Hok].
  assert (same_hash (Fips.final m) (folded_state m)) as [Hf _].
  { unfold Fips.final, folded_state, chunk64. rewrite fips_pad.
    rewrite (words_length (16 * n)) by lia. rewrite Hn.
    rewrite (Nat.mul_comm 16), (Nat.mul_comm 64), !Nat.div_mul, Hw by done.
    apply fips_transforms; [done|]. unfold Fips.initial. rewrite (proj2 fips_constants).
    split; [reflexivity|]. by repeat constructor. }
  unfold Fips.SHA256, folded_sha256. rewrite Hf. unfold hash_of. rewrite !fips_hex.
  destruct (folded_eight m) as (a & b & c & d & e & f & g & h & ->).
  cbn [regs_of at_ nth ra rb rc rd re rf rg rh map concat]. rewrite !app_nil_r.
  by rewrite !map_app, !concat_app.
Qed.

(** ** Properties *)

(** C8: the streaming hasher is SHA-256.  However a message of bytes is cut
    into [update] calls, and whatever the 64-byte buffer held before [reset],
    the digest is the one FIPS 180-4 defines for the concatenation of the
    pieces: [Fips.SHA256], a reference that shares nothing with the code
    (bit-by-bit words, constants computed from the primes, the standard's
    schedule, rounds, padding and printing). *)
Theorem sha256_streaming_is_fips (s0 : SHA256) (ds : list (list Z)) :
  length (data_ s0) = 64%nat → Forall (Forall is_byte) ds →
  digest (fold_left update ds (reset s0)) = Fips.SHA256 (concat ds).
Proof.
  intros H Hb. rewrite <- folded_is_fips by by apply Forall_concat.
  apply finalize_folded. apply (updates_absorbed _ []). by apply reset_absorbed.
Qed.

Lemma sha256_streaming_is_fips_witness :
  length (data_ fresh) = 64%nat ∧
  digest (fold_left update [[97]; replicate 70 98; [99]] (reset fresh)) =
    Fips.SHA256 ([97] ++ replicate 70 98 ++ [99]).
Proof.
  split; [reflexivity|].
  apply (sha256_streaming_is_fips fresh [[97]; replicate 70 98; [99]] eq_refl).
  by_decision.
Defined.

(** The one-call [sha256] of the character strings every other file uses. *)
Lemma sha256_is_fips (data : bytes) : sha256 data = Fips.SHA256 (map byte_val data).
Proof.
  rewrite <- folded_is_fips.
  - unfold sha256, digest. apply finalize_folded, (update_absorbed _ []), fresh_absorbed.
  - apply Forall_forall. intros b (c & -> & _)%list_elem_of_fmap.
    destruct c as [[] [] [] [] [] [] [] []]; by vm_compute.
Qed.

(** A digest is always 64 lower-case hexadecimal characters. *)
Theorem sha256_hex_shape (data : bytes) :
  length (sha256 data) = 64%nat ∧ Forall (λ c, hex_char c = true) (sha256 data).
Proof. apply finalize_shape. Qed.
