(* ===== verification/Metadata.v ===== *)
(** * Metadata: the head server's on-disk metadata store
    (src/src/head_server/redis_handler.hpp, the build without Redis)

    The in-memory [unordered_map] is a [gmap]; the order in which
    [persist_locked] walks it is a [HashOrder].  The database file is the byte
    string [disk]; [writable] says whether opening it for writing succeeds. *)
From Stdlib Require Import Lia.
From S2P Require Import Prelude.
From S2P Require Import Text.
From S2P Require Import Ordered.
Local Open Scope Z_scope.

(** ** Data *)
Definition file_key (id : bytes) : bytes := lit "file:" ++ id.

Definition encode_loc (server path : bytes) : bytes := server ++ "|"%char :: path.
Definition decode_loc (v : bytes) : bytes * bytes :=
  match find_char "|"%char v with
  | None => (v, [])
  | Some p => (take p v, drop (p + 1) v)
  end.

Record ChunkRecord := mkChunk {
  chunk_id : Z;            (* long long *)
  server : bytes;
  path : bytes;
  checksum : bytes;
  replica_count : Z        (* int *)
}.

Record FileRecord := mkFile {
  file_hash : bytes;
  file_replicas : Z;       (* int replica_count{0} *)
  chunks : list ChunkRecord
}.
Definition empty_file : FileRecord := mkFile [] 0 [].

#[export] Instance ChunkRecord_eq_dec : EqDecision ChunkRecord.
Proof. solve_decision. Defined.
#[export] Instance FileRecord_eq_dec : EqDecision FileRecord.
Proof. solve_decision. Defined.

Definition with_replicas (c : ChunkRecord) (n : Z) : ChunkRecord :=
  mkChunk (chunk_id c) (server c) (path c) (checksum c) n.
Definition with_chunks (r : FileRecord) (cs : list ChunkRecord) : FileRecord :=
  mkFile (file_hash r) (file_replicas r) cs.

Abbreviation MetadataMap := (gmap bytes FileRecord).

Record MetaState := mkMeta {
  store : MetadataMap;
  disk : bytes;
  writable : bool
}.

(** ** Replica counting: [std::map<long long, int> cid_counts] *)
Definition bump (m : gmap Z Z) (id : Z) : gmap Z Z :=
  <[id := default 0 (m !! id) + 1]> m.
Definition cid_counts (cs : list ChunkRecord) : gmap Z Z :=
  fold_left (λ m c, bump m (chunk_id c)) cs ∅.
Definition count_of (m : gmap Z Z) (id : Z) : Z := default 0 (m !! id).

(** [cid_counts.begin()->second] *)
Definition first_count (m : gmap Z Z) : option Z := snd <$> head (zmap_list m).

(** [for (auto &cr : chunks) cr.replica_count = cid_counts[cr.chunk_id]] *)
Definition recount (cs : list ChunkRecord) : list ChunkRecord :=
  map (λ c, with_replicas c (count_of (cid_counts cs) (chunk_id c))) cs.

(** The variant that only fills in missing counts. *)
Definition fill_counts (cs : list ChunkRecord) : list ChunkRecord :=
  map (λ c, if decide (replica_count c ≤ 0)
            then with_replicas c (count_of (cid_counts cs) (chunk_id c)) else c) cs.

Definition default_file_replicas (n : Z) (cs : list ChunkRecord) : Z :=
  if decide (n ≤ 0) then default n (first_count (cid_counts cs)) else n.

(** ** [load_from_disk] *)
Definition map_at (m : MetadataMap) (file : bytes) : FileRecord :=
  default empty_file (m !! file).
Definition set_at (m : MetadataMap) (file : bytes) (f : FileRecord → FileRecord)
  : MetadataMap := <[file := f (map_at m file)]> m.

Definition set_hash (h : bytes) (r : FileRecord) : FileRecord :=
  mkFile h (file_replicas r) (chunks r).
Definition set_replicas (n : Z) (r : FileRecord) : FileRecord :=
  mkFile (file_hash r) n (chunks r).
Definition add_chunk (c : ChunkRecord) (r : FileRecord) : FileRecord :=
  with_chunks r (chunks r ++ [c]).

(** [iss >> record.checksum; if (!(iss >> record.replica_count)) .. = dflt;]:
    once an extraction fails the stream stays failed. *)
Definition read_tail (dflt : Z) (s : bytes) : bytes * Z :=
  match read_word s with
  | None => ([], dflt)
  | Some (chk, s') =>
      (chk, match read_int s' with Some (n, _) => n | None => dflt end)
  end.

Definition load_fields (m : MetadataMap) (line : bytes) : MetadataMap :=
  match read_word line with
  | None => m
  | Some (file, s) =>
    match read_word s with
    | None => m
    | Some (token2, s) =>
      if starts_with (lit "HASH=") token2 then
        set_at m file (set_hash (drop 5 token2))
      else if starts_with (lit "REPLICAS=") token2 then
        match stoi (drop 9 token2) with
        | Val n => set_at m file (set_replicas n)
        | Throw _ => m
        end
      else
        match stoll token2 with
        | Throw _ => m
        | Val id =>
          match read_word s with
          | None => m
          | Some (srv, s) =>
            match read_word s with
            | None => m
            | Some (pth, s) =>
              let '(chk, n) := read_tail 1 s in
              set_at m file (add_chunk (mkChunk id srv pth chk n))
            end
          end
        end
    end
  end.

Definition load_line (m : MetadataMap) (line : bytes) : MetadataMap :=
  match line with [] => m | _ => load_fields m line end.

(** "Ensure replica counts are consistent" *)
Definition fix_counts (cs : list ChunkRecord) : list ChunkRecord :=
  map (λ c, let n := count_of (cid_counts cs) (chunk_id c) in
            if decide (replica_count c ≤ 0 ∨ replica_count c ≠ n)
            then with_replicas c n else c) cs.
Definition normalize (r : FileRecord) : FileRecord :=
  mkFile (file_hash r)
         (if decide (file_replicas r ≤ 0)
          then default (file_replicas r) (first_count (cid_counts (chunks r)))
          else file_replicas r)
         (fix_counts (chunks r)).

Definition load_from_disk (content : bytes) : MetadataMap :=
  normalize <$> fold_left load_line (getlines nl content) ∅.

(** ** [persist_locked] *)
Definition chunk_line (file : bytes) (c : ChunkRecord) : bytes :=
  file ++ sp :: show_Z (chunk_id c) ++ sp :: server c ++ sp :: path c
       ++ sp :: checksum c ++ sp :: show_Z (replica_count c).

Definition entry_lines (kv : bytes * FileRecord) : list bytes :=
  let '(file, r) := kv in
  (if decide (file_hash r = []) then [] else [file ++ sp :: lit "HASH=" ++ file_hash r])
  ++ (if decide (0 < file_replicas r)
      then [file ++ sp :: lit "REPLICAS=" ++ show_Z (file_replicas r)] else [])
  ++ map (chunk_line file) (chunks r).

Definition to_text (lines : list bytes) : bytes := concat (map (λ l, l ++ [nl]) lines).

Section operations.
Context `{!HashOrder bytes FileRecord}.

Definition persist_image (m : MetadataMap) : bytes :=
  to_text (concat (map entry_lines (hash_order m))).

Definition persist_locked (s : MetaState) : MetaState :=
  if writable s then mkMeta (store s) (persist_image (store s)) (writable s) else s.

Definition with_store (s : MetaState) (m : MetadataMap) : MetaState :=
  mkMeta m (disk s) (writable s).

(** ** Operations *)
Definition replace_file_chunks (s : MetaState) (file hash : bytes)
    (cs : list ChunkRecord) (replicas : Z) : MetaState :=
  persist_locked (with_store s
    (<[file := mkFile hash (default_file_replicas replicas cs) (fill_counts cs)]> (store s))).

Definition get_chunks (s : MetaState) (file : bytes) : FileRecord :=
  default empty_file (store s !! file).

Definition remove_file (s : MetaState) (file : bytes) : MetaState :=
  persist_locked (with_store s (delete file (store s))).

Definition list_files_snapshot (s : MetaState) : list bytes :=
  sorted_strings (hash_order (store s)).*1.
Definition list_all_files (s : MetaState) : list bytes := list_files_snapshot s.

(** One iteration of the loop of [atomic_replace_server_chunks]. *)
Definition replace_in_file (dead : bytes) (m : MetadataMap)
    (upd : bytes * list ChunkRecord) : MetadataMap :=
  let '(file, new_chunks) := upd in
  match m !! file with
  | None => m
  | Some r =>
      let cs := filter (λ c, server c ≠ dead) (chunks r) ++ new_chunks in
      let n := match cs with
               | [] => file_replicas r
               | _ :: _ => default (file_replicas r) (first_count (cid_counts cs))
               end in
      <[file := mkFile (file_hash r) n (recount cs)]> m
  end.

Definition atomic_replace_server_chunks (s : MetaState) (dead new_server : bytes)
    (updates : gmap bytes (list ChunkRecord)) : MetaState * bool :=
  (persist_locked (with_store s
     (fold_left (replace_in_file dead) (smap_list updates) (store s))), true).

Definition drop_server (addr : bytes) (r : FileRecord) : FileRecord :=
  with_chunks r (recount (filter (λ c, server c ≠ addr) (chunks r))).

Definition delete_server_metadata (s : MetaState) (addr : bytes) : MetaState :=
  persist_locked (with_store s (drop_server addr <$> store s)).

Definition query_metadata (s : MetaState) (file : bytes) : FileRecord :=
  match file with [] => empty_file | _ => get_chunks s file end.

Definition delete_entry (s : MetaState) (file : bytes) : MetaState :=
  match file with [] => s | _ => remove_file s file end.

(** ** [create_entry]: parse an upload request *)
Definition pop_prefixed (p : bytes) (lines : list bytes) : option bytes * list bytes :=
  match lines with
  | l :: ls => if starts_with p l then (Some (drop (length p) l), ls) else (None, lines)
  | [] => (None, [])
  end.

Definition parse_entry_line (l : bytes) : option ChunkRecord :=
  '(id, s) ← read_ll l;
  '(srv, s) ← read_word s;
  '(pth, s) ← read_word s;
  let '(chk, n) := read_tail 0 s in
  Some (mkChunk id srv pth chk n).

Definition create_entry (s : MetaState) (request : bytes) : MetaState :=
  let '(file, rest) := default ([], []) (getline nl request) in
  let raw := filter (λ l, l ≠ []) (getlines nl rest) in
  let '(_, raw) := pop_prefixed (lit "TTL=") raw in
  let '(h, raw) := pop_prefixed (lit "HASH=") raw in
  let '(r, raw) := pop_prefixed (lit "REPLICAS=") raw in
  let replicas := match r with
                  | Some v => try_catch (stoi v) 0
                  | None => 0
                  end in
  let cs := fill_counts (omap parse_entry_line raw) in
  replace_file_chunks s file (default [] h) cs (default_file_replicas replicas cs).

(** ** [read_entry]: what is printed, on stderr or stdout *)
Inductive output := Out (b : bytes) | Err (b : bytes).

Definition show_chunk (with_checksum : bool) (c : ChunkRecord) : bytes :=
  lit "chunk:" ++ show_Z (chunk_id c) ++ lit " server=" ++ server c
  ++ lit " path=" ++ path c
  ++ (if with_checksum then lit " checksum=" ++ checksum c else [])
  ++ lit " replicas=" ++ show_Z (replica_count c) ++ [nl].

Definition read_entry (s : MetaState) (request : bytes) : list output :=
  match read_word request with
  | None => [Err (lit "read_entry: file_name required" ++ [nl])]
  | Some (file, rest) =>
      let r := query_metadata s file in
      match chunks r with
      | [] => [Out (lit "No chunks or file not found" ++ [nl])]
      | cs =>
        (if decide (file_hash r = []) then []
         else [Out (lit "file_hash=" ++ file_hash r ++ [nl])])
        ++ [Out (lit "replica_count=" ++ show_Z (file_replicas r) ++ [nl])]
        ++ match read_ll rest with
           | Some (id, _) =>
               match list_find (λ c, chunk_id c = id) cs with
               | Some (_, c) => [Out (show_chunk true c)]
               | None => [Out (lit "Chunk not found" ++ [nl])]
               end
           | None =>
               map (λ c, Out (show_chunk (negb (bool_decide (checksum c = []))) c)) cs
           end
      end
  end.

(** Process start: [static MetadataMap data = load_from_disk();] *)
Definition restart (s : MetaState) : MetaState :=
  mkMeta (load_from_disk (disk s)) (disk s) (writable s).
End operations.

Lemma Forall_kept {A} (P Q : A → Prop) `{∀ x, Decision (Q x)} l :
  Forall P l → Forall P (filter Q l).
Proof.
  rewrite !Forall_forall. intros H' x [_ Hx]%list_elem_of_filter. by apply H'.
Qed.

(** ** Counting lemmas *)
Definition occurrences (cs : list ChunkRecord) (id : Z) : Z :=
  Z.of_nat (length (filter (λ c, chunk_id c = id) cs)).

Lemma bump_count m id j :
  count_of (bump m id) j = count_of m j + (if decide (id = j) then 1 else 0).
Proof.
  unfold count_of, bump. rewrite lookup_insert. case_decide; subst; simpl; lia.
Qed.

Lemma cid_counts_count cs id : count_of (cid_counts cs) id = occurrences cs id.
Proof.
  unfold cid_counts, occurrences.
  assert (∀ m, count_of (fold_left (λ m c, bump m (chunk_id c)) cs m) id =
               count_of m id + Z.of_nat (length (filter (λ c, chunk_id c = id) cs))) as H.
  { induction cs as [|c cs IH]; intros m; [simpl; lia|].
    cbn [fold_left]. rewrite IH, bump_count, filter_cons.
    repeat case_decide; try done; cbn [length]; lia. }
  rewrite H. done.
Qed.

Lemma cid_counts_is_Some cs id :
  is_Some (cid_counts cs !! id) ↔ id ∈ map chunk_id cs.
Proof.
  unfold cid_counts.
  assert (∀ m, is_Some (fold_left (λ m c, bump m (chunk_id c)) cs m !! id) ↔
               is_Some (m !! id) ∨ id ∈ map chunk_id cs) as H.
  { induction cs as [|c cs IH]; intros m; cbn [fold_left map].
    - rewrite elem_of_nil. tauto.
    - rewrite IH, elem_of_cons. unfold bump. rewrite lookup_insert_is_Some'.
      split; [intros [[->|?]|?]|intros [?|[->|?]]]; eauto. }
  rewrite H, lookup_empty. split; [intros [[? [=]]|?]|]; auto.
Qed.

Lemma occurrences_pos cs c : c ∈ cs → 0 < occurrences cs (chunk_id c).
Proof.
  intros Hc. unfold occurrences.
  assert (c ∈ filter (λ c', chunk_id c' = chunk_id c) cs) as Hin
    by by apply list_elem_of_filter.
  destruct (filter _ cs); [by apply elem_of_nil in Hin|]. simpl. lia.
Qed.

Lemma occurrences_le cs id : occurrences cs id ≤ Z.of_nat (length cs).
Proof. unfold occurrences. pose proof (length_filter (λ c, chunk_id c = id) cs). lia. Qed.

Lemma first_count_Some cs :
  cs ≠ [] → ∃ c, c ∈ cs ∧ first_count (cid_counts cs) = Some (occurrences cs (chunk_id c)).
Proof.
  intros Hne. unfold first_count.
  destruct (zmap_list (cid_counts cs)) as [|[id n] l] eqn:E.
  - destruct cs as [|c cs]; [done|].
    assert (is_Some (cid_counts (c :: cs) !! chunk_id c)) as [n Hn].
    { apply cid_counts_is_Some. simpl. set_solver. }
    apply (elem_of_ordered Z.le) in Hn. rewrite E in Hn. by apply elem_of_nil in Hn.
  - assert ((id, n) ∈ zmap_list (cid_counts cs)) as Hin by (rewrite E; set_solver).
    apply elem_of_ordered in Hin as Hl.
    assert (id ∈ map chunk_id cs) as (c & -> & Hc)%list_elem_of_fmap
      by (apply cid_counts_is_Some; by eexists).
    exists c. split; [done|]. simpl. rewrite <- cid_counts_count.
    unfold count_of. by rewrite Hl.
Qed.

(** Every record carries the number of replicas of its chunk. *)
Definition consistent (cs : list ChunkRecord) : Prop :=
  ∀ c, c ∈ cs → replica_count c = occurrences cs (chunk_id c).

Lemma occurrences_map f cs id :
  (∀ c, chunk_id (f c) = chunk_id c) → occurrences (map f cs) id = occurrences cs id.
Proof.
  intros Hf. unfold occurrences. f_equal.
  induction cs as [|c cs IH]; [done|]. cbn [map]. rewrite !filter_cons, Hf.
  case_decide; simpl; congruence.
Qed.

Lemma recount_consistent cs : consistent (recount cs).
Proof.
  intros c Hc. apply list_elem_of_fmap in Hc as (c' & -> & Hc'). simpl.
  unfold recount. rewrite occurrences_map by done. apply cid_counts_count.
Qed.

Lemma map_id_ext {A} (f : A → A) (l : list A) :
  (∀ x, x ∈ l → f x = x) → map f l = l.
Proof.
  induction l as [|x l IH]; intros H; [done|]. cbn [map]. f_equal; [|apply IH]; set_solver.
Qed.

Lemma with_replicas_id c n : replica_count c = n → with_replicas c n = c.
Proof. intros <-. by destruct c. Qed.

Lemma recount_id cs : consistent cs → recount cs = cs.
Proof.
  intros H. apply map_id_ext. intros c Hc. apply with_replicas_id.
  rewrite cid_counts_count. auto.
Qed.

Lemma recount_fields cs : map (λ c, with_replicas c 0) (recount cs) =
                          map (λ c, with_replicas c 0) cs.
Proof. unfold recount. rewrite map_map. by apply map_ext. Qed.

Lemma fill_counts_positive cs : Forall (λ c, 0 < replica_count c) cs → fill_counts cs = cs.
Proof.
  intros Hcs. unfold fill_counts. apply map_id_ext, Forall_forall.
  eapply Forall_impl; [exact Hcs|]. intros c Hc. cbn in Hc. rewrite decide_False; [done|]. lia.
Qed.

Lemma fill_counts_consistent cs :
  (∀ c, c ∈ cs → replica_count c ≤ 0 ∨ replica_count c = occurrences cs (chunk_id c)) →
  fill_counts cs = recount cs.
Proof.
  intros H. apply map_ext_in. intros c Hc%list_elem_of_In. case_decide; [done|].
  symmetry. apply with_replicas_id. rewrite cid_counts_count. destruct (H _ Hc); lia.
Qed.

Lemma fix_counts_recount cs : fix_counts cs = recount cs.
Proof.
  apply map_ext_in. intros c _. simpl. case_decide; [done|].
  symmetry. apply with_replicas_id. lia.
Qed.

(** ** Well-formed records: what the text format can carry *)
Record wf_chunk (c : ChunkRecord) : Prop := {
  wfc_id : LLONG_MIN ≤ chunk_id c ≤ LLONG_MAX;
  wfc_server : word (server c);
  wfc_path : word (path c);
  wfc_checksum : word (checksum c)
}.

Record wf_file (r : FileRecord) : Prop := {
  wff_hash : Forall (λ c, is_space c = false) (file_hash r);
  wff_replicas : 0 ≤ file_replicas r ≤ INT_MAX;
  wff_some : file_hash r ≠ [] ∨ 0 < file_replicas r;
  wff_pos : chunks r ≠ [] → 0 < file_replicas r;
  wff_chunks : Forall wf_chunk (chunks r);
  wff_consistent : consistent (chunks r);
  wff_small : Z.of_nat (length (chunks r)) ≤ INT_MAX
}.

Definition wf_store (m : MetadataMap) : Prop :=
  map_Forall (λ file r, word file ∧ wf_file r) m.

Lemma normalize_wf r : wf_file r → normalize r = r.
Proof.
  intros [_ Hrep _ Hpos _ Hcons _]. destruct r as [h n cs]; simpl in *.
  unfold normalize; simpl. f_equal.
  - case_decide; [|done]. destruct cs as [|c cs]; [done|].
    exfalso. assert (c :: cs ≠ []) as Hne by done. specialize (Hpos Hne). lia.
  - rewrite fix_counts_recount. by apply recount_id.
Qed.

(** ** Writing and loading back *)
Lemma getlines_to_text ls :
  Forall (no_char nl) ls → getlines nl (to_text ls) = ls.
Proof.
  induction 1 as [|l ls Hl _ IH]; [done|]. cbn [to_text map concat].
  unfold to_text in IH |- *. rewrite <- app_assoc. simpl.
  rewrite getlines_cons by done. by rewrite IH.
Qed.

Lemma word_no_nl w : Forall (λ c, is_space c = false) w → no_char nl w.
Proof. intros H Hin. rewrite Forall_forall in H. by specialize (H _ Hin). Qed.

(** What a line does to the map, as a function on the file's record. *)
Definition line_effect (file line : bytes) (f : FileRecord → FileRecord) : Prop :=
  ∀ m, load_line m line = set_at m file f.

Lemma read_two file token rest :
  word file → word token →
  match rest with [] => True | c :: _ => is_space c = true end →
  read_word (file ++ sp :: token ++ rest) = Some (file, sp :: token ++ rest) ∧
  read_word (sp :: token ++ rest) = Some (token, rest).
Proof.
  intros Hf Ht Hr. split; [by apply read_word_sep|].
  rewrite read_word_skip by done. destruct rest as [|c rest].
  - rewrite app_nil_r. by apply read_word_end.
  - by apply read_word_sep.
Qed.

Lemma load_line_fields m line : load_line m line = load_fields m line.
Proof. by destruct line. Qed.

Lemma hash_line_effect file h :
  word file → Forall (λ c, is_space c = false) h →
  line_effect file (file ++ sp :: lit "HASH=" ++ h) (set_hash h).
Proof.
  intros Hf Hh m. rewrite load_line_fields. unfold load_fields.
  destruct (read_two file (lit "HASH=" ++ h) []) as [H1 H2]; [done| |done|].
  { apply word_app; [lit_word|done]. }
  rewrite app_nil_r in H1, H2. by rewrite H1, H2, starts_with_app.
Qed.

Lemma replicas_line_effect file n :
  word file → INT_MIN ≤ n ≤ INT_MAX →
  line_effect file (file ++ sp :: lit "REPLICAS=" ++ show_Z n) (set_replicas n).
Proof.
  intros Hf Hn m. rewrite load_line_fields. unfold load_fields.
  destruct (read_two file (lit "REPLICAS=" ++ show_Z n) []) as [H1 H2]; [done| |done|].
  { apply word_app; [lit_word|]. apply word_show_Z. }
  rewrite app_nil_r in H1, H2. rewrite H1, H2, starts_with_app.
  change (drop 9 (lit "REPLICAS=" ++ show_Z n)) with (show_Z n).
  by rewrite stoi_show.
Qed.

Lemma show_Z_not_prefix p z :
  match p with [] => False | c :: _ => is_digit c = false ∧ c ≠ "-"%char end →
  starts_with p (show_Z z) = false.
Proof.
  destruct p as [|c p]; [done|]. intros [Hd Hm].
  destruct (show_Z z) as [|d s] eqn:E; [done|]. simpl.
  rewrite bool_decide_false; [done|]. intros <-.
  unfold show_Z in E. destruct (z <? 0); [congruence|].
  pose proof (show_N_digits (Z.to_N z)) as HF. rewrite E in HF.
  inversion_clear HF. congruence.
Qed.

Lemma read_tail_words dflt chk n s :
  word chk → INT_MIN ≤ n ≤ INT_MAX →
  s = sp :: chk ++ sp :: show_Z n → read_tail dflt s = (chk, n).
Proof.
  intros Hc Hn ->. unfold read_tail. rewrite read_word_skip by done.
  rewrite read_word_sep by done. unfold read_int. rewrite read_range_skip by done.
  rewrite <- (app_nil_r (show_Z n)). by rewrite read_range_show.
Qed.

Lemma chunk_line_effect file c :
  word file → wf_chunk c → INT_MIN ≤ replica_count c ≤ INT_MAX →
  line_effect file (chunk_line file c) (add_chunk c).
Proof.
  intros Hf [Hid Hs Hp Hc] Hr m. rewrite load_line_fields.
  unfold load_fields, chunk_line.
  rewrite read_word_sep, read_word_skip, read_word_sep by auto with text.
  rewrite !show_Z_not_prefix by done.
  rewrite stoll_show by done.
  rewrite read_word_skip, read_word_sep by done.
  rewrite read_word_skip, read_word_sep by done.
  rewrite (read_tail_words 1 (checksum c) (replica_count c)) by done.
  by destruct c.
Qed.

Lemma load_lines_effects file lines fs m :
  Forall2 (line_effect file) lines fs → fs ≠ [] →
  fold_left load_line lines m =
    <[file := fold_left (λ r f, f r) fs (map_at m file)]> m.
Proof.
  intros H. revert m. induction H as [|l f lines fs Hl H IH]; intros m Hne; [done|].
  cbn [fold_left]. rewrite (Hl m). destruct fs as [|f' fs].
  { by inversion H. }
  rewrite IH by done. unfold set_at, map_at at 1.
  by rewrite lookup_insert_eq, insert_insert_eq.
Qed.

Lemma add_chunks_fold cs r :
  fold_left (λ r (f : FileRecord → FileRecord), f r) (map add_chunk cs) r =
  with_chunks r (chunks r ++ cs).
Proof.
  revert r. induction cs as [|c cs IH]; intros r; cbn [map fold_left].
  - rewrite app_nil_r. by destruct r.
  - rewrite IH. unfold add_chunk, with_chunks. simpl. by rewrite <- app_assoc.
Qed.

Definition entry_effects (r : FileRecord) : list (FileRecord → FileRecord) :=
  (if decide (file_hash r = []) then [] else [set_hash (file_hash r)])
  ++ (if decide (0 < file_replicas r) then [set_replicas (file_replicas r)] else [])
  ++ map add_chunk (chunks r).

Lemma entry_effects_spec file r :
  word file → wf_file r → Forall2 (line_effect file) (entry_lines (file, r)) (entry_effects r).
Proof.
  intros Hf [Hh Hrep Hsome Hpos Hcs Hcons Hsmall]. unfold entry_effects, entry_lines.
  apply Forall2_app; [|apply Forall2_app].
  - case_decide; repeat constructor. by apply hash_line_effect.
  - case_decide; repeat constructor. apply replicas_line_effect; [done|].
    unfold INT_MIN. lia.
  - apply Forall2_fmap_l, Forall2_fmap_r, Forall_Forall2_diag.
    rewrite Forall_forall in Hcs |- *. intros c Hc.
    apply chunk_line_effect; auto. rewrite (Hcons _ Hc).
    pose proof (occurrences_le (chunks r) (chunk_id c)).
    pose proof (occurrences_pos _ _ Hc). unfold INT_MIN. lia.
Qed.

Lemma entry_effects_fold r :
  wf_file r → entry_effects r ≠ [] ∧
  fold_left (λ r (f : FileRecord → FileRecord), f r) (entry_effects r) empty_file = r.
Proof.
  intros [Hh Hrep Hsome Hpos _ _ _]. unfold entry_effects. split.
  - intros [H1 [H2 _]%app_nil]%app_nil. repeat case_decide; try done.
    destruct Hsome; [done|lia].
  - rewrite !fold_left_app, add_chunks_fold.
    destruct r as [h n cs]; simpl in *.
    repeat case_decide; subst; unfold with_chunks; simpl; try done.
    all: f_equal; lia.
Qed.

Lemma load_entry file r m :
  word file → wf_file r → m !! file = None →
  fold_left load_line (entry_lines (file, r)) m = <[file := r]> m.
Proof.
  intros Hf Hr Hm. destruct (entry_effects_fold r Hr) as [Hne He].
  rewrite (load_lines_effects file _ (entry_effects r)); [|by apply entry_effects_spec|done].
  unfold map_at. rewrite Hm. simpl. by rewrite He.
Qed.

Lemma load_entries es m :
  NoDup es.*1 → Forall (λ p, word p.1 ∧ wf_file p.2) es →
  Forall (λ p, m !! p.1 = None) es →
  fold_left load_line (concat (map entry_lines es)) m = list_to_map es ∪ m.
Proof.
  revert m. induction es as [|[file r] es IH]; intros m Hnd Hwf Hm; cbn [map concat].
  - simpl. by rewrite (left_id_L ∅ (∪)).
  - inversion_clear Hnd as [|? ? Hni Hnd']. inversion_clear Hwf as [|? ? [Hf Hr] Hwf'].
    inversion_clear Hm as [|? ? Hm1 Hm2]. cbn [fst snd] in *.
    rewrite fold_left_app, load_entry by done. rewrite IH; [|done..|].
    + rewrite list_to_map_cons, <- insert_union_l, insert_union_r; [done|].
      apply not_elem_of_list_to_map_1. done.
    + rewrite Forall_forall in Hm2 |- *. intros p Hp. rewrite lookup_insert_ne; [auto|].
      intros ->. apply Hni. by apply list_elem_of_fmap_2.
Qed.

Lemma entry_lines_no_nl file r :
  word file → wf_file r → Forall (no_char nl) (entry_lines (file, r)).
Proof.
  intros [_ Hf] [Hh Hrep Hsome Hpos Hcs Hcons Hsmall].
  assert (∀ z, no_char nl (show_Z z)) as Hz by (intros; apply word_no_nl, word_show_Z).
  assert (∀ w c, no_char nl w → c ≠ nl → no_char nl (c :: w)) as Hc.
  { intros w c Hw Hne. unfold no_char in *. rewrite not_elem_of_cons. auto. }
  assert (∀ a b, no_char nl a → no_char nl b → no_char nl (a ++ b)) as Ha.
  { intros a b H1 H2. unfold no_char in *. rewrite not_elem_of_app. auto. }
  apply word_no_nl in Hf, Hh. unfold entry_lines. rewrite !Forall_app. split_and!.
  - case_decide; repeat constructor. repeat (apply Ha || apply Hc || done); by lit_no_char.
  - case_decide; repeat constructor. repeat (apply Ha || apply Hc || done || apply Hz); by lit_no_char.
  - apply Forall_fmap. eapply Forall_impl; [exact Hcs|].
    intros c [_ [_ H1%word_no_nl] [_ H2%word_no_nl] [_ H3%word_no_nl]]. simpl.
    unfold chunk_line. repeat (apply Ha || apply Hc || apply Hz || done).
Qed.

Section durability.
Context `{!HashOrder bytes FileRecord}.

Lemma entries_wf m :
  wf_store m → Forall (λ p, word p.1 ∧ wf_file p.2) (hash_order m).
Proof.
  intros Hwf. apply Forall_forall. intros [file r] Hin%elem_of_hash_order.
  apply (Hwf _ _ Hin).
Qed.

Lemma list_to_map_hash_order (m : MetadataMap) : list_to_map (hash_order m) = m.
Proof.
  apply map_eq. intros file. apply option_eq. intros r.
  rewrite <- elem_of_list_to_map by apply hash_order_NoDup. apply elem_of_hash_order.
Qed.

Lemma load_persist_image m : wf_store m → load_from_disk (persist_image m) = m.
Proof.
  intros Hwf. unfold load_from_disk, persist_image. rewrite getlines_to_text.
  2: { pose proof (entries_wf m Hwf) as HF. induction HF as [|[file r] es [Hf Hr] _ IH];
       cbn [map concat]; [done|]. apply Forall_app. split; [|done].
       by apply entry_lines_no_nl. }
  rewrite load_entries; [|apply hash_order_NoDup|by apply entries_wf|].
  - rewrite (right_id_L ∅ (∪)), list_to_map_hash_order.
    apply map_eq. intros file. rewrite lookup_fmap.
    destruct (m !! file) as [r|] eqn:E; [|done]. simpl. f_equal.
    apply normalize_wf, (Hwf _ _ E).
  - apply Forall_forall. intros p _. apply lookup_empty.
Qed.

(** ** The mutating operations as steps *)
Inductive meta_op :=
  | OpReplaceFile (file hash : bytes) (cs : list ChunkRecord) (replicas : Z)
  | OpRemove (file : bytes)
  | OpReplaceServer (dead new_server : bytes) (updates : gmap bytes (list ChunkRecord))
  | OpDeleteServer (addr : bytes).

Definition run_op (s : MetaState) (op : meta_op) : MetaState :=
  match op with
  | OpReplaceFile file hash cs n => replace_file_chunks s file hash cs n
  | OpRemove file => remove_file s file
  | OpReplaceServer dead new_server upd => (atomic_replace_server_chunks s dead new_server upd).1
  | OpDeleteServer addr => delete_server_metadata s addr
  end.

(** Arguments the text format can carry. *)
Definition op_ok (op : meta_op) : Prop :=
  match op with
  | OpReplaceFile file hash cs n =>
      word file ∧ Forall (λ c, is_space c = false) hash ∧ 0 ≤ n ≤ INT_MAX ∧
      (hash ≠ [] ∨ 0 < n ∨ cs ≠ []) ∧ Forall wf_chunk cs ∧
      (∀ c, c ∈ cs → replica_count c ≤ 0 ∨ replica_count c = occurrences cs (chunk_id c))
  | OpRemove _ | OpDeleteServer _ => True
  | OpReplaceServer _ _ upd => map_Forall (λ _ cs, Forall wf_chunk cs) upd
  end.

(** No file has more chunk records than an [int] counts. *)
Definition small_store (m : MetadataMap) : Prop :=
  map_Forall (λ _ r, Z.of_nat (length (chunks r)) ≤ INT_MAX) m.

Inductive meta_step : MetaState → MetaState → Prop :=
  | meta_step_op s op :
      op_ok op → small_store (store (run_op s op)) → meta_step s (run_op s op).

Lemma wf_chunk_replicas c n : wf_chunk c → wf_chunk (with_replicas c n).
Proof. by intros []; constructor. Qed.

Lemma recount_wf cs : Forall wf_chunk cs → Forall wf_chunk (recount cs).
Proof.
  intros H. apply Forall_fmap. eapply Forall_impl; [exact H|].
  intros c Hc. by apply wf_chunk_replicas.
Qed.

Lemma length_recount cs : length (recount cs) = length cs.
Proof. apply length_map. Qed.

Lemma wf_recounted h n cs :
  Forall (λ c, is_space c = false) h → 0 ≤ n ≤ INT_MAX → h ≠ [] ∨ 0 < n →
  (cs ≠ [] → 0 < n) → Forall wf_chunk cs → Z.of_nat (length cs) ≤ INT_MAX →
  wf_file (mkFile h n (recount cs)).
Proof.
  intros ???? Hcs Hl. constructor; simpl; try done.
  - intros Hne. destruct cs; [done|]. auto.
  - by apply recount_wf.
  - apply recount_consistent.
  - by rewrite length_recount.
Qed.

Lemma first_count_bounds cs d :
  cs ≠ [] → Z.of_nat (length cs) ≤ INT_MAX →
  0 < default d (first_count (cid_counts cs)) ≤ INT_MAX.
Proof.
  intros Hne Hl. destruct (first_count_Some cs Hne) as (c & Hc & ->). simpl.
  pose proof (occurrences_pos _ _ Hc). pose proof (occurrences_le cs (chunk_id c)). lia.
Qed.

Lemma replace_in_file_wf dead m upd :
  wf_store m → Forall wf_chunk upd.2 →
  (∀ r, replace_in_file dead m upd !! upd.1 = Some r → Z.of_nat (length (chunks r)) ≤ INT_MAX) →
  wf_store (replace_in_file dead m upd).
Proof.
  destruct upd as [file new]. simpl. intros Hwf Hnew Hsmall.
  destruct (m !! file) as [r|] eqn:E; [|done].
  destruct (Hwf _ _ E) as [Hf [Hh Hrep Hsome Hpos Hcs Hcons Hl]].
  set (cs := filter _ _ ++ _) in *.
  apply map_Forall_insert_2; [|done]. split; [done|].
  specialize (Hsmall _ (lookup_insert_eq _ _ _)). simpl in Hsmall.
  rewrite length_recount in Hsmall.
  assert (cs ≠ [] → 0 < match cs with [] => file_replicas r
     | _ :: _ => default (file_replicas r) (first_count (cid_counts cs)) end ≤ INT_MAX) as Hb.
  { intros Hne. pose proof (first_count_bounds cs (file_replicas r) Hne Hsmall). by destruct cs. }
  apply wf_recounted; try done.
  - destruct cs; [done|]. destruct Hb; [done|lia].
  - destruct cs; [done|]. right. apply Hb. done.
  - intros. by apply Hb.
  - apply Forall_app; split; [|done]. by apply Forall_kept.
Qed.

Lemma replace_in_file_other dead m upd file :
  file ≠ upd.1 → replace_in_file dead m upd !! file = m !! file.
Proof.
  destruct upd as [f new]. simpl. intros Hne. destruct (m !! f); [|done].
  by rewrite lookup_insert_ne.
Qed.

Lemma replace_all_other dead upds m file :
  file ∉ upds.*1 → fold_left (replace_in_file dead) upds m !! file = m !! file.
Proof.
  revert m. induction upds as [|u upds IH]; intros m Hni; [done|].
  rewrite fmap_cons, not_elem_of_cons in Hni. destruct Hni as [Hne Hni].
  cbn [fold_left]. rewrite IH by done. by apply replace_in_file_other.
Qed.

Lemma replace_all_wf dead upds m :
  NoDup upds.*1 → Forall (λ p, Forall wf_chunk p.2) upds → wf_store m →
  small_store (fold_left (replace_in_file dead) upds m) →
  wf_store (fold_left (replace_in_file dead) upds m).
Proof.
  revert m. induction upds as [|u upds IH]; intros m Hnd HF Hwf Hsmall; [done|].
  cbn [fold_left fmap list_fmap] in *.
  inversion_clear Hnd as [|? ? Hni Hnd']. inversion_clear HF as [|? ? Hu HF'].
  apply IH; [done..| |done]. apply replace_in_file_wf; [done|done|].
  intros r Hr. apply (Hsmall u.1). by rewrite replace_all_other.
Qed.

Lemma fill_counts_wf file hash cs n :
  op_ok (OpReplaceFile file hash cs n) →
  Z.of_nat (length cs) ≤ INT_MAX →
  wf_file (mkFile hash (default_file_replicas n cs) (fill_counts cs)).
Proof.
  intros (Hf & Hh & Hn & Hsome & Hcs & Hcons) Hl.
  rewrite fill_counts_consistent by done. unfold default_file_replicas.
  assert (cs ≠ [] → 0 < default n (first_count (cid_counts cs)) ≤ INT_MAX)
    by (intros; by apply first_count_bounds).
  apply wf_recounted; try done; case_decide.
  - destruct cs; [|destruct H; [done|lia]]. unfold cid_counts. simpl.
    unfold first_count. by rewrite ordered_empty.
  - done.
  - destruct Hsome as [?|[?|Hne]]; [by left|lia|right]. by apply H.
  - right. lia.
  - intros. by apply H.
  - lia.
Qed.

Lemma persist_locked_store s : store (persist_locked s) = store s.
Proof. unfold persist_locked. by destruct (writable s). Qed.

Lemma drop_server_wf addr r : wf_file r → wf_file (drop_server addr r).
Proof.
  intros [Hh Hrep Hsome Hpos Hcs Hcons Hl]. unfold drop_server, with_chunks.
  apply wf_recounted; try done.
  - intros Hne. apply Hpos. by intros E; rewrite E in Hne.
  - by apply Forall_kept.
  - pose proof (length_filter (λ c, server c ≠ addr) (chunks r)). lia.
Qed.

Lemma run_op_wf s op :
  op_ok op → wf_store (store s) → small_store (store (run_op s op)) →
  wf_store (store (run_op s op)).
Proof.
  destruct op as [file hash cs n|file|dead new upd|addr]; simpl;
    unfold replace_file_chunks, remove_file, delete_server_metadata;
    rewrite ?persist_locked_store; simpl; intros Hok Hwf Hsmall.
  - apply map_Forall_insert_2; [|done]. split; [apply Hok|].
    apply (fill_counts_wf file); [done|].
    specialize (Hsmall _ _ (lookup_insert_eq _ _ _)). simpl in Hsmall.
    unfold fill_counts in Hsmall. by rewrite length_map in Hsmall.
  - by apply map_Forall_delete.
  - apply replace_all_wf; try done; [apply ordered_NoDup|].
    apply Forall_forall. intros [f cs] Hin%elem_of_ordered. by apply (Hok f).
  - intros file r. rewrite lookup_fmap. intros (r' & E & ->)%fmap_Some.
    destruct (Hwf _ _ E). split; [done|]. by apply drop_server_wf.
Qed.

Lemma run_op_disk s op :
  writable s = true →
  writable (run_op s op) = true ∧ disk (run_op s op) = persist_image (store (run_op s op)).
Proof.
  intros Hw. destruct op; simpl;
    unfold replace_file_chunks, remove_file, delete_server_metadata, persist_locked;
    simpl; by rewrite Hw.
Qed.

(** C7: durability.  Starting from a store whose database file is up to date,
    after any sequence of uploads, deletions, failover replacements and server
    removals (with a writable database), reloading the database file after a
    restart gives exactly the store in memory, whatever order the hash map
    was walked in when it was written. *)
Theorem restart_recovers_store (s0 s : MetaState) :
  wf_store (store s0) → writable s0 = true → disk s0 = persist_image (store s0) →
  rtc meta_step s0 s →
  restart s = s.
Proof.
  intros Hwf Hw Hd Hsteps.
  assert (wf_store (store s) ∧ writable s = true ∧ disk s = persist_image (store s))
    as (Hwf' & _ & Hd').
  { induction Hsteps as [|s1 s2 s3 Hstep _ IH]; [done|]. apply IH; clear IH;
      destruct Hstep as [s op Hok Hsmall].
    - by apply run_op_wf.
    - by apply run_op_disk.
    - by apply run_op_disk. }
  unfold restart. rewrite Hd', load_persist_image by done. rewrite <- Hd'.
  by destruct s.
Qed.
End durability.

(** ** What each operation does to the records *)

(** A chunk record without its replica counter. *)
Definition core (c : ChunkRecord) : Z * bytes * bytes * bytes :=
  (chunk_id c, server c, path c, checksum c).

Lemma core_with_replicas c n : core (with_replicas c n) = core c.
Proof. done. Qed.

Lemma core_recount cs : map core (recount cs) = map core cs.
Proof. unfold recount. rewrite map_map. by apply map_ext. Qed.

Lemma core_server (c c' : ChunkRecord) : core c = core c' → server c = server c'.
Proof. by intros [=]. Qed.

Lemma core_elem cs cs' c :
  map core cs = map core cs' → c ∈ cs → ∃ c', c' ∈ cs' ∧ server c' = server c.
Proof.
  intros E Hc. apply (list_elem_of_fmap_2 core) in Hc.
  change (core c ∈ map core cs) in Hc. rewrite E in Hc.
  apply list_elem_of_fmap in Hc as (c' & Hcc & Hc'). exists c'.
  split; [done|]. by apply core_server.
Qed.

(** What a file record looks like after every replica on [addr] is dropped and
    the replicas [new] are appended: the counters are those of the new list. *)
Record replaced (addr : bytes) (new : list ChunkRecord) (r r' : FileRecord) : Prop := {
  rep_hash : file_hash r' = file_hash r;
  rep_core : map core (chunks r') =
             map core (filter (λ c, server c ≠ addr) (chunks r) ++ new);
  rep_count : consistent (chunks r')
}.

Lemma drop_server_replaced addr r : replaced addr [] r (drop_server addr r).
Proof.
  unfold drop_server. constructor; simpl; [done| |apply recount_consistent].
  by rewrite core_recount, app_nil_r.
Qed.

Lemma replace_in_file_replaced dead m upd r :
  m !! upd.1 = Some r →
  ∃ r', replace_in_file dead m upd !! upd.1 = Some r' ∧ replaced dead upd.2 r r'.
Proof.
  destruct upd as [file new]. simpl. intros ->.
  rewrite lookup_insert_eq. eexists; split; [done|].
  constructor; simpl; [done|apply core_recount|apply recount_consistent].
Qed.

Lemma replace_in_file_is_Some dead m upd file :
  is_Some (replace_in_file dead m upd !! file) ↔ is_Some (m !! file).
Proof.
  destruct (decide (file = upd.1)) as [->|Hne].
  - destruct (m !! upd.1) as [r|] eqn:E.
    + destruct (replace_in_file_replaced dead m upd r E) as (r' & -> & _).
      split; by eexists.
    + destruct upd as [f new]; simpl in *. by rewrite E, E.
  - by rewrite replace_in_file_other.
Qed.

Lemma replace_all_at dead upds m file new r :
  NoDup upds.*1 → (file, new) ∈ upds → m !! file = Some r →
  ∃ r', fold_left (replace_in_file dead) upds m !! file = Some r' ∧ replaced dead new r r'.
Proof.
  revert m. induction upds as [|u upds IH]; intros m Hnd Hin Hm.
  { by apply elem_of_nil in Hin. }
  rewrite fmap_cons in Hnd. inversion_clear Hnd as [|? ? Hni Hnd'].
  cbn [fold_left]. apply elem_of_cons in Hin as [<-|Hin].
  - destruct (replace_in_file_replaced dead m (file, new) r Hm) as (r' & Hr' & Hrep).
    exists r'. by rewrite replace_all_other.
  - apply IH; [done..|]. rewrite replace_in_file_other; [done|].
    intros ->. apply Hni. apply (list_elem_of_fmap_2 fst) in Hin. done.
Qed.

Lemma replace_all_absent dead upds m file :
  m !! file = None → fold_left (replace_in_file dead) upds m !! file = None.
Proof.
  revert m. induction upds as [|u upds IH]; intros m E; cbn [fold_left]; [done|].
  apply IH. apply eq_None_not_Some. rewrite replace_in_file_is_Some, E. by intros [].
Qed.

Section operation_specs.
Context `{!HashOrder bytes FileRecord}.

(** Failover is atomic and exact.  [atomic_replace_server_chunks] leaves
    every file it is not asked to update untouched, creates no file, and in
    each updated file keeps exactly the replicas that are not on the dead
    server, in order, followed by the new ones, with every replica counter
    equal to the number of records of that chunk. *)
Theorem atomic_replace_exact (s : MetaState) (dead new_server : bytes)
    (updates : gmap bytes (list ChunkRecord)) (file : bytes) :
  let s' := (atomic_replace_server_chunks s dead new_server updates).1 in
  match store s !! file, updates !! file with
  | Some r, Some new => ∃ r', store s' !! file = Some r' ∧ replaced dead new r r'
  | o, _ => store s' !! file = o
  end.
Proof.
  simpl. rewrite persist_locked_store. simpl.
  assert (∀ o, updates !! file = o → o = None → file ∉ (smap_list updates).*1) as Hni.
  { intros o E -> ([? new] & Hf & Hin)%list_elem_of_fmap. simpl in Hf. subst.
    apply elem_of_ordered in Hin. congruence. }
  destruct (store s !! file) as [r|] eqn:E.
  - destruct (updates !! file) as [new|] eqn:E'.
    + apply replace_all_at; [apply ordered_NoDup| |done]. by apply elem_of_ordered.
    + rewrite replace_all_other; [done|]. by eapply Hni.
  - by apply replace_all_absent.
Qed.

(** Removing a server purges it.  After [delete_server_metadata] the same
    files exist, no record of any file is on that server, the other records
    are kept in order, and the replica counters are recomputed. *)
Theorem delete_server_purges (s : MetaState) (addr file : bytes) :
  let s' := delete_server_metadata s addr in
  match store s !! file with
  | None => store s' !! file = None
  | Some r => ∃ r', store s' !! file = Some r' ∧ replaced addr [] r r' ∧
                    Forall (λ c, server c ≠ addr) (chunks r')
  end.
Proof.
  simpl. unfold delete_server_metadata. rewrite persist_locked_store. simpl.
  rewrite lookup_fmap. destruct (store s !! file) as [r|]; [|done].
  eexists; split; [done|]. pose proof (drop_server_replaced addr r) as [? Hc ?].
  split; [done|]. apply Forall_forall. intros c Hin.
  destruct (core_elem _ _ c Hc Hin) as (c' & Hc' & <-).
  rewrite app_nil_r in Hc'. by apply list_elem_of_filter in Hc' as [? _].
Qed.

(** The listing is the set of stored files, in byte order and without
    repetition, however the hash map iterates. *)
Theorem list_files_exact (s : MetaState) :
  StronglySorted str_le (list_files_snapshot s) ∧ NoDup (list_files_snapshot s) ∧
  ∀ file, file ∈ list_files_snapshot s ↔ is_Some (store s !! file).
Proof.
  unfold list_files_snapshot, sorted_strings. split_and!.
  - apply Sorted_StronglySorted; [apply _|]. apply Sorted_merge_sort. apply _.
  - rewrite merge_sort_Permutation. apply hash_order_NoDup.
  - intros file. rewrite merge_sort_Permutation, list_elem_of_fmap. split.
    + intros ([f r] & -> & Hin%elem_of_hash_order). by eexists.
    + intros [r Hr]. exists (file, r). split; [done|]. by apply elem_of_hash_order.
Qed.
End operation_specs.

(** Whatever bytes the database file holds (truncated, corrupted, written
    by hand), loading it succeeds and every replica counter of the loaded
    store is the number of records of its chunk. *)
Theorem load_from_disk_consistent (content : bytes) :
  map_Forall (λ _ r, consistent (chunks r)) (load_from_disk content).
Proof.
  intros file r. unfold load_from_disk. rewrite lookup_fmap.
  intros (r0 & _ & ->)%fmap_Some. simpl.
  rewrite fix_counts_recount. apply recount_consistent.
Qed.

(** ** A concrete store, for the witnesses *)
Definition demo_chunk (id : Z) (srv : string) : ChunkRecord :=
  mkChunk id (lit srv) (lit "data/c") (lit "ab12") 0.
Definition demo_store : MetaState := mkMeta ∅ [] true.
Definition demo_op : meta_op :=
  OpReplaceFile (lit "a.txt") (lit "beef")
    [demo_chunk 1 "h:1"; demo_chunk 1 "h:2"; demo_chunk 2 "h:1"] 0.

Lemma word_dec (w : bytes) :
  bool_decide (w ≠ [] ∧ Forall (λ c, is_space c = false) w) = true → word w.
Proof. intros H. by apply bool_decide_eq_true in H. Qed.

Lemma demo_op_ok : op_ok demo_op.
Proof.
  split_and!.
  - apply word_dec. done.
  - by repeat constructor.
  - done.
  - done.
  - by left.
  - repeat constructor; simpl; try (by apply word_dec); done.
  - intros c Hc. left. revert c Hc. apply Forall_forall.
    by repeat constructor; simpl.
Qed.

Lemma restart_recovers_store_witness :
  let s := run_op (run_op demo_store demo_op) (OpDeleteServer (lit "h:1")) in
  restart s = s.
Proof.
  apply (restart_recovers_store demo_store); [done|done|reflexivity|].
  apply (rtc_l _ _ (run_op demo_store demo_op)); [|apply rtc_once]; constructor.
  - apply demo_op_ok.
  - unfold small_store. refine (bool_decide_unpack _ _). by vm_compute.
  - done.
  - unfold small_store. refine (bool_decide_unpack _ _). by vm_compute.
Defined.
