(* ===== verification/Registry.v ===== *)
(** * Registry: the head server's list of cluster servers
    (src/src/common/include/dfg/server_registry.hpp)

    [reg_servers] is the [std::map<int, ServerEntry>], [reg_next] the atomic
    id counter.  The change callback is not called here: every operation
    returns the notifications it makes, in order. *)
From Stdlib Require Import Lia.
From S2P Require Import Prelude.
From S2P Require Import Text.
From S2P Require Import Ordered.
Local Open Scope Z_scope.

(** ** Data *)
Record ServerEntry := mkEntry {
  entry_id : Z;             (* int *)
  host : bytes;
  port : Z;                 (* int *)
  transfer_port : Z;
  public_port : Z;
  status : bytes;
  registered_at : Z         (* steady_clock, nanoseconds *)
}.

Definition address (e : ServerEntry) : bytes := host e ++ colon :: show_Z (port e).

Record Registry := mkRegistry { reg_servers : gmap Z ServerEntry; reg_next : Z }.
Definition empty_registry : Registry := mkRegistry ∅ 1.

(** A call of the change callback: the entry, and whether it was added. *)
Definition change : Type := ServerEntry * bool.

(** ** Operations *)
Definition same_endpoint (h : bytes) (p : Z) (kv : Z * ServerEntry) : Prop :=
  host kv.2 = h ∧ port kv.2 = p.
#[export] Instance same_endpoint_dec h p kv : Decision (same_endpoint h p kv).
Proof. unfold same_endpoint. apply _. Defined.

(** The loop over [servers_] that looks for a duplicate. *)
Definition find_endpoint (s : Registry) (h : bytes) (p : Z) : option Z :=
  (λ r : nat * (Z * ServerEntry), r.2.1) <$>
    list_find (same_endpoint h p) (zmap_list (reg_servers s)).

Definition add_server (now : Z) (s : Registry) (h : bytes) (p tp pp : Z)
  : Registry * Z * list change :=
  match find_endpoint s h p with
  | Some id => (s, id, [])
  | None =>
      let id := reg_next s in
      let e := mkEntry id h p tp pp (lit "active") now in
      (mkRegistry (<[id := e]> (reg_servers s)) (sint32 (id + 1)), id, [(e, true)])
  end.

Definition remove_server (s : Registry) (id : Z) : Registry * bool * list change :=
  match reg_servers s !! id with
  | None => (s, false, [])
  | Some e => (mkRegistry (delete id (reg_servers s)) (reg_next s), true, [(e, false)])
  end.

Definition get_all (s : Registry) : list ServerEntry := (zmap_list (reg_servers s)).*2.

Definition get_addresses (s : Registry) : list bytes :=
  map address (filter (λ e, status e = lit "active") (get_all s)).

Definition set_next_id (s : Registry) (id : Z) : Registry := mkRegistry (reg_servers s) id.

Definition count (s : Registry) : Z := Z.of_nat (size (reg_servers s)).

(** Servers added before an [std::stoi] throws stay added. *)
Fixpoint load_from_config (now : Z) (s : Registry) (addrs : list bytes)
  : Registry * exc unit :=
  match addrs with
  | [] => (s, Val tt)
  | addr :: rest =>
      match find_char colon addr with
      | None => load_from_config now s rest
      | Some pos =>
          match stoi (drop (pos + 1) addr) with
          | Throw e => (s, Throw e)
          | Val p => load_from_config now (add_server now s (take pos addr) p (-1) (-1)).1.1 rest
          end
      end
  end.

(** ** The registry's invariant *)
Record wf_registry (s : Registry) : Prop := {
  wfr_key : ∀ id e, reg_servers s !! id = Some e → entry_id e = id;
  wfr_fresh : ∀ id, is_Some (reg_servers s !! id) → id < reg_next s;
  wfr_unique : ∀ i j e f, reg_servers s !! i = Some e → reg_servers s !! j = Some f →
    host e = host f → port e = port f → i = j;
  wfr_active : ∀ id e, reg_servers s !! id = Some e → status e = lit "active"
}.

Lemma empty_registry_wf : wf_registry empty_registry.
Proof. constructor; simpl; try done. intros id [? [=]]. Qed.

Lemma find_endpoint_Some s h p id :
  find_endpoint s h p = Some id →
  ∃ e, reg_servers s !! id = Some e ∧ host e = h ∧ port e = p.
Proof.
  unfold find_endpoint. intros ([n [i e]] & Hf & ->)%fmap_Some. simpl.
  apply list_find_Some in Hf as (Hl & [Hh Hp] & _).
  apply list_elem_of_lookup_2, elem_of_ordered in Hl. eauto.
Qed.

Lemma find_endpoint_None s h p :
  find_endpoint s h p = None ↔
  ∀ id e, reg_servers s !! id = Some e → ¬ (host e = h ∧ port e = p).
Proof.
  unfold find_endpoint. rewrite fmap_None, list_find_None, Forall_forall. split.
  - intros H id e He. by apply (H (id, e)), elem_of_ordered.
  - intros H [id e] Hin%elem_of_ordered. apply (H _ _ Hin).
Qed.

Lemma add_server_bound now s h p tp pp :
  let '(s', id, _) := add_server now s h p tp pp in
  ∃ e, reg_servers s' !! id = Some e ∧ host e = h ∧ port e = p.
Proof.
  unfold add_server. destruct (find_endpoint s h p) as [id|] eqn:E.
  - by apply find_endpoint_Some.
  - simpl. eexists. by rewrite lookup_insert_eq.
Qed.

(** What registering the endpoint [h:p] makes of [r]: an endpoint that is listed
    keeps its entry, and the registry is as it was; another one is entered
    under the registry's next id. *)
Inductive lists (now : Z) (r : Registry) (h : bytes) (p tp pp : Z) : Z → ServerEntry → Registry → Prop :=
  | lists_known id e :
      reg_servers r !! id = Some e → host e = h → port e = p → lists now r h p tp pp id e r
  | lists_new :
      let id := reg_next r in
      let e := mkEntry id h p tp pp (lit "active") now in
      (∀ j f, reg_servers r !! j = Some f → ¬ (host f = h ∧ port f = p)) →
      lists now r h p tp pp id e (mkRegistry (<[id := e]> (reg_servers r)) (sint32 (id + 1))).

Lemma add_server_lists now r h p tp pp :
  let '(r', id, _) := add_server now r h p tp pp in ∃ e, lists now r h p tp pp id e r'.
Proof.
  unfold add_server. destruct (find_endpoint r h p) as [id|] eqn:E.
  - apply find_endpoint_Some in E as (e & ? & ? & ?). exists e. by constructor.
  - eexists. constructor. by apply find_endpoint_None.
Qed.

Lemma lists_bound now r h p tp pp id e r' :
  lists now r h p tp pp id e r' → reg_servers r' !! id = Some e ∧ host e = h ∧ port e = p.
Proof. intros []; [done|]. cbn [reg_servers]. by rewrite lookup_insert_eq. Qed.

Lemma sint32_small x : INT_MIN ≤ x ≤ INT_MAX → sint32 x = x.
Proof.
  intros [Hlo Hhi]. unfold sint32, wrap, INT_MIN, INT_MAX in *.
  change (2 ^ 32) with 4294967296 in *. change (2 ^ 31) with 2147483648 in *.
  destruct (Z.le_gt_cases 0 x).
  - rewrite Z.mod_small by lia. destruct (Z.ltb_spec x 2147483648); lia.
  - rewrite <- (Z.mod_unique x 4294967296 (-1) (x + 4294967296)) by lia.
    destruct (Z.ltb_spec (x + 4294967296) 2147483648); lia.
Qed.

Lemma add_server_wf now s h p tp pp :
  0 ≤ reg_next s < INT_MAX → wf_registry s → wf_registry (add_server now s h p tp pp).1.1.
Proof.
  intros Hn [Hk Hf Hu Ha]. unfold add_server.
  destruct (find_endpoint s h p) as [id|] eqn:E; [by constructor|].
  rewrite find_endpoint_None in E. simpl.
  rewrite sint32_small by (unfold INT_MIN in *; lia).
  constructor; simpl.
  - intros id e. rewrite lookup_insert. case_decide; [by intros [= <-]|]. by apply Hk.
  - intros id. rewrite lookup_insert_is_Some'. intros [->|Hs]; [lia|].
    specialize (Hf _ Hs). lia.
  - intros i j e f. rewrite !lookup_insert.
    repeat case_decide; subst; [done| | |by apply Hu].
    + intros [= <-] Hj Hh Hp. by destruct (E _ _ Hj).
    + intros Hi [= <-] Hh Hp. by destruct (E _ _ Hi).
  - intros id e. rewrite lookup_insert. case_decide; [by intros [= <-]|]. by apply Ha.
Qed.

Lemma remove_server_wf s id : wf_registry s → wf_registry (remove_server s id).1.1.
Proof.
  intros [Hk Hf Hu Ha]. unfold remove_server.
  destruct (reg_servers s !! id) as [e|]; [|by constructor].
  constructor; simpl.
  - intros j f [_ H]%lookup_delete_Some. by apply Hk.
  - intros j [f [_ H]%lookup_delete_Some]. apply Hf. by eexists.
  - intros i j f g [_ H1]%lookup_delete_Some [_ H2]%lookup_delete_Some. by apply Hu.
  - intros j f [_ H]%lookup_delete_Some. by apply (Ha j).
Qed.

Lemma set_next_id_wf s n :
  reg_next s ≤ n → wf_registry s → wf_registry (set_next_id s n).
Proof.
  intros Hn [Hk Hf Hu Ha]. constructor; simpl; try done.
  intros id Hs. specialize (Hf _ Hs). lia.
Qed.

(** ** Histories *)
Inductive reg_op :=
  | RegAdd (h : bytes) (p tp pp : Z)
  | RegRemove (id : Z)
  | RegNextId (id : Z).

Definition run_reg (now : Z) (s : Registry) (op : reg_op) : Registry * list change :=
  match op with
  | RegAdd h p tp pp => let '(s', _, c) := add_server now s h p tp pp in (s', c)
  | RegRemove id => let '(s', _, c) := remove_server s id in (s', c)
  | RegNextId id => (set_next_id s id, [])
  end.

(** The counter is only ever raised, and does not run out of [int]s. *)
Inductive reg_step : Registry → Registry → Prop :=
  | reg_step_op now s op :
      0 ≤ reg_next s < INT_MAX →
      match op with RegNextId id => reg_next s ≤ id | _ => True end →
      reg_step s (run_reg now s op).1.

Lemma run_reg_wf now s op :
  0 ≤ reg_next s < INT_MAX →
  match op with RegNextId id => reg_next s ≤ id | _ => True end →
  wf_registry s → wf_registry (run_reg now s op).1.
Proof.
  destruct op as [h p tp pp|id|id]; simpl; intros Hn Hop Hwf.
  - pose proof (add_server_wf now s h p tp pp Hn Hwf).
    by destruct (add_server now s h p tp pp) as [[??]?].
  - pose proof (remove_server_wf s id Hwf). by destruct (remove_server s id) as [[??]?].
  - by apply set_next_id_wf.
Qed.

(** C35: as long as the id counter is never lowered, every history of
    registrations and removals leaves a registry in which each entry is filed
    under its own id, no two entries share host and port, and the next id is
    not in use (so a registration never overwrites a live entry). *)
Theorem registry_invariant (s : Registry) :
  rtc reg_step empty_registry s → wf_registry s.
Proof.
  intros Hr. pose proof empty_registry_wf as Hwf. revert Hwf.
  induction Hr as [|s1 s2 s3 [now s op Hn Hop] _ IH]; [done|].
  intros Hwf. by apply IH, run_reg_wf.
Qed.

Lemma registry_invariant_witness :
  let s := (run_reg 5 (run_reg 4 empty_registry (RegAdd (lit "a") 80 (-1) (-1))).1
              (RegRemove 1)).1 in
  wf_registry s.
Proof.
  apply registry_invariant.
  apply (rtc_l _ _ (run_reg 4 empty_registry (RegAdd (lit "a") 80 (-1) (-1))).1);
    [|apply rtc_once]; by constructor.
Defined.

(** Registering is idempotent on host and port and otherwise fresh: the
    returned id is bound to that host and port afterwards, every other id
    keeps its entry, and the entry is new (with one notification) exactly
    when no entry had that host and port. *)
Theorem add_server_spec (now : Z) (s : Registry) (h : bytes) (p tp pp : Z) :
  wf_registry s →
  let '(s', id, cs) := add_server now s h p tp pp in
  (∃ e, reg_servers s' !! id = Some e ∧ host e = h ∧ port e = p) ∧
  (∀ j, j ≠ id → reg_servers s' !! j = reg_servers s !! j) ∧
  ((∃ j e, reg_servers s !! j = Some e ∧ host e = h ∧ port e = p) → s' = s ∧ cs = []) ∧
  ((∀ j e, reg_servers s !! j = Some e → ¬ (host e = h ∧ port e = p)) →
     reg_servers s !! id = None ∧ count s' = count s + 1 ∧
     ∃ e, cs = [(e, true)] ∧ reg_servers s' !! id = Some e ∧
          transfer_port e = tp ∧ public_port e = pp).
Proof.
  intros Hwf. unfold add_server.
  destruct (find_endpoint s h p) as [id|] eqn:E.
  - destruct (find_endpoint_Some _ _ _ _ E) as (e & He & Hh & Hp).
    split_and!; [eauto|done|done|]. intros Hn. by destruct (Hn _ _ He).
  - rewrite find_endpoint_None in E. simpl.
    assert (reg_servers s !! reg_next s = None) as Hnone.
    { apply eq_None_not_Some. intros Hs. pose proof (wfr_fresh _ Hwf _ Hs). lia. }
    split_and!.
    + eexists. by rewrite lookup_insert_eq.
    + intros j Hj. by rewrite lookup_insert_ne.
    + intros (j & e & Hj & Hhp). by destruct (E _ _ Hj).
    + intros _. unfold count. simpl. rewrite map_size_insert_None by done.
      split_and!; [done|lia|]. eexists. by rewrite lookup_insert_eq.
Qed.

Definition demo_registry : Registry :=
  (add_server 4 empty_registry (lit "a") 80 (-1) (-1)).1.1.
Lemma demo_registry_wf : wf_registry demo_registry.
Proof. apply add_server_wf; [done|apply empty_registry_wf]. Qed.

Lemma add_server_spec_witness :
  (add_server 5 demo_registry (lit "a") 81 90 91).1.2 = 2 ∧
  let '(s', id, cs) := add_server 5 demo_registry (lit "a") 81 90 91 in
  (∃ e, reg_servers s' !! id = Some e ∧ host e = lit "a" ∧ port e = 81).
Proof.
  split; [reflexivity|].
  pose proof (add_server_spec 5 demo_registry (lit "a") 81 90 91 demo_registry_wf) as H.
  destruct (add_server 5 demo_registry (lit "a") 81 90 91) as [[s' id] cs]. apply H.
Defined.

Lemma elem_of_get_all s e :
  e ∈ get_all s ↔ ∃ id, reg_servers s !! id = Some e.
Proof.
  unfold get_all. rewrite list_elem_of_fmap. split.
  - intros ([id x] & -> & Hin%elem_of_ordered). eauto.
  - intros [id He]. exists (id, e). split; [done|]. by apply elem_of_ordered.
Qed.

(** In a well-formed registry every server's address is listed. *)
Lemma elem_of_get_addresses s a :
  wf_registry s → a ∈ get_addresses s ↔ ∃ id e, reg_servers s !! id = Some e ∧ a = address e.
Proof.
  intros Hwf. unfold get_addresses. rewrite list_elem_of_fmap. split.
  - intros (e & -> & [_ [id He]%elem_of_get_all]%list_elem_of_filter). eauto.
  - intros (id & e & He & ->). exists e. split; [done|]. apply list_elem_of_filter.
    split; [by apply (wfr_active _ Hwf id)|]. apply elem_of_get_all. eauto.
Qed.

Lemma load_from_config_address now h p s :
  no_char colon h → INT_MIN ≤ p ≤ INT_MAX →
  load_from_config now s [h ++ colon :: show_Z p] =
    ((add_server now s h p (-1) (-1)).1.1, Val tt).
Proof.
  intros Hh Hp. cbn [load_from_config]. rewrite find_char_app by done.
  rewrite drop_past_char.
  rewrite stoi_show by done.
  by rewrite take_app_length.
Qed.
