(* ===== verification/Health.v ===== *)
(** * Health: the head server's heartbeat bookkeeping
    (src/src/common/include/dfg/health_monitor.hpp)

    Time is the steady clock in nanoseconds; the default time point is 0.
    [check_health] and [record_heartbeat] return the callbacks they make. *)
From Stdlib Require Import Lia.
From Stdlib Require Import SpecFloat.
From S2P Require Import Prelude.
From S2P Require Import Ordered.
Local Open Scope Z_scope.

(** ** Data *)
Record ServerHealth := mkHealth {
  server_id : Z;
  ip : bytes;
  cpu_usage : spec_float;
  ram_usage : spec_float;
  disk_usage : spec_float;
  network_in : bytes;
  network_out : bytes;
  network_in_bps : Z;
  network_out_bps : Z;
  is_healthy : bool;
  last_heartbeat : Z;
  missed_heartbeats : Z
}.
Definition fzero : spec_float := S754_zero false.
Definition empty_health : ServerHealth :=
  mkHealth 0 [] fzero fzero fzero [] [] 0 0 true 0 0.

Definition with_liveness (h : ServerHealth) (ok : bool) (last missed : Z) : ServerHealth :=
  mkHealth (server_id h) (ip h) (cpu_usage h) (ram_usage h) (disk_usage h)
    (network_in h) (network_out h) (network_in_bps h) (network_out_bps h)
    ok last missed.

Record HealthMonitor := mkMonitor {
  hm_servers : gmap Z ServerHealth;
  heartbeat_timeout : Z;          (* seconds *)
  max_missed : Z;
  unhealthy_cb : bool;            (* whether a callback is installed *)
  recovered_cb : bool
}.
Definition with_servers (s : HealthMonitor) (m : gmap Z ServerHealth) : HealthMonitor :=
  mkMonitor m (heartbeat_timeout s) (max_missed s) (unhealthy_cb s) (recovered_cb s).

Inductive notification :=
  | Unhealthy (sid : Z) (h : ServerHealth)
  | Recovered (sid : Z) (h : ServerHealth).

(** ** Operations *)
Definition record_heartbeat (now : Z) (s : HealthMonitor) (sid : Z) (h : ServerHealth)
  : HealthMonitor * list notification :=
  let old := default empty_health (hm_servers s !! sid) in
  let was_unhealthy := negb (is_healthy old) && bool_decide (last_heartbeat old ≠ 0) in
  let r := with_liveness h true now 0 in
  (with_servers s (<[sid := r]> (hm_servers s)),
   if was_unhealthy && recovered_cb s then [Recovered sid r] else []).

Definition elapsed (now : Z) (h : ServerHealth) : Z :=
  (now - last_heartbeat h) ÷ 1000000000.

(** One iteration of the loop of [check_health]: the new record, and whether
    the server was marked unhealthy.  The counter, an int in the code, has no
    bound here: it would take 2^31 checks of a silent server to wrap. *)
Definition check_one (s : HealthMonitor) (now : Z) (h : ServerHealth) : ServerHealth * bool :=
  if decide (last_heartbeat h = 0) then (h, false)
  else if decide (heartbeat_timeout s < elapsed now h) then
    let n := missed_heartbeats h + 1 in
    if is_healthy h && bool_decide (max_missed s ≤ n)
    then (with_liveness h false (last_heartbeat h) n, true)
    else (with_liveness h (is_healthy h) (last_heartbeat h) n, false)
  else (h, false).

Definition newly_unhealthy (s : HealthMonitor) (now : Z) : list (Z * ServerHealth) :=
  omap (λ kv : Z * ServerHealth,
          let '(h, mark) := check_one s now kv.2 in
          if mark : bool then Some (kv.1, h) else None) (zmap_list (hm_servers s)).

Definition check_health (now : Z) (s : HealthMonitor) : HealthMonitor * list notification :=
  (with_servers s ((λ h, (check_one s now h).1) <$> hm_servers s),
   if unhealthy_cb s then map (λ kv, Unhealthy kv.1 kv.2) (newly_unhealthy s now) else []).

Definition get_all_health (s : HealthMonitor) : gmap Z ServerHealth := hm_servers s.

Definition healthy_count (s : HealthMonitor) : Z :=
  Z.of_nat (length (filter (λ kv : Z * ServerHealth, is_healthy kv.2 = true)
                      (zmap_list (hm_servers s)))).
Definition total_count (s : HealthMonitor) : Z := Z.of_nat (size (hm_servers s)).

Definition register_server (now : Z) (s : HealthMonitor) (sid : Z) (addr : bytes)
  : HealthMonitor :=
  match hm_servers s !! sid with
  | Some _ => s
  | None => with_servers s
      (<[sid := mkHealth sid addr fzero fzero fzero [] [] 0 0 true now 0]> (hm_servers s))
  end.

Definition deregister_server (s : HealthMonitor) (sid : Z) : HealthMonitor :=
  with_servers s (delete sid (hm_servers s)).

(** ** Histories *)
Inductive health_event :=
  | Heartbeat (now sid : Z) (h : ServerHealth)
  | CheckHealth (now : Z)
  | Register (now sid : Z) (addr : bytes)
  | Deregister (sid : Z).

Definition step_health (s : HealthMonitor) (e : health_event)
  : HealthMonitor * list notification :=
  match e with
  | Heartbeat now sid h => record_heartbeat now s sid h
  | CheckHealth now => check_health now s
  | Register now sid addr => (register_server now s sid addr, [])
  | Deregister sid => (deregister_server s sid, [])
  end.

Fixpoint run_health (s : HealthMonitor) (es : list health_event)
  : HealthMonitor * list notification :=
  match es with
  | [] => (s, [])
  | e :: es' =>
      let '(s1, o1) := step_health s e in
      let '(s2, o2) := run_health s1 es' in (s2, o1 ++ o2)
  end.

(** ** Laws *)
Lemma check_one_missed s now h :
  is_healthy h = bool_decide (missed_heartbeats h < max_missed s) →
  is_healthy (check_one s now h).1 =
    bool_decide (missed_heartbeats (check_one s now h).1 < max_missed s).
Proof.
  intros H. unfold check_one.
  destruct (decide (last_heartbeat h = 0)); [done|].
  destruct (decide (heartbeat_timeout s < elapsed now h)); [|done].
  destruct (bool_decide_reflect (max_missed s ≤ missed_heartbeats h + 1));
    destruct (is_healthy h); simpl; symmetry; symmetry in H;
    rewrite ?bool_decide_eq_true, ?bool_decide_eq_false in *; lia.
Qed.

Lemma with_servers_params s m :
  max_missed (with_servers s m) = max_missed s ∧
  unhealthy_cb (with_servers s m) = unhealthy_cb s.
Proof. done. Qed.

Lemma register_server_params now s sid a :
  max_missed (register_server now s sid a) = max_missed s.
Proof. unfold register_server. by destruct (hm_servers s !! sid). Qed.

Lemma step_health_params s e :
  let s' := (step_health s e).1 in
  heartbeat_timeout s' = heartbeat_timeout s ∧ max_missed s' = max_missed s ∧
  unhealthy_cb s' = unhealthy_cb s ∧ recovered_cb s' = recovered_cb s.
Proof.
  destruct e as [now sid h|now|now sid a|sid]; try done. simpl.
  unfold register_server. by destruct (hm_servers s !! sid).
Qed.

(** A server is marked healthy exactly while it has missed fewer than
    [max_missed] checks. *)
Definition health_wf (s : HealthMonitor) : Prop :=
  0 < max_missed s ∧
  map_Forall (λ _ h, is_healthy h = bool_decide (missed_heartbeats h < max_missed s))
    (hm_servers s).

Lemma step_health_wf s e : health_wf s → health_wf (step_health s e).1.
Proof.
  intros [Hm Hwf]. destruct (step_health_params s e) as (_ & Hp & _).
  split; [by rewrite Hp|]. rewrite Hp. clear Hp.
  destruct e as [now sid h|now|now sid a|sid]; simpl.
  - apply map_Forall_insert_2; [|done]. simpl. by rewrite bool_decide_true.
  - intros i h. rewrite lookup_fmap. intros (h' & Hh' & ->)%fmap_Some.
    apply check_one_missed. apply (Hwf _ _ Hh').
  - unfold register_server. destruct (hm_servers s !! sid); [done|].
    apply map_Forall_insert_2; [|done]. simpl. by rewrite bool_decide_true.
  - by apply map_Forall_delete.
Qed.

(** C20: in every history of heartbeats, checks, registrations and removals a
    server is marked unhealthy exactly when it has missed [max_missed] checks
    or more since its last heartbeat. *)
Theorem unhealthy_iff_missed (s : HealthMonitor) (es : list health_event) :
  health_wf s → health_wf (run_health s es).1.
Proof.
  revert s. induction es as [|e es IH]; intros s Hwf; [done|]. cbn [run_health].
  pose proof (step_health_wf s e Hwf) as Hwf1.
  destruct (step_health s e) as [s1 o1]. specialize (IH s1 Hwf1).
  by destruct (run_health s1 es) as [s2 o2].
Qed.

(** ** Detection of a silent server *)

(** Events that say nothing about [sid]: checks, events of other servers, and
    repeated registrations. *)
Definition quiet (sid : Z) (e : health_event) : Prop :=
  match e with
  | Heartbeat _ i _ | Deregister i => i ≠ sid
  | CheckHealth _ | Register _ _ _ => True
  end.

(** The checks that find a server whose last heartbeat was at [last] stale. *)
Definition stale (timeout last : Z) (e : health_event) : Prop :=
  match e with
  | CheckHealth now => timeout < (now - last) ÷ 1000000000
  | _ => False
  end.
#[export] Instance stale_dec timeout last e : Decision (stale timeout last e).
Proof. destruct e; simpl; apply _. Defined.

(** The callbacks made about one server. *)
Definition concerns (sid : Z) (n : notification) : bool :=
  match n with Unhealthy i _ | Recovered i _ => bool_decide (i = sid) end.
Definition about (sid : Z) (ns : list notification) : list notification :=
  filter (λ n, concerns sid n = true) ns.

Lemma about_app sid a b : about sid (a ++ b) = about sid a ++ about sid b.
Proof. apply filter_app. Qed.

(** The callback about one entry of the map. *)
Definition mark_one (s : HealthMonitor) (now : Z) (sid : Z) (h : ServerHealth)
  : option notification :=
  let '(h', mark) := check_one s now h in if mark : bool then Some (Unhealthy sid h') else None.

Lemma about_check s now sid h :
  hm_servers s !! sid = Some h → unhealthy_cb s = true →
  about sid (check_health now s).2 =
  if (check_one s now h).2 then [Unhealthy sid (check_one s now h).1] else [].
Proof.
  intros Hh Hcb. cbn [check_health snd]. rewrite Hcb.
  assert (about sid (map (λ kv, Unhealthy kv.1 kv.2) (newly_unhealthy s now)) =
    omap (at_key (mark_one s now) sid) (zmap_list (hm_servers s))) as ->.
  { unfold newly_unhealthy. induction (zmap_list (hm_servers s)) as [|[i x] l IH]; [done|].
    rewrite !omap_cons_eq. rewrite <- IH. unfold at_key, mark_one. cbn [fst snd].
    destruct (check_one s now x) as [h' []]; [|by destruct (decide (i = sid))].
    cbn [map]. unfold about. rewrite filter_cons. cbn [fst snd concerns].
    destruct (decide (i = sid)) as [->|Hne];
      [rewrite decide_True|rewrite decide_False]; rewrite ?bool_decide_eq_true; done. }
  rewrite (omap_at _ _ sid h); [|apply ordered_NoDup|by apply elem_of_ordered].
  unfold mark_one. by destruct (check_one s now h) as [h' []].
Qed.

(** One quiet event: the record of [sid] and the callbacks about it. *)
Lemma quiet_step s e sid h :
  quiet sid e → hm_servers s !! sid = Some h → unhealthy_cb s = true →
  last_heartbeat h ≠ 0 →
  let n := missed_heartbeats h + (if decide (stale (heartbeat_timeout s) (last_heartbeat h) e)
                                  then 1 else 0) in
  let fire := is_healthy h && bool_decide (stale (heartbeat_timeout s) (last_heartbeat h) e)
              && bool_decide (max_missed s ≤ n) in
  hm_servers (step_health s e).1 !! sid =
    Some (with_liveness h (is_healthy h && negb fire) (last_heartbeat h) n) ∧
  length (about sid (step_health s e).2) = if fire then 1%nat else 0%nat.
Proof.
  intros Hq Hh Hcb Hl. destruct e as [now i hb|now|now i a|i]; cbn [stale quiet] in *.
  - rewrite decide_False by auto. rewrite bool_decide_false by auto. simpl.
    rewrite andb_false_r, andb_true_r, Z.add_0_r. rewrite lookup_insert_ne by done.
    rewrite Hh. split; [by destruct h|].
    unfold about. destruct (_ && recovered_cb s); [|done].
    rewrite filter_cons_False; [done|]. simpl. by rewrite bool_decide_eq_true.
  - cbn [step_health]. rewrite (about_check s now sid h) by done.
    cbn [check_health fst hm_servers with_servers]. rewrite lookup_fmap, Hh. simpl.
    unfold check_one. rewrite decide_False by done. unfold elapsed.
    destruct (decide (heartbeat_timeout s < _)) as [Hs|Hs].
    + rewrite (bool_decide_true _ Hs), andb_true_r.
      destruct (is_healthy h); simpl; [|done]. by case_bool_decide.
    + rewrite (bool_decide_false _ Hs). simpl.
      rewrite andb_false_r, andb_true_r, Z.add_0_r. by destruct h.
  - rewrite decide_False by auto. rewrite bool_decide_false by auto. simpl.
    rewrite andb_false_r, andb_true_r, Z.add_0_r. split; [|done].
    unfold register_server. destruct (hm_servers s !! i) eqn:E.
    + rewrite Hh. by destruct h.
    + simpl. rewrite lookup_insert_ne by congruence. rewrite Hh. by destruct h.
  - rewrite decide_False by auto. rewrite bool_decide_false by auto. simpl.
    rewrite andb_false_r, andb_true_r, Z.add_0_r. split; [|done].
    rewrite lookup_delete_ne by done. rewrite Hh. by destruct h.
Qed.

Lemma silent_counted (s : HealthMonitor) (es : list health_event)
    (sid : Z) (h : ServerHealth) :
  health_wf s → Forall (quiet sid) es →
  hm_servers s !! sid = Some h → unhealthy_cb s = true → last_heartbeat h ≠ 0 →
  let stales := Z.of_nat (length (filter (stale (heartbeat_timeout s) (last_heartbeat h)) es)) in
  let n := missed_heartbeats h + stales in
  hm_servers (run_health s es).1 !! sid =
    Some (with_liveness h (bool_decide (n < max_missed s)) (last_heartbeat h) n) ∧
  length (about sid (run_health s es).2) =
    if is_healthy h && bool_decide (max_missed s ≤ n) then 1%nat else 0%nat.
Proof.
  intros Hwf Hq. revert s h Hwf. induction Hq as [|e es He _ IH]; intros s h Hwf Hh Hcb Hl.
  - simpl. rewrite Z.add_0_r. rewrite <- (proj2 Hwf _ _ Hh). split; [by rewrite Hh; destruct h|].
    rewrite (proj2 Hwf _ _ Hh). repeat case_bool_decide; simpl; try done; lia.
  - destruct (quiet_step s e sid h He Hh Hcb Hl) as [Hh' Ho].
    destruct (step_health_params s e) as (Ht & Hm & Hc & _).
    pose proof (step_health_wf s e Hwf) as Hwf'. cbn [run_health].
    destruct (step_health s e) as [s1 o1]. cbn [fst snd] in *.
    specialize (IH s1 _ Hwf' Hh' (eq_trans Hc Hcb) Hl). cbn [with_liveness last_heartbeat
      missed_heartbeats is_healthy] in IH. rewrite Ht, Hm in IH.
    destruct (run_health s1 es) as [s2 o2]. cbn [fst snd] in *.
    destruct IH as [IH1 IH2]. rewrite about_app, length_app, Ho, IH1, IH2, filter_cons.
    pose proof (proj2 Hwf _ _ Hh) as Hhh. cbn [max_missed] in Hhh.
    destruct (decide (stale _ _ e)) as [Hs|Hs].
    + rewrite (bool_decide_true _ Hs), andb_true_r. cbn [length].
      rewrite Nat2Z.inj_succ, <- Z.add_1_l, !Z.add_assoc. split; [done|].
      rewrite Hhh. repeat case_bool_decide; simpl; try done; lia.
    + rewrite (bool_decide_false _ Hs), andb_false_r. simpl. rewrite !Z.add_0_r.
      split; [done|]. by rewrite andb_true_r.
Qed.

(** What the callbacks about a silent server say. *)
Definition reports (sid : Z) (a : bytes) (n : notification) : Prop :=
  match n with Unhealthy i h => i = sid ∧ ip h = a | Recovered _ _ => False end.

Lemma quiet_reports s e sid h :
  quiet sid e → hm_servers s !! sid = Some h → unhealthy_cb s = true →
  Forall (reports sid (ip h)) (about sid (step_health s e).2).
Proof.
  intros Hq Hh Hcb. destruct e as [now i hb|now|now i a|i]; cbn [quiet] in *; try constructor.
  - cbn [step_health record_heartbeat snd]. destruct (_ && recovered_cb s); [|constructor].
    unfold about. rewrite filter_cons_False; [constructor|]. simpl. by rewrite bool_decide_eq_true.
  - cbn [step_health]. rewrite (about_check s now sid h) by done.
    unfold check_one. case_decide; [constructor|]. case_decide; [|constructor].
    destruct (is_healthy h && _); [|constructor]. by repeat constructor.
Qed.

Lemma silent_reports s es sid h :
  Forall (quiet sid) es → hm_servers s !! sid = Some h → unhealthy_cb s = true →
  last_heartbeat h ≠ 0 → Forall (reports sid (ip h)) (about sid (run_health s es).2).
Proof.
  intros Hq. revert s h. induction Hq as [|e es He _ IH]; intros s h Hh Hcb Hl; [constructor|].
  pose proof (quiet_reports s e sid h He Hh Hcb) as Ho.
  destruct (quiet_step s e sid h He Hh Hcb Hl) as [Hh' _].
  destruct (step_health_params s e) as (_ & _ & Hc & _). cbn [run_health].
  destruct (step_health s e) as [s1 o1]. cbn [fst snd] in *.
  specialize (IH s1 _ Hh' (eq_trans Hc Hcb) Hl).
  destruct (run_health s1 es) as [s2 o2]. cbn [fst snd] in *. rewrite about_app. by apply Forall_app.
Qed.

(** Silent servers are detected, once.  If a tracked server [sid] sends no
    heartbeat during [es] (other servers and registrations may do anything),
    its miss counter grows by exactly the number of stale checks, and the
    unhealthy callback is made about it exactly once if the counter reaches
    [max_missed] while it was still healthy, and otherwise never. *)
Theorem silent_server_detected_once (s : HealthMonitor) (es : list health_event)
    (sid : Z) (h : ServerHealth) :
  health_wf s → Forall (quiet sid) es →
  hm_servers s !! sid = Some h → unhealthy_cb s = true → last_heartbeat h ≠ 0 →
  let stales := Z.of_nat (length (filter (stale (heartbeat_timeout s) (last_heartbeat h)) es)) in
  let n := missed_heartbeats h + stales in
  hm_servers (run_health s es).1 !! sid =
    Some (with_liveness h (bool_decide (n < max_missed s)) (last_heartbeat h) n) ∧
  length (about sid (run_health s es).2) =
    if is_healthy h && bool_decide (max_missed s ≤ n) then 1%nat else 0%nat.
Proof. apply silent_counted. Qed.

(** Recovery is announced exactly when it happens: a heartbeat resets the
    server's record to healthy with no misses, leaves every other record, and
    calls back once if the server was marked unhealthy and not otherwise. *)
Theorem heartbeat_recovers (s : HealthMonitor) (now sid : Z) (h : ServerHealth) :
  health_wf s → recovered_cb s = true →
  map_Forall (λ _ h, last_heartbeat h ≠ 0) (hm_servers s) →
  let '(s', o) := record_heartbeat now s sid h in
  (∃ r, hm_servers s' !! sid = Some r ∧ is_healthy r = true ∧
        missed_heartbeats r = 0 ∧ last_heartbeat r = now ∧
        o = match hm_servers s !! sid with
            | Some old => if decide (max_missed s ≤ missed_heartbeats old)
                          then [Recovered sid r] else []
            | None => []
            end) ∧
  ∀ j, j ≠ sid → hm_servers s' !! j = hm_servers s !! j.
Proof.
  intros [Hm Hwf] Hcb Hl. unfold record_heartbeat. cbn [hm_servers with_servers]. split.
  - eexists. rewrite lookup_insert_eq. split_and!; try done. rewrite Hcb, andb_true_r.
    destruct (hm_servers s !! sid) as [old|] eqn:E; simpl.
    + rewrite (Hwf _ _ E), (bool_decide_true (last_heartbeat old ≠ 0)) by apply (Hl _ _ E).
      rewrite andb_true_r. case_decide; case_bool_decide; simpl; try done; lia.
    + done.
  - intros j Hj. by rewrite lookup_insert_ne.
Qed.

(** ** Witnesses: one server, silent for three checks *)
Definition demo_monitor : HealthMonitor := mkMonitor ∅ 60 3 true true.
Definition sec : Z := 1000000000.
Definition demo_events : list health_event :=
  [CheckHealth (62 * sec); Heartbeat (70 * sec) 8 empty_health;
   CheckHealth (92 * sec); CheckHealth (122 * sec); CheckHealth (152 * sec)].
Definition demo_watched : HealthMonitor := register_server sec demo_monitor 7 (lit "h").

Lemma demo_monitor_wf : health_wf demo_monitor.
Proof. split; [done|]. apply map_Forall_empty. Qed.
Lemma demo_watched_wf : health_wf demo_watched.
Proof. apply (step_health_wf demo_monitor (Register sec 7 (lit "h"))), demo_monitor_wf. Qed.

Lemma unhealthy_iff_missed_witness :
  health_wf (run_health demo_monitor demo_events).1.
Proof. apply unhealthy_iff_missed, demo_monitor_wf. Defined.

Lemma silent_server_detected_once_witness :
  length (about 7 (run_health demo_watched demo_events).2) = 1%nat.
Proof.
  by apply (silent_server_detected_once demo_watched demo_events 7 _ demo_watched_wf
    ltac:(by repeat constructor) eq_refl).
Defined.

Definition demo_dead : HealthMonitor :=
  with_servers demo_monitor {[7 := with_liveness empty_health false sec 3]}.
Lemma demo_dead_wf : health_wf demo_dead.
Proof. split; [done|]. by apply map_Forall_singleton. Qed.

Lemma heartbeat_recovers_witness :
  (record_heartbeat (160 * sec) demo_dead 7 empty_health).2 =
    [Recovered 7 (with_liveness empty_health true (160 * sec) 0)].
Proof.
  destruct (heartbeat_recovers demo_dead (160 * sec) 7 empty_health demo_dead_wf eq_refl)
    as [(r & Hr & _ & _ & _ & Ho) _]; [by apply map_Forall_singleton|].
  vm_compute in Hr. injection Hr as <-. exact Ho.
Defined.
