(* ===== verification/Zk.v ===== *)
(** * Zk: the in-process coordination store
    (src/src/common/src/zookeeper_client.cpp)

    The namespace-level tables ([store()], [sequence_counters()]) are a
    [ZkStore] shared by every client of the process; a [ZkClient] holds a
    client's own fields.  Each operation returns the watch events it invokes. *)
From Stdlib Require Import Lia.
From S2P Require Import Prelude.
From S2P Require Import Text.
From S2P Require Import Ordered.
Local Open Scope Z_scope.

(** ** Data *)
Record Node := mkNode {
  node_data : bytes;
  ephemeral : bool;
  version : Z;
  children : gset bytes
}.

Record ZkStore := mkZk { nodes : gmap bytes Node; sequence_counters : gmap bytes Z }.

Record ZkClient := mkClient { hosts : bytes; connected : bool; has_watch : bool }.

Definition slash : bytes := lit "/".
Definition initial_store : ZkStore := mkZk {[slash := mkNode [] false 0 ∅]} ∅.

Inductive zcode := ZOK | ZNODEEXISTS | ZNONODE | ZINVALIDSTATE.
Definition zcode_val (c : zcode) : Z :=
  match c with ZOK => 0 | ZNODEEXISTS => -110 | ZNONODE => -101 | ZINVALIDSTATE => -112 end.
#[export] Instance zcode_eq_dec : EqDecision zcode.
Proof. solve_decision. Defined.

Definition ZOO_CREATED_EVENT : Z := 1.
Definition ZOO_DELETED_EVENT : Z := 2.
Definition ZOO_CHANGED_EVENT : Z := 3.
Definition ZOO_CONNECTING_STATE : Z := 1.
Definition ZOO_CONNECTED_STATE : Z := 3.
Definition ZOO_EXPIRED_SESSION_STATE : Z := -112.

(** A call of the watch callback: type, state, path. *)
Definition watch_event : Type := Z * Z * bytes.
Definition invoke_watch (c : ZkClient) (type state : Z) (path : bytes) : list watch_event :=
  if has_watch c then [(type, state, path)] else [].

(** ** Paths *)
Fixpoint strip_slashes (rev_path : bytes) : bytes :=
  match rev_path with
  | c :: ((_ :: _) as rest) => if decide (c = "/"%char) then strip_slashes rest else rev_path
  | _ => rev_path
  end.

Definition normalize_path (raw : bytes) : bytes :=
  match raw with
  | [] => slash
  | c :: _ =>
      let path := if decide (c = "/"%char) then raw else "/"%char :: raw in
      rev (strip_slashes (rev path))
  end.

Definition parent_path (path : bytes) : bytes :=
  if decide (path = slash) then []
  else match find_last_of "/"%char path with
       | Some O => slash
       | Some pos => take pos path
       | None => path                       (* substr(0, npos) *)
       end.

Definition child_name (path : bytes) : bytes :=
  if decide (path = slash) then slash
  else match find_last_of "/"%char path with
       | Some pos => drop (pos + 1) path
       | None => path                       (* npos + 1 = 0 *)
       end.

(** [std::setw(n) << std::setfill('0') << x] *)
Definition zero_padded (n : nat) (x : Z) : bytes :=
  replicate (n - length (show_Z x)) "0"%char ++ show_Z x.

(** ** The session *)
Definition connect (c : ZkClient) : ZkClient * list watch_event :=
  if connected c then (c, [])
  else (mkClient (hosts c) true (has_watch c),
        invoke_watch c ZOO_CREATED_EVENT ZOO_CONNECTED_STATE (hosts c)).

Definition disconnect (c : ZkClient) : ZkClient * list watch_event :=
  if connected c
  then (mkClient (hosts c) false (has_watch c),
        invoke_watch c ZOO_DELETED_EVENT ZOO_EXPIRED_SESSION_STATE (hosts c))
  else (c, []).

Definition get_state (c : ZkClient) : Z :=
  if connected c then ZOO_CONNECTED_STATE else ZOO_CONNECTING_STATE.

(** ** Nodes *)
Definition node_at (s : ZkStore) (p : bytes) : Node :=
  default (mkNode [] false 0 ∅) (nodes s !! p).

Definition with_children (n : Node) (f : gset bytes → gset bytes) : Node :=
  mkNode (node_data n) (ephemeral n) (version n) (f (children n)).

(** [nodes[p].children] updated in place; [nodes[p]] creates [p] if missing. *)
Definition update_children (m : gmap bytes Node) (p : bytes) (f : gset bytes → gset bytes)
  : gmap bytes Node :=
  <[p := with_children (default (mkNode [] false 0 ∅) (m !! p)) f]> m.

Definition next_sequence (s : ZkStore) (normalized : bytes) : ZkStore * bytes :=
  let seq := default 0 (sequence_counters s !! normalized) + 1 in
  (mkZk (nodes s) (<[normalized := seq]> (sequence_counters s)),
   normalized ++ "_"%char :: zero_padded 10 seq).

(** Inserting [actual] in the table, and in its parent's children. *)
Definition link_node (m : gmap bytes Node) (actual data : bytes) (eph : bool)
  : gmap bytes Node :=
  let m1 := <[actual := mkNode data eph 0 ∅]> m in
  match parent_path actual with
  | [] => m1
  | parent => update_children m1 parent (union {[child_name actual]})
  end.

Definition create_node (c : ZkClient) (s : ZkStore) (path data : bytes)
    (eph sequence : bool) : ZkStore * zcode * list watch_event :=
  if negb (connected c) then (s, ZINVALIDSTATE, [])
  else
    let normalized := normalize_path path in
    let '(s, actual) := if sequence then next_sequence s normalized else (s, normalized) in
    if decide (is_Some (nodes s !! actual)) then (s, ZNODEEXISTS, [])
    else
      let parent := parent_path actual in
      if decide (parent ≠ [] ∧ nodes s !! parent = None) then (s, ZNONODE, [])
      else (mkZk (link_node (nodes s) actual data eph) (sequence_counters s), ZOK,
            invoke_watch c ZOO_CREATED_EVENT ZOO_CONNECTED_STATE actual).

Definition unlink_node (m : gmap bytes Node) (p : bytes) : gmap bytes Node :=
  delete p (match parent_path p with
            | [] => m
            | parent => update_children m parent (λ cs, cs ∖ {[child_name p]})
            end).

Definition delete_node (c : ZkClient) (s : ZkStore) (path : bytes)
  : ZkStore * zcode * list watch_event :=
  if negb (connected c) then (s, ZINVALIDSTATE, [])
  else
    let p := normalize_path path in
    match nodes s !! p with
    | None => (s, ZNONODE, [])
    | Some n =>
        if decide (children n = ∅)
        then (mkZk (unlink_node (nodes s) p) (sequence_counters s), ZOK,
              invoke_watch c ZOO_DELETED_EVENT ZOO_CONNECTED_STATE p)
        else (s, ZINVALIDSTATE, [])
    end.

Definition node_exists (s : ZkStore) (path : bytes) : bool :=
  bool_decide (is_Some (nodes s !! normalize_path path)).

Definition get_node_data (s : ZkStore) (path : bytes) : bytes :=
  match nodes s !! normalize_path path with Some n => node_data n | None => [] end.

Definition set_node_data (c : ZkClient) (s : ZkStore) (path data : bytes)
  : ZkStore * zcode * list watch_event :=
  if negb (connected c) then (s, ZINVALIDSTATE, [])
  else
    let p := normalize_path path in
    match nodes s !! p with
    | None => (s, ZNONODE, [])
    | Some n =>
        (mkZk (<[p := mkNode data (ephemeral n) (version n + 1) (children n)]> (nodes s))
              (sequence_counters s), ZOK,
         invoke_watch c ZOO_CHANGED_EVENT ZOO_CONNECTED_STATE p)
    end.

(** [std::set] iterates in increasing order. *)
Definition get_children (s : ZkStore) (path : bytes) : list bytes :=
  match nodes s !! normalize_path path with
  | Some n => sorted_strings (elements (children n))
  | None => []
  end.

(** ** The tree *)
Definition child_path (parent name : bytes) : bytes :=
  if decide (parent = slash) then slash ++ name else parent ++ slash ++ name.

Definition name_ok (name : bytes) : Prop := name ≠ [] ∧ "/"%char ∉ name.

(** A normalized path with no empty component. *)
Definition canonical (p : bytes) : Prop :=
  p = slash ∨
  ∃ parent name, p = child_path parent name ∧ name_ok name ∧
                 parent_path p = parent ∧ child_name p = name ∧ parent ≠ [] ∧ parent ≠ p.

Record tree (m : gmap bytes Node) : Prop := {
  tree_up : ∀ p n, m !! p = Some n → p ≠ slash →
    canonical p ∧
    ∃ parent, m !! parent_path p = Some parent ∧ child_name p ∈ children parent;
  tree_down : ∀ p n name, m !! p = Some n → name ∈ children n →
    ∃ q child, q ≠ slash ∧ m !! q = Some child ∧ parent_path q = p ∧ child_name q = name
}.

Lemma normalize_path_done p c :
  head p = Some "/"%char → last p = Some c → c ≠ "/"%char → normalize_path p = p.
Proof.
  intros Hh Hl Hc. destruct p as [|x p]; [done|]. injection Hh as ->.
  unfold normalize_path. rewrite decide_True by done.
  apply last_Some in Hl as [q Hq]. rewrite Hq, rev_app_distr. cbn [rev app].
  assert (strip_slashes (c :: rev q) = c :: rev q) as ->.
  { destruct q as [|y q] using rev_ind; [done|]. rewrite rev_app_distr. cbn [rev app strip_slashes].
    by rewrite decide_False. }
  simpl. by rewrite rev_involutive.
Qed.

(** A normal path keeps every character that is not a trailing slash. *)
Lemma strip_slashes_split l : ∃ k, l = replicate k "/"%char ++ strip_slashes l.
Proof.
  induction l as [|c [|d l] IH]; [by exists 0%nat|by exists 0%nat|].
  cbn [strip_slashes]. case_decide as E; [|by exists 0%nat]. subst.
  destruct IH as [k Hk]. exists (S k). simpl. by f_equal.
Qed.

Lemma normalize_keeps p i c :
  head p = Some "/"%char → p !! i = Some c → c ≠ "/"%char → normalize_path p !! i = Some c.
Proof.
  intros Hh Hi Hc. destruct p as [|x p]; [done|]. injection Hh as ->.
  unfold normalize_path. rewrite decide_True by done.
  destruct (strip_slashes_split (rev ("/"%char :: p))) as [k Hk].
  apply (f_equal (@rev ascii)) in Hk. rewrite rev_involutive, rev_app_distr in Hk.
  assert (∀ j, j ∈ rev (replicate k "/"%char) → j = "/"%char) as Hrep.
  { intros j. rewrite list_elem_of_In, <- in_rev, <- list_elem_of_In. apply elem_of_replicate_inv. }
  rewrite Hk in Hi. apply lookup_app_Some in Hi as [|[_ Hi]]; [done|].
  destruct Hc. apply Hrep. by apply list_elem_of_lookup_2 in Hi.
Qed.

Lemma child_path_parts parent name :
  name_ok name → parent ≠ [] →
  child_path parent name ≠ slash ∧ parent_path (child_path parent name) = parent ∧
  child_name (child_path parent name) = name.
Proof.
  intros [Hne Hs] Hp. unfold child_path.
  destruct (decide (parent = slash)) as [->|Hps].
  - assert (slash ++ name ≠ slash) as Hd.
    { unfold slash. simpl. destruct name; [done|]. congruence. }
    unfold parent_path, child_name. rewrite !(decide_False _ _ Hd).
    change (slash ++ name) with ([] ++ "/"%char :: name).
    rewrite !find_last_of_app by done. done.
  - assert (parent ++ slash ++ name ≠ slash) as Hd.
    { destruct parent as [|? [|]]; [done| |done]. simpl. unfold slash in *. simpl.
      congruence. }
    unfold parent_path, child_name. rewrite !(decide_False _ _ Hd). simpl.
    rewrite !find_last_of_app by done. rewrite drop_past_char.
    rewrite take_app_length. destruct parent; [done|]. done.
Qed.

Lemma child_path_canonical parent name :
  name_ok name → parent ≠ [] → canonical (child_path parent name).
Proof.
  intros Hn Hp. right. exists parent, name.
  destruct (child_path_parts parent name Hn Hp) as (_ & H1 & H2).
  split_and!; try done. intros E. unfold child_path in E.
  apply (f_equal length) in E. destruct Hn as [Hn _]. case_decide; subst.
  - destruct name; [done|]. simpl in E. lia.
  - rewrite !length_app in E. simpl in E. lia.
Qed.

Lemma canonical_parts p :
  canonical p → p ≠ slash →
  p = child_path (parent_path p) (child_name p) ∧ name_ok (child_name p) ∧
  parent_path p ≠ [] ∧ parent_path p ≠ p.
Proof. intros [->|(parent & name & -> & ? & -> & -> & ? & ?)] ?; done. Qed.

Lemma initial_tree : tree (nodes initial_store).
Proof.
  constructor; simpl.
  - intros p n [<- _]%lookup_singleton_Some. done.
  - intros p n name [_ <-]%lookup_singleton_Some. simpl. set_solver.
Qed.

Lemma link_node_at m p data eph :
  canonical p → p ≠ slash → m !! p = None → is_Some (m !! parent_path p) →
  ∀ q, link_node m p data eph !! q =
    if decide (q = p) then Some (mkNode data eph 0 ∅)
    else if decide (q = parent_path p)
         then (λ n, with_children n (union {[child_name p]})) <$> m !! q
         else m !! q.
Proof.
  intros Hc Hp Hnone [n Hn] q.
  destruct (canonical_parts p Hc Hp) as (_ & _ & Hpe & Hpp).
  unfold link_node. destruct (parent_path p) as [|c l] eqn:E; [done|].
  rewrite <- E in *. unfold update_children.
  rewrite (lookup_insert_ne m) by congruence. rewrite Hn. simpl.
  destruct (decide (q = p)) as [->|Hqp].
  - by rewrite lookup_insert_ne, lookup_insert_eq by congruence.
  - destruct (decide (q = parent_path p)) as [->|Hqq].
    + by rewrite lookup_insert_eq, Hn.
    + by rewrite !lookup_insert_ne by congruence.
Qed.

Lemma link_node_tree m p data eph :
  tree m → canonical p → p ≠ slash → m !! p = None → is_Some (m !! parent_path p) →
  tree (link_node m p data eph).
Proof.
  intros [Hup Hdown] Hc Hp Hnone Hpar.
  pose proof (link_node_at m p data eph Hc Hp Hnone Hpar) as Hat.
  destruct (canonical_parts p Hc Hp) as (_ & _ & _ & Hpp). destruct Hpar as [par Hpar].
  constructor.
  - intros q n Hq Hqs. rewrite Hat in Hq. destruct (decide (q = p)) as [->|Hqp].
    + split; [done|]. rewrite Hat, decide_False, decide_True, Hpar by done. simpl.
      eexists; split; [done|]. simpl. apply elem_of_union_l. by apply elem_of_singleton.
    + assert (∃ n', m !! q = Some n') as [n' Hn'].
      { case_decide; [|by eauto]. apply fmap_Some in Hq as (? & ? & _). eauto. }
      destruct (Hup q n' Hn' Hqs) as (Hcq & pq & Hpq & Hch). split; [done|].
      rewrite Hat. destruct (decide (parent_path q = p)) as [E|_]; [by rewrite E, Hnone in Hpq|].
      destruct (decide (parent_path q = parent_path p)); [|by eauto].
      rewrite Hpq. simpl. eexists; split; [done|]. simpl. clear Hup Hdown Hat. set_solver.
  - intros q n name Hq Hname. rewrite Hat in Hq.
    assert (∀ n', m !! q = Some n' → name ∈ children n' →
       ∃ r child, r ≠ slash ∧ link_node m p data eph !! r = Some child ∧
                  parent_path r = q ∧ child_name r = name) as Hold.
    { intros n' Hn' Hin. destruct (Hdown q n' name Hn' Hin) as (r & ch & Hr & Hch & Hpr & Hnr).
      exists r. rewrite Hat. destruct (decide (r = p)) as [->|]; [by rewrite Hnone in Hch|].
      destruct (decide (r = parent_path p)); rewrite Hch; simpl; eauto 6. }
    destruct (decide (q = p)) as [->|Hqp]; [injection Hq as <-; set_solver|].
    destruct (decide (q = parent_path p)) as [->|]; [|by eauto].
    apply fmap_Some in Hq as (n' & Hn' & ->). simpl in Hname.
    apply elem_of_union in Hname as [->%elem_of_singleton|Hin]; [|by eauto].
    exists p. rewrite Hat, decide_True by done. eauto.
Qed.

Lemma unlink_node_at m p :
  p ≠ slash → canonical p → is_Some (m !! parent_path p) →
  ∀ q, unlink_node m p !! q =
    if decide (q = p) then None
    else if decide (q = parent_path p)
         then (λ n, with_children n (λ cs, cs ∖ {[child_name p]})) <$> m !! q
         else m !! q.
Proof.
  intros Hp Hc [n Hn] q. destruct (canonical_parts p Hc Hp) as (_ & _ & Hpe & Hpp).
  unfold unlink_node. destruct (parent_path p) as [|c l] eqn:E; [done|].
  rewrite <- E in *. unfold update_children. rewrite Hn. simpl.
  destruct (decide (q = p)) as [->|Hqp]; [by rewrite lookup_delete_eq|].
  rewrite lookup_delete_ne by congruence.
  destruct (decide (q = parent_path p)) as [->|Hqq].
  - by rewrite lookup_insert_eq, Hn.
  - by rewrite lookup_insert_ne by congruence.
Qed.

Lemma canonical_inj p q :
  canonical p → canonical q → p ≠ slash → q ≠ slash →
  parent_path p = parent_path q → child_name p = child_name q → p = q.
Proof.
  intros Hp Hq Hps Hqs H1 H2.
  destruct (canonical_parts p Hp Hps) as (-> & _). destruct (canonical_parts q Hq Hqs) as (-> & _).
  by rewrite H1, H2.
Qed.

Lemma parent_path_shorter p :
  canonical p → p ≠ slash → (length (parent_path p) < length p)%nat.
Proof.
  intros Hc Hp. destruct (canonical_parts p Hc Hp) as (E & [Hn _] & Hpe & _).
  rewrite E at 2. unfold child_path. case_decide as Hs.
  - rewrite Hs. destruct (child_name p); [done|]. simpl. lia.
  - rewrite !length_app. simpl. lia.
Qed.

(** Every node hangs off the root. *)
Lemma tree_root m p n :
  tree m → m !! p = Some n → ∃ r, m !! slash = Some r ∧ (p ≠ slash → children r ≠ ∅).
Proof.
  intros Ht. revert n.
  induction (well_founded_ltof _ (@length ascii) p) as [p _ IH]. unfold ltof in IH.
  intros n Hn. destruct (decide (p = slash)) as [->|Hp]; [by exists n|].
  destruct (tree_up _ Ht p n Hn Hp) as (Hc & par & Hpar & Hch).
  destruct (decide (parent_path p = slash)) as [E|Hps].
  - rewrite E in Hpar. exists par. split; [done|]. set_solver.
  - destruct (IH (parent_path p) (parent_path_shorter p Hc Hp) par Hpar) as (r & Hr & Hrc).
    exists r. auto.
Qed.

Lemma tree_no_root m : tree m → m !! slash = None → m = ∅.
Proof.
  intros Ht Hs. apply map_eq. intros p. rewrite lookup_empty.
  destruct (m !! p) as [n|] eqn:E; [|done].
  destruct (tree_root m p n Ht E) as (r & Hr & _). congruence.
Qed.

Lemma tree_bare_root m n :
  tree m → m !! slash = Some n → children n = ∅ → m = {[slash := n]}.
Proof.
  intros Ht Hs Hch. apply map_eq. intros p. rewrite lookup_singleton.
  case_decide as Hp; [by subst|]. destruct (m !! p) as [k|] eqn:E; [|done].
  destruct (tree_root m p k Ht E) as (r & Hr & Hne).
  rewrite Hr in Hs. injection Hs as ->. by destruct (Hne (not_eq_sym Hp)).
Qed.

Lemma tree_empty : tree ∅.
Proof. constructor; intros ???; by rewrite lookup_empty. Qed.

Lemma unlink_node_tree m p n :
  tree m → m !! p = Some n → children n = ∅ → tree (unlink_node m p).
Proof.
  intros Ht Hn Hch. destruct (decide (p = slash)) as [->|Hp].
  { rewrite (tree_bare_root m n) by done. unfold unlink_node. simpl.
    rewrite delete_singleton_eq. apply tree_empty. }
  destruct (tree_up _ Ht p n Hn Hp) as (Hc & par & Hpar & Hin).
  pose proof (unlink_node_at m p Hp Hc (mk_is_Some _ _ Hpar)) as Hat.
  destruct Ht as [Hup Hdown]. constructor.
  - intros q k Hq Hqs. rewrite Hat in Hq.
    destruct (decide (q = p)) as [->|Hqp]; [done|].
    assert (∃ k', m !! q = Some k') as [k' Hk'].
    { case_decide; [|by eauto]. apply fmap_Some in Hq as (? & ? & _). eauto. }
    destruct (Hup q k' Hk' Hqs) as (Hcq & pq & Hpq & Hcin). split; [done|]. rewrite Hat.
    destruct (decide (parent_path q = p)) as [E|_].
    { rewrite E, Hn in Hpq. injection Hpq as <-. rewrite Hch in Hcin.
      by apply not_elem_of_empty in Hcin. }
    destruct (decide (parent_path q = parent_path p)) as [E|_]; [|by eauto].
    rewrite Hpq. simpl. eexists; split; [done|]. simpl.
    apply elem_of_difference. split; [done|]. rewrite elem_of_singleton.
    intros E'. apply Hqp. by apply canonical_inj.
  - intros q k name Hq Hname. rewrite Hat in Hq.
    destruct (decide (q = p)) as [->|Hqp]; [done|].
    assert (∃ k', m !! q = Some k' ∧ name ∈ children k' ∧
                  (q = parent_path p → name ≠ child_name p)) as (k' & Hk' & Hin' & Hne).
    { destruct (decide (q = parent_path p)) as [E|E]; [|by exists k].
      apply fmap_Some in Hq as (k' & ? & ->). apply elem_of_difference in Hname as [? Hno].
      exists k'. split_and!; [done|done|]. intros _ ->. by apply Hno, elem_of_singleton. }
    destruct (Hdown q k' name Hk' Hin') as (r & ch & Hr & Hch' & Hpr & Hnr).
    exists r. rewrite Hat. destruct (decide (r = p)) as [->|]; [by destruct Hne|].
    destruct (decide (r = parent_path p)); rewrite Hch'; simpl; eauto 6.
Qed.

Lemma link_root_tree m data eph : tree m → m !! slash = None → tree (link_node m slash data eph).
Proof.
  intros Ht Hs. rewrite (tree_no_root m Ht Hs). unfold link_node. simpl.
  constructor.
  - intros p n [<- _]%lookup_singleton_Some. done.
  - intros p n name [_ <-]%lookup_singleton_Some. simpl. set_solver.
Qed.

Lemma update_node_tree m p n n' :
  tree m → m !! p = Some n → children n' = children n → tree (<[p := n']> m).
Proof.
  intros [Hup Hdown] Hn Hc. constructor.
  - intros q k Hq Hqs.
    assert (∃ k', m !! q = Some k') as [k' Hk'].
    { rewrite lookup_insert in Hq. case_decide; subst; eauto. }
    destruct (Hup q k' Hk' Hqs) as (Hcq & par & Hpar & Hin). split; [done|].
    rewrite lookup_insert. case_decide as E; [|by eauto]. exists n'. split; [done|].
    rewrite E, Hpar in Hn. injection Hn as ->. by rewrite Hc.
  - intros q k name Hq Hname.
    assert (∃ k', m !! q = Some k' ∧ name ∈ children k') as (k' & Hk' & Hin).
    { rewrite lookup_insert in Hq. case_decide; [|by eauto]. injection Hq as <-. subst.
      rewrite Hc in Hname. eauto. }
    destruct (Hdown q k' name Hk' Hin) as (r & ch & Hr & Hch & ? & ?). exists r.
    rewrite lookup_insert. case_decide; eauto 6.
Qed.

(** ** Histories *)
Inductive zk_op :=
  | ZkCreate (path data : bytes) (eph sequence : bool)
  | ZkDelete (path : bytes)
  | ZkSet (path data : bytes)
  | ZkConnect
  | ZkDisconnect.

Definition run_zk (cs : ZkClient * ZkStore) (op : zk_op) : ZkClient * ZkStore :=
  let '(c, s) := cs in
  match op with
  | ZkCreate path data eph sequence => (c, (create_node c s path data eph sequence).1.1)
  | ZkDelete path => (c, (delete_node c s path).1.1)
  | ZkSet path data => (c, (set_node_data c s path data).1.1)
  | ZkConnect => ((connect c).1, s)
  | ZkDisconnect => ((disconnect c).1, s)
  end.

(** The path a creation stores, and that it has no doubled slash. *)
Definition stored_path (s : ZkStore) (path : bytes) (sequence : bool) : bytes :=
  if sequence then (next_sequence s (normalize_path path)).2 else normalize_path path.
Definition zk_op_ok (s : ZkStore) (op : zk_op) : Prop :=
  match op with
  | ZkCreate path _ _ sequence => canonical (stored_path s path sequence)
  | _ => True
  end.

Lemma create_node_tree c s path data eph sequence :
  tree (nodes s) → canonical (stored_path s path sequence) →
  tree (nodes (create_node c s path data eph sequence).1.1).
Proof.
  intros Ht Hc. unfold create_node. destruct (negb (connected c)); [done|].
  assert (∃ s1, (if sequence then next_sequence s (normalize_path path)
                 else (s, normalize_path path)) = (s1, stored_path s path sequence) ∧
                nodes s1 = nodes s) as (s1 & -> & Hs1).
  { destruct sequence; eexists; by split. }
  rewrite Hs1. generalize dependent (stored_path s path sequence). intros p Hc.
  case_decide as Hex; simpl; [by rewrite Hs1|].
  case_decide as Hpar; simpl; [by rewrite Hs1|].
  apply eq_None_not_Some in Hex. destruct (decide (p = slash)) as [->|Hp].
  - by apply link_root_tree.
  - destruct (canonical_parts p Hc Hp) as (_ & _ & Hpe & _).
    apply link_node_tree; try done. apply not_eq_None_Some. intros E. by apply Hpar.
Qed.

Lemma run_zk_tree c s op :
  tree (nodes s) → zk_op_ok s op → tree (nodes (run_zk (c, s) op).2).
Proof.
  intros Ht Hok. destruct op as [path data eph sequence|path|path data| |]; simpl; try done.
  - by apply create_node_tree.
  - unfold delete_node. destruct (negb (connected c)); [done|].
    destruct (nodes s !! normalize_path path) as [n|] eqn:E; [|done].
    case_decide; [|done]. simpl. by eapply unlink_node_tree.
  - unfold set_node_data. destruct (negb (connected c)); [done|].
    destruct (nodes s !! normalize_path path) as [n|] eqn:E; [|done].
    simpl. by eapply update_node_tree.
Qed.

Inductive zk_step : ZkClient * ZkStore → ZkClient * ZkStore → Prop :=
  | zk_step_op cs op : zk_op_ok cs.2 op → zk_step cs (run_zk cs op).

(** C36: the coordination store is always a tree.  After any history of
    connections, creations (sequential or not), deletions and updates whose
    stored paths have no doubled slash, every node but the root has an
    existing parent that lists it, and every listed child exists: what
    [get_children] answers and what [node_exists] answers agree. *)
Theorem zk_tree_invariant (c0 : ZkClient) (cs : ZkClient * ZkStore) :
  rtc zk_step (c0, initial_store) cs → tree (nodes cs.2).
Proof.
  intros Hr. assert (tree (nodes (c0, initial_store).2)) as Ht by apply initial_tree.
  induction Hr as [|? ? ? [[c s] op Hok] _ IH]; [done|]. apply IH. by apply run_zk_tree.
Qed.

Definition demo_client : ZkClient := mkClient (lit "localhost:2181") true true.
Definition demo_create : zk_op := ZkCreate (lit "dfg/") (lit "x") false false.

Lemma zk_tree_invariant_witness :
  tree (nodes (run_zk (run_zk (demo_client, initial_store) demo_create)
                 (ZkDelete (lit "/dfg"))).2).
Proof.
  apply (zk_tree_invariant demo_client).
  apply (rtc_l _ _ (run_zk (demo_client, initial_store) demo_create));
    [|apply rtc_once]; constructor; [|done].
  apply (child_path_canonical slash (lit "dfg")); [|done]. split; [done|].
  apply (bool_decide_unpack ("/"%char ∉ lit "dfg")). done.
Defined.

(** Creation is visible.  When [create_node] answers [ZOK] the node was
    absent and afterwards exists with the given data and flags and no
    children, its parent lists it, every other node keeps its data, and the
    watch is notified once with the stored path; otherwise no node changes. *)
Theorem create_node_spec (c : ZkClient) (s : ZkStore) (path data : bytes) (eph sequence : bool) :
  canonical (stored_path s path sequence) →
  let p := stored_path s path sequence in
  let '(s', code, ws) := create_node c s path data eph sequence in
  match code with
  | ZOK => nodes s !! p = None ∧ nodes s' !! p = Some (mkNode data eph 0 ∅) ∧
           (p ≠ slash → ∃ par, nodes s' !! parent_path p = Some par ∧
                               child_name p ∈ children par) ∧
           (∀ q, q ≠ p → node_data <$> nodes s' !! q = node_data <$> nodes s !! q) ∧
           ws = invoke_watch c ZOO_CREATED_EVENT ZOO_CONNECTED_STATE p
  | ZNODEEXISTS => connected c = true ∧ is_Some (nodes s !! p) ∧ nodes s' = nodes s ∧ ws = []
  | ZNONODE => connected c = true ∧ nodes s !! parent_path p = None ∧ nodes s' = nodes s ∧ ws = []
  | ZINVALIDSTATE => connected c = false ∧ s' = s ∧ ws = []
  end.
Proof.
  intros Hc. cbv zeta. unfold create_node.
  destruct (connected c) eqn:Econ; cbn [negb]; [|done].
  assert (∃ s1, (if sequence then next_sequence s (normalize_path path)
                 else (s, normalize_path path)) = (s1, stored_path s path sequence) ∧
                nodes s1 = nodes s) as (s1 & -> & Hs1).
  { destruct sequence; eexists; by split. }
  rewrite Hs1. generalize dependent (stored_path s path sequence). intros p Hc.
  case_decide as Hex; [done|]. apply eq_None_not_Some in Hex.
  case_decide as Hpar; [by destruct Hpar|]. cbn [nodes].
  destruct (decide (p = slash)) as [->|Hp].
  - unfold link_node. simpl. split_and!; try done; [by rewrite lookup_insert_eq|].
    intros q Hq. by rewrite lookup_insert_ne.
  - destruct (canonical_parts p Hc Hp) as (_ & _ & Hpe & Hpp).
    assert (is_Some (nodes s !! parent_path p)) as Hsome.
    { apply not_eq_None_Some. intros E. by apply Hpar. }
    pose proof (link_node_at (nodes s) p data eph Hc Hp Hex Hsome) as Hat.
    split_and!; try done.
    + by rewrite Hat, decide_True.
    + intros _. destruct Hsome as [par Hpar'].
      rewrite Hat, decide_False, decide_True, Hpar' by done. simpl.
      eexists; split; [done|]. simpl. set_solver.
    + intros q Hq. rewrite Hat, decide_False by done. case_decide; [|done].
      by destruct (nodes s !! q).
Qed.

Lemma create_node_spec_witness :
  nodes (create_node demo_client initial_store (lit "dfg/") (lit "x") true false).1.1
    !! lit "/dfg" = Some (mkNode (lit "x") true 0 ∅).
Proof.
  apply (create_node_spec demo_client initial_store (lit "dfg/") (lit "x") true false).
  apply (child_path_canonical slash (lit "dfg")); [|done]. split; [done|].
  apply (bool_decide_unpack ("/"%char ∉ lit "dfg")). done.
Defined.

(** ** What the store does not do *)

(** A doubled leading slash breaks the tree: "//a" is filed as a second child
    "a" of the root, and deleting it unlists the real "/a". *)
Definition double_slash_run : ZkStore :=
  (run_zk (run_zk (run_zk (demo_client, initial_store)
     (ZkCreate (lit "/a") [] false false)) (ZkCreate (lit "//a") [] false false))
     (ZkDelete (lit "//a"))).2.

Example double_slash_unlists :
  node_exists double_slash_run (lit "/a") = true ∧ get_children double_slash_run slash = [].
Proof. by vm_compute. Qed.

(** Ephemeral nodes survive the session that created them. *)
Example ephemeral_survives_disconnect :
  node_exists (run_zk (run_zk (demo_client, initial_store)
    (ZkCreate (lit "/e") [] true false)) ZkDisconnect).2 (lit "/e") = true.
Proof. by vm_compute. Qed.
