(* ===== verification/ZkPaths.v ===== *)
(** * ZkPaths: absolute paths of the coordination store

    A path without empty components is its own normal form, and its parent is
    one too or the root. *)
From Stdlib Require Import Lia.
From S2P Require Import Prelude.
From S2P Require Import Text.
From S2P Require Import Ordered.
From S2P Require Import Zk.
Local Open Scope Z_scope.

Inductive abs_path : bytes → Prop :=
  | abs_top name : name_ok name → abs_path (slash ++ name)
  | abs_sub p name : abs_path p → name_ok name → abs_path (p ++ slash ++ name).

Lemma name_ok_last name : name_ok name → ∃ c, last name = Some c ∧ c ≠ "/"%char.
Proof.
  intros [Hne Hs]. destruct (last name) as [c|] eqn:E; [|by apply last_None in E].
  exists c. split; [done|]. intros ->. apply last_Some in E as [q ->].
  apply Hs, elem_of_app. right. by left.
Qed.

Lemma abs_path_child p :
  abs_path p → ∃ parent name, p = child_path parent name ∧ name_ok name ∧
    (parent = slash ∨ abs_path parent) ∧ head p = Some "/"%char ∧ (1 < length p)%nat.
Proof.
  induction 1 as [name Hn|p name Hp (pa & na & _ & _ & _ & Hh & Hl) Hn].
  - exists slash, name. split_and!; try done; [by left|]. destruct Hn as [Hn _].
    destruct name; [done|]. simpl. lia.
  - exists p, name. split_and!; [|done|by right|by destruct p|].
    + unfold child_path. rewrite decide_False; [done|]. intros ->. simpl in Hl. lia.
    + rewrite !length_app. simpl. lia.
Qed.

Lemma abs_path_normal p : abs_path p → normalize_path p = p.
Proof.
  intros Hp. assert (∃ q name, p = q ++ name ∧ name_ok name) as (q & name & E & Hn).
  { destruct Hp as [name Hn|p name Hp Hn]; [by exists slash, name|].
    exists (p ++ slash), name. by rewrite <- (assoc_L (++)). }
  destruct (abs_path_child p Hp) as (_ & _ & _ & _ & _ & Hh & _).
  destruct (name_ok_last name Hn) as (c & Hc & Hcs).
  apply (normalize_path_done p c); [done| |done].
  apply last_Some in Hc as [r ->]. by rewrite E, (assoc_L (++)), last_snoc.
Qed.

Lemma abs_path_parts p :
  abs_path p → p ≠ slash ∧ canonical p ∧ (parent_path p = slash ∨ abs_path (parent_path p)).
Proof.
  intros Hp. destruct (abs_path_child p Hp) as (pa & na & -> & Hn & Hpa & _ & _).
  assert (pa ≠ []) as Hne.
  { destruct Hpa as [->|Hpa]; [done|].
    destruct (abs_path_child pa Hpa) as (_ & _ & _ & _ & _ & Hh & _). by destruct pa. }
  destruct (child_path_parts pa na Hn Hne) as (? & -> & _).
  split_and!; [done|by apply child_path_canonical|done].
Qed.

(** Where the last slash is. *)
Lemma abs_path_cut p :
  abs_path p →
  match find_last_of "/"%char p with
  | Some O => parent_path p = slash
  | Some pos => take pos p = parent_path p ∧ abs_path (parent_path p)
  | None => False
  end.
Proof.
  intros Hp. destruct (abs_path_parts p Hp) as (Hs & _ & Hpa). revert Hpa.
  unfold parent_path. rewrite (decide_False _ _ Hs).
  destruct Hp as [name [_ Hn]|p name Hp [_ Hn]].
  - change (slash ++ name) with ([] ++ "/"%char :: name). by rewrite find_last_of_app.
  - simpl. rewrite find_last_of_app by done.
    destruct (abs_path_child p Hp) as (_ & _ & _ & _ & _ & _ & Hl).
    destruct (length p) as [|k] eqn:E; [lia|]. intros [Eq|]; [|done]. rewrite <- E in Eq.
    rewrite take_app_length in Eq. subst. simpl in *. lia.
Qed.

Lemma name_ok_numbered prefix z : "/"%char ∉ prefix → name_ok (prefix ++ show_Z z).
Proof.
  intros Hp. split.
  - destruct (word_show_Z z) as [Hne _]. by destruct prefix, (show_Z z).
  - rewrite not_elem_of_app. split; [done|by apply digit_run_no].
Qed.
