(* ===== verification/Net.v ===== *)
(** * Net: addresses and whole-buffer socket I/O
    (src/src/common/include/dfg/net_utils.hpp)

    A socket is what the kernel answers: a list of events for [send], and a
    list of segments for [recv]. *)
From Stdlib Require Import Lia.
From S2P Require Import Prelude.
From S2P Require Import Text.

(** ** [parse_address] *)
Definition parse_address (address : bytes) (default_port : Z) : bytes * Z :=
  match find_char colon address with
  | None => (address, default_port)
  | Some pos => (take pos address, try_catch (stoi (drop (pos + 1) address)) default_port)
  end.

(** "host:port", as [ServerEntry::address] and the heartbeats print it. *)
Definition show_address (h : bytes) (p : Z) : bytes := h ++ colon :: show_Z p.

Lemma parse_show_address h p d :
  no_char colon h → (INT_MIN ≤ p ≤ INT_MAX)%Z →
  parse_address (show_address h p) d = (h, p).
Proof.
  intros Hh Hp. unfold parse_address, show_address.
  rewrite find_char_app, take_app_length, drop_past_char, stoi_show by done. done.
Qed.

Lemma parse_address_no_port a d : no_char colon a → parse_address a d = (a, d).
Proof. intros H. unfold parse_address. by rewrite (proj2 (find_char_None colon a)). Qed.

(** ** [send_all] *)

(** What one [send] answers: [n] bytes taken, or [EAGAIN] followed by whether
    [select] reports the socket writable, or an error. *)
Inductive send_event := Sent (n : nat) | SendAgain (writable : bool) | SendFailed.

(** The answers are consumed in order; [None] is a call still blocked when
    they run out.  The result and the bytes that reached the wire. *)
Fixpoint send_loop (evs : list send_event) (buf : bytes) (sent : nat) : option (bool * bytes) :=
  if length buf <=? sent then Some (true, take sent buf)
  else match evs with
       | [] => None
       | Sent (S n) :: evs' =>
           send_loop evs' buf (sent + Nat.min (S n) (length buf - sent))
       | SendAgain true :: evs' => send_loop evs' buf sent
       | Sent O :: _ | SendAgain false :: _ | SendFailed :: _ =>
           Some (false, take sent buf)
       end.
Definition send_all (evs : list send_event) (buf : bytes) : option (bool * bytes) :=
  send_loop evs buf 0.

(** ** [recv_all] *)

(** What the peer's bytes look like to [recv]: a segment, a pause ([EAGAIN],
    then readable), a stall ([select] times out) or an error.  The end of the
    list is the end of the stream. *)
Inductive segment := Seg (data : bytes) | Pause | Stall | RecvFailed.

(** Segments are dropped once read; a partly read one keeps its tail. *)
Definition push_back (data : bytes) (segs : list segment) : list segment :=
  match data with [] => segs | _ => Seg data :: segs end.

Fixpoint recv_loop (segs : list segment) (want : nat) (got : bytes)
  : bool * bytes * list segment :=
  if want <=? length got then (true, got, segs)
  else match segs with
       | [] => (false, got, [])
       | Seg data :: segs' =>
           let need := want - length got in
           if length data <=? need then recv_loop segs' want (got ++ data)
           else (true, got ++ take need data, push_back (drop need data) segs')
       | Pause :: segs' => recv_loop segs' want got
       | Stall :: segs' | RecvFailed :: segs' => (false, got, segs')
       end.
Definition recv_all (segs : list segment) (want : nat) : bool * bytes * list segment :=
  recv_loop segs want [].

(** The bytes in flight. *)
Definition stream (segs : list segment) : bytes :=
  concat (map (λ s, match s with Seg d => d | _ => [] end) segs).

(** The abstract read: exactly [n] bytes, or nothing. *)
Definition recv_exact (n : nat) (s : bytes) : option (bytes * bytes) :=
  if n <=? length s then Some (take n s, drop n s) else None.

Definition delivering (s : segment) : Prop :=
  match s with Seg _ | Pause => True | _ => False end.

Lemma recv_exact_app a b n : n = length a → recv_exact n (a ++ b) = Some (a, b).
Proof.
  intros ->. unfold recv_exact. rewrite length_app.
  destruct (Nat.leb_spec (length a) (length a + length b)); [|lia].
  by rewrite take_app_length, drop_app_length.
Qed.

Lemma recv_exact_Some n s a b :
  recv_exact n s = Some (a, b) → s = a ++ b ∧ length a = n.
Proof.
  unfold recv_exact. destruct (Nat.leb_spec n (length s)); [|done].
  intros [= <- <-]. rewrite take_drop, length_take. split; [done|lia].
Qed.

Lemma stream_push_back d segs : stream (push_back d segs) = d ++ stream segs.
Proof. by destruct d. Qed.

Lemma recv_loop_exact segs want got :
  Forall delivering segs → length got ≤ want →
  recv_loop segs want got =
    match recv_exact (want - length got) (stream segs) with
    | Some (data, rest) =>
        (true, got ++ data, (recv_loop segs want got).2)
    | None => (false, got ++ stream segs, [])
    end ∧
  (∀ data rest, recv_exact (want - length got) (stream segs) = Some (data, rest) →
     stream (recv_loop segs want got).2 = rest).
Proof.
  intros Hd. revert got. induction Hd as [|s segs Hs Hd IH]; intros got Hg.
  - unfold recv_exact. simpl. destruct (Nat.leb_spec want (length got)).
    + replace (want - length got) with 0 by lia. simpl. rewrite app_nil_r.
      split; [done|]. by intros ?? [= <- <-].
    + destruct (Nat.leb_spec (want - length got) 0); [lia|]. rewrite app_nil_r. done.
  - cbn [recv_loop]. destruct (Nat.leb_spec want (length got)).
    + replace (want - length got) with 0 by lia. unfold recv_exact. cbn. rewrite app_nil_r.
      split; [done|]. by intros ?? [= <- <-].
    + destruct s as [d| | |]; try done; [|by apply IH].
      assert (stream (Seg d :: segs) = d ++ stream segs) as Hst by done. rewrite Hst.
      destruct (Nat.leb_spec (length d) (want - length got)).
      * destruct (IH (got ++ d)) as [IH1 IH2]; [rewrite length_app; lia|].
        revert IH1 IH2. rewrite length_app. unfold recv_exact. rewrite length_app.
        replace (want - (length got + length d)) with (want - length got - length d) by lia.
        rewrite take_app_ge, drop_app_ge by lia.
        destruct (Nat.leb_spec (want - length got - length d) (length (stream segs)));
          destruct (Nat.leb_spec (want - length got) (length d + length (stream segs)));
          try lia; intros -> IH2; simpl; rewrite <- !app_assoc; split; try done.
        intros ?? [= <- <-]. by eapply IH2.
      * unfold recv_exact. rewrite length_app.
        destruct (Nat.leb_spec (want - length got) (length d + length (stream segs))); [|lia].
        rewrite take_app_le, drop_app_le by lia. split; [done|].
        intros ?? [= <- <-]. simpl. apply stream_push_back.
Qed.

(** [recv_all] is insensitive to how the kernel cuts the stream.  As long
    as the connection only pauses, it returns exactly the next [want] bytes of
    the stream and leaves the rest, or fails when fewer remain. *)
Theorem recv_all_exact (segs : list segment) (want : nat) :
  Forall delivering segs →
  match recv_exact want (stream segs) with
  | Some (data, rest) =>
      ∃ segs', recv_all segs want = (true, data, segs') ∧ stream segs' = rest
  | None => recv_all segs want = (false, stream segs, [])
  end.
Proof.
  intros Hd. destruct (recv_loop_exact segs want [] Hd) as [H1 H2]; [simpl; lia|].
  simpl in H1, H2. rewrite Nat.sub_0_r in H1, H2. unfold recv_all.
  destruct (recv_exact want (stream segs)) as [[data rest]|]; [|done].
  exists (recv_loop segs want []).2. split; [done|]. by eapply H2.
Qed.

Lemma recv_all_exact_witness :
  ∃ segs', recv_all [Seg (lit "he"); Pause; Seg (lit "llo!")] 5 = (true, lit "hello", segs') ∧
           stream segs' = lit "!".
Proof.
  apply (recv_all_exact [Seg (lit "he"); Pause; Seg (lit "llo!")] 5).
  by repeat constructor.
Defined.

Lemma send_loop_prefix evs buf sent ok wire :
  send_loop evs buf sent = Some (ok, wire) → sent ≤ length buf →
  ∃ k, wire = take k buf ∧ sent ≤ k ≤ length buf ∧ (ok = true ↔ k = length buf).
Proof.
  revert sent. induction evs as [|e evs IH]; intros sent; cbn [send_loop];
    destruct (Nat.leb_spec (length buf) sent); intros He Hs.
  - injection He as <- <-. exists sent. split; [done|]. split; [lia|]. split; [lia|done].
  - done.
  - injection He as <- <-. exists sent. split; [done|]. split; [lia|]. split; [lia|done].
  - assert (∀ w, Some (false, take sent buf) = Some (ok, w) → w = wire →
      ∃ k, wire = take k buf ∧ sent ≤ k ≤ length buf ∧ (ok = true ↔ k = length buf)) as Hstop.
    { intros w [= <- <-] <-. exists sent. split; [done|]. split; [lia|]. split; [done|lia]. }
    destruct e as [[|n]|[]|]; eauto.
    destruct (IH _ He) as (k & -> & Hk & Hok); [lia|]. exists k. split; [done|].
    split; [lia|done].
Qed.

Definition progress (e : send_event) : Prop :=
  match e with Sent (S _) => True | SendAgain w => w = true | _ => False end.
Definition is_sent (e : send_event) : bool := match e with Sent _ => true | _ => false end.

Lemma send_loop_finishes evs buf sent :
  Forall progress evs → sent ≤ length buf →
  length buf - sent ≤ length (filter (λ e, is_sent e = true) evs) →
  send_loop evs buf sent = Some (true, buf).
Proof.
  intros Hp. revert sent. induction Hp as [|e evs He Hp IH]; intros sent Hs Hn;
    cbn [send_loop]; destruct (Nat.leb_spec (length buf) sent);
    try (rewrite take_ge by lia; done); [simpl in Hn; lia|].
  rewrite filter_cons in Hn.
  destruct e as [[|n]|[]|]; try done; simpl in Hn; apply IH; try lia.
Qed.

(** [send_all] never lies.  When it returns, what reached the wire is a
    prefix of the buffer, and it returned [true] exactly when the prefix is the
    whole buffer; and it does return [true] whenever the kernel keeps
    accepting bytes (at most one call per byte is needed). *)
Theorem send_all_spec (evs : list send_event) (buf : bytes) :
  (∀ ok wire, send_all evs buf = Some (ok, wire) →
     ∃ k, wire = take k buf ∧ k ≤ length buf ∧ (ok = true ↔ k = length buf)) ∧
  (Forall progress evs → length buf ≤ length (filter (λ e, is_sent e = true) evs) →
     send_all evs buf = Some (true, buf)).
Proof.
  split.
  - intros ok wire H. destruct (send_loop_prefix _ _ _ _ _ H) as (k & -> & ? & ?); [lia|].
    exists k. split; [done|]. split; [lia|done].
  - intros Hp Hn. apply send_loop_finishes; [done|lia|lia].
Qed.
