(* ===== verification/JsonText.v ===== *)
(** * JsonText: the JSON the control API reads and writes
    (src/src/head_server/control_api.hpp, [extract_json_string],
    [extract_json_int] and the objects written with [<<])

    [json_object] is the flat objects the clients build; the laws say that the
    extractors read back what was written. *)
From Stdlib Require Import Lia.
From S2P Require Import Prelude.
From S2P Require Import Text.

(** JSON text, with ['] standing for the double quote. *)
Definition jlit (s : string) : bytes :=
  map (λ c, if decide (c = "'"%char) then dq else c) (lit s).
(** ** [extract_json_string], [extract_json_int] *)
Definition quoted (key : bytes) : bytes := dq :: key ++ [dq].

Definition extract_json_string (json key : bytes) : bytes :=
  default [] (
    pos ← find (quoted key) json;
    pos ← find_char_from colon json pos;
    pos ← find_char_from dq json pos;
    e ← find_char_from dq json (pos + 1)%nat;
    Some (take (e - pos - 1) (drop (pos + 1) json))).

Definition is_blank (c : ascii) : bool := bool_decide (c = sp ∨ c = tab).

Definition extract_json_int (json key : bytes) : Z :=
  default 0%Z (
    pos ← find (quoted key) json;
    pos ← find_char_from colon json pos;
    Some (try_catch (stoi (drop_while is_blank (drop (pos + 1) json))) 0%Z)).

Fixpoint comma_separated (l : list bytes) : bytes :=
  match l with
  | [] => []
  | [x] => x
  | x :: l' => x ++ lit "," ++ comma_separated l'
  end.


(** ** Flat objects *)
Inductive json_value := Jint (n : Z) | Jstr (s : bytes).

Definition show_value (v : json_value) : bytes :=
  match v with Jint n => show_Z n | Jstr s => quoted s end.
Definition show_field (f : bytes * json_value) : bytes :=
  quoted f.1 ++ colon :: show_value f.2.
Definition json_object (fs : list (bytes * json_value)) : bytes :=
  lit "{" ++ comma_separated (map show_field fs) ++ lit "}".

(** ** Laws *)

(** Keys the extractors can look for: no quote, no colon, and a first
    character that is not JSON punctuation. *)
Definition key_ok (key : bytes) : Prop :=
  no_char dq key ∧ no_char colon key ∧
  match key with c :: _ => c ≠ ","%char ∧ c ≠ colon ∧ c ≠ "}"%char | [] => False end.
#[export] Instance key_ok_dec key : Decision (key_ok key).
Proof. unfold key_ok. destruct key; apply _. Defined.

(** A field that does not look like [key]. *)
Definition field_skips (key : bytes) (f : bytes * json_value) : Prop :=
  no_char dq f.1 ∧ f.1 ≠ key ∧
  match f.2 with Jint _ => True | Jstr w => no_char dq w ∧ w ≠ key end.

Lemma no_dq_show_Z n : no_char dq (show_Z n).
Proof. by apply show_Z_avoids. Qed.

Lemma find_quoted_other key w s :
  no_char dq key → no_char dq w → w ≠ key →
  starts_with (quoted key) (dq :: s) = false →
  find (quoted key) (quoted w ++ s) = (λ i, length (quoted w) + i) <$> find (quoted key) s.
Proof.
  intros Hk Hw Hne Hs. unfold quoted at 2. simpl app. rewrite <- app_assoc. simpl app.
  rewrite find_cons_no.
  - unfold quoted at 1. rewrite find_skip by done. fold (quoted key).
    rewrite find_cons_no by done.
    destruct (find (quoted key) s); simpl; [|done]. f_equal. rewrite length_app. simpl. lia.
  - apply not_true_iff_false. intros [t Ht]%starts_with_spec.
    unfold quoted in Ht. simpl in Ht. injection Ht as Ht. rewrite <- app_assoc in Ht.
    by destruct (app_char_inj dq w key s t Hw Hk Ht).
Qed.

Lemma starts_punct key c s :
  key_ok key → c = ","%char ∨ c = colon ∨ c = "}"%char →
  starts_with (quoted key) (dq :: c :: s) = false.
Proof.
  intros (_ & _ & Hk) Hc. unfold quoted. destruct key as [|k key]; [done|].
  simpl. rewrite (bool_decide_false (k = c)); [done|].
  destruct Hk as (? & ? & ?). destruct Hc as [->|[->| ->]]; done.
Qed.

Lemma find_skip_sep key f c s :
  c = ","%char ∨ c = "}"%char → key_ok key → field_skips key f →
  find (quoted key) (show_field f ++ c :: s) =
    (λ i, length (show_field f ++ [c]) + i) <$> find (quoted key) s.
Proof.
  intros Hc Hk (Hf & Hne & Hv). pose proof Hk as (Hkd & _ & _). destruct f as [k v].
  cbn [fst snd] in *. unfold show_field. cbn [fst snd]. rewrite <- app_assoc.
  rewrite find_quoted_other; [|done..|apply starts_punct; auto].
  assert (find (quoted key) ((colon :: show_value v) ++ c :: s) =
    (λ i, length (show_value v) + 2 + i) <$> find (quoted key) s) as ->.
  { simpl app. rewrite find_cons_no by done. destruct v as [n|w]; cbn [show_value].
    - unfold quoted at 1. rewrite (find_skip dq (key ++ [dq])) by apply no_dq_show_Z.
      fold (quoted key). rewrite (find_cons_no _ c) by (by destruct Hc as [->| ->]).
      destruct (find (quoted key) s); simpl; [|done]. f_equal. lia.
    - destruct Hv. rewrite find_quoted_other; [|done..|apply starts_punct; tauto].
      rewrite (find_cons_no _ c) by (by destruct Hc as [->| ->]).
      destruct (find (quoted key) s); cbn [fmap option_fmap option_map]; [|done]. f_equal. lia. }
  destruct (find (quoted key) s); cbn [fmap option_fmap option_map]; [|done].
  f_equal. rewrite !length_app. cbn [length]. lia.
Qed.

Lemma find_skip_field key f s :
  key_ok key → field_skips key f →
  find (quoted key) (show_field f ++ ","%char :: s) =
    (λ i, length (show_field f ++ [","%char]) + i) <$> find (quoted key) s.
Proof. apply find_skip_sep. by left. Qed.

(** The fields before the one looked for. *)
Definition fields_text (fs : list (bytes * json_value)) : bytes :=
  concat (map (λ f, show_field f ++ [","%char]) fs).

Lemma fields_text_cons f l :
  fields_text (f :: l) = show_field f ++ ","%char :: fields_text l.
Proof. unfold fields_text. cbn [map concat]. by rewrite <- app_assoc. Qed.

Lemma comma_separated_app (l1 : list (bytes * json_value)) f l2 :
  comma_separated (map show_field (l1 ++ f :: l2)) =
  fields_text l1 ++ comma_separated (map show_field (f :: l2)).
Proof.
  induction l1 as [|g l1 IH]; [done|].
  rewrite fields_text_cons, <- app_assoc, <- !app_comm_cons, <- IH. by destruct l1.
Qed.

Lemma find_field key l1 s :
  key_ok key → Forall (field_skips key) l1 →
  find (quoted key) (fields_text l1 ++ quoted key ++ s) = Some (length (fields_text l1)).
Proof.
  intros Hk Hl. induction Hl as [|f l1 Hf Hl IH].
  { exact (find_here (quoted key) s). }
  rewrite fields_text_cons, <- app_assoc, <- app_comm_cons.
  rewrite find_skip_field, IH by done. cbn [fmap option_fmap option_map].
  f_equal. rewrite !length_app. simpl. lia.
Qed.

(** A printed object around the field looked for. *)
Lemma json_object_at l1 key v l2 :
  ∃ rest, json_object (l1 ++ (key, v) :: l2) =
    (lit "{" ++ fields_text l1) ++ quoted key ++ colon :: show_value v ++ rest ∧
    match rest with c :: _ => is_digit c = false | [] => True end.
Proof.
  unfold json_object. rewrite comma_separated_app. destruct l2 as [|g l2].
  - exists (lit "}"). split; [|done]. cbn [map comma_separated]. unfold show_field.
    by rewrite <- !app_assoc.
  - exists (","%char :: comma_separated (map show_field (g :: l2)) ++ lit "}"). split; [|done].
    change (comma_separated (map show_field ((key, v) :: g :: l2))) with
      (show_field (key, v) ++ lit "," ++ comma_separated (map show_field (g :: l2))).
    unfold show_field at 1. cbn [fst snd]. rewrite <- !app_assoc. done.
Qed.

Lemma find_in_object l1 key s :
  key_ok key → Forall (field_skips key) l1 →
  find (quoted key) ((lit "{" ++ fields_text l1) ++ quoted key ++ s) =
    Some (length (lit "{" ++ fields_text l1)).
Proof.
  intros Hk Hl. rewrite <- app_assoc. change (lit "{") with ["{"%char].
  rewrite <- !app_comm_cons, !app_nil_l, find_cons_no, find_field by done. done.
Qed.

Lemma colon_after_key (a : bytes) key s :
  no_char colon key →
  find_char_from colon (a ++ quoted key ++ colon :: s) (length a) =
    Some (length a + length (quoted key)).
Proof.
  intros Hk. apply find_char_from_app; [done|]. unfold quoted.
  rewrite not_elem_of_cons, not_elem_of_app, not_elem_of_cons. split_and!; try done.
  apply not_elem_of_nil.
Qed.

Lemma drop_after_colon (a b s : bytes) c :
  drop (length a + length b + 1) (a ++ b ++ c :: s) = s.
Proof. rewrite app_assoc, <- length_app. apply drop_past_char. Qed.

(** Reading back an integer field. *)
Lemma extract_json_int_object l1 key n l2 :
  key_ok key → Forall (field_skips key) l1 → (INT_MIN ≤ n ≤ INT_MAX)%Z →
  extract_json_int (json_object (l1 ++ (key, Jint n) :: l2)) key = n.
Proof.
  intros Hk Hl Hn. destruct (json_object_at l1 key (Jint n) l2) as (rest & -> & Hr).
  unfold extract_json_int. rewrite find_in_object by done. cbn [mbind option_bind].
  rewrite colon_after_key by apply Hk. cbn [mbind option_bind default].
  rewrite drop_after_colon. cbn [show_value].
  assert (drop_while is_blank (show_Z n ++ rest) = show_Z n ++ rest) as ->.
  { destruct (word_show_Z n) as [Hne Hw]. destruct (show_Z n) as [|c s]; [done|].
    inversion_clear Hw as [|? ? Hc]. simpl. unfold is_blank. rewrite bool_decide_false; [done|].
    intros [-> | ->]; done. }
  unfold stoi. by rewrite sto_range_show.
Qed.

(** Reading back a string field. *)
Lemma extract_json_string_object l1 key w l2 :
  key_ok key → Forall (field_skips key) l1 → no_char dq w →
  extract_json_string (json_object (l1 ++ (key, Jstr w) :: l2)) key = w.
Proof.
  intros Hk Hl Hw. destruct (json_object_at l1 key (Jstr w) l2) as (rest & -> & _).
  unfold extract_json_string.
  rewrite find_in_object by done. cbn [mbind option_bind].
  rewrite colon_after_key by apply Hk. cbn [mbind option_bind].
  set (a := lit "{" ++ fields_text l1).
  assert (a ++ quoted key ++ colon :: show_value (Jstr w) ++ rest =
          ((a ++ quoted key) ++ [colon] ++ dq :: w ++ dq :: rest)) as ->.
  { clearbody a. unfold quoted. simpl. repeat (rewrite <- !app_assoc; simpl). done. }
  rewrite <- length_app.
  assert (dq ∉ [colon]) as Hcol by (by apply (bool_decide_unpack (dq ∉ [colon]))).
  rewrite (find_char_from_app dq (a ++ quoted key) [colon] (w ++ dq :: rest)) by done.
  cbn [mbind option_bind].
  assert ((a ++ quoted key) ++ [colon] ++ dq :: w ++ dq :: rest =
          ((a ++ quoted key) ++ [colon; dq]) ++ w ++ dq :: rest) as ->
    by by rewrite <- !app_assoc.
  rewrite (find_char_from_app dq ((a ++ quoted key) ++ [colon; dq]) w rest);
    [|rewrite !length_app; simpl; lia|done].
  cbn [mbind option_bind default].
  replace (length (a ++ quoted key) + length [colon] + 1) with
    (length ((a ++ quoted key) ++ [colon; dq])) by (rewrite !length_app; simpl; lia).
  rewrite drop_app_length, take_app_le.
  - rewrite take_ge; [done|]. rewrite !length_app. simpl. lia.
  - rewrite !length_app. simpl. lia.
Qed.

(** A key that does not occur. *)
Lemma find_absent key l s :
  key_ok key → Forall (field_skips key) l → find (quoted key) s = None →
  find (quoted key) (fields_text l ++ s) = None.
Proof.
  intros Hk Hl Hs. induction Hl as [|f l Hf Hl IH]; [done|].
  rewrite fields_text_cons, <- app_assoc, <- app_comm_cons.
  by rewrite find_skip_field, IH.
Qed.

Lemma find_absent_object key l f :
  key_ok key → Forall (field_skips key) (l ++ [f]) →
  find (quoted key) (json_object (l ++ [f])) = None.
Proof.
  intros Hk [Hl Hf]%Forall_app. apply List.Forall_inv in Hf. unfold json_object.
  rewrite comma_separated_app. cbn [map comma_separated].
  change (lit "{") with ["{"%char]. rewrite <- app_comm_cons, app_nil_l, <- app_assoc.
  rewrite find_cons_no by done. rewrite find_absent; [done..|].
  change (lit "}") with ["}"%char]. rewrite find_skip_sep; [done|by right|done..].
Qed.

Lemma extract_json_int_absent key l f :
  key_ok key → Forall (field_skips key) (l ++ [f]) →
  extract_json_int (json_object (l ++ [f])) key = 0%Z.
Proof. intros Hk Hl. unfold extract_json_int. by rewrite find_absent_object. Qed.
