(* ===== verification/Http.v ===== *)
(** * Http: the HTTP framing shared by the control API and its clients
    (header lines ended by CRLF, a blank line, the body) *)
From Stdlib Require Import Lia.
From S2P Require Import Prelude.
From S2P Require Import Text.

Definition crlf : bytes := [cr; nl].
Definition blank_line : bytes := crlf ++ crlf.

Definition header_text (lines : list bytes) : bytes := concat (map (λ l, l ++ crlf) lines).

(** [s.find("\r\n\r\n")], then [s.substr(pos + 4)]. *)
Definition http_body (s : bytes) : option bytes :=
  (λ i, drop (i + 4) s) <$> find blank_line s.

(** A header line: not empty, no carriage return. *)
Definition line_ok (l : bytes) : Prop := l ≠ [] ∧ no_char cr l.
#[export] Instance line_ok_dec l : Decision (line_ok l).
Proof. unfold line_ok. apply _. Defined.

Lemma find_blank_skip l c rest :
  no_char cr l → c ≠ cr →
  find blank_line (l ++ crlf ++ c :: rest) =
    (λ i, length l + 2 + i) <$> find blank_line (c :: rest).
Proof.
  intros Hl Hc. change blank_line with (cr :: [nl; cr; nl]).
  change (crlf ++ c :: rest) with (cr :: nl :: c :: rest).
  rewrite (find_skip cr [nl; cr; nl]) by done.
  rewrite (find_cons_no _ cr).
  2: { simpl. rewrite (bool_decide_false (cr = c)) by congruence. done. }
  rewrite (find_cons_no _ nl) by done.
  destruct (find (cr :: [nl; cr; nl]) (c :: rest)); cbn [fmap option_fmap option_map]; [|done].
  f_equal. lia.
Qed.

Lemma find_blank_last l body :
  no_char cr l → find blank_line (l ++ crlf ++ crlf ++ body) = Some (length l).
Proof.
  intros Hl. change blank_line with (cr :: [nl; cr; nl]).
  change (crlf ++ crlf ++ body) with ((cr :: [nl; cr; nl]) ++ body).
  rewrite (find_skip cr [nl; cr; nl]) by done.
  rewrite (find_here (cr :: [nl; cr; nl]) body). simpl. f_equal. lia.
Qed.

(** The body of a message is found behind its header lines. *)
Lemma find_blank_header l ls body :
  Forall line_ok (l :: ls) →
  find blank_line (header_text (l :: ls) ++ crlf ++ body) =
    Some (length (header_text (l :: ls)) - 2).
Proof.
  revert l. induction ls as [|l' ls IH]; intros l HF; inversion_clear HF as [|? ? [_ Hl] HF'].
  - unfold header_text. cbn [map concat]. rewrite app_nil_r, <- app_assoc. rewrite find_blank_last by done.
    rewrite length_app. simpl. f_equal. lia.
  - pose proof (IH l' HF') as IH'. inversion_clear HF' as [|? ? [Hne Hl'] HF''].
    destruct l' as [|c l']; [done|].
    assert (c ≠ cr) as Hc by (intros ->; apply Hl'; set_solver).
    unfold header_text in *. cbn [map concat] in *. rewrite <- !app_assoc in *.
    rewrite <- app_comm_cons in *. rewrite find_blank_skip, IH' by done.
    cbn [fmap option_fmap option_map]. f_equal. rewrite !length_app. cbn [length].
    simpl. lia.
Qed.

Lemma length_header_text l ls : 2 ≤ length (header_text (l :: ls)).
Proof. unfold header_text. simpl. rewrite !length_app. simpl. lia. Qed.

Lemma http_body_header l ls body :
  Forall line_ok (l :: ls) → http_body (header_text (l :: ls) ++ crlf ++ body) = Some body.
Proof.
  intros H. unfold http_body. rewrite find_blank_header by done.
  cbn [fmap option_fmap option_map]. f_equal.
  pose proof (length_header_text l ls).
  replace (length (header_text (l :: ls)) - 2 + 4) with
    (length (header_text (l :: ls)) + length crlf) by (simpl; lia).
  rewrite app_assoc, <- length_app. apply drop_app_length.
Qed.
