(* ===== verification/ControlApi.v ===== *)
(** * ControlApi: the head server's HTTP control endpoint
    (src/src/head_server/control_api.hpp)

    [handle_request] is one connection: the bytes one [recv] returned, and the
    response sent.  Connecting to a cluster server is the parameter
    [reachable]; sending RESTART to servers and re-executing the head server
    are outputs. *)
From Stdlib Require Import Lia.
From S2P Require Import Prelude.
From S2P Require Import Text.
From S2P Require Import Ordered.
From S2P Require Import Float.
From S2P Require Import JsonText.
From S2P Require Import Http.
From S2P Require Import Registry.
From S2P Require Import Health.
Local Open Scope Z_scope.


Definition show_bool (b : bool) : bytes := if b then lit "true" else lit "false".

(** ** [make_response] *)
Definition status_text (code : Z) : bytes :=
  if decide (code = 200) then lit "OK"
  else if decide (code = 201) then lit "Created"
  else if decide (code = 400) then lit "Bad Request"
  else if decide (code = 404) then lit "Not Found"
  else lit "Error".

Definition make_response (code : Z) (body : bytes) : bytes :=
  header_text [lit "HTTP/1.1 " ++ show_Z code ++ sp :: status_text code;
               lit "Content-Type: application/json";
               lit "Content-Length: " ++ show_nat (length body);
               lit "Connection: close"]
  ++ crlf ++ body.

(** ** State and outputs *)
Record Head := mkHead { registry : Registry; monitor : HealthMonitor }.

Record Outcome := mkOutcome {
  response : bytes;
  changes : list change;              (* registry callbacks *)
  restarts : list ServerEntry;        (* servers sent RESTART *)
  reexec : bool                       (* the head server re-executes itself *)
}.
Definition just (r : bytes) : Outcome := mkOutcome r [] [] false.

Definition invalid_id : bytes := make_response 400 (jlit "{'error':'Invalid server ID'}").
Definition server_not_found : bytes := make_response 404 (jlit "{'error':'Server not found'}").

(** ** Handlers *)
Definition usage_json (h : ServerHealth) : bytes :=
  jlit ",'cpu':" ++ show_g (cpu_usage h) ++ jlit ",'ram':" ++ show_g (ram_usage h)
  ++ jlit ",'disk':" ++ show_g (disk_usage h).

Definition handle_server_health (s : Head) (id_str : bytes) : bytes :=
  match stoi id_str with
  | Throw _ => invalid_id
  | Val id =>
      match get_all_health (monitor s) !! id with
      | None => make_response 404 (jlit "{'error':'Server not found','healthy':false}")
      | Some h =>
          make_response 200
            (jlit "{'id':" ++ show_Z id ++ jlit ",'ip':'" ++ ip h ++ jlit "','healthy':"
             ++ show_bool (is_healthy h)
             ++ jlit ",'missed_heartbeats':" ++ show_Z (missed_heartbeats h)
             ++ usage_json h ++ lit "}")
      end
  end.

Definition list_entry (m : gmap Z ServerHealth) (e : ServerEntry) : bytes :=
  jlit "{'id':" ++ show_Z (entry_id e) ++ jlit ",'host':'" ++ host e
  ++ jlit "','port':" ++ show_Z (port e) ++ jlit ",'status':'" ++ status e ++ [dq]
  ++ match m !! entry_id e with
     | None => []
     | Some h => usage_json h ++ jlit ",'healthy':" ++ show_bool (is_healthy h)
     end ++ lit "}".

Definition handle_list_servers (s : Head) : bytes :=
  let servers := get_all (registry s) in
  make_response 200
    (jlit "{'servers':["
     ++ comma_separated (map (list_entry (get_all_health (monitor s))) servers)
     ++ jlit "],'total':" ++ show_nat (length servers) ++ lit "}").

(** [registry_.add_server] then [health_.register_server]. *)
Definition enlist (now : Z) (s : Head) (h : bytes) (p tp pp : Z) : Head * Z * list change :=
  let '(r, id, cs) := add_server now (registry s) h p tp pp in
  (mkHead r (register_server now (monitor s) id (h ++ colon :: show_Z p)), id, cs).

Definition missing_host : bytes := make_response 400 (jlit "{'error':'Missing host or port'}").

Definition handle_add_server (now : Z) (s : Head) (body : bytes) : Head * Outcome :=
  let h := extract_json_string body (lit "host") in
  let p := extract_json_int body (lit "port") in
  let tp := extract_json_int body (lit "transfer_port") in
  let pp := extract_json_int body (lit "public_port") in
  if decide (h = [] ∨ p ≤ 0) then (s, just missing_host)
  else
    let '(s', id, cs) := enlist now s h p tp pp in
    (s', mkOutcome (make_response 201
       (jlit "{'id':" ++ show_Z id ++ jlit ",'host':'" ++ h ++ jlit "','port':" ++ show_Z p
        ++ jlit ",'status':'active'}")) cs [] false).

Definition handle_remove_server (s : Head) (id_str : bytes) : Head * Outcome :=
  match stoi id_str with
  | Throw _ => (s, just invalid_id)
  | Val id =>
      match remove_server (registry s) id with
      | (r, true, cs) =>
          (mkHead r (deregister_server (monitor s) id),
           mkOutcome (make_response 200 (jlit "{'removed':true,'id':" ++ show_Z id ++ lit "}"))
             cs [] false)
      | (_, false, _) => (s, just server_not_found)
      end
  end.

(** Registration by a cluster server, which sends the id it was started with. *)
Definition handle_self_register (now : Z) (s : Head) (body : bytes) : Head * Outcome :=
  let sid := extract_json_int body (lit "server_id") in
  let h := extract_json_string body (lit "host") in
  let p := extract_json_int body (lit "port") in
  let tp := extract_json_int body (lit "transfer_port") in
  let pp := extract_json_int body (lit "public_port") in
  if decide (h = [] ∨ p ≤ 0) then (s, just missing_host)
  else
    let r := if decide (0 < sid)
             then set_next_id (registry s)
                    (Z.max (sint32 (sid + 1)) (sint32 (count (registry s) + 1)))
             else registry s in
    let '(s', id, cs) := enlist now (mkHead r (monitor s)) h p tp pp in
    (s', mkOutcome (make_response 200 (jlit "{'id':" ++ show_Z id ++ jlit ",'registered':true}"))
           cs [] false).

Definition handle_status (s : Head) : bytes :=
  let health := (zmap_list (get_all_health (monitor s))).*2 in
  let healthy := length (filter (λ h, is_healthy h = true) health) in
  let unhealthy := length (filter (λ h, is_healthy h = false) health) in
  make_response 200
    (jlit "{'total_servers':" ++ show_nat (length (get_all (registry s)))
     ++ jlit ",'healthy':" ++ show_nat healthy ++ jlit ",'unhealthy':" ++ show_nat unhealthy
     ++ jlit ",'status':'" ++ (if decide (unhealthy = 0%nat) then lit "OK" else lit "DEGRADED")
     ++ jlit "'}").

Section network.
(** Whether [connect_with_timeout(host, port, 5)] succeeds. *)
Variable reachable : bytes → Z → bool.

Definition handle_restart_head : Outcome :=
  mkOutcome (make_response 200 (jlit "{'head_server_restarting':true}")) [] [] true.

Definition handle_restart_cluster_node (s : Head) (id_str : bytes) : Outcome :=
  match stoi id_str with
  | Throw _ => just invalid_id
  | Val id =>
      match list_find (λ e, entry_id e = id) (get_all (registry s)) with
      | None => just server_not_found
      | Some (_, e) =>
          if reachable (host e) (port e)
          then mkOutcome (make_response 200 (jlit "{'restarted_cluster_id':" ++ show_Z id ++ lit "}"))
                 [] [e] false
          else just (make_response 500 (jlit "{'error':'Could not connect to cluster server'}"))
      end
  end.

Definition handle_restart_all (s : Head) : Outcome :=
  let up := filter (λ e, reachable (host e) (port e) = true) (get_all (registry s)) in
  mkOutcome (make_response 200 (jlit "{'restarted_clusters':" ++ show_nat (length up)
               ++ jlit ",'head_server_restarting':true}")) [] up true.

(** ** [handle_request] *)
Definition cluster_path : bytes := lit "/api/v1/servers/cluster".
Definition cluster_slash : bytes := lit "/api/v1/servers/cluster/".

(** [substr(start, end - start)], [end] possibly [npos]. *)
Definition slice (s : bytes) (start : nat) (e : option nat) : bytes :=
  match e with Some e => take (e - start) (drop start s) | None => drop start s end.

Definition route (now : Z) (s : Head) (method path body : bytes) : Head * Outcome :=
  let GET := bool_decide (method = lit "GET") in
  let POST := bool_decide (method = lit "POST") in
  let DELETE := bool_decide (method = lit "DELETE") in
  if GET && bool_decide (path = cluster_path) then (s, just (handle_list_servers s))
  else if GET && starts_with cluster_slash path && contains (lit "/health") path then
    (s, just (handle_server_health s (slice path 23 (find (lit "/health") path))))
  else if POST && bool_decide (path = cluster_path) then handle_add_server now s body
  else if DELETE && starts_with cluster_slash path then handle_remove_server s (drop 23 path)
  else if GET && bool_decide (path = lit "/api/v1/status") then (s, just (handle_status s))
  else if POST && bool_decide (path = lit "/api/v1/system/restart_all") then (s, handle_restart_all s)
  else if POST && bool_decide (path = lit "/api/v1/system/restart_head") then (s, handle_restart_head)
  else if POST && starts_with cluster_slash path && contains (lit "/restart") path then
    (s, handle_restart_cluster_node s (slice path 24 (find_from (lit "/restart") path 24)))
  else if POST && bool_decide (path = lit "/api/v1/servers/cluster/register") then
    handle_self_register now s body
  else (s, just (make_response 404 (jlit "{'error':'Not found'}"))).

(** [iss >> method >> path], and the body after the first blank line. *)
Definition parse_request (request : bytes) : bytes * bytes * bytes :=
  let '(method, rest) := default ([], []) (read_word request) in
  let '(path, _) := default ([], []) (read_word rest) in
  (method, path, default [] (http_body request)).

Definition handle_request (now : Z) (s : Head) (received : bytes) : Head * Outcome :=
  match received with
  | [] => (s, just [])                                  (* n <= 0: nothing sent *)
  | _ => let '(method, path, body) := parse_request received in route now s method path body
  end.
End network.

(** The argument vector [/proc/self/cmdline] yields for [execv]. *)
Definition reexec_args (cmdline : bytes) : list bytes :=
  filter (λ a, a ≠ []) (getlines "000"%char cmdline).
