(* ===== verification/ControlClient.v ===== *)
(** * ControlClient: who talks to the control API, and what comes of it
    (src/src/cli/dfg_cli.cpp, [self_register_with_head] of
    src/src/cluster_server/cluster_server.cpp)

    Requests are built as the code writes them; the theorems run them through
    [handle_request]. *)
From Stdlib Require Import Lia.
From S2P Require Import Prelude.
From S2P Require Import Text.
From S2P Require Import Ordered.
From S2P Require Import Float.
From S2P Require Import JsonText.
From S2P Require Import Http.
From S2P Require Import Registry.
From S2P Require Import Health.
From S2P Require Import ControlApi.
Local Open Scope Z_scope.

(** ** Requests *)
Definition post_request (path head_host body : bytes) : bytes :=
  header_text [lit "POST " ++ path ++ lit " HTTP/1.1";
               lit "Host: " ++ head_host;
               lit "Content-Type: application/json";
               lit "Content-Length: " ++ show_nat (length body);
               lit "Connection: close"]
  ++ crlf ++ body.

Definition plain_request (method path head_host : bytes) : bytes :=
  header_text [method ++ sp :: path ++ lit " HTTP/1.1";
               lit "Host: " ++ head_host;
               lit "Connection: close"]
  ++ crlf.

Definition cli_add_body (h : bytes) (p : Z) : bytes :=
  jlit "{'host':'" ++ h ++ jlit "','port':" ++ show_Z p ++ lit "}".
Definition cmd_add_server (head_host h : bytes) (p : Z) : bytes :=
  post_request (lit "/api/v1/servers/cluster") head_host (cli_add_body h p).

Definition cmd_remove_server (head_host : bytes) (id : Z) : bytes :=
  plain_request (lit "DELETE") (lit "/api/v1/servers/cluster/" ++ show_Z id) head_host.

Definition cmd_list_servers (head_host : bytes) : bytes :=
  plain_request (lit "GET") (lit "/api/v1/servers/cluster") head_host.

(** What a command prints: the body of the response. *)
Definition printed (response : bytes) : bytes := default [] (http_body response).

Definition register_body (sid : Z) (addr : bytes) (p tp pp : Z) : bytes :=
  jlit "{'server_id':" ++ show_Z sid ++ jlit ",'host':'" ++ addr
  ++ jlit "','port':" ++ show_Z p ++ jlit ",'transfer_port':" ++ show_Z tp
  ++ jlit ",'public_port':" ++ show_Z pp ++ lit "}".
Definition self_register_request (head_host : bytes) (sid : Z) (addr : bytes) (p tp pp : Z)
  : bytes :=
  post_request (lit "/api/v1/servers/cluster/register") head_host
    (register_body sid addr p tp pp).

(** [response.find("200") != npos || response.find("201") != npos] *)
Definition registered_ok (response : bytes) : bool :=
  contains (lit "200") response || contains (lit "201") response.

(** ** Parsing them *)

(** Host names and addresses: no white space, no quote. *)
Definition host_ok (h : bytes) : Prop := word h ∧ no_char dq h.
#[export] Instance host_ok_dec h : Decision (host_ok h).
Proof. unfold host_ok. apply _. Defined.

Lemma word_line_ok w l : word w → line_ok l → line_ok (l ++ w).
Proof.
  intros [_ Hw] [Hl Hc]. split; [by destruct l|].
  unfold no_char. rewrite not_elem_of_app. split; [done|].
  intros Hin. rewrite Forall_forall in Hw. by specialize (Hw _ Hin).
Qed.

Lemma line_ok_app l m : line_ok l → line_ok m → line_ok (l ++ m).
Proof.
  intros [Hl Hc] [_ Hd]. split; [by destruct l|]. unfold no_char. by rewrite not_elem_of_app.
Qed.

Lemma parse_request_words (method path rest : bytes) :
  word method → word path →
  parse_request (method ++ sp :: path ++ sp :: rest) =
    (method, path, default [] (http_body (method ++ sp :: path ++ sp :: rest))).
Proof.
  intros Hm Hp. unfold parse_request. rewrite read_word_sep by done.
  cbn [from_option id].
  by rewrite read_word_skip, read_word_sep.
Qed.

Lemma parse_post path head_host body :
  word path → word head_host →
  parse_request (post_request path head_host body) = (lit "POST", path, body).
Proof.
  intros Hp Hh.
  assert (http_body (post_request path head_host body) = Some body) as Hb.
  { apply http_body_header. repeat apply Forall_cons_2; [| | | | |apply Forall_nil_2].
    - apply line_ok_app; [by apply (bool_decide_unpack (line_ok (lit "POST ")))|].
      apply line_ok_app; [|by apply (bool_decide_unpack (line_ok (lit " HTTP/1.1")))].
      destruct Hp as [Hne Hw]. split; [done|]. intros Hin. rewrite Forall_forall in Hw.
      by specialize (Hw _ Hin).
    - apply word_line_ok; [done|by apply (bool_decide_unpack (line_ok (lit "Host: ")))].
    - by apply (bool_decide_unpack (line_ok (lit "Content-Type: application/json"))).
    - apply word_line_ok; [apply word_show_Z|].
      by apply (bool_decide_unpack (line_ok (lit "Content-Length: "))).
    - by apply (bool_decide_unpack (line_ok (lit "Connection: close"))). }
  assert (∃ rest, post_request path head_host body = lit "POST" ++ sp :: path ++ sp :: rest)
    as [rest E].
  { unfold post_request, header_text. cbn [map concat]. eexists.
    rewrite <- !app_assoc. simpl. f_equal. }
  rewrite E in Hb |- *. rewrite parse_request_words; [by rewrite Hb| |done]. lit_word.
Qed.

(** ** The bodies are flat JSON objects *)
Lemma cli_add_body_object h p :
  cli_add_body h p = json_object ([(lit "host", Jstr h)] ++ [(lit "port", Jint p)]).
Proof.
  unfold cli_add_body, json_object, show_field, quoted. simpl.
  repeat (rewrite <- !app_assoc; simpl). done.
Qed.

Lemma register_body_object sid a p tp pp :
  register_body sid a p tp pp =
  json_object [(lit "server_id", Jint sid); (lit "host", Jstr a); (lit "port", Jint p);
               (lit "transfer_port", Jint tp); (lit "public_port", Jint pp)].
Proof.
  unfold register_body, json_object, show_field, quoted. simpl.
  repeat (rewrite <- !app_assoc; simpl). done.
Qed.

(** A host that is none of the keys. *)
Definition plain_host (h : bytes) : Prop :=
  host_ok h ∧ h ∉ map lit ["server_id"; "host"; "port"; "transfer_port"; "public_port"]%string.
#[export] Instance plain_host_dec h : Decision (plain_host h).
Proof. unfold plain_host. apply _. Defined.

Lemma plain_host_ne h k :
  plain_host h → k ∈ map lit ["server_id"; "host"; "port"; "transfer_port"; "public_port"]%string →
  no_char dq h ∧ h ≠ k.
Proof. intros [[_ Hd] Hn] Hk. split; [done|]. by intros ->. Qed.

Ltac json_key := by apply (bool_decide_unpack (key_ok _)).
Ltac json_field Hh :=
  split_and!; cbn [fst snd];
  [lit_no_char|by apply (bool_decide_unpack (_ ≠ _))|
   first [exact I|apply (plain_host_ne _ _ Hh); by apply (bool_decide_unpack (_ ∈ _))]].
Ltac json_fields Hh := repeat apply Forall_cons_2; try apply Forall_nil_2; json_field Hh.

Definition port_ok (p : Z) : Prop := 0 < p ≤ INT_MAX.

Lemma cli_add_fields h p :
  plain_host h → port_ok p →
  extract_json_string (cli_add_body h p) (lit "host") = h ∧
  extract_json_int (cli_add_body h p) (lit "port") = p ∧
  extract_json_int (cli_add_body h p) (lit "transfer_port") = 0 ∧
  extract_json_int (cli_add_body h p) (lit "public_port") = 0.
Proof.
  intros Hh Hp. rewrite cli_add_body_object. split_and!.
  - apply (extract_json_string_object []); [json_key|done|apply Hh].
  - apply (extract_json_int_object [_] _ _ []); [json_key|json_fields Hh|].
    unfold port_ok, INT_MIN in *. lia.
  - apply extract_json_int_absent; [json_key|json_fields Hh].
  - apply extract_json_int_absent; [json_key|json_fields Hh].
Qed.

Definition int_ok (x : Z) : Prop := INT_MIN ≤ x ≤ INT_MAX.

Lemma register_fields sid h p tp pp :
  plain_host h → int_ok sid → int_ok p → int_ok tp → int_ok pp →
  let b := register_body sid h p tp pp in
  extract_json_int b (lit "server_id") = sid ∧
  extract_json_string b (lit "host") = h ∧
  extract_json_int b (lit "port") = p ∧
  extract_json_int b (lit "transfer_port") = tp ∧
  extract_json_int b (lit "public_port") = pp.
Proof.
  intros Hh ????. cbv zeta. rewrite register_body_object. split_and!.
  - apply (extract_json_int_object []); [json_key|json_fields Hh|done].
  - apply (extract_json_string_object [_]); [json_key|json_fields Hh|apply Hh].
  - apply (extract_json_int_object [_;_]); [json_key|json_fields Hh|done].
  - apply (extract_json_int_object [_;_;_]); [json_key|json_fields Hh|done].
  - apply (extract_json_int_object [_;_;_;_]); [json_key|json_fields Hh|done].
Qed.

(** ** Registration over HTTP *)
Section control.
Variable reachable : bytes → Z → bool.

Lemma route_add now s body :
  route reachable now s (lit "POST") cluster_path body = handle_add_server now s body.
Proof. reflexivity. Qed.

Lemma route_register now s body :
  route reachable now s (lit "POST") (lit "/api/v1/servers/cluster/register") body =
  handle_self_register now s body.
Proof. reflexivity. Qed.

Lemma handle_request_post now s path hh body :
  word path → word hh →
  handle_request reachable now s (post_request path hh body) =
  route reachable now s (lit "POST") path body.
Proof.
  intros Hp Hh. unfold handle_request. destruct (post_request path hh body) eqn:E.
  - apply (f_equal length) in E. unfold post_request, header_text in E. cbn in E. lia.
  - rewrite <- E. by rewrite parse_post.
Qed.

(** A server the monitor starts to watch: no figures yet, heard of just now. *)
Definition fresh_health (now id : Z) (address : bytes) : ServerHealth :=
  mkHealth id address fzero fzero fzero [] [] 0 0 true now 0.

Lemma register_server_watches now m sid a :
  hm_servers (register_server now m sid a) =
  <[sid := default (fresh_health now sid a) (hm_servers m !! sid)]> (hm_servers m).
Proof.
  unfold register_server. destruct (hm_servers m !! sid) as [h|] eqn:E; [|done].
  simpl. by rewrite insert_id.
Qed.

(** Registering a server from the command line works end to end.  The
    request [dfg add-server] writes is parsed back to the same host and port;
    afterwards an entry with them is registered under the id printed to the
    user.  An endpoint that was listed keeps its entry and the registry; a new
    one is added under the registry's next id.  The health monitor watches the
    id at that address from now, unless it watched the id already. *)
Theorem cli_add_server_registers (now : Z) (s : Head) (hh h : bytes) (p : Z) :
  word hh → plain_host h → port_ok p →
  let '(s', o) := handle_request reachable now s (cmd_add_server hh h p) in
  ∃ id e, reg_servers (registry s') !! id = Some e ∧ host e = h ∧ port e = p ∧
    lists now (registry s) h p 0 0 id e (registry s') ∧
    hm_servers (monitor s') =
      <[id := default (fresh_health now id (h ++ colon :: show_Z p)) (hm_servers (monitor s) !! id)]>
        (hm_servers (monitor s)) ∧
    response o = make_response 201
      (jlit "{'id':" ++ show_Z id ++ jlit ",'host':'" ++ h ++ jlit "','port':" ++ show_Z p
       ++ jlit ",'status':'active'}").
Proof.
  intros Hhh Hh Hp. unfold cmd_add_server.
  rewrite handle_request_post by first [done|lit_word].
  change (lit "/api/v1/servers/cluster") with cluster_path. rewrite route_add.
  destruct (cli_add_fields h p Hh Hp) as (E1 & E2 & E3 & E4).
  unfold handle_add_server. rewrite E1, E2, E3, E4.
  rewrite decide_False by (destruct Hh as [[[Hne _] _] _]; unfold port_ok in Hp;
    intros [?|?]; [done|lia]).
  unfold enlist. pose proof (add_server_lists now (registry s) h p 0 0) as Hb.
  destruct (add_server now (registry s) h p 0 0) as [[r id] cs]. destruct Hb as (e & He).
  destruct (lists_bound _ _ _ _ _ _ _ _ _ He) as (? & ? & ?). exists id, e. simpl.
  split_and!; try done. apply register_server_watches.
Qed.

Lemma no_int_slash k t : stoi (take k ("/"%char :: t)) = Throw InvalidArgument.
Proof. by destruct k. Qed.

Lemma cluster_slash_drop path :
  starts_with cluster_slash path = true → ∃ t, drop 23 path = "/"%char :: t.
Proof. intros [t ->]%starts_with_spec. by exists t. Qed.

Lemma health_route (now : Z) (s : Head) (path body : bytes) :
  starts_with cluster_slash path = true → contains (lit "/health") path = true →
  route reachable now s (lit "GET") path body = (s, just invalid_id).
Proof.
  intros Hs Hc. destruct (cluster_slash_drop path Hs) as [t Ht].
  unfold route. rewrite Hs, Hc.
  rewrite (bool_decide_false (path = cluster_path)).
  2: { intros ->. done. }
  rewrite (bool_decide_true (lit "GET" = lit "GET")) by done. cbn [andb].
  unfold handle_server_health, slice. rewrite Ht.
  destruct (find (lit "/health") path); [by rewrite no_int_slash|].
  reflexivity.
Qed.

(** The health endpoint never answers about a server: whatever id is
    asked for, the slice taken from the path starts with a slash, the id does
    not parse, and the answer is 400.  (The votes of peer head servers on
    whether a server is dead are read from this endpoint.) *)
Theorem health_endpoint_always_rejects (now : Z) (s : Head) (path body : bytes) :
  starts_with cluster_slash path = true → contains (lit "/health") path = true →
  route reachable now s (lit "GET") path body = (s, just invalid_id).
Proof. apply health_route. Qed.

(** [dfg remove-server] never removes anything: the request it writes is
    always answered 400 "Invalid server ID" and changes nothing. *)
Theorem cli_remove_server_rejected (now : Z) (s : Head) (hh : bytes) (id : Z) :
  handle_request reachable now s (cmd_remove_server hh id) = (s, just invalid_id).
Proof.
  set (path := lit "/api/v1/servers/cluster/" ++ show_Z id).
  assert (word path) as Hp by (apply word_app; [lit_word|apply word_show_Z]).
  assert (∃ rest, cmd_remove_server hh id = lit "DELETE" ++ sp :: path ++ sp :: rest) as [rest E].
  { unfold cmd_remove_server, plain_request, header_text. cbn [map concat]. eexists.
    fold path. clearbody path. rewrite <- !app_assoc, <- !app_comm_cons, <- !app_assoc.
    reflexivity. }
  unfold handle_request. rewrite E. rewrite parse_request_words; [|lit_word|done].
  unfold route. rewrite !(bool_decide_false (_ = _)), !(bool_decide_true (_ = _)) by done.
  assert (starts_with cluster_slash path = true) as Hs by apply starts_with_app.
  rewrite Hs. cbn [andb]. destruct (cluster_slash_drop path Hs) as [t Ht].
  unfold handle_remove_server. rewrite Ht. done.
Qed.

Lemma self_register_files (now : Z) (s : Head) (hh h : bytes) (sid p tp pp : Z) :
  word hh → plain_host h → port_ok p → int_ok tp → int_ok pp →
  0 < sid < INT_MAX → count (registry s) < INT_MAX →
  find_endpoint (registry s) h p = None →
  let id := Z.max (sid + 1) (count (registry s) + 1) in
  let '(s', o) := handle_request reachable now s (self_register_request hh sid h p tp pp) in
  id ≠ sid ∧
  (∃ e, reg_servers (registry s') !! id = Some e ∧ entry_id e = id ∧
        host e = h ∧ port e = p ∧ transfer_port e = tp ∧ public_port e = pp) ∧
  (∀ j, j ≠ id → reg_servers (registry s') !! j = reg_servers (registry s) !! j) ∧
  response o = make_response 200 (jlit "{'id':" ++ show_Z id ++ jlit ",'registered':true}").
Proof.
  intros Hhh Hh Hp Htp Hpp Hsid Hcount Hnone. cbv zeta. unfold self_register_request.
  rewrite handle_request_post by first [done|lit_word]. rewrite route_register.
  destruct (register_fields sid h p tp pp Hh) as (E0 & E1 & E2 & E3 & E4);
    [unfold int_ok, port_ok, INT_MIN in *; lia..|].
  unfold handle_self_register. rewrite E0, E1, E2, E3, E4.
  rewrite decide_False by (destruct Hh as [[[Hne _] _] _]; unfold port_ok in Hp;
    intros [?|?]; [done|lia]).
  rewrite decide_True by lia.
  assert (0 ≤ count (registry s)) by (unfold count; lia).
  rewrite !sint32_small by (unfold INT_MIN; lia).
  unfold enlist, add_server. cbn [registry set_next_id reg_next].
  change (find_endpoint (mkRegistry (reg_servers (registry s)) _) h p) with
    (find_endpoint (registry s) h p).
  assert (∀ n, find_endpoint (set_next_id (registry s) n) h p = None) as Hn by done.
  rewrite Hn. cbn [registry reg_servers response].
  split_and!; [lia| | |done].
  - eexists. by rewrite lookup_insert_eq.
  - intros j Hj. by rewrite lookup_insert_ne.
Qed.

(** Self-registration does not keep the server's own id.  A cluster server
    started with a valid id [sid] that is not registered yet is filed under
    [max (sid + 1) (count + 1)], never under [sid]. *)
Theorem self_register_not_own_id (now : Z) (s : Head) (hh h : bytes) (sid p tp pp : Z) :
  word hh → plain_host h → port_ok p → int_ok tp → int_ok pp →
  0 < sid < INT_MAX → count (registry s) < INT_MAX →
  find_endpoint (registry s) h p = None →
  let id := Z.max (sid + 1) (count (registry s) + 1) in
  let '(s', o) := handle_request reachable now s (self_register_request hh sid h p tp pp) in
  id ≠ sid ∧
  (∃ e, reg_servers (registry s') !! id = Some e ∧ entry_id e = id ∧
        host e = h ∧ port e = p ∧ transfer_port e = tp ∧ public_port e = pp) ∧
  (∀ j, j ≠ id → reg_servers (registry s') !! j = reg_servers (registry s) !! j) ∧
  response o = make_response 200 (jlit "{'id':" ++ show_Z id ++ jlit ",'registered':true}").
Proof. apply self_register_files. Qed.

Definition codes : list Z := [200; 201; 400; 404; 500].
Definition framed (r : bytes) : Prop :=
  ∃ code body, code ∈ codes ∧ r = make_response code body.

Lemma framed_response code body : code ∈ codes → framed (make_response code body).
Proof. intros H. by exists code, body. Qed.

Ltac framed_code := apply framed_response; by apply (bool_decide_unpack (_ ∈ _)).

Lemma framed_health s id : framed (handle_server_health s id).
Proof.
  unfold handle_server_health. destruct (stoi id); [|framed_code].
  destruct (_ !! _); framed_code.
Qed.

Lemma framed_add now s body : framed (response (handle_add_server now s body).2).
Proof.
  unfold handle_add_server. case_decide; [framed_code|].
  destruct (enlist _ _ _ _ _ _) as [[??]?]. framed_code.
Qed.

Lemma framed_register now s body : framed (response (handle_self_register now s body).2).
Proof.
  unfold handle_self_register. destruct (decide (_ ∨ _)); [framed_code|].
  destruct (enlist _ _ _ _ _ _) as [[??]?]. framed_code.
Qed.

Lemma framed_remove s id : framed (response (handle_remove_server s id).2).
Proof.
  unfold handle_remove_server. destruct (stoi id); [|framed_code].
  destruct (remove_server _ _) as [[? []] ?]; framed_code.
Qed.

Lemma framed_restart s id : framed (response (handle_restart_cluster_node reachable s id)).
Proof.
  unfold handle_restart_cluster_node. destruct (stoi id); [|framed_code].
  destruct (list_find _ _) as [[??]|]; [|framed_code].
  destruct (reachable _ _); framed_code.
Qed.

Lemma framed_route now s method path body :
  framed (response (route reachable now s method path body).2).
Proof.
  unfold route.
  repeat match goal with |- context [if ?b then _ else _] => destruct b end;
    first [apply framed_add|apply framed_register|apply framed_remove|apply framed_restart
          |apply framed_health|framed_code].
Qed.

Lemma make_response_body code body : code ∈ codes → http_body (make_response code body) = Some body.
Proof.
  intros Hc. apply http_body_header.
  repeat apply Forall_cons_2; [| | | |apply Forall_nil_2].
  - revert code Hc. apply Forall_forall.
    repeat apply Forall_cons_2; try apply Forall_nil_2;
      by apply (bool_decide_unpack (line_ok _)).
  - by apply (bool_decide_unpack (line_ok (lit "Content-Type: application/json"))).
  - apply word_line_ok; [apply word_show_Z|].
    by apply (bool_decide_unpack (line_ok (lit "Content-Length: "))).
  - by apply (bool_decide_unpack (line_ok (lit "Connection: close"))).
Qed.

(** Every response is framed: it is [make_response] of one of five status
    codes and some body, so that its Content-Length is the body's length and
    the client, cutting at the first blank line, gets exactly that body. *)
Theorem control_responses_framed (now : Z) (s : Head) (received : bytes) :
  received ≠ [] →
  ∃ code body, code ∈ codes ∧
    response (handle_request reachable now s received).2 = make_response code body ∧
    printed (make_response code body) = body.
Proof.
  intros Hne. unfold handle_request. destruct received as [|c r]; [done|].
  destruct (parse_request (c :: r)) as [[method path] body].
  destruct (framed_route now s method path body) as (code & b & Hc & Hr).
  exists code, b. split_and!; [done..|]. unfold printed. by rewrite make_response_body.
Qed.
End control.

(** ** Witnesses *)
Definition up (_ : bytes) (_ : Z) : bool := true.
Definition demo_head : Head := mkHead empty_registry (mkMonitor ∅ 60 3 true true).
Definition local : bytes := lit "127.0.0.1".
Lemma local_plain : plain_host local.
Proof. by apply (bool_decide_unpack (plain_host local)). Qed.

Lemma cli_add_server_registers_witness :
  let '(s', o) := handle_request up 5 demo_head (cmd_add_server local local 8080) in
  ∃ id e, reg_servers (registry s') !! id = Some e ∧ host e = local ∧ port e = 8080 ∧
    lists 5 (registry demo_head) local 8080 0 0 id e (registry s') ∧
    hm_servers (monitor s') =
      <[id := default (fresh_health 5 id (local ++ colon :: show_Z 8080))
                (hm_servers (monitor demo_head) !! id)]> (hm_servers (monitor demo_head)) ∧
    response o = make_response 201
      (jlit "{'id':" ++ show_Z id ++ jlit ",'host':'" ++ local ++ jlit "','port':" ++ show_Z 8080
       ++ jlit ",'status':'active'}").
Proof.
  apply (cli_add_server_registers up); [apply local_plain|apply local_plain|].
  by apply (bool_decide_unpack (0 < 8080 ≤ INT_MAX)).
Defined.

Lemma health_endpoint_always_rejects_witness :
  route up 5 demo_head (lit "GET") (lit "/api/v1/servers/cluster/1/health") [] =
    (demo_head, just invalid_id).
Proof. by apply health_endpoint_always_rejects. Defined.

Lemma self_register_not_own_id_witness :
  let '(s', o) := handle_request up 5 demo_head (self_register_request local 7 local 8080 8180 8280) in
  ∃ e, reg_servers (registry s') !! 8 = Some e ∧ port e = 8080.
Proof.
  pose proof (self_register_not_own_id up 5 demo_head local local 7 8080 8180 8280
    (proj1 (proj1 local_plain)) local_plain ltac:(by apply (bool_decide_unpack (0 < 8080 ≤ INT_MAX)))
    ltac:(by apply (bool_decide_unpack (INT_MIN ≤ 8180 ≤ INT_MAX)))
    ltac:(by apply (bool_decide_unpack (INT_MIN ≤ 8280 ≤ INT_MAX)))
    ltac:(done) ltac:(done) ltac:(done)) as H.
  cbv zeta in H. destruct (handle_request _ _ _ _) as [s' o].
  destruct H as (_ & (e & He & _ & _ & Hp & _) & _). by exists e.
Defined.

Lemma control_responses_framed_witness :
  ∃ code body, code ∈ codes ∧
    response (handle_request up 5 demo_head (lit "GET / HTTP/1.1")).2 = make_response code body ∧
    printed (make_response code body) = body.
Proof. by apply control_responses_framed. Defined.

(** ** A registration overwrites a live server

    Three servers started with ids 1, 2 and 3 register (and get 2, 3 and 4),
    the first registers again as its liveness loop does every five seconds,
    and an administrator adds a fourth server: it takes the third one's id. *)
Definition overwrite_run : Head :=
  let step s r := (handle_request up 5 s r).1 in
  let reg id p := self_register_request local id local p (p + 100) (p + 200) in
  step (step (step (step (step demo_head (reg 1 8081)) (reg 2 8082)) (reg 3 8083)) (reg 1 8081))
    (cmd_add_server local local 8084).

(** Registered servers can be lost.  After that run the registry lists the
    first, second and fourth server; the third, registered and never removed,
    is gone. *)
Theorem registration_overwrites_live_server :
  map port (get_all (registry overwrite_run)) = [8081; 8082; 8084].
Proof. by vm_compute. Qed.
