(* ===== verification/Wire.v ===== *)
(** * Wire: the messages of src/src/proto/v1 and their framing

    The protobuf runtime is not part of the repository: [Codec] states what the
    code relies on (parsing undoes serializing, for messages whose text fields
    are ASCII), and [net_codec] is one implementation, used by the witnesses.
    Frames are 32-bit big-endian words in front of the payload. *)
From Stdlib Require Import Lia SpecFloat.
From S2P Require Import Prelude.
From S2P Require Import Text.
From S2P Require Import Net.
Local Open Scope Z_scope.

(** ** 32-bit network order: [htonl], [ntohl] *)
Definition byte_of (z : Z) : ascii := ascii_of_N (Z.to_N (z mod 256)).
Definition byte_z (c : ascii) : Z := Z.of_N (N_of_ascii c).

Definition be32 (n : Z) : bytes :=
  [byte_of (n / 2 ^ 24); byte_of (n / 2 ^ 16); byte_of (n / 2 ^ 8); byte_of n].
Definition of_be32 (b : bytes) : Z := fold_left (λ acc c, acc * 256 + byte_z c) b 0.

Lemma byte_z_of z : byte_z (byte_of z) = z mod 256.
Proof.
  unfold byte_z, byte_of. pose proof (Z.mod_pos_bound z 256 ltac:(lia)).
  rewrite N_ascii_embedding by lia. lia.
Qed.

Lemma of_be32_be32 n : 0 ≤ n < 2 ^ 32 → of_be32 (be32 n) = n.
Proof.
  intros Hn. unfold of_be32, be32. cbn [fold_left]. rewrite !byte_z_of.
  change (2 ^ 24) with 16777216. change (2 ^ 16) with 65536. change (2 ^ 8) with 256.
  change (2 ^ 32) with 4294967296 in Hn. Z.to_euclidean_division_equations. lia.
Qed.

Lemma byte_of_z c : byte_of (byte_z c) = c.
Proof.
  unfold byte_of, byte_z. pose proof (N_ascii_bounded c) as H.
  rewrite Z.mod_small by lia. rewrite N2Z.id. apply ascii_N_embedding.
Qed.

Lemma byte_of_mod x y : x mod 256 = y mod 256 → byte_of x = byte_of y.
Proof. unfold byte_of. by intros ->. Qed.

Lemma byte_z_range c : 0 ≤ byte_z c < 256.
Proof. unfold byte_z. pose proof (N_ascii_bounded c). lia. Qed.

(** Four bytes that read as [n] are the bytes of [n]. *)
Lemma be32_unique f n : length f = 4%nat → of_be32 f = n → f = be32 n.
Proof.
  intros Hf <-. destruct f as [|a [|b [|c [|d [|]]]]]; try done.
  unfold of_be32, be32. cbn [fold_left].
  pose proof (byte_z_range a). pose proof (byte_z_range b).
  pose proof (byte_z_range c). pose proof (byte_z_range d).
  rewrite <- (byte_of_z a) at 1. rewrite <- (byte_of_z b) at 1.
  rewrite <- (byte_of_z c) at 1. rewrite <- (byte_of_z d) at 1.
  change (2 ^ 24) with 16777216. change (2 ^ 16) with 65536. change (2 ^ 8) with 256.
  repeat apply (f_equal2 cons); try done; apply byte_of_mod;
    Z.to_euclidean_division_equations; lia.
Qed.

Lemma length_be32 n : length (be32 n) = 4%nat.
Proof. done. Qed.

(** [uint32_t len = htonl(s.size())] in front of [s]. *)
Definition frame (payload : bytes) : bytes := be32 (w32 (Z.of_nat (length payload))) ++ payload.
(** A request: type, length, payload. *)
Definition request (type : Z) (payload : bytes) : bytes := be32 type ++ frame payload.

(** Reading a frame, as [recv_all] of the length and of the body do. *)
Definition read_frame (s : bytes) : option (bytes * bytes) :=
  '(l, s) ← recv_exact 4 s;
  recv_exact (Z.to_nat (of_be32 l)) s.

Lemma read_frame_app p s :
  Z.of_nat (length p) < 2 ^ 32 → read_frame (frame p ++ s) = Some (p, s).
Proof.
  intros Hp. unfold read_frame, frame. rewrite <- app_assoc, recv_exact_app by done.
  cbn [mbind option_bind]. unfold wrap. rewrite Z.mod_small by lia.
  rewrite of_be32_be32 by lia. apply recv_exact_app. lia.
Qed.

(** ** Messages *)
Record ChunkData := mkChunkData { cd_chunk_id : bytes; cd_filename : bytes; cd_data : bytes }.
Record ChunkResponse := mkChunkResponse {
  cr_success : bool; cr_chunk_id : bytes; cr_error_message : bytes; cr_file_path : bytes }.
Record FetchChunkRequest := mkFetchChunk { fc_chunk_id : bytes; fc_file_path : bytes }.
Record FetchChunkResponse := mkFetchChunkResponse {
  fr_success : bool; fr_chunk_id : bytes; fr_data : bytes; fr_error_message : bytes }.
Record FetchHashRequest := mkFetchHash { fh_chunk_id : bytes; fh_file_path : bytes }.
Record FetchHashResponse := mkFetchHashResponse {
  hr_success : bool; hr_chunk_id : bytes; hr_hash : bytes; hr_error_message : bytes;
  hr_load_score : spec_float; hr_active_connections : Z }.
Record ReplicateChunkRequest := mkReplicate {
  rq_chunk_id : bytes; rq_target_server_ip : bytes; rq_target_server_port : Z;
  rq_target_transfer_port : Z; rq_filename : bytes }.
Record ReplicateChunkResponse := mkReplicateResponse {
  rr_success : bool; rr_error_message : bytes; rr_file_path : bytes }.
(** The timestamp is in nanoseconds; [rack_id], which nothing sets or reads,
    is left out. *)
Record HeartBeat := mkHeartBeat {
  hb_server_id : Z; hb_ip : bytes; hb_cpu_usage : spec_float;
  hb_total_storage_used : spec_float; hb_timestamp : Z;
  hb_ram_usage : spec_float; hb_disk_usage : spec_float;
  hb_network_in : bytes; hb_network_out : bytes;
  hb_network_in_bytes_per_sec : Z; hb_network_out_bytes_per_sec : Z }.

(** ** What the code relies on *)
Definition is_ascii (c : ascii) : bool := (N_of_ascii c <? 128)%N.
(** A text field: ASCII, at most a mebibyte. *)
Definition text_ok (s : bytes) : Prop :=
  Forall (λ c, is_ascii c = true) s ∧ Z.of_nat (length s) ≤ 2 ^ 20.
Definition data_ok (s : bytes) : Prop := Z.of_nat (length s) ≤ 2 ^ 30.
Definition int32_ok (x : Z) : Prop := INT_MIN ≤ x ≤ INT_MAX.
Definition uint64_ok (x : Z) : Prop := 0 ≤ x ≤ ULLONG_MAX.
Definition float_ok (f : spec_float) : Prop := valid_binary 24 128 f = true.

(** A message type: its default instance, and what can go on the wire. *)
Class Message (M : Type) := { empty_message : M; wire_ok : M → Prop }.
Definition no_float : spec_float := S754_zero false.
#[export] Instance ChunkData_message : Message ChunkData := {|
  empty_message := mkChunkData [] [] [];
  wire_ok m :=
  text_ok (cd_chunk_id m) ∧ text_ok (cd_filename m) ∧ data_ok (cd_data m) |}.
#[export] Instance ChunkResponse_message : Message ChunkResponse := {|
  empty_message := mkChunkResponse false [] [] [];
  wire_ok m :=
  text_ok (cr_chunk_id m) ∧ text_ok (cr_error_message m) ∧ text_ok (cr_file_path m) |}.
#[export] Instance FetchChunkRequest_message : Message FetchChunkRequest := {|
  empty_message := mkFetchChunk [] [];
  wire_ok m :=
  text_ok (fc_chunk_id m) ∧ text_ok (fc_file_path m) |}.
#[export] Instance FetchChunkResponse_message : Message FetchChunkResponse := {|
  empty_message := mkFetchChunkResponse false [] [] [];
  wire_ok m :=
  text_ok (fr_chunk_id m) ∧ data_ok (fr_data m) ∧ text_ok (fr_error_message m) |}.
#[export] Instance FetchHashRequest_message : Message FetchHashRequest := {|
  empty_message := mkFetchHash [] [];
  wire_ok m :=
  text_ok (fh_chunk_id m) ∧ text_ok (fh_file_path m) |}.
#[export] Instance FetchHashResponse_message : Message FetchHashResponse := {|
  empty_message := mkFetchHashResponse false [] [] [] no_float 0;
  wire_ok m :=
  text_ok (hr_chunk_id m) ∧ text_ok (hr_hash m) ∧ text_ok (hr_error_message m) ∧
  float_ok (hr_load_score m) ∧ int32_ok (hr_active_connections m) |}.
#[export] Instance ReplicateChunkRequest_message : Message ReplicateChunkRequest := {|
  empty_message := mkReplicate [] [] 0 0 [];
  wire_ok m :=
  text_ok (rq_chunk_id m) ∧ text_ok (rq_target_server_ip m) ∧ int32_ok (rq_target_server_port m) ∧
  int32_ok (rq_target_transfer_port m) ∧ text_ok (rq_filename m) |}.
#[export] Instance ReplicateChunkResponse_message : Message ReplicateChunkResponse := {|
  empty_message := mkReplicateResponse false [] [];
  wire_ok m :=
  text_ok (rr_error_message m) ∧ text_ok (rr_file_path m) |}.
#[export] Instance HeartBeat_message : Message HeartBeat := {|
  empty_message := mkHeartBeat 0 [] no_float no_float 0 no_float no_float [] [] 0 0;
  wire_ok m :=
  int32_ok (hb_server_id m) ∧ text_ok (hb_ip m) ∧ float_ok (hb_cpu_usage m) ∧
  float_ok (hb_total_storage_used m) ∧ uint64_ok (hb_timestamp m) ∧
  float_ok (hb_ram_usage m) ∧ float_ok (hb_disk_usage m) ∧
  text_ok (hb_network_in m) ∧ text_ok (hb_network_out m) ∧
  uint64_ok (hb_network_in_bytes_per_sec m) ∧ uint64_ok (hb_network_out_bytes_per_sec m) |}.

(** [SerializeToString], [ParseFromArray]; [partial] is what a failed
    [ParseFromArray] leaves in the message. *)
Class Codec (M : Type) `{Message M} := {
  serialize : M → bytes;
  parse : bytes → option M;
  partial : bytes → M;
  parse_serialize m : wire_ok m → parse (serialize m) = Some m;
  serialize_small m : wire_ok m → Z.of_nat (length (serialize m)) < 2 ^ 32
}.

(** The protobuf runtime: a codec for every message. *)
Class Protobuf := {
  pb_chunk_data :: Codec ChunkData;
  pb_chunk_response :: Codec ChunkResponse;
  pb_fetch_chunk :: Codec FetchChunkRequest;
  pb_fetch_chunk_response :: Codec FetchChunkResponse;
  pb_fetch_hash :: Codec FetchHashRequest;
  pb_fetch_hash_response :: Codec FetchHashResponse;
  pb_replicate :: Codec ReplicateChunkRequest;
  pb_replicate_response :: Codec ReplicateChunkResponse;
  pb_heartbeat :: Codec HeartBeat
}.

(** The message after [msg.ParseFromArray(..)], and its success. *)
Definition parse_into {M} `{Codec M} (b : bytes) : M * bool :=
  match parse b with Some m => (m, true) | None => (partial b, false) end.

Lemma read_message {M} `{Codec M} (m : M) s :
  wire_ok m → read_frame (frame (serialize m) ++ s) = Some (serialize m, s).
Proof. intros Hm. apply read_frame_app. by apply serialize_small. Qed.
