(* ===== verification/WireCodec.v ===== *)
(** * WireCodec: one codec for every message, as length-prefixed fields

    It stands for the protobuf runtime in the witnesses: a concrete
    [Protobuf] that has the laws [Wire] asks for. *)
From Stdlib Require Import Lia SpecFloat.
From S2P Require Import Prelude.
From S2P Require Import Text.
From S2P Require Import Wire.

#[local] Obligation Tactic := idtac.
#[local] Unset Program Cases.

(** ** Length-prefixed fields *)
Definition put_field (f : bytes) : bytes := show_nat (length f) ++ colon :: f.
Definition put_fields (fs : list bytes) : bytes := concat (map put_field fs).

Fixpoint get_fields (fuel : nat) (s : bytes) : option (list bytes) :=
  match s, fuel with
  | [], _ => Some []
  | _, O => None
  | _, S k =>
      match drop_while is_digit s with
      | ":"%char :: r =>
          let n := N.to_nat (dec_value (take_while is_digit s)) in
          fs ← get_fields k (drop n r); Some (take n r :: fs)
      | _ => None
      end
  end.

Lemma show_nat_N n : show_nat n = show_N (N.of_nat n).
Proof.
  unfold show_nat, show_Z. destruct (Z.ltb_spec (Z.of_nat n) 0); [lia|]. f_equal. lia.
Qed.

Lemma get_put_fields fs fuel :
  length fs ≤ fuel → get_fields fuel (put_fields fs) = Some fs.
Proof.
  revert fuel. induction fs as [|f fs IH]; intros fuel Hf; [by destruct fuel|].
  destruct fuel as [|k]; [simpl in Hf; lia|]. unfold put_fields. cbn [map concat].
  fold (put_fields fs). unfold put_field. rewrite show_nat_N.
  destruct (show_N (N.of_nat (length f))) as [|d ds] eqn:E; [by destruct (show_N_ne _ E)|].
  rewrite <- E. pose proof (show_N_digits (N.of_nat (length f))) as HF.
  assert (∀ r, get_fields (S k) (show_N (N.of_nat (length f)) ++ colon :: r) =
    (fs ← get_fields k (drop (length f) r); Some (take (length f) r :: fs))) as Hstep.
  { intros r. rewrite E at 1. cbn [app get_fields]. change (d :: ds ++ colon :: r) with
      ((d :: ds) ++ colon :: r). rewrite <- E.
    rewrite take_while_app, drop_while_app by done. cbn [drop_while take_while].
    change (is_digit colon) with false. cbn iota. rewrite app_nil_r.
    rewrite dec_value_show, Nat2N.id. done. }
  rewrite <- app_assoc. rewrite <- app_comm_cons, Hstep.
  rewrite drop_app_length, take_app_length, IH by (simpl in Hf; lia). done.
Qed.

Lemma length_put_fields_ge fs : length fs ≤ length (put_fields fs).
Proof.
  induction fs as [|f fs IH]; [done|]. unfold put_fields in *. cbn [map concat length].
  unfold put_field at 1. rewrite !length_app. cbn [length]. lia.
Qed.

Definition get_all_fields (s : bytes) : option (list bytes) := get_fields (length s) s.
Lemma get_all_put fs : get_all_fields (put_fields fs) = Some fs.
Proof. apply get_put_fields, length_put_fields_ge. Qed.

Lemma length_show_N_fuel fuel n : length (show_N_fuel fuel n) ≤ S fuel.
Proof.
  revert n. induction fuel as [|k IH]; intros n; simpl; [done|].
  destruct (n <? 10)%N; simpl; [lia|]. rewrite length_app. simpl. pose proof (IH (n / 10)%N). lia.
Qed.

Lemma length_show_N n : (n ≤ 2 ^ 64)%N → length (show_N n) ≤ 65.
Proof.
  intros Hn. unfold show_N. pose proof (length_show_N_fuel (N.to_nat (N.log2 n)) n).
  pose proof (N.log2_le_mono _ _ Hn) as Hl. rewrite N.log2_pow2 in Hl by lia. lia.
Qed.

Lemma length_put_field f k :
  (Z.of_nat (length f) ≤ k)%Z → (k ≤ 2 ^ 30)%Z → (Z.of_nat (length (put_field f)) ≤ k + 66)%Z.
Proof.
  intros Hf Hk. unfold put_field. rewrite show_nat_N, length_app. simpl.
  pose proof (length_show_N (N.of_nat (length f))) as H.
  assert (N.of_nat (length f) ≤ 2 ^ 64)%N as Hn.
  { change (2 ^ 64)%N with 18446744073709551616%N. change (2 ^ 30)%Z with 1073741824%Z in Hk. lia. }
  specialize (H Hn). lia.
Qed.

(** The total size of fields of at most [k] bytes each, plus one data field. *)
Lemma length_put_fields fs (k : Z) :
  (k ≤ 2 ^ 30)%Z → Forall (λ f, Z.of_nat (length f) ≤ k)%Z fs →
  (Z.of_nat (length (put_fields fs)) ≤ Z.of_nat (length fs) * (k + 66))%Z.
Proof.
  intros Hk. unfold put_fields. induction 1 as [|f fs Hf HF IH]; simpl; [lia|].
  rewrite length_app. pose proof (length_put_field f k Hf Hk).
  rewrite Nat2Z.inj_add, Nat2Z.inj_succ. lia.
Qed.

(** ** Scalars *)
Definition put_bool (b : bool) : bytes := if b then lit "1" else lit "0".
Definition get_bool (s : bytes) : option bool :=
  if decide (s = lit "1") then Some true else if decide (s = lit "0") then Some false else None.
Definition get_int (s : bytes) : option Z :=
  '(neg, m, _) ← scan_int s; Some (signed_of neg m).

Definition put_float (f : spec_float) : list bytes :=
  match f with
  | S754_zero b => [lit "z"; put_bool b; []]
  | S754_infinity b => [lit "i"; put_bool b; []]
  | S754_nan => [lit "n"; []; []]
  | S754_finite b m e => [put_bool b; show_Z (Zpos m); show_Z e]
  end.
Definition get_float (a b c : bytes) : option spec_float :=
  if decide (a = lit "z") then S754_zero <$> get_bool b
  else if decide (a = lit "i") then S754_infinity <$> get_bool b
  else if decide (a = lit "n") then Some S754_nan
  else
    s ← get_bool a; m ← get_int b; e ← get_int c;
    match m with Zpos p => Some (S754_finite s p e) | _ => None end.

Lemma get_put_bool b : get_bool (put_bool b) = Some b.
Proof. by destruct b. Qed.
Lemma get_put_int z : get_int (show_Z z) = Some z.
Proof.
  unfold get_int. rewrite <- (app_nil_r (show_Z z)), scan_int_show by done.
  cbn [mbind option_bind]. by rewrite signed_of_show.
Qed.
Lemma get_put_float f : match put_float f with [a; b; c] => get_float a b c = Some f | _ => False end.
Proof.
  destruct f as [b|b| |b m e]; simpl; [by destruct b|by destruct b|done|].
  unfold get_float. rewrite !decide_False by by destruct b.
  rewrite get_put_bool. cbn [mbind option_bind]. rewrite !get_put_int. done.
Qed.

Lemma length_show_Z z : (- 2 ^ 64 ≤ z ≤ 2 ^ 64)%Z → length (show_Z z) ≤ 66.
Proof.
  intros Hz. change (2 ^ 64)%Z with (Z.of_N (2 ^ 64)) in Hz. unfold show_Z.
  destruct (z <? 0)%Z; cbn [length].
  - pose proof (length_show_N (Z.to_N (- z)) ltac:(lia)). lia.
  - pose proof (length_show_N (Z.to_N z) ltac:(lia)). lia.
Qed.

Lemma pos_below_digits m : (Z.pos m < 2 ^ Z.pos (digits2_pos m))%Z.
Proof.
  induction m as [m IH|m IH|]; [| |done]; cbn [digits2_pos];
    rewrite Pos2Z.inj_succ, Z.pow_succ_r by lia; lia.
Qed.

Lemma length_put_float f :
  float_ok f → Forall (λ x, length x ≤ 66) (put_float f).
Proof.
  intros Hf. destruct f as [b|b| |b m e]; simpl;
    [destruct b; repeat constructor; simpl; lia..|repeat constructor; simpl; lia|].
  change (bounded 24 128 m e = true) in Hf. unfold bounded in Hf.
  apply andb_true_iff in Hf as [Hc He].
  unfold canonical_mantissa in Hc. apply Z.eqb_eq in Hc. apply Z.leb_le in He.
  unfold fexp, emin in Hc. pose proof (pos_below_digits m) as Hd.
  assert (Z.pos m < 2 ^ 24)%Z as Hm.
  { eapply Z.lt_le_trans; [exact Hd|]. apply Z.pow_le_mono_r; lia. }
  change (2 ^ 24)%Z with 16777216%Z in Hm.
  repeat apply Forall_cons_2; [destruct b; simpl; lia| | |apply Forall_nil_2];
    apply length_show_Z; change (2 ^ 64)%Z with 18446744073709551616%Z; lia.
Qed.

(** ** Messages as fields *)
Class Fields (M : Type) `{Message M} := {
  to_fields : M → list bytes;
  of_fields : list bytes → option M;
  of_to m : of_fields (to_fields m) = Some m;
  small_fields m : wire_ok m →
    ∃ small big, to_fields m = small ++ big ∧
      length small ≤ 30 ∧ Forall (λ f, Z.of_nat (length f) ≤ 2 ^ 20)%Z small ∧
      length big ≤ 1 ∧ Forall (λ f, Z.of_nat (length f) ≤ 2 ^ 30)%Z big
}.

Lemma fields_parse {M} `{Fields M} (m : M) :
  (fs ← get_all_fields (put_fields (to_fields m)); of_fields fs) = Some m.
Proof. rewrite get_all_put. cbn [mbind option_bind]. apply of_to. Qed.

Lemma fields_small {M} `{Fields M} (m : M) :
  wire_ok m → (Z.of_nat (length (put_fields (to_fields m))) < 2 ^ 32)%Z.
Proof.
  intros Hm. destruct (small_fields m Hm) as (sm & big & -> & Hs & HFs & Hb & HFb).
  unfold put_fields. rewrite map_app, concat_app, length_app.
  pose proof (length_put_fields sm (2 ^ 20) ltac:(lia) HFs).
  pose proof (length_put_fields big (2 ^ 30) ltac:(lia) HFb). unfold put_fields in *.
  change (2 ^ 20)%Z with 1048576%Z in *. change (2 ^ 30)%Z with 1073741824%Z in *.
  change (2 ^ 32)%Z with 4294967296%Z. nia.
Qed.

Definition fields_codec {M} `{Fields M} : Codec M := {|
  serialize m := put_fields (to_fields m);
  parse s := fs ← get_all_fields s; of_fields fs;
  partial _ := empty_message;
  parse_serialize m _ := fields_parse m;
  serialize_small m Hm := fields_small m Hm
|}.

Lemma small_put_bool b : (Z.of_nat (length (put_bool b)) ≤ 2 ^ 20)%Z.
Proof. by destruct b. Qed.
Lemma small_put_int z : (- 2 ^ 64 ≤ z ≤ 2 ^ 64)%Z → (Z.of_nat (length (show_Z z)) ≤ 2 ^ 20)%Z.
Proof. intros H. pose proof (length_show_Z z H). change (2 ^ 20)%Z with 1048576%Z. lia. Qed.
Lemma small_int32 z : int32_ok z → (Z.of_nat (length (show_Z z)) ≤ 2 ^ 20)%Z.
Proof. intros [? ?]. apply small_put_int. unfold INT_MIN, INT_MAX in *. lia. Qed.
Lemma small_uint64 z : uint64_ok z → (Z.of_nat (length (show_Z z)) ≤ 2 ^ 20)%Z.
Proof. intros [? ?]. apply small_put_int. unfold ULLONG_MAX in *. lia. Qed.
Lemma small_put_float f :
  float_ok f → Forall (λ x, Z.of_nat (length x) ≤ 2 ^ 20)%Z (put_float f).
Proof.
  intros H. eapply Forall_impl; [by apply length_put_float|]. simpl.
  intros x Hx. change (2 ^ 20)%Z with 1048576%Z. lia.
Qed.
Lemma length_put_float_3 f : length (put_float f) = 3.
Proof. by destruct f. Qed.

Ltac small_field :=
  match goal with
  | H : text_ok ?s |- (Z.of_nat (length ?s) ≤ _)%Z => apply H
  | H : data_ok ?s |- (Z.of_nat (length ?s) ≤ _)%Z => apply H
  | H : int32_ok ?z |- (Z.of_nat (length (show_Z ?z)) ≤ _)%Z => by apply small_int32
  | H : uint64_ok ?z |- (Z.of_nat (length (show_Z ?z)) ≤ _)%Z => by apply small_uint64
  | |- (Z.of_nat (length (put_bool _)) ≤ _)%Z => apply small_put_bool
  end.
Ltac small_all := repeat apply Forall_cons_2; try apply Forall_nil_2; small_field.

#[export] Program Instance ChunkData_fields : Fields ChunkData := {|
  to_fields m := [cd_chunk_id m; cd_filename m; cd_data m];
  of_fields fs := match fs with [a; b; c] => Some (mkChunkData a b c) | _ => None end
|}.
Next Obligation. by intros []. Qed.
Next Obligation.
  intros m (? & ? & ?). exists [cd_chunk_id m; cd_filename m], [cd_data m].
  split_and!; [done|simpl; lia|small_all|simpl; lia|small_all].
Qed.

#[export] Program Instance ChunkResponse_fields : Fields ChunkResponse := {|
  to_fields m := [put_bool (cr_success m); cr_chunk_id m; cr_error_message m; cr_file_path m];
  of_fields fs := match fs with
    | [a; b; c; d] => s ← get_bool a; Some (mkChunkResponse s b c d) | _ => None end
|}.
Next Obligation. intros []. simpl. by rewrite get_put_bool. Qed.
Next Obligation.
  intros m (? & ? & ?). eexists _, []. rewrite app_nil_r.
  split_and!; [done|simpl; lia|small_all|simpl; lia|done].
Qed.

#[export] Program Instance FetchChunkRequest_fields : Fields FetchChunkRequest := {|
  to_fields m := [fc_chunk_id m; fc_file_path m];
  of_fields fs := match fs with [a; b] => Some (mkFetchChunk a b) | _ => None end
|}.
Next Obligation. by intros []. Qed.
Next Obligation.
  intros m (? & ?). eexists _, []. rewrite app_nil_r.
  split_and!; [done|simpl; lia|small_all|simpl; lia|done].
Qed.

#[export] Program Instance FetchChunkResponse_fields : Fields FetchChunkResponse := {|
  to_fields m := [put_bool (fr_success m); fr_chunk_id m; fr_error_message m; fr_data m];
  of_fields fs := match fs with
    | [a; b; c; d] => s ← get_bool a; Some (mkFetchChunkResponse s b d c) | _ => None end
|}.
Next Obligation. intros []. simpl. by rewrite get_put_bool. Qed.
Next Obligation.
  intros m (? & ? & ?).
  exists [put_bool (fr_success m); fr_chunk_id m; fr_error_message m], [fr_data m].
  split_and!; [done|simpl; lia|small_all|simpl; lia|small_all].
Qed.

#[export] Program Instance FetchHashRequest_fields : Fields FetchHashRequest := {|
  to_fields m := [fh_chunk_id m; fh_file_path m];
  of_fields fs := match fs with [a; b] => Some (mkFetchHash a b) | _ => None end
|}.
Next Obligation. by intros []. Qed.
Next Obligation.
  intros m (? & ?). eexists _, []. rewrite app_nil_r.
  split_and!; [done|simpl; lia|small_all|simpl; lia|done].
Qed.

#[export] Program Instance ReplicateChunkRequest_fields : Fields ReplicateChunkRequest := {|
  to_fields m := [rq_chunk_id m; rq_target_server_ip m; show_Z (rq_target_server_port m);
                  show_Z (rq_target_transfer_port m); rq_filename m];
  of_fields fs := match fs with
    | [a; b; c; d; e] =>
        p ← get_int c; q ← get_int d; Some (mkReplicate a b p q e)
    | _ => None end
|}.
Next Obligation. intros []. cbn -[get_int show_Z]. by rewrite !get_put_int. Qed.
Next Obligation.
  intros m (? & ? & ? & ? & ?). eexists _, []. rewrite app_nil_r.
  split_and!; [done|simpl; lia|small_all|simpl; lia|done].
Qed.

#[export] Program Instance ReplicateChunkResponse_fields : Fields ReplicateChunkResponse := {|
  to_fields m := [put_bool (rr_success m); rr_error_message m; rr_file_path m];
  of_fields fs := match fs with
    | [a; b; c] => s ← get_bool a; Some (mkReplicateResponse s b c) | _ => None end
|}.
Next Obligation. intros []. simpl. by rewrite get_put_bool. Qed.
Next Obligation.
  intros m (? & ?). eexists _, []. rewrite app_nil_r.
  split_and!; [done|simpl; lia|small_all|simpl; lia|done].
Qed.

#[export] Program Instance FetchHashResponse_fields : Fields FetchHashResponse := {|
  to_fields m := [put_bool (hr_success m); hr_chunk_id m; hr_hash m; hr_error_message m;
                  show_Z (hr_active_connections m)] ++ put_float (hr_load_score m);
  of_fields fs := match fs with
    | [a; b; c; d; e; x; y; z] =>
        s ← get_bool a; n ← get_int e; f ← get_float x y z;
        Some (mkFetchHashResponse s b c d f n)
    | _ => None end
|}.
Next Obligation.
  intros [s b c d f n]. pose proof (get_put_float f) as Hf.
  destruct (put_float f) as [|x [|y [|z [|]]]] eqn:E; try done.
  cbn -[get_int show_Z get_float put_float]. rewrite E.
  cbn -[get_int show_Z get_float]. rewrite get_put_bool. cbn -[get_int show_Z get_float].
  rewrite get_put_int. cbn -[get_int show_Z get_float]. by rewrite Hf.
Qed.
Next Obligation.
  intros m (? & ? & ? & ? & ?). eexists _, []. rewrite app_nil_r.
  split_and!; [done|rewrite length_app, length_put_float_3; simpl; lia| |simpl; lia|done].
  apply Forall_app. split; [small_all|by apply small_put_float].
Qed.

#[export] Program Instance HeartBeat_fields : Fields HeartBeat := {|
  to_fields m := [show_Z (hb_server_id m); hb_ip m; show_Z (hb_timestamp m);
                  hb_network_in m; hb_network_out m;
                  show_Z (hb_network_in_bytes_per_sec m); show_Z (hb_network_out_bytes_per_sec m)]
                 ++ put_float (hb_cpu_usage m) ++ put_float (hb_total_storage_used m)
                 ++ put_float (hb_ram_usage m) ++ put_float (hb_disk_usage m);
  of_fields fs := match fs with
    | [a; b; c; d; e; f; g; x1; y1; z1; x2; y2; z2; x3; y3; z3; x4; y4; z4] =>
        i ← get_int a; t ← get_int c; n ← get_int f; o ← get_int g;
        cpu ← get_float x1 y1 z1; tot ← get_float x2 y2 z2;
        ram ← get_float x3 y3 z3; dsk ← get_float x4 y4 z4;
        Some (mkHeartBeat i b cpu tot t ram dsk d e n o)
    | _ => None end
|}.
Next Obligation.
  assert (∀ f, ∃ x y z, put_float f = [x; y; z] ∧ get_float x y z = Some f) as Hf.
  { intros f. pose proof (get_put_float f). destruct (put_float f) as [|x [|y [|z [|]]]]; try done.
    by exists x, y, z. }
  intros [i b cpu tot t ram dsk d e n o].
  destruct (Hf cpu) as (? & ? & ? & E1 & F1). destruct (Hf tot) as (? & ? & ? & E2 & F2).
  destruct (Hf ram) as (? & ? & ? & E3 & F3). destruct (Hf dsk) as (? & ? & ? & E4 & F4).
  cbn -[get_int show_Z get_float put_float]. rewrite E1, E2, E3, E4.
  cbn -[get_int show_Z get_float]. rewrite !get_put_int.
  cbn -[get_int show_Z get_float]. rewrite F1. cbn -[get_int show_Z get_float].
  rewrite F2. cbn -[get_int show_Z get_float]. rewrite F3. cbn -[get_int show_Z get_float].
  by rewrite F4.
Qed.
Next Obligation.
  intros m (? & ? & ? & ? & ? & ? & ? & ? & ? & ? & ?). eexists _, []. rewrite app_nil_r.
  split_and!; [done|rewrite !length_app, !length_put_float_3; simpl; lia| |simpl; lia|done].
  rewrite !Forall_app. split_and!; [small_all|by apply small_put_float..].
Qed.

(** The concrete runtime of the witnesses. *)
Definition net_protobuf : Protobuf :=
  Build_Protobuf fields_codec fields_codec fields_codec fields_codec fields_codec
    fields_codec fields_codec fields_codec fields_codec.
