(* ===== verification/ChunkStore.v ===== *)
(** * ChunkStore: a cluster server's chunks and its three listeners
    (src/src/cluster_server/chunk_service.cpp)

    [ChunkStorage] is the class's state together with the disk.  What the
    kernel answers to an I/O call, the clock and the host's metrics are
    arguments.  A connection is the bytes the peer sends; the result is the
    bytes sent back, the new state and whether the process terminates. *)
From Stdlib Require Import Lia SpecFloat.
From S2P Require Import Prelude.
From S2P Require Import Text.
From S2P Require Import Ordered.
From S2P Require Import Sha256.
From S2P Require Import Net.
From S2P Require Import Wire.
Local Open Scope Z_scope.

(** ** Chunk storage *)
Record ChunkStorage := mkStorage {
  storage_path : bytes;
  chunk_registry : gmap bytes bytes;     (* chunk id -> path *)
  disk_files : gmap bytes bytes;         (* path -> contents *)
  seq : Z                                (* the counter of [generate_chunk_path] *)
}.

(** What the file system answers to one operation. *)
Inductive io := IoOk | OpenFails | WriteFails (n : nat) | ReadFails | RemoveFails.

(** [ChunkStorage()]: [configured] is the storage.chunk_dir setting, and
    [usable] whether a directory can be created and written. *)
Definition default_chunk_dir : bytes := lit "/var/cluster_storage/".
Definition fallback_chunk_dir : bytes := lit "/tmp/cluster_storage/".

Definition with_slash (p : bytes) : bytes :=
  match last p with
  | Some c => if decide (c = "/"%char) then p else p ++ lit "/"
  | None => p
  end.

Definition open_storage (configured : option bytes) (usable : bytes → bool)
    (files : gmap bytes bytes) : exc ChunkStorage :=
  let p := with_slash (default default_chunk_dir configured) in
  if usable p then Val (mkStorage p ∅ files 0)
  else if usable fallback_chunk_dir then Val (mkStorage fallback_chunk_dir ∅ files 0)
  else Throw (RuntimeError (lit "Error creating storage directory")).

Definition chunk_path (dir id : bytes) (epoch_us n : Z) : bytes :=
  dir ++ lit "chunk_" ++ id ++ lit "_" ++ show_Z epoch_us ++ lit "_" ++ show_Z n ++ lit ".dat".

Definition generate_chunk_path (s : ChunkStorage) (epoch_us : Z) (id : bytes)
  : ChunkStorage * bytes :=
  (mkStorage (storage_path s) (chunk_registry s) (disk_files s) (seq s + 1),
   chunk_path (storage_path s) id epoch_us (seq s + 1)).

Definition write_file (s : ChunkStorage) (path data : bytes) : ChunkStorage :=
  mkStorage (storage_path s) (chunk_registry s) (<[path := data]> (disk_files s)) (seq s).
Definition register (s : ChunkStorage) (id path : bytes) : ChunkStorage :=
  mkStorage (storage_path s) (<[id := path]> (chunk_registry s)) (disk_files s) (seq s).

Definition store_chunk (i : io) (epoch_us : Z) (s : ChunkStorage) (id data : bytes)
  : ChunkStorage * (bool * bytes) :=
  let '(s, path) := generate_chunk_path s epoch_us id in
  match i with
  | OpenFails => (s, (false, []))
  | WriteFails n => (write_file s path (take n data), (false, []))
  | _ => (register (write_file s path data) id path, (true, path))
  end.

(** The path to read, registering the fallback when it is used. *)
Definition locate_chunk (s : ChunkStorage) (id fallback : bytes)
  : ChunkStorage * option bytes :=
  match chunk_registry s !! id with
  | Some path => (s, Some path)
  | None =>
      if decide (fallback ≠ [] ∧ is_Some (disk_files s !! fallback))
      then (register s id fallback, Some fallback)
      else (s, None)
  end.

Definition read_file (i : io) (s : ChunkStorage) (path : bytes) : bytes :=
  match i with
  | OpenFails | ReadFails => []
  | _ => default [] (disk_files s !! path)
  end.

Definition retrieve_chunk (i : io) (s : ChunkStorage) (id fallback : bytes)
  : ChunkStorage * bytes :=
  match locate_chunk s id fallback with
  | (s', Some path) => (s', read_file i s' path)
  | (s', None) => (s', [])
  end.

Definition delete_chunk (i : io) (s : ChunkStorage) (id : bytes) : ChunkStorage * bool :=
  match chunk_registry s !! id with
  | None => (s, false)
  | Some path =>
      let registry := delete id (chunk_registry s) in
      match i with
      | RemoveFails => (mkStorage (storage_path s) registry (disk_files s) (seq s), false)
      | _ => (mkStorage (storage_path s) registry (delete path (disk_files s)) (seq s), true)
      end
  end.

Definition list_chunks `{!HashOrder bytes bytes} (s : ChunkStorage) : list bytes :=
  (hash_order (chunk_registry s)).*1.

Definition get_storage_usage (s : ChunkStorage) : Z :=
  w64 (foldr Z.add 0
    (map (λ kv : bytes * bytes, Z.of_nat (length kv.2))
       (filter (λ kv : bytes * bytes, starts_with (storage_path s) kv.1 = true)
          (map_to_list (disk_files s))))).

(** ** The transfer port: [handle_connection] *)
Record Env := mkEnv {
  env_io : io;
  env_epoch : Z;
  env_cpu : spec_float;                        (* [system_monitor()] *)
  env_ram : spec_float;
  env_active : Z;                              (* [active_connections] *)
  env_deliver : bytes → Z → bytes → option bytes
    (* connect to a host and port, send a request: the bytes that come back *)
}.

Record Conn := mkConn { conn_state : ChunkStorage; conn_reply : bytes; conn_dead : bool }.

Section protocol.
Context `{!Protobuf}.
Variable e : Env.

Definition handle_store (s : ChunkStorage) (m : ChunkData) : ChunkStorage * bytes :=
  let '(s', (ok, path)) := store_chunk (env_io e) (env_epoch e) s (cd_chunk_id m) (cd_data m) in
  (s', frame (serialize (mkChunkResponse ok (cd_chunk_id m)
                (if ok then [] else lit "Failed to store chunk on disk") path))).

Definition handle_fetch (s : ChunkStorage) (m : FetchChunkRequest) : ChunkStorage * bytes :=
  let '(s', data) := retrieve_chunk (env_io e) s (fc_chunk_id m) (fc_file_path m) in
  (s', frame (serialize
     match data with
     | [] => mkFetchChunkResponse false (fc_chunk_id m) [] (lit "Chunk not found on this server")
     | _ => mkFetchChunkResponse true (fc_chunk_id m) data []
     end)).

Definition handle_hash (s : ChunkStorage) (m : FetchHashRequest) : ChunkStorage * bytes :=
  let '(s', data) := retrieve_chunk (env_io e) s (fh_chunk_id m) (fh_file_path m) in
  (s', frame (serialize
     match data with
     | [] => mkFetchHashResponse false (fh_chunk_id m) []
               (lit "Chunk not found on this server") (S754_zero false) 0
     | _ => mkFetchHashResponse true (fh_chunk_id m) (sha256 data) []
               (SFadd 24 128 (env_cpu e) (env_ram e)) (env_active e)
     end)).

(** The target's answer to a replicated chunk. *)
Definition replicate_result (answer : option bytes) : ReplicateChunkResponse :=
  match answer with
  | None => mkReplicateResponse false (lit "Failed to connect to target cluster server") []
  | Some reply =>
      match read_frame reply with
      | None => mkReplicateResponse false [] []
      | Some (body, _) =>
          let '(r, parsed) := parse_into body : ChunkResponse * bool in
          if parsed && cr_success r then mkReplicateResponse true [] (cr_file_path r)
          else mkReplicateResponse false
                 (lit "Target server rejected chunk: " ++ cr_error_message r) []
      end
  end.

Definition handle_replicate (s : ChunkStorage) (m : ReplicateChunkRequest)
  : ChunkStorage * bytes :=
  let '(s', data) := retrieve_chunk (env_io e) s (rq_chunk_id m) [] in
  (s', frame (serialize
     match data with
     | [] => mkReplicateResponse false (lit "Chunk not found locally to replicate") []
     | _ =>
         let p := if decide (rq_target_transfer_port m = 0) then 8180
                  else rq_target_transfer_port m in
         let msg := mkChunkData (rq_chunk_id m) (rq_filename m) data in
         replicate_result (env_deliver e (rq_target_server_ip m) p (request 1 (serialize msg)))
     end)).

(** A message that does not parse throws: nothing is answered. *)
Definition on_message {M} `{Codec M} (handler : ChunkStorage → M → ChunkStorage * bytes)
    (s : ChunkStorage) (body : bytes) : Conn :=
  match parse body with
  | None => mkConn s [] false
  | Some m => let '(s', reply) := handler s m in mkConn s' reply false
  end.

Definition ok_reply : bytes := lit "OK" ++ [nl].

Definition dispatch (type : Z) (s : ChunkStorage) (body : bytes) : Conn :=
  if decide (type = 1) then on_message handle_store s body
  else if decide (type = 2) then on_message handle_fetch s body
  else if decide (type = 3) then on_message handle_hash s body
  else if decide (type = 4) then on_message handle_replicate s body
  else mkConn s [] false.

Definition handle_connection (s : ChunkStorage) (input : bytes) : Conn :=
  match recv_exact 4 input with
  | None => mkConn s [] false
  | Some (first4, input) =>
      if decide (first4 = lit "DEAD" ∨ first4 = lit "KILL") then mkConn s ok_reply true
      else
        match recv_exact 4 input with
        | None => mkConn s [] false
        | Some (len_bytes, input) =>
            if decide (of_be32 first4 = 99) then mkConn s ok_reply true
            else
              match recv_exact (Z.to_nat (of_be32 len_bytes)) input with
              | None => mkConn s [] false
              | Some (body, _) => dispatch (of_be32 first4) s body
              end
        end
  end.
End protocol.

(** ** The main port: [emergency_listener] *)
(** The process exits, replaces itself ([execv]), or goes on; what it sends. *)
Inductive emergency :=
  | Terminated (reply : bytes)
  | Reexecuted (reply : bytes)
  | Answered (s : ChunkStorage) (reply : bytes).

Definition handle_emergency (i : io) (s : ChunkStorage) (msg : bytes) : emergency :=
  match msg with
  | [] => Answered s []
  | _ =>
    if contains (lit "DEAD") msg || contains (lit "KILL") msg then Terminated ok_reply
    else if contains (lit "RESTART") msg then Reexecuted ok_reply
    else if contains (lit "DELETE_CHUNK ") msg then
      let id := match read_word (drop 13 msg) with Some (w, _) => w | None => [] end in
      let '(s', ok) := delete_chunk i s id in
      Answered s' ((if ok : bool then lit "SUCCESS" else lit "ERROR") ++ [nl])
    else Answered s []
  end.

(** ** The public port: [handle_public_connection] *)

(** Bytes up to a newline, at most 255; [None]: the peer closed first. *)
Definition read_request_line (input : bytes) : option bytes :=
  let l := take_while (λ c, negb (bool_decide (c = nl))) input in
  if (255 <=? length l)%nat then Some (take 255 l)
  else match drop_while (λ c, negb (bool_decide (c = nl))) input with
       | [] => None
       | _ => Some l
       end.

Definition unique_chunk_id (file id : bytes) : bytes := file ++ lit "_chunk_" ++ id.

Definition handle_public_connection (i : io) (s : ChunkStorage) (input : bytes)
  : ChunkStorage * bytes :=
  match read_request_line input with
  | None => (s, [])
  | Some req =>
      if starts_with (lit "GET_CHUNK ") req then
        let '(id, rest) := default ([], []) (read_word (drop 10 req)) in
        let '(file, _) := default ([], []) (read_word rest) in
        let '(s', data) := retrieve_chunk i s (unique_chunk_id file id) [] in
        (s', match data with
             | [] => lit "ERROR: Chunk not found" ++ [nl]
             | _ => lit "CHUNK_SIZE " ++ show_nat (length data) ++ [nl] ++ data
             end)
      else (s, [])
  end.
