(* ===== verification/ChunkSpec.v ===== *)
(** * ChunkSpec: what a cluster server promises

    The abstract chunk server is a [Shelf]: each chunk held owns one file, other
    files lie loose.  The detailed one ([ChunkStore]) refines it, whatever paths
    its fetches fall back on, and the wire protocol gives back what was
    stored. *)
From Stdlib Require Import Lia SpecFloat.
From S2P Require Import Prelude.
From S2P Require Import Text.
From S2P Require Import Ordered.
From S2P Require Import Sha256.
From S2P Require Import Net.
From S2P Require Import Wire.
From S2P Require Import WireCodec.
From S2P Require Import ChunkStore.
Local Open Scope Z_scope.

(** ** Paths are never reused *)
Lemma last_char_inj c (a b s t : bytes) :
  c ∉ s → c ∉ t → a ++ c :: s = b ++ c :: t → a = b ∧ s = t.
Proof.
  intros Hs Ht H. assert (length a = length b) as Hl.
  { assert (Some (length a) = Some (length b)) as E; [|by injection E].
    by rewrite <- (find_last_of_app c a s), <- (find_last_of_app c b t), H. }
  apply app_inj_1 in H as [-> [= ->]]; done.
Qed.

Lemma chunk_path_split dir id e n :
  chunk_path dir id e n =
    ((dir ++ lit "chunk_" ++ id) ++ "_"%char :: show_Z e) ++ "_"%char :: (show_Z n ++ lit ".dat").
Proof. unfold chunk_path. by rewrite <- !app_assoc. Qed.

Lemma chunk_path_inj dir id e n dir' id' e' n' :
  chunk_path dir id e n = chunk_path dir' id' e' n' →
  n = n' ∧ e = e' ∧ (dir = dir' → id = id').
Proof.
  rewrite !chunk_path_split. intros H.
  assert (∀ k, "_"%char ∉ show_Z k ++ lit ".dat") as Hn.
  { intros k. rewrite not_elem_of_app. split; [by apply digit_run_no|].
    by apply (bool_decide_unpack ("_"%char ∉ lit ".dat")). }
  apply last_char_inj in H as [H1 H2]; [|done..].
  apply (app_inv_tail (lit ".dat")) in H2. split; [by apply show_Z_inj|].
  apply last_char_inj in H1 as [H3 H4]; [|by apply digit_run_no..].
  split; [by apply show_Z_inj|]. intros <-. by apply app_inv_head, app_inv_head in H3.
Qed.

(** ** Contents: the chunks by id *)
Definition contents (s : ChunkStorage) : gmap bytes bytes :=
  omap (λ p, disk_files s !! p) (chunk_registry s).

Definition writes (i : io) : bool := match i with OpenFails | WriteFails _ => false | _ => true end.
Definition reads (i : io) : bool := match i with OpenFails | ReadFails => false | _ => true end.
Definition removes (i : io) : bool := match i with RemoveFails => false | _ => true end.

(** Every registered path holds a file, no two chunks share one, and no path
    still to be generated is taken. *)
Record storage_wf (s : ChunkStorage) : Prop := {
  swf_files : ∀ id p, chunk_registry s !! id = Some p → is_Some (disk_files s !! p);
  swf_inj : ∀ id id' p, chunk_registry s !! id = Some p → chunk_registry s !! id' = Some p →
              id = id';
  swf_fresh : ∀ id p d i e n, chunk_registry s !! id = Some p → seq s < n →
              p ≠ chunk_path d i e n
}.

Lemma contents_lookup s id :
  contents s !! id = (p ← chunk_registry s !! id; disk_files s !! p).
Proof. unfold contents. apply lookup_omap. Qed.

(** Writing a freshly generated file leaves the registered ones alone. *)
Lemma write_fresh_file s epoch id data :
  storage_wf s →
  let '(s1, path) := generate_chunk_path s epoch id in
  storage_wf (write_file s1 path data) ∧ contents (write_file s1 path data) = contents s ∧
  (∀ j, chunk_registry s1 !! j ≠ Some path).
Proof.
  intros Hwf. unfold generate_chunk_path.
  set (path := chunk_path (storage_path s) id epoch (seq s + 1)).
  assert (∀ j, chunk_registry s !! j ≠ Some path) as Hfresh.
  { intros j Hj. by apply (swf_fresh _ Hwf _ _ (storage_path s) id epoch (seq s + 1) Hj); [lia|]. }
  split_and!; [|apply map_eq; intros j|done].
  - constructor; simpl.
    + intros j p Hj. rewrite lookup_insert_is_Some'. right. by eapply swf_files.
    + by apply Hwf.
    + intros j p d i ep n Hj Hn. eapply swf_fresh; [done..|lia].
  - rewrite !contents_lookup. simpl. destruct (chunk_registry s !! j) as [p|] eqn:E; [|done].
    simpl. rewrite lookup_insert_ne; [done|]. intros <-. by apply (Hfresh j).
Qed.

Lemma store_chunk_wf i epoch s id data :
  storage_wf s → storage_wf (store_chunk i epoch s id data).1.
Proof.
  intros Hwf. pose proof (λ d, write_fresh_file s epoch id d Hwf) as Hw. unfold store_chunk.
  unfold generate_chunk_path in *.
  set (path := chunk_path _ _ _ _) in *.
  assert (storage_wf (register (write_file (mkStorage (storage_path s) (chunk_registry s)
            (disk_files s) (seq s + 1)) path data) id path)) as Hok.
  { destruct (Hw data) as ([Hf Hi Hn] & _ & Hfresh). constructor; simpl in *.
    - intros j p. rewrite lookup_insert. case_decide; [|by apply Hf].
      intros [= <-]. rewrite lookup_insert_eq. by eexists.
    - intros j k p. rewrite !lookup_insert. repeat case_decide; subst; try done.
      + intros [= <-] Hk. by destruct (Hfresh k).
      + intros Hj [= <-]. by destruct (Hfresh j).
      + apply Hi.
    - intros j p d ii ep n. rewrite lookup_insert. case_decide; [|by apply Hn].
      intros [= <-] Hlt E. apply chunk_path_inj in E as [E _]. lia. }
  destruct i; simpl; try done; [|apply Hw].
  destruct Hwf as [Hf Hi Hn]. constructor; simpl; try done.
  intros j p d ii ep n Hj Hlt. eapply Hn; [done|lia].
Qed.

Lemma store_chunk_contents i epoch s id data :
  storage_wf s →
  contents (store_chunk i epoch s id data).1 =
    (if writes i then <[id := data]> (contents s) else contents s) ∧
  (store_chunk i epoch s id data).2.1 = writes i.
Proof.
  intros Hwf. pose proof (λ d, write_fresh_file s epoch id d Hwf) as Hw. unfold store_chunk.
  unfold generate_chunk_path in *. set (path := chunk_path _ _ _ _) in *.
  assert (contents (register (write_file (mkStorage (storage_path s) (chunk_registry s)
            (disk_files s) (seq s + 1)) path data) id path) = <[id := data]> (contents s)) as Hok.
  { destruct (Hw data) as (_ & Hc & _). apply map_eq. intros j.
    rewrite contents_lookup. simpl. rewrite !lookup_insert. case_decide as Hj; simpl.
    - by rewrite lookup_insert_eq.
    - rewrite <- Hc, contents_lookup. done. }
  destruct i; simpl; try done. split; [apply Hw|done].
Qed.

(** Without a fallback a retrieval reads the map and changes nothing. *)
Lemma retrieve_registered i s id :
  retrieve_chunk i s id [] = (s, if reads i then default [] (contents s !! id) else []).
Proof.
  unfold retrieve_chunk, locate_chunk. rewrite contents_lookup.
  destruct (chunk_registry s !! id) as [p|].
  - simpl. by destruct i.
  - rewrite decide_False by (by intros []). simpl. by destruct (reads i).
Qed.

(** ** The abstract chunk server

    A shelf: every chunk held owns one file, known by its name, and the other
    files lie loose: what a store that failed half-way left, the former file of a
    chunk stored again, a file that a delete could not remove, and what an
    earlier run of the process left in the directory.  A fetch that names a
    loose file puts it back under the chunk. *)
Inductive storage_op :=
  | OpStore (i : io) (epoch_us : Z) (id data : bytes)
  | OpFetch (i : io) (id file_path : bytes)
  | OpDelete (i : io) (id : bytes).

Inductive answer := Stored (ok : bool) (path : bytes) | Fetched (data : bytes) | Deleted (ok : bool).

Definition run_storage (s : ChunkStorage) (op : storage_op) : ChunkStorage * answer :=
  match op with
  | OpStore i e id data => let '(s', (ok, path)) := store_chunk i e s id data in (s', Stored ok path)
  | OpFetch i id file_path => let '(s', d) := retrieve_chunk i s id file_path in (s', Fetched d)
  | OpDelete i id => let '(s', ok) := delete_chunk i s id in (s', Deleted ok)
  end.

Record Shelf := mkShelf {
  held : gmap bytes (bytes * bytes);     (* chunk id -> its file's name and contents *)
  loose : gmap bytes bytes               (* file name -> contents *)
}.

(** The chunk's file, if it has one, is left lying. *)
Definition let_go (a : Shelf) (id : bytes) : Shelf :=
  match held a !! id with
  | Some (p, c) => mkShelf (delete id (held a)) (<[p := c]> (loose a))
  | None => a
  end.
Definition put (a : Shelf) (id p c : bytes) : Shelf :=
  mkShelf (<[id := (p, c)]> (held a)) (delete p (loose a)).

(** No file has this name. *)
Definition unused (a : Shelf) (name : bytes) : Prop :=
  loose a !! name = None ∧ ∀ id c, held a !! id ≠ Some (name, c).

Inductive shelf_step (a : Shelf) : storage_op → answer → Shelf → Prop :=
  | ShStore i e id data name :
      writes i = true → unused a name →
      shelf_step a (OpStore i e id data) (Stored true name) (put (let_go a id) id name data)
  | ShStoreOpen e id data : shelf_step a (OpStore OpenFails e id data) (Stored false []) a
  | ShStorePartial n e id data name :
      unused a name →
      shelf_step a (OpStore (WriteFails n) e id data) (Stored false [])
        (mkShelf (held a) (<[name := take n data]> (loose a)))
  | ShFetchHeld i id file_path p c :
      held a !! id = Some (p, c) →
      shelf_step a (OpFetch i id file_path) (Fetched (if reads i then c else [])) a
  | ShFetchBack i id file_path c :
      held a !! id = None → file_path ≠ [] → loose a !! file_path = Some c →
      shelf_step a (OpFetch i id file_path) (Fetched (if reads i then c else [])) (put a id file_path c)
  | ShFetchNone i id file_path :
      held a !! id = None → file_path = [] ∨ loose a !! file_path = None →
      shelf_step a (OpFetch i id file_path) (Fetched []) a
  | ShDelete i id p c :
      held a !! id = Some (p, c) → removes i = true →
      shelf_step a (OpDelete i id) (Deleted true) (mkShelf (delete id (held a)) (loose a))
  | ShDeleteKept id p c :
      held a !! id = Some (p, c) →
      shelf_step a (OpDelete RemoveFails id) (Deleted false) (let_go a id)
  | ShDeleteNone i id :
      held a !! id = None → shelf_step a (OpDelete i id) (Deleted false) a.

Fixpoint run_all (s : ChunkStorage) (ops : list storage_op) : ChunkStorage * list answer :=
  match ops with
  | [] => (s, [])
  | op :: ops' =>
      let '(s1, a) := run_storage s op in
      let '(s2, l) := run_all s1 ops' in (s2, a :: l)
  end.

Inductive shelf_run : Shelf → list storage_op → list answer → Shelf → Prop :=
  | ShelfDone a : shelf_run a [] [] a
  | ShelfStep a a1 a2 op ops x l :
      shelf_step a op x a1 → shelf_run a1 ops l a2 → shelf_run a (op :: ops) (x :: l) a2.

(** What the storage holds, read as a shelf. *)
Definition shelf_of (s : ChunkStorage) : Shelf :=
  mkShelf (omap (λ p, pair p <$> disk_files s !! p) (chunk_registry s))
          (filter (λ kv, kv.1 ∉ (map_img (chunk_registry s) : gset bytes)) (disk_files s)).

Definition shows (s : ChunkStorage) (a : Shelf) : Prop :=
  (∀ id p c, held a !! id = Some (p, c) ↔ chunk_registry s !! id = Some p ∧ disk_files s !! p = Some c) ∧
  (∀ p c, loose a !! p = Some c ↔ disk_files s !! p = Some c ∧ ∀ id, chunk_registry s !! id ≠ Some p).

Lemma shelf_of_shows s : shows s (shelf_of s).
Proof.
  split; simpl.
  - intros id p c. rewrite lookup_omap, bind_Some. split.
    + intros (q & Hq & Hc). apply fmap_Some in Hc as (c' & Hc & [= -> ->]). done.
    + intros [Hp Hc]. exists p. by rewrite Hc.
  - intros p c. rewrite map_lookup_filter_Some. simpl. rewrite elem_of_map_img. naive_solver.
Qed.

Lemma shows_unique s a : shows s a → a = shelf_of s.
Proof.
  intros [H1 H2]. destruct (shelf_of_shows s) as [H3 H4]. destruct a as [h l], (shelf_of s) as [h' l'].
  simpl in *. f_equal; apply map_eq; intros k; apply option_eq.
  - intros [p c]. by rewrite H1, H3.
  - intros c. by rewrite H2, H4.
Qed.

(** ** The file names

    [t0] is when the process started: files of an earlier run carry earlier
    times, so a name generated from now on is not in the directory. *)
Record owned (t0 : Z) (s : ChunkStorage) : Prop := {
  ow_files : ∀ id p, chunk_registry s !! id = Some p → is_Some (disk_files s !! p);
  ow_name : ∀ id p, chunk_registry s !! id = Some p → ∃ e n, p = chunk_path (storage_path s) id e n;
  ow_old : ∀ id e n, is_Some (disk_files s !! chunk_path (storage_path s) id e n) → t0 ≤ e → n ≤ seq s
}.

(** A fetch gives no path, one that the server made for this chunk, in this run
    or an earlier one, or one of no file here (such as the path the head server
    assumes).  The clock of a store is not before the start of the process. *)
Definition op_ok (t0 : Z) (s : ChunkStorage) (op : storage_op) : Prop :=
  match op with
  | OpStore _ e _ _ => t0 ≤ e
  | OpFetch _ id fb =>
      fb = [] ∨ (∃ e n, fb = chunk_path (storage_path s) id e n) ∨
      (disk_files s !! fb = None ∧ ∀ i e n, fb ≠ chunk_path (storage_path s) i e n)
  | OpDelete _ _ => True
  end.

Lemma owned_inj t0 s id id' p :
  owned t0 s → chunk_registry s !! id = Some p → chunk_registry s !! id' = Some p → id = id'.
Proof.
  intros Ho (e & n & ->)%(ow_name _ _ Ho) (e' & n' & Heq)%(ow_name _ _ Ho).
  apply chunk_path_inj in Heq as (_ & _ & Hid). by apply Hid.
Qed.

(** What a store writes to is not in the directory. *)
Lemma owned_fresh t0 s e id :
  owned t0 s → t0 ≤ e → disk_files s !! chunk_path (storage_path s) id e (seq s + 1) = None.
Proof.
  intros Ho He. apply eq_None_not_Some. intros Hin. pose proof (ow_old _ _ Ho _ _ _ Hin He). lia.
Qed.

Lemma owned_write t0 s e id data :
  owned t0 s → t0 ≤ e →
  let '(s1, path) := generate_chunk_path s e id in owned t0 (write_file s1 path data).
Proof.
  intros Ho He. unfold generate_chunk_path. constructor; simpl.
  - intros j p Hj. rewrite lookup_insert_is_Some'. right. by eapply ow_files.
  - apply Ho.
  - intros j e' n Hin He'. apply lookup_insert_is_Some' in Hin as [Heq|Hin].
    + apply chunk_path_inj in Heq as [-> _]. lia.
    + pose proof (ow_old _ _ Ho _ _ _ Hin He'). lia.
Qed.

Lemma owned_register t0 s id e n :
  owned t0 s → is_Some (disk_files s !! chunk_path (storage_path s) id e n) →
  owned t0 (register s id (chunk_path (storage_path s) id e n)).
Proof.
  intros Ho Hin. constructor; simpl; [| |apply Ho].
  - intros j p [[<- <-]|[_ Hj]]%lookup_insert_Some; [done|by eapply ow_files].
  - intros j p [[<- <-]|[_ Hj]]%lookup_insert_Some; [eauto|by eapply ow_name].
Qed.

Lemma owned_delete t0 s i id : owned t0 s → owned t0 (delete_chunk i s id).1.
Proof.
  intros Ho. unfold delete_chunk. destruct (chunk_registry s !! id) as [path|] eqn:E; [|done].
  assert (∀ j p, delete id (chunk_registry s) !! j = Some p → is_Some (delete path (disk_files s) !! p)) as Hf.
  { intros j p [Hne Hj]%lookup_delete_Some. rewrite lookup_delete_ne; [by eapply ow_files|].
    intros <-. apply Hne. by eapply owned_inj. }
  assert (∀ j p, delete id (chunk_registry s) !! j = Some p →
            ∃ e n, p = chunk_path (storage_path s) j e n) as Hn.
  { intros j p [_ Hj]%lookup_delete_Some. by eapply ow_name. }
  destruct i; constructor; simpl; try done; try (apply Ho).
  all: try (intros j e k [c [_ Hc]%lookup_delete_Some]; apply (ow_old _ _ Ho j e k); by eexists).
  all: try exact (ow_old _ _ Ho).
  intros j p [_ Hj]%lookup_delete_Some. by eapply ow_files.
Qed.

Lemma run_storage_owned t0 s op :
  owned t0 s → op_ok t0 s op → owned t0 (run_storage s op).1.
Proof.
  intros Ho Hop. destruct op as [i e id data|i id fb|i id]; simpl in *.
  - unfold store_chunk. unfold generate_chunk_path.
    pose proof (λ d, owned_write t0 s e id d Ho Hop) as Hw. unfold generate_chunk_path in Hw.
    assert (owned t0 (register (write_file (mkStorage (storage_path s) (chunk_registry s) (disk_files s)
              (seq s + 1)) (chunk_path (storage_path s) id e (seq s + 1)) data) id
              (chunk_path (storage_path s) id e (seq s + 1)))) as Hr.
    { apply (owned_register t0 _ id e (seq s + 1) (Hw data)). simpl. by rewrite lookup_insert_eq. }
    destruct i; simpl; try done.
    destruct Ho as [Hf Hn Hold]. constructor; simpl; try done.
    intros j e' n Hin He'. specialize (Hold _ _ _ Hin He'). lia.
  - unfold retrieve_chunk, locate_chunk. destruct (chunk_registry s !! id) as [p|]; [done|].
    case_decide as Hd; [|done]. simpl. destruct Hd as [Hne Hin].
    destruct Hop as [->|[(e & n & ->)|[Hno _]]]; [done|by apply owned_register|].
    rewrite Hno in Hin. by destruct Hin.
  - pose proof (owned_delete t0 s i id Ho) as Hd. by destruct (delete_chunk i s id).
Qed.

(** Files that are not the server's are never made. *)
Lemma run_storage_ok t0 s op op' :
  op_ok t0 s op' → op_ok t0 (run_storage s op).1 op'.
Proof.
  assert (storage_path (run_storage s op).1 = storage_path s ∧
    ∀ p, (∀ i e n, p ≠ chunk_path (storage_path s) i e n) → disk_files s !! p = None →
         disk_files (run_storage s op).1 !! p = None) as [Hpath Hdisk].
  { destruct op as [i e id data|i id fb|i id]; simpl.
    - unfold store_chunk, generate_chunk_path.
      destruct i; simpl; (split; [done|]); intros p Hp Hno; try done;
        (rewrite lookup_insert_ne; [done|]; intros <-; by destruct (Hp id e (seq s + 1))).
    - unfold retrieve_chunk, locate_chunk. destruct (chunk_registry s !! id); [done|]. by case_decide.
    - unfold delete_chunk. destruct (chunk_registry s !! id) as [path|]; [|done].
      destruct i; simpl; (split; [done|]); intros p _ Hno; try done;
        apply lookup_delete_None; by right. }
  destruct op' as [i e id data|i id fb|i id]; simpl; try done. rewrite Hpath.
  intros [?|[?|[Hno Hf]]]; auto 6.
Qed.

(** ** Each operation is a step of the shelf *)
Lemma shows_let_go s a id path :
  shows s a → (∀ i j p, chunk_registry s !! i = Some p → chunk_registry s !! j = Some p → i = j) →
  (∀ i p, chunk_registry s !! i = Some p → is_Some (disk_files s !! p)) →
  chunk_registry s !! id = Some path →
  shows (mkStorage (storage_path s) (delete id (chunk_registry s)) (disk_files s) (seq s)) (let_go a id).
Proof.
  intros [H1 H2] Hinj Hfile Hid. destruct (Hfile _ _ Hid) as [c Hc].
  unfold let_go. rewrite (proj2 (H1 id path c) (conj Hid Hc)). split; simpl.
  - intros j p c'. rewrite !lookup_delete_Some, H1. naive_solver.
  - intros p c'. rewrite lookup_insert_Some, H2. split.
    + intros [[<- <-]|[Hne [Hp Hno]]]; (split; [done|]); intros j [Hj Hjp]%lookup_delete_Some.
      * apply Hj. by eapply Hinj.
      * by eapply Hno.
    + intros [Hp Hno]. destruct (decide (path = p)) as [<-|Hne]; [left; split; congruence|right].
      split; [done|]. split; [done|]. intros j Hj. destruct (decide (j = id)) as [->|Hji]; [congruence|].
      apply (Hno j). by rewrite lookup_delete_ne.
Qed.

Lemma shows_put s a id path c :
  shows s a → chunk_registry s !! id = None → disk_files s !! path = Some c →
  shows (register s id path) (put a id path c).
Proof.
  intros [H1 H2] Hid Hc. split; simpl.
  - intros j p c'. rewrite !lookup_insert_Some, H1. naive_solver.
  - intros p c'. rewrite lookup_delete_Some, H2. split.
    + intros [Hne [Hp Hno]]. split; [done|]. intros j [[_ <-]|[_ Hj]]%lookup_insert_Some; [done|by eapply Hno].
    + intros [Hp Hno]. split_and!; [|done|].
      * intros <-. apply (Hno id). by rewrite lookup_insert_eq.
      * intros j Hj. apply (Hno j). rewrite lookup_insert_ne; [done|congruence].
Qed.

Lemma shows_write s a path d :
  shows s a → disk_files s !! path = None → (∀ id, chunk_registry s !! id ≠ Some path) →
  shows (write_file s path d) (mkShelf (held a) (<[path := d]> (loose a))).
Proof.
  intros [H1 H2] Hno Hreg. split; simpl.
  - intros j p c'. rewrite H1, lookup_insert_Some. naive_solver.
  - intros p c'. rewrite !lookup_insert_Some, H2. naive_solver.
Qed.

Lemma shows_unused s a path :
  shows s a → disk_files s !! path = None → unused a path.
Proof.
  intros [H1 H2] Hno. split.
  - apply eq_None_not_Some. intros [c [Hc _]%H2]. congruence.
  - intros id c [_ Hc]%H1. congruence.
Qed.

Lemma shows_seq s a n :
  shows s a → shows (mkStorage (storage_path s) (chunk_registry s) (disk_files s) n) a.
Proof. done. Qed.

Lemma shows_store s a id path data :
  shows s a → (∀ i j p, chunk_registry s !! i = Some p → chunk_registry s !! j = Some p → i = j) →
  (∀ i p, chunk_registry s !! i = Some p → is_Some (disk_files s !! p)) →
  disk_files s !! path = None →
  shows (register (write_file s path data) id path) (put (let_go a id) id path data).
Proof.
  intros Hs Hinj Hfile Hno.
  assert (∀ j, chunk_registry s !! j ≠ Some path) as Hreg.
  { intros j Hj. destruct (Hfile _ _ Hj). congruence. }
  pose proof (shows_write s a path data Hs Hno Hreg) as Hw.
  set (s1 := write_file s path data) in *. set (b := mkShelf _ _) in Hw.
  assert (put (let_go a id) id path data = put (let_go b id) id path data) as ->.
  { unfold let_go, put. unfold b. cbn [held loose]. destruct (held a !! id) as [[p c]|]; simpl; f_equal;
      apply map_eq; intros j; rewrite ?lookup_delete, ?lookup_insert; repeat case_decide; done. }
  assert (register s1 id path =
    register (mkStorage (storage_path s1) (delete id (chunk_registry s1)) (disk_files s1) (seq s1)) id path) as ->.
  { unfold register. simpl. by rewrite insert_delete_eq. }
  apply shows_put; simpl; [|by rewrite lookup_delete_eq|by rewrite lookup_insert_eq].
  destruct (chunk_registry s1 !! id) as [p|] eqn:E.
  - apply (shows_let_go s1 b id p Hw Hinj); [|done].
    intros i q Hq. simpl. rewrite lookup_insert_is_Some'. right. by eapply Hfile.
  - assert (let_go b id = b) as ->.
    { unfold let_go. destruct (held b !! id) as [[p c]|] eqn:Eb; [|done].
      apply (proj1 Hw) in Eb as [Eb _]. congruence. }
    rewrite delete_id by done. exact Hw.
Qed.

Lemma shows_forget s a id p :
  shows s a → (∀ i j q, chunk_registry s !! i = Some q → chunk_registry s !! j = Some q → i = j) →
  chunk_registry s !! id = Some p →
  shows (mkStorage (storage_path s) (delete id (chunk_registry s)) (delete p (disk_files s)) (seq s))
        (mkShelf (delete id (held a)) (loose a)).
Proof.
  intros [H1 H2] Hinj Hid. split; simpl.
  - intros j q c. rewrite !lookup_delete_Some, H1. split; [|naive_solver].
    intros (Hne & Hj & Hc). split_and!; [done..| |done].
    intros <-. apply Hne. by eapply Hinj.
  - intros q c. rewrite lookup_delete_Some, H2. split.
    + intros [Hc Hno]. split; [split; [|done]|].
      * intros <-. by apply (Hno id).
      * intros j [_ Hj]%lookup_delete_Some. by eapply Hno.
    + intros [[Hne Hc] Hno]. split; [done|]. intros j Hj. apply (Hno j).
      rewrite lookup_delete_ne; [done|]. intros <-. congruence.
Qed.

Lemma held_lookup s a id :
  shows s a → (∀ i p, chunk_registry s !! i = Some p → is_Some (disk_files s !! p)) →
  match chunk_registry s !! id with
  | Some p => ∃ c, disk_files s !! p = Some c ∧ held a !! id = Some (p, c)
  | None => held a !! id = None
  end.
Proof.
  intros [H1 H2] Hf. destruct (chunk_registry s !! id) as [p|] eqn:E.
  - destruct (Hf _ _ E) as [c Hc]. exists c. split; [done|]. by apply H1.
  - apply eq_None_not_Some. intros [[p c] [Hp _]%H1]. congruence.
Qed.

Lemma run_storage_shelf t0 s op :
  owned t0 s → op_ok t0 s op →
  ∃ a', shelf_step (shelf_of s) op (run_storage s op).2 a' ∧ shows (run_storage s op).1 a'.
Proof.
  intros Ho Hop. pose proof (shelf_of_shows s) as Hs. set (a := shelf_of s) in *.
  pose proof (λ i j p, owned_inj t0 s i j p Ho) as Hinj.
  pose proof (ow_files _ _ Ho) as Hfile. destruct op as [i e id data|i id fb|i id]; simpl in Hop |- *.
  - pose proof (owned_fresh t0 s e id Ho Hop) as Hno. unfold store_chunk, generate_chunk_path.
    set (path := chunk_path _ _ _ _) in *. pose proof (shows_unused s a path Hs Hno) as Hun.
    assert (∀ j, chunk_registry s !! j ≠ Some path) as Hreg.
    { intros j Hj. destruct (Hfile _ _ Hj). congruence. }
    pose proof (shows_store _ _ id path data (shows_seq s a (seq s + 1) Hs) Hinj Hfile Hno).
    destruct i; simpl; eexists; (split; [by econstructor|]); try done.
    by apply (shows_write (mkStorage _ _ _ _)).
  - pose proof (held_lookup s a id Hs Hfile) as Hh. unfold retrieve_chunk, locate_chunk.
    destruct (chunk_registry s !! id) as [p|] eqn:E.
    + destruct Hh as (c & Hc & Hh). exists a. split; [|done]. simpl.
      assert (read_file i s p = if reads i then c else []) as ->
        by (unfold read_file; rewrite Hc; by destruct i).
      by eapply ShFetchHeld.
    + case_decide as Hd.
      * destruct Hd as [Hne [c Hc]]. simpl.
        assert (read_file i (register s id fb) fb = if reads i then c else []) as ->
          by (unfold read_file; simpl; rewrite Hc; by destruct i).
        exists (put a id fb c). split; [|by apply shows_put]. apply ShFetchBack; [done..|].
        apply (proj2 Hs). split; [done|]. intros j Hj.
        destruct Hop as [->|[(e' & n & ->)|[Hno _]]]; [done| |congruence].
        destruct (ow_name _ _ Ho _ _ Hj) as (e2 & n2 & Heq).
        apply chunk_path_inj in Heq as (_ & _ & Hid). rewrite Hid in E by done. congruence.
      * exists a. split; [|done]. apply ShFetchNone; [done|].
        destruct (decide (fb = [])) as [|Hne]; [by left|right]. apply eq_None_not_Some.
        intros [c [Hc _]%(proj2 Hs)]. apply Hd. split; [done|by eexists].
  - pose proof (held_lookup s a id Hs Hfile) as Hh. unfold delete_chunk.
    destruct (chunk_registry s !! id) as [p|] eqn:E; [|exists a; split; [by apply ShDeleteNone|done]].
    destruct Hh as (c & Hc & Hh).
    pose proof (shows_forget s a id p Hs Hinj E). pose proof (shows_let_go s a id p Hs Hinj Hfile E).
    destruct i; simpl; eexists; (split; [by econstructor|done]).
Qed.

(** C9: the storage is a shelf.  Every sequence of stores, fetches (with or
    without a path to fall back on) and deletes, with any pattern of I/O
    failures, gives answers the abstract server allows and ends with what the
    abstract server then holds: a stored chunk is there with exactly its bytes
    until it is stored again or deleted; a failed store changes no chunk; a
    deleted chunk is gone, unless its file could not be removed and a later
    fetch names that file, which puts it back.  The server may have been
    restarted in a directory with old files.  The conditions: no clock runs
    back behind the start of the process, and a fetch does not name a file of
    another chunk (what the server does with such a path is [fetch_aliases]). *)
Theorem storage_refines_map (t0 : Z) (s : ChunkStorage) (ops : list storage_op) :
  owned t0 s → Forall (op_ok t0 s) ops →
  let '(s', l) := run_all s ops in
  shelf_run (shelf_of s) ops l (shelf_of s') ∧ owned t0 s'.
Proof.
  revert s. induction ops as [|op ops IH]; intros s Ho Hops; [by split; [constructor|]|]. cbn [run_all].
  apply Forall_cons in Hops as [Hop Hops].
  pose proof (run_storage_owned t0 s op Ho Hop) as Ho1.
  destruct (run_storage_shelf t0 s op Ho Hop) as (a1 & Hstep & Hshow).
  assert (Forall (op_ok t0 (run_storage s op).1) ops) as Hops1.
  { eapply Forall_impl; [exact Hops|]. intros op'. apply run_storage_ok. }
  destruct (run_storage s op) as [s1 x]. simpl in *. specialize (IH s1 Ho1 Hops1).
  apply shows_unique in Hshow as ->.
  destruct (run_all s1 ops) as [s2 l]. destruct IH as [IH ?]. split; [|done]. by econstructor.
Qed.

(** A fetch that names another chunk's file: both ids then share it, and
    deleting either one takes the bytes of both. *)
Lemma fetch_aliases (s : ChunkStorage) (id other p c : bytes) :
  chunk_registry s !! other = Some p → disk_files s !! p = Some c → p ≠ [] → id ≠ other →
  chunk_registry s !! id = None →
  let '(s1, d) := retrieve_chunk IoOk s id p in
  let '(s2, ok) := delete_chunk IoOk s1 id in
  d = c ∧ ok = true ∧ chunk_registry s2 !! other = Some p ∧ (retrieve_chunk IoOk s2 other p).2 = [].
Proof.
  intros Ho Hc Hp Hne Hid. unfold retrieve_chunk at 1, locate_chunk. rewrite Hid.
  rewrite decide_True by by split; [|eexists]. unfold read_file, delete_chunk. simpl.
  rewrite lookup_insert_eq, Hc. simpl.
  assert (delete id (<[id:=p]> (chunk_registry s)) !! other = Some p) as Hreg
    by by rewrite lookup_delete_ne, lookup_insert_ne.
  split_and!; [done..|]. unfold retrieve_chunk, locate_chunk. simpl. rewrite Hreg. simpl.
  unfold read_file. simpl. by rewrite lookup_delete_eq.
Qed.

(** A restarted server: chunk "a" lies in a file of an earlier run. *)
Definition old_path : bytes := chunk_path (lit "/d/") (lit "a") 3 9.
Definition demo_storage : ChunkStorage := mkStorage (lit "/d/") ∅ {[old_path := lit "old"]} 0.

Lemma demo_storage_wf : storage_wf demo_storage.
Proof. constructor; simpl; intros *; by rewrite lookup_empty. Qed.

Lemma demo_storage_owned : owned 5 demo_storage.
Proof.
  constructor; simpl; try (intros *; by rewrite lookup_empty).
  intros id e n [c Hc] He. apply lookup_singleton_Some in Hc as [Hp _].
  unfold old_path in Hp. apply chunk_path_inj in Hp as (_ & <- & _). lia.
Qed.

(** The old file comes back; the second store fails half-way; the delete cannot
    remove the file, so the chunk is gone until a fetch names its file. *)
Definition demo_ops : list storage_op :=
  [OpFetch IoOk (lit "a") []; OpFetch IoOk (lit "a") old_path; OpFetch IoOk (lit "a") [];
   OpStore IoOk 7 (lit "b") (lit "xy"); OpStore (WriteFails 1) 8 (lit "b") (lit "zz");
   OpFetch IoOk (lit "b") (lit "/tmp/chunks/1_b_chunk_0"); OpDelete RemoveFails (lit "b");
   OpFetch IoOk (lit "b") []; OpFetch IoOk (lit "b") (chunk_path (lit "/d/") (lit "b") 7 1);
   OpDelete IoOk (lit "b"); OpFetch IoOk (lit "b") (chunk_path (lit "/d/") (lit "b") 7 1)].
Example demo_answers :
  (run_all demo_storage demo_ops).2 =
  [Fetched []; Fetched (lit "old"); Fetched (lit "old");
   Stored true (chunk_path (lit "/d/") (lit "b") 7 1); Stored false []; Fetched (lit "xy");
   Deleted false; Fetched []; Fetched (lit "xy"); Deleted true; Fetched []].
Proof. by vm_compute. Qed.

Lemma demo_ops_ok : Forall (op_ok 5 demo_storage) demo_ops.
Proof.
  repeat apply Forall_cons_2; try apply Forall_nil_2; simpl; try lia; try (by left);
    try done; right; try (left; by repeat eexists). right. split; [by vm_compute|]. by intros i e n [=].
Qed.

Lemma storage_refines_map_witness :
  let '(s', l) := run_all demo_storage demo_ops in
  shelf_run (shelf_of demo_storage) demo_ops l (shelf_of s') ∧ owned 5 s'.
Proof. apply (storage_refines_map 5 demo_storage demo_ops demo_storage_owned demo_ops_ok). Defined.

(** ** The wire protocol *)
Section wire.
Context `{!Protobuf}.

Lemma text_ok_lit (s : string) :
  bool_decide (Forall (λ c, is_ascii c = true) (lit s) ∧ (length (lit s) ≤ 100)%nat) = true →
  text_ok (lit s).
Proof.
  intros [H1 H2]%bool_decide_eq_true. split; [done|]. change (2 ^ 20) with 1048576. lia.
Qed.

Lemma text_ok_nil : text_ok [].
Proof. by apply (text_ok_lit EmptyString). Qed.

Lemma text_ok_hash d : text_ok (sha256 d).
Proof.
  destruct (finalize_shape (update fresh (map byte_val d))) as [Hl Hc].
  split.
  - eapply Forall_impl; [exact Hc|]. intros c. unfold hex_char, is_ascii.
    destruct c as [[] [] [] [] [] [] [] []]; vm_compute; congruence.
  - change (sha256 d) with (finalize (update fresh (map byte_val d))). rewrite Hl.
    change (2 ^ 20) with 1048576. lia.
Qed.

(** A request is taken apart, whatever follows it. *)
Lemma handle_request_frame e s type payload rest :
  Z.of_nat (length payload) < 2 ^ 32 → type ∈ [1; 2; 3; 4] →
  handle_connection e s (request type payload ++ rest) = dispatch e type s payload.
Proof.
  intros Hp Ht. unfold request, frame. rewrite <- !app_assoc. unfold handle_connection.
  rewrite recv_exact_app by done.
  assert (0 ≤ type < 2 ^ 32 ∧ type ≠ 99 ∧ be32 type ≠ lit "DEAD" ∧ be32 type ≠ lit "KILL")
    as (Hr & H99 & Hd & Hk).
  { revert type Ht. apply Forall_forall. repeat apply Forall_cons_2; try apply Forall_nil_2;
      (split; [lia|]; split; [done|]; by split). }
  rewrite decide_False by (by intros []). rewrite recv_exact_app by done.
  rewrite of_be32_be32 by done. rewrite decide_False by done.
  unfold wrap. rewrite Z.mod_small by lia. rewrite of_be32_be32 by lia.
  by rewrite (recv_exact_app payload rest) by lia.
Qed.

Lemma on_message_parse {M} `{Codec M} (h : ChunkStorage → M → ChunkStorage * bytes) s (m : M) :
  wire_ok m → on_message h s (serialize m) = mkConn (h s m).1 (h s m).2 false.
Proof.
  intros Hm. unfold on_message. rewrite parse_serialize by done. by destruct (h s m).
Qed.

(** The request a client sends for a message of each type. *)
Definition store_request (id file data : bytes) : bytes :=
  request 1 (serialize (mkChunkData id file data)).
Definition fetch_request (id path : bytes) : bytes :=
  request 2 (serialize (mkFetchChunk id path)).
Definition hash_request (id path : bytes) : bytes :=
  request 3 (serialize (mkFetchHash id path)).

Lemma store_connection e s id file data :
  text_ok id → text_ok file → data_ok data →
  handle_connection e s (store_request id file data) =
    mkConn (handle_store e s (mkChunkData id file data)).1
           (handle_store e s (mkChunkData id file data)).2 false.
Proof.
  intros Hi Hf Hd. unfold store_request. rewrite <- (app_nil_r (request _ _)).
  assert (wire_ok (mkChunkData id file data)) as Hw by (by split_and!).
  rewrite handle_request_frame; [|by apply serialize_small|by apply (bool_decide_unpack (1 ∈ _))].
  unfold dispatch. cbn [decide]. rewrite decide_True by done. by apply on_message_parse.
Qed.

Lemma fetch_connection e s id path :
  text_ok id → text_ok path →
  handle_connection e s (fetch_request id path) =
    mkConn (handle_fetch e s (mkFetchChunk id path)).1
           (handle_fetch e s (mkFetchChunk id path)).2 false.
Proof.
  intros Hi Hp. unfold fetch_request. rewrite <- (app_nil_r (request _ _)).
  assert (wire_ok (mkFetchChunk id path)) as Hw by (by split).
  rewrite handle_request_frame; [|by apply serialize_small|by apply (bool_decide_unpack (2 ∈ _))].
  unfold dispatch. rewrite decide_False, decide_True by done. by apply on_message_parse.
Qed.

Lemma hash_connection e s id path :
  text_ok id → text_ok path →
  handle_connection e s (hash_request id path) =
    mkConn (handle_hash e s (mkFetchHash id path)).1
           (handle_hash e s (mkFetchHash id path)).2 false.
Proof.
  intros Hi Hp. unfold hash_request. rewrite <- (app_nil_r (request _ _)).
  assert (wire_ok (mkFetchHash id path)) as Hw by (by split).
  rewrite handle_request_frame; [|by apply serialize_small|by apply (bool_decide_unpack (3 ∈ _))].
  unfold dispatch. do 2 rewrite decide_False by done. rewrite decide_True by done.
  by apply on_message_parse.
Qed.

(** Reading a reply back, as the head server does. *)
Definition read_reply {M} `{Codec M} (reply : bytes) : option M :=
  '(body, _) ← read_frame reply; parse body.

Lemma read_reply_frame {M} `{Codec M} (m : M) :
  wire_ok m → read_reply (frame (serialize m)) = Some m.
Proof.
  intros Hm. unfold read_reply. rewrite <- (app_nil_r (frame _)), read_message by done.
  by apply parse_serialize.
Qed.

(** A stored chunk can be fetched and hashed over the wire.  If a store
    request is answered, on a disk that works, then the answer is a success
    with a path, and later fetch and hash requests for the chunk (with any
    fallback path) are answered with exactly the stored bytes and their
    SHA-256. *)
Theorem store_then_fetch (e e' : Env) (s : ChunkStorage) (id file data fallback : bytes) :
  let path := chunk_path (storage_path s) id (env_epoch e) (seq s + 1) in
  storage_wf s → env_io e = IoOk → env_io e' = IoOk →
  text_ok id → text_ok file → text_ok path → text_ok fallback →
  data_ok data → data ≠ [] →
  let c := handle_connection e s (store_request id file data) in
  conn_dead c = false ∧
  contents (conn_state c) = <[id := data]> (contents s) ∧
  read_reply (conn_reply c) = Some (mkChunkResponse true id [] path) ∧
  read_reply (conn_reply (handle_connection e' (conn_state c) (fetch_request id fallback))) =
    Some (mkFetchChunkResponse true id data []) ∧
  (float_ok (SFadd 24 128 (env_cpu e') (env_ram e')) → int32_ok (env_active e') →
   ∃ r, read_reply (conn_reply (handle_connection e' (conn_state c) (hash_request id fallback))) =
          Some r ∧ hr_success r = true ∧ hr_hash r = sha256 data).
Proof.
  intros path Hwf Hio Hio' Hid Hfile Hpath Hfb Hdata Hne. cbv zeta.
  rewrite store_connection by done. cbn [conn_state conn_reply conn_dead].
  pose proof (store_chunk_contents IoOk (env_epoch e) s id data Hwf) as [Hc _].
  assert (handle_store e s (mkChunkData id file data) =
    ((store_chunk IoOk (env_epoch e) s id data).1,
     frame (serialize (mkChunkResponse true id [] path)))) as ->
    by (unfold handle_store; by rewrite Hio).
  assert (∀ fb, retrieve_chunk IoOk (store_chunk IoOk (env_epoch e) s id data).1 id fb =
                ((store_chunk IoOk (env_epoch e) s id data).1, data)) as Hret.
  { intros fb. unfold retrieve_chunk, locate_chunk. cbn. rewrite lookup_insert_eq.
    unfold read_file. cbn. by rewrite lookup_insert_eq. }
  cbn [fst snd]. split_and!; [done|done| | |].
  - apply read_reply_frame. split_and!; [done|apply text_ok_nil|done].
  - rewrite fetch_connection by done. unfold handle_fetch. rewrite Hio'.
    cbn [fc_chunk_id fc_file_path]. rewrite Hret. cbn [conn_reply snd].
    destruct data as [|c d]; [done|]. apply read_reply_frame.
    split_and!; [done|done|apply text_ok_nil].
  - intros Hf Ha. rewrite hash_connection by done. unfold handle_hash. rewrite Hio'.
    cbn [fh_chunk_id fh_file_path]. rewrite Hret. cbn [conn_reply snd].
    destruct data as [|c d]; [done|]. eexists. rewrite read_reply_frame; [done|].
    split_and!; [done|apply text_ok_hash|apply text_ok_nil|done|done].
Qed.

(** An empty chunk is stored but cannot be fetched: the store is
    acknowledged, and every fetch of it is answered "Chunk not found on this
    server". *)
Theorem empty_chunk_not_found (e e' : Env) (s : ChunkStorage) (id file fallback : bytes) :
  env_io e = IoOk → text_ok id → text_ok file → text_ok fallback →
  let c := handle_connection e s (store_request id file []) in
  (∃ path, conn_reply c = frame (serialize (mkChunkResponse true id [] path))) ∧
  read_reply (conn_reply (handle_connection e' (conn_state c) (fetch_request id fallback))) =
    Some (mkFetchChunkResponse false id [] (lit "Chunk not found on this server")).
Proof.
  intros Hio Hid Hfile Hfb. cbv zeta. rewrite store_connection by done.
  unfold handle_store. rewrite Hio. split; [by eexists|].
  rewrite fetch_connection by done. unfold handle_fetch. cbn [fc_chunk_id fc_file_path].
  assert (∀ i, retrieve_chunk i (store_chunk IoOk (env_epoch e) s id []).1 id fallback =
               ((store_chunk IoOk (env_epoch e) s id []).1, [])) as Hret.
  { intros i. unfold retrieve_chunk, locate_chunk. cbn. rewrite lookup_insert_eq.
    unfold read_file. cbn. rewrite lookup_insert_eq. by destruct i. }
  cbn [conn_state cd_chunk_id cd_data]. unfold store_chunk, generate_chunk_path in *.
  cbn [fst] in *. rewrite Hret. cbn [conn_reply snd].
  apply read_reply_frame. split_and!; [done|done|by apply text_ok_lit].
Qed.

(** Only the emergency commands kill the server on the transfer port: the
    connection ends the process exactly when it starts with DEAD or KILL or is
    a frame of type 99, and whatever does not parse changes nothing and is not
    answered. *)
Theorem connection_death (e : Env) (s : ChunkStorage) (input : bytes) :
  conn_dead (handle_connection e s input) = true ↔
  (∃ rest, input = lit "DEAD" ++ rest ∨ input = lit "KILL" ++ rest) ∨
  (∃ b4 rest, input = be32 99 ++ b4 ++ rest ∧ length b4 = 4%nat).
Proof.
  assert (∀ (s : ChunkStorage) M (HM : Message M) (HC : Codec M)
            (h : ChunkStorage → M → ChunkStorage * bytes) b,
            conn_dead (on_message h s b) = false) as Hmsg.
  { intros s0 M ? ? h b. unfold on_message. destruct (parse b) as [m|]; [|done].
    by destruct (h s0 m). }
  assert (∀ t b, conn_dead (dispatch e t s b) = false) as Hdisp.
  { intros t b. unfold dispatch. repeat case_decide; by rewrite ?Hmsg. }
  unfold handle_connection. destruct (recv_exact 4 input) as [[f r]|] eqn:E.
  - apply recv_exact_Some in E as [-> Hf]. destruct (decide (f = lit "DEAD" ∨ f = lit "KILL")) as [Hd|Hd].
    + split; [|done]. intros _. left. exists r. by destruct Hd as [-> | ->]; [left|right].
    + assert (∀ w t, length w = 4%nat → f ++ r = w ++ t → f = w ∧ r = t) as Hinj.
      { intros w t Hw Ht. apply app_inj_1 in Ht; [done|congruence]. }
      destruct (recv_exact 4 r) as [[l r']|] eqn:E'.
      * apply recv_exact_Some in E' as [-> Hl]. destruct (decide (of_be32 f = 99)) as [H99|H99].
        -- split; [|done]. intros _. right. exists l, r'. split; [|done]. f_equal.
           by apply be32_unique.
        -- split.
           ++ destruct (recv_exact _ r') as [[b ?]|]; by rewrite ?Hdisp.
           ++ intros [(rest & [HH|HH])|(b4 & rest & HH & Hb)]; apply Hinj in HH as [-> _]; try done.
              ** by destruct Hd; left.
              ** by destruct Hd; right.
      * split; [done|]. unfold recv_exact in E'.
        intros [(rest & [HH|HH])|(b4 & rest & HH & Hb)]; apply Hinj in HH as [-> ->]; try done.
        -- by destruct Hd; left.
        -- by destruct Hd; right.
        -- rewrite length_app, Hb in E'. by destruct (length rest).
  - split; [done|]. unfold recv_exact in E.
    intros [(rest & [-> | ->])|(b4 & rest & -> & Hb)]; by rewrite !length_app in E.
Qed.
End wire.

(** ** After a restart of the cluster server *)

(** The registry is in memory only: a new process starts with the files left on
    disk and an empty registry. *)
Definition reboot (s : ChunkStorage) : ChunkStorage :=
  mkStorage (storage_path s) ∅ (disk_files s) 0.

(** Chunks survive a restart of their server as long as the caller sends
    the path it was given: the first fetch by that path returns the stored
    bytes and registers the chunk again, so that later fetches need no path;
    without the path the chunk is lost. *)
Theorem chunk_survives_restart (epoch : Z) (s : ChunkStorage) (id data : bytes) :
  let '(s1, (ok, path)) := store_chunk IoOk epoch s id data in
  ok = true ∧
  retrieve_chunk IoOk (reboot s1) id [] = (reboot s1, []) ∧
  ∃ s2, retrieve_chunk IoOk (reboot s1) id path = (s2, data) ∧
        retrieve_chunk IoOk s2 id [] = (s2, data).
Proof.
  unfold store_chunk, generate_chunk_path. set (path := chunk_path _ _ _ _).
  unfold reboot, register, write_file. cbn [storage_path disk_files].
  split; [done|]. unfold retrieve_chunk, locate_chunk. cbn [chunk_registry disk_files].
  rewrite lookup_empty. split; [by rewrite decide_False by (by intros [])|].
  rewrite decide_True.
  - eexists. unfold register, read_file. cbn [chunk_registry disk_files].
    rewrite lookup_insert_eq. split; [reflexivity|]. cbn [chunk_registry disk_files].
    rewrite lookup_insert_eq. cbn [disk_files]. by rewrite lookup_insert_eq.
  - split; [|by rewrite lookup_insert_eq].
    unfold path, chunk_path. rewrite !app_assoc. intros [_ [=]]%app_nil.
Qed.

(** ** The emergency port *)
Definition delete_message (id : bytes) : bytes := lit "DELETE_CHUNK " ++ id ++ [nl].

Lemma handle_emergency_delete (i : io) (s : ChunkStorage) (id : bytes) :
  word id →
  handle_emergency i s (delete_message id) =
    if contains (lit "DEAD") (delete_message id) || contains (lit "KILL") (delete_message id)
    then Terminated ok_reply
    else if contains (lit "RESTART") (delete_message id) then Reexecuted ok_reply
    else let '(s', ok) := delete_chunk i s id in
         Answered s' ((if ok : bool then lit "SUCCESS" else lit "ERROR") ++ [nl]).
Proof.
  intros Hw. unfold handle_emergency.
  assert (contains (lit "DELETE_CHUNK ") (delete_message id) = true) as ->.
  { apply contains_spec. by exists [], (id ++ [nl]). }
  change (drop 13 (delete_message id)) with (id ++ [nl]).
  rewrite read_word_sep by done. by unfold delete_message.
Qed.

(** Deleting a chunk whose id spells a command runs the command.  The head
    server deletes a replica with a DELETE_CHUNK line on the emergency port;
    when the chunk id (which contains the file's name) contains DEAD or KILL
    the cluster server terminates, when it contains RESTART it re-executes
    itself, and only otherwise is the chunk deleted. *)
Theorem delete_message_effect (i : io) (s : ChunkStorage) (id : bytes) :
  word id →
  handle_emergency i s (delete_message id) =
    if contains (lit "DEAD") (delete_message id) || contains (lit "KILL") (delete_message id)
    then Terminated ok_reply
    else if contains (lit "RESTART") (delete_message id) then Reexecuted ok_reply
    else let '(s', ok) := delete_chunk i s id in
         Answered s' ((if ok : bool then lit "SUCCESS" else lit "ERROR") ++ [nl]).
Proof. apply handle_emergency_delete. Qed.

(** A file named after a command. *)
Example delete_kills_server :
  handle_emergency IoOk demo_storage (delete_message (unique_chunk_id (lit "DEADLINE.txt") (lit "0"))) =
    Terminated ok_reply.
Proof. by vm_compute. Qed.

Lemma delete_message_effect_witness :
  handle_emergency IoOk demo_storage (delete_message (lit "KILLERS.mp3_chunk_0")) = Terminated ok_reply.
Proof. apply (delete_message_effect IoOk demo_storage (lit "KILLERS.mp3_chunk_0")). lit_word. Defined.

(** ** The public port *)
Definition get_chunk_request (file id : bytes) : bytes :=
  lit "GET_CHUNK " ++ id ++ sp :: file ++ [nl].

Lemma take_while_line l rest :
  no_char nl l →
  take_while (λ c, negb (bool_decide (c = nl))) (l ++ nl :: rest) = l ∧
  drop_while (λ c, negb (bool_decide (c = nl))) (l ++ nl :: rest) = nl :: rest.
Proof.
  intros Hl. assert (Forall (λ c, negb (bool_decide (c = nl)) = true) l) as HF.
  { apply Forall_forall. intros c Hc. rewrite bool_decide_false; [done|]. by intros ->. }
  rewrite take_while_app, drop_while_app by done. simpl. by rewrite app_nil_r.
Qed.

(** What the public port sends for a chunk. *)
Definition public_reply (chunk : option bytes) : bytes :=
  match chunk with
  | Some ((_ :: _) as data) => lit "CHUNK_SIZE " ++ show_nat (length data) ++ [nl] ++ data
  | _ => lit "ERROR: Chunk not found" ++ [nl]
  end.

Lemma public_get (i : io) (s : ChunkStorage) (file id rest : bytes) :
  word file → word id →
  (length (get_chunk_request file id) < 255)%nat →
  handle_public_connection i s (get_chunk_request file id ++ rest) =
    (s, public_reply (if reads i then contents s !! unique_chunk_id file id else None)).
Proof.
  intros Hf Hi Hlen. unfold handle_public_connection.
  set (line := lit "GET_CHUNK " ++ id ++ sp :: file).
  assert (get_chunk_request file id ++ rest = line ++ nl :: rest) as Hreq.
  { unfold get_chunk_request, line. rewrite <- !app_assoc, <- !app_comm_cons, <- !app_assoc. done. }
  assert (no_char nl line) as Hnl.
  { assert (∀ w, word w → nl ∉ w) as Hw.
    { intros w [_ HF] Hin. rewrite Forall_forall in HF. by specialize (HF _ Hin). }
    unfold no_char, line. rewrite !not_elem_of_app, not_elem_of_cons.
    split_and!; [by apply (bool_decide_unpack (nl ∉ lit "GET_CHUNK "))|by apply Hw|done|by apply Hw]. }
  destruct (take_while_line line rest Hnl) as [Ht Hd].
  unfold read_request_line. rewrite Hreq, Ht, Hd.
  assert (length line < 255)%nat.
  { unfold get_chunk_request in Hlen. unfold line. rewrite !length_app in *. cbn [length] in *.
    rewrite length_app in Hlen. cbn [length] in Hlen. lia. }
  destruct (Nat.leb_spec 255 (length line)); [lia|].
  assert (starts_with (lit "GET_CHUNK ") line = true) as -> by apply starts_with_app.
  change (drop 10 line) with (id ++ sp :: file).
  rewrite read_word_sep by done. cbn [from_option Datatypes.id].
  rewrite read_word_skip, read_word_end by done. cbn [from_option Datatypes.id].
  rewrite retrieve_registered. destruct (reads i); [|done].
  by destruct (contents s !! unique_chunk_id file id) as [[|c d]|].
Qed.

(** Clients are served the stored bytes.  On the public port a GET_CHUNK
    line naming a file and a chunk is answered with the size and exactly the
    contents registered under that file's chunk id, or with the error line
    when there are none (or they are empty). *)
Theorem get_chunk_serves_contents (s : ChunkStorage) (file id rest : bytes) :
  word file → word id →
  (length (get_chunk_request file id) < 255)%nat →
  handle_public_connection IoOk s (get_chunk_request file id ++ rest) =
    (s, match contents s !! unique_chunk_id file id with
        | Some ((_ :: _) as data) => lit "CHUNK_SIZE " ++ show_nat (length data) ++ [nl] ++ data
        | _ => lit "ERROR: Chunk not found" ++ [nl]
        end).
Proof. apply (public_get IoOk). Qed.

Definition demo_stored : ChunkStorage :=
  (store_chunk IoOk 7 demo_storage (unique_chunk_id (lit "a.txt") (lit "0")) (lit "hello")).1.

Lemma get_chunk_serves_contents_witness :
  (handle_public_connection IoOk demo_stored
     (get_chunk_request (lit "a.txt") (lit "0") ++ [])).2 =
  lit "CHUNK_SIZE 5" ++ [nl] ++ lit "hello".
Proof.
  rewrite (get_chunk_serves_contents demo_stored (lit "a.txt") (lit "0") []).
  - by vm_compute.
  - lit_word.
  - lit_word.
  - by apply (bool_decide_unpack (_ < _)%nat).
Defined.

#[local] Instance demo_protobuf : Protobuf := net_protobuf.
Definition demo_env : Env :=
  mkEnv IoOk 7 (S754_zero false) (S754_zero false) 1 (λ _ _ _, None).

Lemma store_then_fetch_witness :
  let c := handle_connection demo_env demo_storage
             (store_request (lit "f_chunk_0") (lit "f") (lit "data")) in
  conn_dead c = false ∧
  read_reply (conn_reply (handle_connection demo_env (conn_state c)
    (fetch_request (lit "f_chunk_0") []))) =
    Some (mkFetchChunkResponse true (lit "f_chunk_0") (lit "data") []).
Proof.
  destruct (store_then_fetch demo_env demo_env demo_storage
    (lit "f_chunk_0") (lit "f") (lit "data") []) as (H1 & _ & _ & H2 & _);
    [apply demo_storage_wf|done|done|by apply text_ok_lit|by apply text_ok_lit| | |done|done|].
  - split; [by apply (bool_decide_unpack (Forall _ _))|]. by apply (bool_decide_unpack (_ ≤ _)).
  - apply text_ok_nil.
  - exact (conj H1 H2).
Defined.

Lemma empty_chunk_not_found_witness :
  let c := handle_connection demo_env demo_storage
             (store_request (lit "f_chunk_0") (lit "f") []) in
  read_reply (conn_reply (handle_connection demo_env (conn_state c)
    (fetch_request (lit "f_chunk_0") []))) =
    Some (mkFetchChunkResponse false (lit "f_chunk_0") [] (lit "Chunk not found on this server")).
Proof.
  apply (empty_chunk_not_found demo_env demo_env demo_storage);
    [done|by apply text_ok_lit|by apply text_ok_lit|apply text_ok_nil].
Defined.
