(* ===== verification/HeadNet.v ===== *)
(** * HeadNet: the head server's calls to cluster servers
    (the request/reply functions of src/src/head_server/file_upload.cpp and
    src/src/head_server/head_server.cpp)

    A [Network] is whatever answers when the head server connects, sends a
    request and reads the reply.  [ChunkCluster] is the interface the cluster
    servers promise to the head server; [Cluster] is the network made of the
    servers of [ChunkStore], with the faults of a real one, and it keeps the
    promise. *)
From Stdlib Require Import Lia SpecFloat.
From S2P Require Import Prelude.
From S2P Require Import Text.
From S2P Require Import Ordered.
From S2P Require Import Float.
From S2P Require Import Sha256.
From S2P Require Import Net.
From S2P Require Import Registry.
From S2P Require Import Wire.
From S2P Require Import WireCodec.
From S2P Require Import ChunkStore.
From S2P Require Import ChunkSpec.
Local Open Scope Z_scope.

(** Connect to a host and port, send the bytes; what is read back before the
    peer closes, or [None] when connecting or sending fails. *)
Class Network (N : Type) := exchange : N → bytes → Z → bytes → N * option bytes.

(** ** Finding a server's transfer port *)
Definition default_transfer_port : Z := 8180.

Definition transfer_port_of (reg : Registry) (srv : bytes) : Z :=
  match list_find (λ e, address e = srv) (get_all reg) with
  | Some (_, e) =>
      if decide (0 < transfer_port e) then transfer_port e else default_transfer_port
  | None => default_transfer_port
  end.

(** Where the transfer port of [srv] is reached. *)
Definition endpoint (reg : Registry) (srv : bytes) : bytes * Z :=
  ((parse_address srv 8080).1, transfer_port_of reg srv).

Definition chunk_key (file : bytes) (cid : Z) : bytes := unique_chunk_id file (show_Z cid).

Record ChunkLocation := mkLoc { loc_chunk_id : Z; loc_server : bytes; loc_path : bytes }.

(** The body of a framed answer. *)
Definition body_of (answer : option bytes) : option bytes := answer ≫= λ r, fst <$> read_frame r.

Section calls.
Context {N : Type} `{!Network N} `{!Protobuf}.

(** Connect, send type, length and payload, read the length and the body. *)
Definition call (net : N) (reg : Registry) (srv : bytes) (type : Z) (payload : bytes)
  : N * option bytes :=
  let '(h, p) := endpoint reg srv in
  let '(net', answer) := exchange net h p (request type payload) in
  (net', body_of answer).

(** A [ChunkResponse] that parses and reports success; its path. *)
Definition accepted (body : bytes) : option bytes :=
  match parse body with
  | Some r => if cr_success r then Some (cr_file_path r) else None
  | None => None
  end.

(** The result, and what is left in [out_file_path]. *)
Definition send_chunk_to_server (net : N) (reg : Registry) (srv : bytes) (cid : Z)
    (data file : bytes) : N * (bool * bytes) :=
  let '(net', body) :=
    call net reg srv 1 (serialize (mkChunkData (chunk_key file cid) file data)) in
  (net', match body ≫= accepted with Some path => (true, path) | None => (false, []) end).

Definition repair_chunk_on_server (net : N) (reg : Registry) (loc : ChunkLocation)
    (file data : bytes) : N * (bool * bytes) :=
  let '(net', body) :=
    call net reg (loc_server loc) 1
      (serialize (mkChunkData (chunk_key file (loc_chunk_id loc)) file data)) in
  (net', match body ≫= accepted with Some path => (true, path) | None => (false, []) end).

Definition no_hash : FetchHashResponse := mkFetchHashResponse false [] [] [] no_float 0.

(** The result of [ParseFromArray] is not looked at. *)
Definition get_chunk_hash (net : N) (reg : Registry) (loc : ChunkLocation) (file : bytes)
  : N * FetchHashResponse :=
  let '(net', body) :=
    call net reg (loc_server loc) 3
      (serialize (mkFetchHash (chunk_key file (loc_chunk_id loc)) (loc_path loc))) in
  (net', match body with Some b => (parse_into b).1 | None => no_hash end).

Definition read_chunk_from_server (net : N) (reg : Registry) (loc : ChunkLocation)
    (file : bytes) : N * bytes :=
  let '(net', body) :=
    call net reg (loc_server loc) 2
      (serialize (mkFetchChunk (chunk_key file (loc_chunk_id loc)) (loc_path loc))) in
  (net', match body ≫= parse with
         | Some r => if fr_success r then fr_data r else []
         | None => []
         end).

(** "/tmp/chunks/<server>_<file>_chunk_<id>": the path recorded when the
    server returned none. *)
Definition assumed_path (srv file : bytes) (cid : Z) : bytes :=
  lit "/tmp/chunks/" ++ srv ++ lit "_" ++ file ++ lit "_chunk_" ++ show_Z cid.

Definition replicate_chunk_to_server (net : N) (reg : Registry) (source : bytes) (cid : Z)
    (target file source_path : bytes) : N * (bool * bytes) :=
  let '(net, data) := read_chunk_from_server net reg (mkLoc cid source source_path) file in
  match data with
  | [] => (net, (false, []))
  | _ => repair_chunk_on_server net reg
           (mkLoc cid target (assumed_path target file cid)) file data
  end.
End calls.

(** ** Work done on a pool

    The tasks run in the order [schedule]; the result of every task that ran,
    by its position. *)
Section pool.
Context {N T O : Type} (run : N → nat → T → N * O).

Fixpoint run_pool (net : N) (tasks : list T) (schedule : list nat) : N * gmap nat O :=
  match schedule with
  | [] => (net, ∅)
  | i :: rest =>
      match tasks !! i with
      | None => run_pool net tasks rest
      | Some t =>
          let '(net, o) := run net i t in
          let '(net, m) := run_pool net tasks rest in (net, <[i := o]> m)
      end
  end.

(** What a task establishes, if every task preserves it, holds at the end. *)
Lemma run_pool_inv (I : N → Prop) (P : N → T → O → Prop) tasks :
  (∀ n i t n' o, I n → tasks !! i = Some t → run n i t = (n', o) →
     I n' ∧ P n' t o ∧ ∀ t0 o0, t0 ∈ tasks → P n t0 o0 → P n' t0 o0) →
  ∀ schedule net net' m, I net → run_pool net tasks schedule = (net', m) →
  I net' ∧ (∀ t o, t ∈ tasks → P net t o → P net' t o) ∧
  ∀ i t o, tasks !! i = Some t → m !! i = Some o → P net' t o.
Proof.
  intros Hrun. induction schedule as [|i schedule IH]; intros net net' m Hi; cbn [run_pool].
  { intros [= <- <-]. done. }
  destruct (tasks !! i) as [t|] eqn:Et; [|by apply IH].
  destruct (run net i t) as [net1 o] eqn:Er.
  destruct (run_pool net1 tasks schedule) as [net2 m2] eqn:Em. intros [= <- <-].
  destruct (Hrun _ _ _ _ _ Hi Et Er) as (Hi1 & Hnew & Hkeep).
  destruct (IH _ _ _ Hi1 Em) as (Hi2 & Hkeep2 & Hget). split; [done|]. split; [by eauto|].
  intros j t0 o0 Ht0. rewrite lookup_insert. case_decide as Hj; [|by apply Hget].
  subst j. rewrite Et in Ht0. injection Ht0 as <-. intros [= <-].
  apply Hkeep2; [|done]. by eapply list_elem_of_lookup_2.
Qed.

Lemma run_pool_ran net tasks schedule i :
  i ∈ schedule → (i < length tasks)%nat → is_Some ((run_pool net tasks schedule).2 !! i).
Proof.
  revert net. induction schedule as [|j schedule IH]; intros net Hi Hlt;
    [by apply elem_of_nil in Hi|]. cbn [run_pool].
  destruct (tasks !! j) as [t|] eqn:Et.
  - destruct (run net j t) as [net1 o]. specialize (IH net1).
    destruct (run_pool net1 tasks schedule) as [net2 m2]. simpl in *.
    apply lookup_insert_is_Some'. apply elem_of_cons in Hi as [->|Hi]; auto.
  - apply elem_of_cons in Hi as [->|Hi]; [|by apply IH].
    apply lookup_lt_is_Some_2 in Hlt as [? ?]. congruence.
Qed.
End pool.

(** ** What the cluster promises *)
Class ChunkCluster (N : Type) `{!Network N} `{!Protobuf} := {
  (** reachable states *)
  cluster_wf : N → Prop;
  (** the chunks behind an endpoint *)
  held : N → bytes * Z → gmap bytes bytes;
  (** every chunk fits in a message *)
  held_small n e id data : cluster_wf n → held n e !! id = Some data → data_ok data;

  (** Storing changes one endpoint only.  An accepted chunk is held; one whose
      answer got lost may be. *)
  store_law n h p id file data n' r :
    cluster_wf n → wire_ok (mkChunkData id file data) →
    exchange n h p (request 1 (serialize (mkChunkData id file data))) = (n', r) →
    cluster_wf n' ∧
    (∀ e, e ≠ (h, p) → held n' e = held n e) ∧
    (held n' (h, p) = <[id := data]> (held n (h, p)) ∨
     held n' (h, p) = held n (h, p) ∧ body_of r ≫= accepted = None);

  (** Reading loses nothing that is held, and what it returns is held. *)
  fetch_law n h p id path n' r :
    cluster_wf n → wire_ok (mkFetchChunk id path) →
    exchange n h p (request 2 (serialize (mkFetchChunk id path))) = (n', r) →
    cluster_wf n' ∧ (∀ e, held n e ⊆ held n' e) ∧
    ∀ body, body_of r = Some body →
      ∃ resp, parse body = Some resp ∧
        (fr_success resp = true → fr_data resp ≠ [] ∧ held n' (h, p) !! id = Some (fr_data resp));

  hash_law n h p id path n' r :
    cluster_wf n → wire_ok (mkFetchHash id path) →
    exchange n h p (request 3 (serialize (mkFetchHash id path))) = (n', r) →
    cluster_wf n' ∧ (∀ e, held n e ⊆ held n' e) ∧
    ∀ body, body_of r = Some body →
      ∃ resp, parse body = Some resp ∧
        (hr_success resp = true →
         is_number (hr_load_score resp) ∧
         ∃ data, data ≠ [] ∧ held n' (h, p) !! id = Some data ∧ hr_hash resp = sha256 data)
}.
