(* ===== verification/Cluster.v ===== *)
(** * Cluster: the servers of [ChunkStore] as the head server's network

    Every server answers its transfer port with [handle_connection].  Connections can be refused, disks can
    fail and answers can be cut short; the clock advances with every
    exchange.  The cluster keeps the promise of [ChunkCluster]. *)
From Stdlib Require Import Lia SpecFloat.
From S2P Require Import Prelude.
From S2P Require Import Text.
From S2P Require Import Ordered.
From S2P Require Import Float.
From S2P Require Import Sha256.
From S2P Require Import Net.
From S2P Require Import Registry.
From S2P Require Import Wire.
From S2P Require Import WireCodec.
From S2P Require Import ChunkStore.
From S2P Require Import ChunkSpec.
From S2P Require Import HeadNet.
Local Open Scope Z_scope.

Record Server := mkServer {
  server_store : ChunkStorage;
  server_cpu : spec_float;
  server_ram : spec_float;
  server_active : Z
}.

(** What goes wrong with one exchange. *)
Inductive fault := Delivered (i : io) | Refused | CutAfter (n : nat) (i : io).

Record Cluster := mkCluster {
  servers : gmap (bytes * Z) Server;                (* by host and transfer port *)
  faults : list fault;
  clock : Z
}.

Definition next_fault (c : Cluster) : fault :=
  match faults c with [] => Delivered IoOk | f :: _ => f end.

Section cluster.
Context `{!Protobuf}.

Definition env_of (c : Cluster) (i : io) (nd : Server) : Env :=
  mkEnv i (clock c) (server_cpu nd) (server_ram nd) (server_active nd) (λ _ _ _, None).

Definition with_store_of (nd : Server) (s : ChunkStorage) : Server :=
  mkServer s (server_cpu nd) (server_ram nd) (server_active nd).

(** The servers after a request, and the answer; [None]: nobody listens. *)
Definition serve (c : Cluster) (i : io) (ep : bytes * Z) (req : bytes)
  : option (gmap (bytes * Z) Server * bytes) :=
  nd ← servers c !! ep;
  let r := handle_connection (env_of c i nd) (server_store nd) req in
  Some (if conn_dead r then delete ep (servers c)
        else <[ep := with_store_of nd (conn_state r)]> (servers c), conn_reply r).

#[export] Instance cluster_network : Network Cluster := λ c h p req,
  let done ss r := (mkCluster ss (drop 1 (faults c)) (clock c + 1), r) in
  match next_fault c with
  | Refused => done (servers c) None
  | Delivered i =>
      match serve c i (h, p) req with
      | Some (ss, reply) => done ss (Some reply)
      | None => done (servers c) None
      end
  | CutAfter n i =>
      match serve c i (h, p) req with
      | Some (ss, reply) => done ss (Some (take n reply))
      | None => done (servers c) None
      end
  end.

(** ** Reachable clusters *)

(** No path generated from now on is [p]. *)
Definition old_path (now : Z) (p : bytes) : Prop :=
  ∀ d i e n, now ≤ e → p ≠ chunk_path d i e n.

Record store_wf (now : Z) (s : ChunkStorage) : Prop := {
  sw_registered : ∀ id p, chunk_registry s !! id = Some p → old_path now p;
  sw_disk : ∀ p f, disk_files s !! p = Some f → old_path now p ∧ data_ok f
}.

Record server_wf (now : Z) (nd : Server) : Prop := {
  srv_store : store_wf now (server_store nd);
  srv_load : float_ok (SFadd 24 128 (server_cpu nd) (server_ram nd));
  srv_number : is_number (SFadd 24 128 (server_cpu nd) (server_ram nd));
  srv_active : int32_ok (server_active nd)
}.

Definition wf_cluster (c : Cluster) : Prop := map_Forall (λ _, server_wf (clock c)) (servers c).

Definition cluster_held (c : Cluster) (ep : bytes * Z) : gmap bytes bytes :=
  match servers c !! ep with Some nd => contents (server_store nd) | None => ∅ end.

Lemma chunk_path_epoch dir id e n dir' id' e' n' :
  chunk_path dir id e n = chunk_path dir' id' e' n' → e = e'.
Proof. by intros (_ & ? & _)%chunk_path_inj. Qed.

Lemma old_path_mono now now' p : now ≤ now' → old_path now p → old_path now' p.
Proof. intros Hle Ho d i e n He. apply Ho. lia. Qed.

Lemma generated_old now d i n : old_path (now + 1) (chunk_path d i now n).
Proof. intros d' i' e n' He E. apply chunk_path_epoch in E. lia. Qed.

Lemma store_wf_mono now now' s : now ≤ now' → store_wf now s → store_wf now' s.
Proof.
  intros Hle [H1 H2]. constructor.
  - intros. eapply old_path_mono; eauto.
  - intros p f Hp. destruct (H2 p f Hp). split; [by eapply old_path_mono|done].
Qed.

Lemma server_wf_mono now now' nd : now ≤ now' → server_wf now nd → server_wf now' nd.
Proof. intros Hle [H1 H2 H3 H4]. constructor; [by eapply store_wf_mono|done..]. Qed.

(** ** Storage operations on reachable stores *)
Lemma store_chunk_held i now s id data :
  store_wf now s → data_ok data →
  let r := store_chunk i now s id data in
  store_wf (now + 1) r.1 ∧
  contents r.1 = (if writes i then <[id := data]> (contents s) else contents s) ∧
  r.2 = if writes i then (true, chunk_path (storage_path s) id now (seq s + 1)) else (false, []).
Proof.
  intros [Hreg Hdisk] Hd. unfold store_chunk, generate_chunk_path.
  set (path := chunk_path _ _ _ _).
  assert (∀ j, chunk_registry s !! j ≠ Some path) as Hfresh.
  { intros j Hj. apply (Hreg _ _ Hj (storage_path s) id now (seq s + 1)); [lia|done]. }
  assert (∀ d, data_ok d → ∀ p f, <[path := d]> (disk_files s) !! p = Some f →
            old_path (now + 1) p ∧ data_ok f) as Hdisk'.
  { intros d Hok p f. rewrite lookup_insert. case_decide as Hp.
    - intros [= <-]. subst p. split; [apply generated_old|done].
    - intros Hf. destruct (Hdisk p f Hf). split; [|done]. eapply old_path_mono; [|done]. lia. }
  assert (∀ j p, chunk_registry s !! j = Some p → old_path (now + 1) p) as Hreg'.
  { intros j p Hj. eapply old_path_mono; [|by eapply Hreg]. lia. }
  assert (∀ d j, chunk_registry s !! j ≫= (λ p, <[path := d]> (disk_files s) !! p) =
                 contents s !! j) as Hsame.
  { intros d j. rewrite contents_lookup. destruct (chunk_registry s !! j) as [p|] eqn:E; [|done].
    simpl. apply lookup_insert_ne. intros <-. by apply (Hfresh j). }
  destruct (writes i) eqn:Hw.
  - assert (store_wf (now + 1) (register (write_file (mkStorage (storage_path s)
       (chunk_registry s) (disk_files s) (seq s + 1)) path data) id path) ∧
       contents (register (write_file (mkStorage (storage_path s)
       (chunk_registry s) (disk_files s) (seq s + 1)) path data) id path) =
       <[id := data]> (contents s)) as [H1 H2].
    { split.
      - constructor; simpl; [|by apply Hdisk'].
        intros j p. rewrite lookup_insert. case_decide; [|apply Hreg'].
        intros [= <-]. apply generated_old.
      - apply map_eq. intros j. etransitivity; [apply contents_lookup|]. simpl. rewrite !lookup_insert.
        case_decide as Hj; simpl; [by rewrite lookup_insert_eq|apply Hsame]. }
    destruct i; done.
  - destruct i; try done; simpl.
    + split_and!; try done. constructor; simpl; [apply Hreg'|].
      intros p f Hf. destruct (Hdisk p f Hf). split; [|done]. eapply old_path_mono; [|done]. lia.
    + split_and!; [|apply map_eq; intros j; etransitivity; [apply contents_lookup|apply Hsame]|done].
      constructor; simpl; [apply Hreg'|]. apply Hdisk'. unfold data_ok in *.
      rewrite length_take. lia.
Qed.

Lemma retrieve_chunk_held i now s id fallback :
  store_wf now s →
  let r := retrieve_chunk i s id fallback in
  store_wf now r.1 ∧ contents s ⊆ contents r.1 ∧ data_ok r.2 ∧
  (r.2 ≠ [] → contents r.1 !! id = Some r.2).
Proof.
  intros [Hreg Hdisk].
  assert (∀ p, data_ok (read_file i s p)) as Hsize.
  { intros p. assert (data_ok []) by (unfold data_ok; simpl; lia).
    assert (data_ok (default [] (disk_files s !! p))).
    { destruct (disk_files s !! p) eqn:E; [by eapply Hdisk|done]. }
    by destruct i. }
  assert (∀ p, read_file i s p ≠ [] → disk_files s !! p = Some (read_file i s p)) as Hread.
  { intros p. unfold read_file. destruct (disk_files s !! p) eqn:E, i; done. }
  assert (data_ok []) as Hnil by (unfold data_ok; simpl; lia).
  unfold retrieve_chunk, locate_chunk.
  destruct (chunk_registry s !! id) as [p|] eqn:Hid; [|case_decide as Hfb].
  - split; [done|]. split; [done|]. split; [apply Hsize|]. intros Hne.
    rewrite contents_lookup. simpl. rewrite Hid. by apply Hread.
  - destruct Hfb as [_ [f Hf]]. split; [|split; [|split]].
    + constructor; simpl; [|done]. intros j q. rewrite lookup_insert. case_decide; [|apply Hreg].
      intros [= <-]. by eapply Hdisk.
    + apply map_subseteq_spec. intros j d. rewrite !contents_lookup. simpl.
      rewrite lookup_insert. case_decide; [|done]. subst. by rewrite Hid.
    + apply Hsize.
    + intros Hne. simpl. rewrite contents_lookup. simpl. rewrite lookup_insert_eq. simpl.
      by apply Hread.
  - done.
Qed.

(** ** Cut answers *)
Lemma recv_exact_take k n s a b :
  recv_exact k (take n s) = Some (a, b) → ∃ c, recv_exact k s = Some (a, c) ∧ b = take (n - k) c.
Proof.
  unfold recv_exact. rewrite length_take.
  destruct (Nat.leb_spec k (Nat.min n (length s))); [|done].
  destruct (Nat.leb_spec k (length s)); [|lia]. intros [= <- <-].
  exists (drop k s). rewrite take_take, Nat.min_l by lia. split; [done|].
  by rewrite skipn_firstn_comm.
Qed.

Lemma cut_frame n p body :
  Z.of_nat (length p) < 2 ^ 32 →
  body_of (Some (take n (frame p))) = Some body → body = p.
Proof.
  intros Hp. unfold body_of. cbn [mbind option_bind].
  pose proof (read_frame_app p [] Hp) as Hr. rewrite app_nil_r in Hr. revert Hr.
  unfold read_frame. cbn [mbind option_bind].
  destruct (recv_exact 4 (take n (frame p))) as [[l s]|] eqn:E1; [|done].
  apply recv_exact_take in E1 as (c & E1 & ->). rewrite E1. cbn [mbind option_bind].
  destruct (recv_exact (Z.to_nat (of_be32 l)) (take (n - 4) c)) as [[b s]|] eqn:E2; [|done].
  apply recv_exact_take in E2 as (c' & E2 & ->). rewrite E2. simpl. congruence.
Qed.

(** ** The interface *)

(** One exchange of a request that [reply] answers and [next] handles. *)
Lemma exchange_step c h p req c' r (next : io → Server → ChunkStorage)
    (payload : io → Server → bytes) :
  wf_cluster c →
  (∀ i nd, server_wf (clock c) nd →
     handle_connection (env_of c i nd) (server_store nd) req =
       mkConn (next i nd) (frame (payload i nd)) false ∧
     store_wf (clock c + 1) (next i nd)) →
  exchange c h p req = (c', r) →
  wf_cluster c' ∧ (∀ e, e ≠ (h, p) → cluster_held c' e = cluster_held c e) ∧
  ((cluster_held c' (h, p) = cluster_held c (h, p) ∧ r = None) ∨
   ∃ i nd, server_wf (clock c) nd ∧ cluster_held c (h, p) = contents (server_store nd) ∧
     cluster_held c' (h, p) = contents (next i nd) ∧
     (Z.of_nat (length (payload i nd)) < 2 ^ 32 →
      ∀ body, body_of r = Some body → body = payload i nd)).
Proof.
  intros Hwf Hstep He.
  assert (∀ i, match serve c i (h, p) req with
     | Some (ss, reply) => ∃ nd, servers c !! (h, p) = Some nd ∧ server_wf (clock c) nd ∧
         ss = <[(h, p) := with_store_of nd (next i nd)]> (servers c) ∧
         reply = frame (payload i nd) ∧ store_wf (clock c + 1) (next i nd)
     | None => servers c !! (h, p) = None end) as Hserve.
  { intros i. unfold serve. destruct (servers c !! (h, p)) as [nd|] eqn:E; [|done].
    cbn [mbind option_bind]. pose proof (Hwf _ _ E) as Hnd.
    destruct (Hstep i nd Hnd) as [-> Hs]. simpl. eauto 10. }
  assert (∀ ss, map_Forall (λ _, server_wf (clock c + 1)) ss → ∀ fs,
            wf_cluster (mkCluster ss fs (clock c + 1))) as Hss by done.
  assert (map_Forall (λ _, server_wf (clock c + 1)) (servers c)) as Hold.
  { intros e nd Hnd. eapply server_wf_mono; [|by eapply Hwf]. lia. }
  assert (∀ i ss reply n, serve c i (h, p) req = Some (ss, reply) →
     (c', r) = (mkCluster ss (drop 1 (faults c)) (clock c + 1), Some (take n reply)) →
     wf_cluster c' ∧ (∀ e, e ≠ (h, p) → cluster_held c' e = cluster_held c e) ∧
     ∃ i nd, server_wf (clock c) nd ∧ cluster_held c (h, p) = contents (server_store nd) ∧
       cluster_held c' (h, p) = contents (next i nd) ∧
       (Z.of_nat (length (payload i nd)) < 2 ^ 32 →
        ∀ body, body_of r = Some body → body = payload i nd)) as Hgot.
  { intros i ss reply n E [= -> ->]. specialize (Hserve i). rewrite E in Hserve.
    destruct Hserve as (nd & Hnd & Hwnd & -> & -> & Hs). split; [|split].
    - apply Hss. apply map_Forall_insert_2; [|done].
      destruct (server_wf_mono (clock c) (clock c + 1) nd ltac:(lia) Hwnd). by constructor.
    - intros e Hne. unfold cluster_held. simpl. by rewrite lookup_insert_ne.
    - exists i, nd. unfold cluster_held. simpl. rewrite Hnd, lookup_insert_eq.
      split_and!; try done. intros Hl body. by apply cut_frame. }
  assert ((c', r) = (mkCluster (servers c) (drop 1 (faults c)) (clock c + 1), None) →
     wf_cluster c' ∧ (∀ e, e ≠ (h, p) → cluster_held c' e = cluster_held c e) ∧
     cluster_held c' (h, p) = cluster_held c (h, p) ∧ r = None) as Hlost.
  { intros [= -> ->]. split; [by apply Hss|]. done. }
  revert He. unfold exchange, cluster_network.
  destruct (next_fault c) as [i| |n i]; [|intros He; symmetry in He; destruct (Hlost He) as (? & ? & ? & ?); by eauto|];
    destruct (serve c i (h, p) req) as [[ss reply]|] eqn:E; intros He; symmetry in He;
    try (destruct (Hlost He) as (? & ? & ? & ?); by eauto);
    [rewrite <- (firstn_all reply) in He|];
    destruct (Hgot _ _ _ _ E He) as (? & ? & ?); eauto.
Qed.

Lemma accepted_serialize m : wire_ok m → accepted (serialize m) =
  if cr_success m then Some (cr_file_path m) else None.
Proof. intros Hm. unfold accepted. by rewrite parse_serialize. Qed.

Lemma cluster_store h p id file data c c' r :
  wf_cluster c → wire_ok (mkChunkData id file data) →
  exchange c h p (request 1 (serialize (mkChunkData id file data))) = (c', r) →
  wf_cluster c' ∧
  (∀ e, e ≠ (h, p) → cluster_held c' e = cluster_held c e) ∧
  (cluster_held c' (h, p) = <[id := data]> (cluster_held c (h, p)) ∨
   cluster_held c' (h, p) = cluster_held c (h, p) ∧ body_of r ≫= accepted = None).
Proof.
  intros Hwf (Hi & Hf & Hd) He. cbn in Hi, Hf, Hd.
  pose proof (λ i nd (Hnd : server_wf (clock c) nd),
    store_chunk_held i (clock c) (server_store nd) id data (srv_store _ _ Hnd) Hd) as Hs.
  set (resp := λ i nd, mkChunkResponse (store_chunk i (clock c) (server_store nd) id data).2.1 id
         (if (store_chunk i (clock c) (server_store nd) id data).2.1 then []
          else lit "Failed to store chunk on disk")
         (store_chunk i (clock c) (server_store nd) id data).2.2).
  destruct (exchange_step c h p (store_request id file data) c' r
    (λ i nd, (store_chunk i (clock c) (server_store nd) id data).1)
    (λ i nd, serialize (resp i nd)) Hwf) as (Hwf' & Hother & Hthis); [|exact He|].
  { intros i nd Hnd. split; [|by apply Hs].
    rewrite (store_connection _ _ id file data Hi Hf Hd). unfold handle_store, resp. simpl.
    by destruct (store_chunk _ _ _ _ _) as [s' [ok path]]. }
  split; [done|]. split; [done|].
  destruct Hthis as [[-> ->]|(i & nd & Hnd & Hc & -> & Hbody)]; [by right|].
  destruct (Hs i nd Hnd) as (_ & Hcont & Hres). rewrite Hc, Hcont.
  destruct (writes i); [by left|right]. split; [done|].
  assert (wire_ok (resp i nd)) as Hok.
  { unfold resp. rewrite Hres. split; [done|]. split; [by apply text_ok_lit|apply text_ok_nil]. }
  destruct (body_of r) as [body|]; [|done]. simpl.
  rewrite (Hbody (serialize_small _ Hok) body eq_refl), accepted_serialize by done.
  unfold resp. by rewrite Hres.
Qed.

Lemma cluster_fetch h p id path c c' r :
  wf_cluster c → wire_ok (mkFetchChunk id path) →
  exchange c h p (request 2 (serialize (mkFetchChunk id path))) = (c', r) →
  wf_cluster c' ∧ (∀ e, cluster_held c e ⊆ cluster_held c' e) ∧
  ∀ body, body_of r = Some body →
    ∃ resp, parse body = Some resp ∧
      (fr_success resp = true →
       fr_data resp ≠ [] ∧ cluster_held c' (h, p) !! id = Some (fr_data resp)).
Proof.
  intros Hwf [Hi Hp] He. cbn in Hi, Hp.
  pose proof (λ i nd (Hnd : server_wf (clock c) nd),
    retrieve_chunk_held i (clock c) (server_store nd) id path (srv_store _ _ Hnd)) as Hs.
  set (resp := λ i nd, match (retrieve_chunk i (server_store nd) id path).2 with
     | [] => mkFetchChunkResponse false id [] (lit "Chunk not found on this server")
     | d => mkFetchChunkResponse true id d [] end).
  destruct (exchange_step c h p (fetch_request id path) c' r
    (λ i nd, (retrieve_chunk i (server_store nd) id path).1)
    (λ i nd, serialize (resp i nd)) Hwf) as (Hwf' & Hother & Hthis); [|exact He|].
  { intros i nd Hnd. split; [|eapply store_wf_mono; [|by apply Hs]; lia].
    rewrite (fetch_connection _ _ id path Hi Hp). unfold handle_fetch, resp. simpl.
    by destruct (retrieve_chunk _ _ _ _) as [s' [|x d]]. }
  split; [done|]. split.
  { intros e. destruct (decide (e = (h, p))) as [->|Hne]; [|by rewrite Hother].
    destruct Hthis as [[-> _]|(i & nd & Hnd & -> & -> & _)]; [done|]. by apply (Hs i nd Hnd). }
  intros body Hb. destruct Hthis as [[_ ->]|(i & nd & Hnd & Hc & -> & Hbody)]; [done|].
  destruct (Hs i nd Hnd) as (_ & _ & Hdata & Hheld).
  assert (wire_ok (resp i nd)) as Hok.
  { unfold resp. destruct (retrieve_chunk _ _ _ _).2 eqn:Ed;
      (split; [done|split; [done|]]); [by apply text_ok_lit|apply text_ok_nil]. }
  rewrite (Hbody (serialize_small _ Hok) body Hb). exists (resp i nd).
  split; [by apply parse_serialize|]. unfold resp.
  destruct (retrieve_chunk i (server_store nd) id path).2; [done|]. intros _. simpl.
  split; [done|]. by apply Hheld.
Qed.

Lemma cluster_hash h p id path c c' r :
  wf_cluster c → wire_ok (mkFetchHash id path) →
  exchange c h p (request 3 (serialize (mkFetchHash id path))) = (c', r) →
  wf_cluster c' ∧ (∀ e, cluster_held c e ⊆ cluster_held c' e) ∧
  ∀ body, body_of r = Some body →
    ∃ resp, parse body = Some resp ∧
      (hr_success resp = true →
       is_number (hr_load_score resp) ∧
       ∃ data, data ≠ [] ∧ cluster_held c' (h, p) !! id = Some data ∧
               hr_hash resp = sha256 data).
Proof.
  intros Hwf [Hi Hp] He. cbn in Hi, Hp.
  pose proof (λ i nd (Hnd : server_wf (clock c) nd),
    retrieve_chunk_held i (clock c) (server_store nd) id path (srv_store _ _ Hnd)) as Hs.
  set (resp := λ i nd, match (retrieve_chunk i (server_store nd) id path).2 with
     | [] => mkFetchHashResponse false id [] (lit "Chunk not found on this server")
               (S754_zero false) 0
     | d => mkFetchHashResponse true id (sha256 d) []
              (SFadd 24 128 (server_cpu nd) (server_ram nd)) (server_active nd) end).
  destruct (exchange_step c h p (hash_request id path) c' r
    (λ i nd, (retrieve_chunk i (server_store nd) id path).1)
    (λ i nd, serialize (resp i nd)) Hwf) as (Hwf' & Hother & Hthis); [|exact He|].
  { intros i nd Hnd. split; [|eapply store_wf_mono; [|by apply Hs]; lia].
    rewrite (hash_connection _ _ id path Hi Hp). unfold handle_hash, resp. cbn [fh_chunk_id fh_file_path env_io env_of].
    by destruct (retrieve_chunk _ _ _ _) as [s' [|x d]]. }
  split; [done|]. split.
  { intros e. destruct (decide (e = (h, p))) as [->|Hne]; [|by rewrite Hother].
    destruct Hthis as [[-> _]|(i & nd & Hnd & -> & -> & _)]; [done|]. by apply (Hs i nd Hnd). }
  intros body Hb. destruct Hthis as [[_ ->]|(i & nd & Hnd & Hc & -> & Hbody)]; [done|].
  destruct (Hs i nd Hnd) as (_ & _ & Hdata & Hheld).
  assert (wire_ok (resp i nd)) as Hok.
  { unfold resp. destruct (retrieve_chunk _ _ _ _).2 eqn:Ed; (split; [done|]).
    - split; [apply text_ok_nil|]. split; [by apply text_ok_lit|done].
    - split; [apply text_ok_hash|]. split; [apply text_ok_nil|]. split; apply Hnd. }
  rewrite (Hbody (serialize_small _ Hok) body Hb). exists (resp i nd).
  split; [by apply parse_serialize|]. unfold resp.
  destruct (retrieve_chunk i (server_store nd) id path).2 as [|x d]; [done|]. intros _.
  split; [apply Hnd|]. exists (x :: d). split; [done|]. split; [by apply Hheld|done].
Qed.

Lemma cluster_small c e id data :
  wf_cluster c → cluster_held c e !! id = Some data → data_ok data.
Proof.
  intros Hwf. unfold cluster_held. destruct (servers c !! e) as [nd|] eqn:E; [|done].
  rewrite contents_lookup. destruct (chunk_registry _ !! id) as [p|]; [|done]. simpl.
  intros Hp. by eapply (sw_disk _ _ (srv_store _ _ (Hwf _ _ E))).
Qed.

#[export] Instance cluster_keeps_chunks : ChunkCluster Cluster := {|
  cluster_wf := wf_cluster;
  held := cluster_held;
  held_small := cluster_small;
  store_law n h p id file data n' r := cluster_store h p id file data n n' r;
  fetch_law n h p id path n' r := cluster_fetch h p id path n n' r;
  hash_law n h p id path n' r := cluster_hash h p id path n n' r
|}.
End cluster.
