(* ===== verification/ThreadPool.v ===== *)
(** * ThreadPool: the pool that runs transfers, fetches and disk I/O
    (src/src/common/include/dfg/thread_pool.hpp)

    Jobs are named by the order of their submission.  Every step is one
    critical section of the class or the end of a job, in any interleaving of
    the threads. *)
From Stdlib Require Import Lia.
From stdpp Require Import relations.
From S2P Require Import Prelude.

(** A worker thread is [Ready] when it is awake and about to test the predicate
    of [cv_.wait] under the mutex, [Asleep] once it has blocked in that wait. *)
Inductive worker := Ready | Asleep | Busy (job : nat) | Returned.
#[export] Instance worker_eq_dec : EqDecision worker.
Proof. solve_decision. Defined.

Record Pool := mkPool {
  jobs : list nat;              (* [jobs_] *)
  workers : list worker;
  stop : bool;                  (* [stop_] *)
  one_pending : nat;            (* clients between the push and [cv_.notify_one()] *)
  all_pending : bool;           (* the destructor is between [stop_ = true] and [cv_.notify_all()] *)
  submitted : list nat;         (* history: accepted by [submit] *)
  started : list nat;           (* history: taken by a worker *)
  finished : list nat           (* history: future made ready *)
}.

Definition with_workers (p : Pool) (ws : list worker) : Pool :=
  mkPool (jobs p) ws (stop p) (one_pending p) (all_pending p) (submitted p) (started p) (finished p).

Definition new_pool (num_threads : nat) : Pool :=
  mkPool [] (replicate num_threads Ready) false 0 false [] [] [].

(** The critical section of [submit]: [None] is the exception of a stopped
    pool; otherwise the client still owes its [notify_one]. *)
Definition submit (p : Pool) (j : nat) : option Pool :=
  if stop p then None
  else Some (mkPool (jobs p ++ [j]) (workers p) (stop p) (S (one_pending p)) (all_pending p)
               (submitted p ++ [j]) (started p) (finished p)).

(** The critical section of [worker_loop] for a worker that is awake: while
    [stop_ || !jobs_.empty()] is false it blocks on the condition variable. *)
Definition take_job (p : Pool) (w : nat) : Pool :=
  match jobs p with
  | j :: js => mkPool js (<[w := Busy j]> (workers p)) (stop p) (one_pending p) (all_pending p)
                 (submitted p) (started p ++ [j]) (finished p)
  | [] => if stop p then with_workers p (<[w := Returned]> (workers p))
          else with_workers p (<[w := Asleep]> (workers p))
  end.

Definition finish_job (p : Pool) (w j : nat) : Pool :=
  mkPool (jobs p) (<[w := Ready]> (workers p)) (stop p) (one_pending p) (all_pending p)
    (submitted p) (started p) (finished p ++ [j]).

(** A worker that leaves the wait re-tests the predicate. *)
Definition wake (p : Pool) (w : nat) : Pool := with_workers p (<[w := Ready]> (workers p)).

(** [cv_.notify_one()]: one of the threads blocked in the wait, if there is one. *)
Definition notify_one (p : Pool) (chosen : option nat) : Pool :=
  let p := mkPool (jobs p) (workers p) (stop p) (pred (one_pending p)) (all_pending p)
             (submitted p) (started p) (finished p) in
  match chosen with Some w => wake p w | None => p end.

(** Which thread [notify_one] may choose: any that is blocked; none only when
    none is. *)
Definition may_choose (p : Pool) (chosen : option nat) : Prop :=
  match chosen with
  | Some w => workers p !! w = Some Asleep
  | None => Forall (λ x, x ≠ Asleep) (workers p)
  end.

(** The destructor: its critical section, then [cv_.notify_all()]. *)
Definition request_stop (p : Pool) : Pool :=
  mkPool (jobs p) (workers p) true (one_pending p) true (submitted p) (started p) (finished p).

Definition woken (w : worker) : worker := match w with Asleep => Ready | _ => w end.

Definition notify_all (p : Pool) : Pool :=
  mkPool (jobs p) (woken <$> workers p) (stop p) (one_pending p) false
    (submitted p) (started p) (finished p).

(** The steps of the threads that are already running: a critical section of a
    worker that is awake, the end of a job, a notification that is due. *)
Inductive run_step : Pool → Pool → Prop :=
  | RunTake p w : workers p !! w = Some Ready → run_step p (take_job p w)
  | RunFinish p w j : workers p !! w = Some (Busy j) → run_step p (finish_job p w j)
  | RunNotifyOne p c : one_pending p ≠ 0 → may_choose p c → run_step p (notify_one p c)
  | RunNotifyAll p : all_pending p = true → run_step p (notify_all p).

(** The standard lets a wait end without a notification. *)
Inductive worker_step : Pool → Pool → Prop :=
  | WorkRun p p' : run_step p p' → worker_step p p'
  | WorkSpurious p w : workers p !! w = Some Asleep → worker_step p (wake p w).

(** The clients and the destructor; [j] is fresh: every packaged task is
    submitted once. *)
Inductive pool_step : Pool → Pool → Prop :=
  | StepSubmit p p' j : j ∉ submitted p → submit p j = Some p' → pool_step p p'
  | StepStop p : pool_step p (request_stop p)
  | StepWork p p' : worker_step p p' → pool_step p p'.

(** ** Bookkeeping *)
Definition busy (ws : list worker) : list nat :=
  omap (λ w, match w with Busy j => Some j | _ => None end) ws.

Record pool_wf (p : Pool) : Prop := {
  pw_fifo : started p ++ jobs p = submitted p;
  pw_once : NoDup (submitted p);
  pw_where : started p ≡ₚ finished p ++ busy (workers p);
  pw_drained : stop p = false ∨ jobs p = [] ∨ Forall (λ w, w ≠ Returned) (workers p);
  pw_return : stop p = false → Forall (λ w, w ≠ Returned) (workers p)
}.

Lemma busy_insert ws w x :
  w < length ws →
  busy (<[w := x]> ws) ≡ₚ busy [x] ++ busy (take w ws) ++ busy (drop (S w) ws).
Proof.
  intros Hw. rewrite insert_take_drop by done. unfold busy. rewrite omap_app.
  change (x :: drop (S w) ws) with ([x] ++ drop (S w) ws). rewrite omap_app.
  rewrite !app_assoc. apply Permutation_app_tail, Permutation_app_comm.
Qed.

Lemma busy_lookup ws w x :
  ws !! w = Some x → busy ws ≡ₚ busy [x] ++ busy (take w ws) ++ busy (drop (S w) ws).
Proof.
  intros Hw. rewrite <- (list_insert_id ws w x Hw) at 1. apply busy_insert.
  by eapply lookup_lt_Some.
Qed.

Lemma busy_same ws w x y :
  ws !! w = Some x → busy [x] = [] → busy [y] = [] → busy (<[w := y]> ws) ≡ₚ busy ws.
Proof.
  intros Hw Hx Hy. rewrite (busy_lookup _ _ _ Hw), busy_insert by by eapply lookup_lt_Some.
  by rewrite Hx, Hy.
Qed.

Lemma busy_woken ws : busy (woken <$> ws) = busy ws.
Proof. induction ws as [|[] ws IH]; simpl; auto. by f_equal. Qed.

Lemma woken_not_returned ws :
  Forall (λ w, w ≠ Returned) ws → Forall (λ w, w ≠ Returned) (woken <$> ws).
Proof. induction 1 as [|[] ws]; constructor; auto. Qed.

Lemma new_pool_wf n : pool_wf (new_pool n).
Proof.
  assert (busy (replicate n Ready) = []) as Hb by (by induction n).
  constructor; simpl; try done; [apply NoDup_nil_2|by rewrite Hb|by left|].
  intros _. by apply Forall_replicate.
Qed.

Lemma wake_wf p w : pool_wf p → workers p !! w = Some Asleep → pool_wf (wake p w).
Proof.
  intros [Hf Ho Hw Hd Hr] Hlk. constructor; simpl; auto.
  - by rewrite (busy_same _ _ _ _ Hlk).
  - destruct Hd as [?|[?|?]]; auto. right; right. by apply Forall_insert.
  - intros E. by apply Forall_insert; [auto|].
Qed.

Lemma take_job_wf p w : pool_wf p → workers p !! w = Some Ready → pool_wf (take_job p w).
Proof.
  intros [Hf Ho Hw Hd Hr] Hlk.
  assert (w < length (workers p)) as Hlt by (by eapply lookup_lt_Some).
  unfold take_job. destruct (jobs p) as [|j js] eqn:Ej.
  - destruct (stop p) eqn:E; (constructor; simpl; rewrite ?Ej, ?E; auto; try done);
      [by rewrite (busy_same _ _ _ _ Hlk)|by rewrite (busy_same _ _ _ _ Hlk)|].
    intros _. by apply Forall_insert; [auto|].
  - constructor; simpl; auto.
    + by rewrite <- app_assoc.
    + rewrite Hw, (busy_lookup _ _ _ Hlk), (busy_insert _ w (Busy j)) by done. simpl.
      rewrite <- app_assoc. apply Permutation_app_head. by rewrite Permutation_app_comm.
    + destruct Hd as [?|[?|?]]; auto; [done|]. right; right. by apply Forall_insert.
    + intros E. by apply Forall_insert; [auto|].
Qed.

Lemma finish_job_wf p w j : pool_wf p → workers p !! w = Some (Busy j) → pool_wf (finish_job p w j).
Proof.
  intros [Hf Ho Hw Hd Hr] Hlk.
  assert (w < length (workers p)) as Hlt by (by eapply lookup_lt_Some).
  constructor; simpl; auto.
  - rewrite Hw, (busy_lookup _ _ _ Hlk), (busy_insert _ w Ready) by done. simpl. by rewrite <- app_assoc.
  - destruct Hd as [?|[?|?]]; auto. right; right. by apply Forall_insert.
  - intros E. by apply Forall_insert; [auto|].
Qed.

Lemma notify_one_wf p c : pool_wf p → may_choose p c → pool_wf (notify_one p c).
Proof.
  intros Hwf Hc. unfold notify_one. set (q := mkPool _ _ _ _ _ _ _ _).
  assert (pool_wf q) as Hq by by destruct Hwf.
  destruct c as [w|]; [by apply wake_wf|done].
Qed.

Lemma notify_all_wf p : pool_wf p → pool_wf (notify_all p).
Proof.
  intros [Hf Ho Hw Hd Hr]. constructor; simpl; auto.
  - by rewrite busy_woken.
  - destruct Hd as [?|[?|?]]; auto using woken_not_returned.
  - auto using woken_not_returned.
Qed.

Lemma pool_step_wf p p' : pool_wf p → pool_step p p' → pool_wf p'.
Proof.
  intros Hwf Hs. revert Hwf. destruct Hs as [q q' j Hj Hs|q|q q' [? ? []|]]; intros Hwf;
    eauto using take_job_wf, finish_job_wf, notify_one_wf, notify_all_wf, wake_wf.
  - destruct Hwf as [Hf Ho Hw Hd Hr].
    unfold submit in Hs. destruct (stop q) eqn:E; [done|]. injection Hs as <-.
    constructor; simpl; auto.
    + by rewrite app_assoc, Hf.
    + apply NoDup_app. split_and!; [done| |apply NoDup_singleton].
      by intros x Hx ->%list_elem_of_singleton.
  - destruct Hwf as [Hf Ho Hw Hd Hr].
    constructor; simpl; auto; [|done]. right. destruct Hd as [E|[?|?]]; auto.
Qed.

Lemma pool_reachable_wf p p' : pool_wf p → rtc pool_step p p' → pool_wf p'.
Proof. intros Hwf Hr. induction Hr; eauto using pool_step_wf. Qed.

Lemma pool_step_threads p p' : pool_step p p' → length (workers p') = length (workers p).
Proof.
  intros [q q' j _ Hs|q|q q' [? ? [? ?|? ? ?|? [w|] ? ?|]|]]; simpl;
    rewrite ?length_insert, ?length_fmap; try done.
  - unfold submit in Hs. destruct (stop q); [done|]. by injection Hs as <-.
  - unfold take_job. destruct (jobs _) as [|j js]; [destruct (stop _)|]; simpl; by rewrite length_insert.
Qed.

Lemma pool_reachable_threads n p : rtc pool_step (new_pool n) p → length (workers p) = n.
Proof.
  intros Hr. transitivity (length (workers (new_pool n))); [|apply length_replicate].
  induction Hr as [|x y z Hxy _ IH]; [done|]. rewrite IH. by apply pool_step_threads.
Qed.

Definition all_returned (p : Pool) : Prop := Forall (λ w, w = Returned) (workers p).

Lemma all_returned_busy ws : Forall (λ w, w = Returned) ws → busy ws = [].
Proof. induction 1 as [|w ws -> _ IH]; [done|]. done. Qed.

(** C23: whatever the interleaving of clients and workers, jobs start in the
    order of submission, each is started and finished at most once, and the
    destructor's join (all workers returned) means that every submitted job
    has finished: no future is left without a result. *)
Theorem pool_runs_jobs_once (n : nat) (p : Pool) :
  rtc pool_step (new_pool n) p →
  started p `prefix_of` submitted p ∧ NoDup (finished p) ∧ finished p ⊆ submitted p ∧
  (0 < n → all_returned p → finished p ≡ₚ submitted p).
Proof.
  intros Hr. destruct (pool_reachable_wf _ _ (new_pool_wf n) Hr) as [Hf Ho Hw Hd Hret].
  pose proof (pool_reachable_threads n p Hr) as Hn.
  assert (NoDup (started p) ∧ ∀ j, j ∈ started p → j ∈ submitted p) as [Hs1 Hs2].
  { rewrite <- Hf in Ho |- *. split; [by apply NoDup_app in Ho as [? _]|].
    intros j Hj. apply elem_of_app. by left. }
  assert (∀ j, j ∈ finished p → j ∈ started p) as Hfs.
  { intros j Hj. rewrite Hw. apply elem_of_app. by left. }
  rewrite Hw in Hs1. split; [by exists (jobs p)|]. split; [by apply NoDup_app in Hs1 as [? _]|].
  split; [by intros j Hj; auto|].
  intros Hpos Hall. unfold all_returned in Hall.
  rewrite (all_returned_busy _ Hall), app_nil_r in Hw.
  assert (jobs p = []) as Hj.
  { assert (¬ Forall (λ w, w ≠ Returned) (workers p)) as Hno.
    { intros Hno. destruct (workers p) as [|w ws]; [simpl in Hn; lia|].
      inversion_clear Hall. inversion_clear Hno. congruence. }
    destruct Hd as [E|[?|?]]; [by destruct Hno; auto|done|done]. }
  rewrite Hj, app_nil_r in Hf. by rewrite <- Hw, Hf.
Qed.

(** ** No wake-up is lost *)
Definition awake (ws : list worker) : nat := length (filter (λ w, w = Ready) ws).

(** While a worker sleeps, every queued job has a thread that will look at the
    queue again: one that is awake, or the target of a notification that is
    due; and after [stop_] a worker sleeps only until [notify_all]. *)
Record pool_alert (p : Pool) : Prop := {
  pa_jobs : Asleep ∈ workers p → stop p = false → length (jobs p) ≤ one_pending p + awake (workers p);
  pa_stop : Asleep ∈ workers p → stop p = true → all_pending p = true
}.

Definition ready_count (w : worker) : nat := match w with Ready => 1 | _ => 0 end.

Lemma awake_insert ws w x y :
  ws !! w = Some x → awake (<[w := y]> ws) + ready_count x = awake ws + ready_count y.
Proof.
  unfold awake. revert w. induction ws as [|z ws IH]; intros [|w]; simpl; try done.
  - intros [= ->]. rewrite !filter_cons. destruct x, y; simpl; lia.
  - intros Hw. specialize (IH w Hw). rewrite !filter_cons. case_decide; simpl; lia.
Qed.

Lemma asleep_insert (ws : list worker) w x : x ≠ Asleep → Asleep ∈ <[w := x]> ws → Asleep ∈ ws.
Proof.
  intros Hx (i & Hi)%list_elem_of_lookup. apply list_lookup_insert_Some in Hi as [(_ & ? & _)|[_ Hi]];
    [done|]. by eapply list_elem_of_lookup_2.
Qed.

Lemma asleep_woken (ws : list worker) : Asleep ∉ woken <$> ws.
Proof. intros (w & Hw & _)%list_elem_of_fmap. by destruct w. Qed.

Lemma wake_alert p w : pool_alert p → workers p !! w = Some Asleep → pool_alert (wake p w).
Proof.
  intros [Hj Hs] Hw. pose proof (awake_insert _ _ _ Ready Hw) as Ha. simpl in Ha.
  constructor; simpl; intros Hin%asleep_insert Hst; [|done|by auto|done].
  specialize (Hj Hin Hst). lia.
Qed.

Lemma take_job_alert p w : pool_alert p → workers p !! w = Some Ready → pool_alert (take_job p w).
Proof.
  intros [Hj Hs] Hw. unfold take_job. destruct (jobs p) as [|j js] eqn:Ej.
  - destruct (stop p) eqn:Est; constructor; simpl; rewrite ?Ej, ?Est; try done; simpl.
    + intros Hin%asleep_insert _; [by auto|done].
    + intros _ _. lia.
  - pose proof (awake_insert _ _ _ (Busy j) Hw) as Ha. simpl in Ha.
    constructor; simpl; intros Hin%asleep_insert Hst; [|done|by auto|done].
    specialize (Hj Hin Hst). simpl in Hj. lia.
Qed.

Lemma finish_job_alert p w j :
  pool_alert p → workers p !! w = Some (Busy j) → pool_alert (finish_job p w j).
Proof.
  intros [Hj Hs] Hw. pose proof (awake_insert _ _ _ Ready Hw) as Ha. simpl in Ha.
  constructor; simpl; intros Hin%asleep_insert Hst; [|done|by auto|done].
  specialize (Hj Hin Hst). lia.
Qed.

Lemma notify_one_alert p c :
  pool_alert p → one_pending p ≠ 0 → may_choose p c → pool_alert (notify_one p c).
Proof.
  intros [Hj Hs] Hp Hc. destruct c as [w|]; simpl in Hc.
  - pose proof (awake_insert _ _ _ Ready Hc) as Ha. simpl in Ha.
    constructor; simpl; intros Hin%asleep_insert Hst; [|done|by auto|done].
    specialize (Hj Hin Hst). lia.
  - constructor; simpl; intros Hin; by rewrite Forall_forall in Hc; apply Hc in Hin.
Qed.

Lemma pool_step_alert p p' : pool_alert p → pool_step p p' → pool_alert p'.
Proof.
  intros Hwf Hs. revert Hwf. destruct Hs as [q q' j Hj Hs|q|q q' [? ? []|]]; intros Hwf;
    eauto using take_job_alert, finish_job_alert, notify_one_alert, wake_alert.
  - destruct Hwf as [Ha Hb]. unfold submit in Hs. destruct (stop q) eqn:E; [done|]. injection Hs as <-.
    constructor; simpl; [|done]. intros Hin _. rewrite length_app. simpl. specialize (Ha Hin eq_refl). lia.
  - by constructor.
  - constructor; simpl; by intros Hin%asleep_woken.
Qed.

Lemma pool_reachable_alert n p : rtc pool_step (new_pool n) p → pool_alert p.
Proof.
  assert (pool_alert (new_pool n)) as Hn.
  { constructor; simpl; intros Hin%elem_of_replicate; by destruct Hin. }
  intros Hr. induction Hr; eauto using pool_step_alert.
Qed.

(** Nothing moves without a new call or a spurious wake-up. *)
Definition at_rest (p : Pool) : Prop := ∀ p', ¬ run_step p p'.

Lemma rest_workers p :
  at_rest p → Forall (λ w, w = Asleep ∨ w = Returned) (workers p) ∧ one_pending p = 0 ∧ all_pending p = false.
Proof.
  intros Hr. split_and!.
  - apply Forall_lookup. intros i [| |j|] Hi; auto; exfalso; eapply Hr; by econstructor.
  - destruct (decide (one_pending p = 0)) as [|Hp]; [done|]. exfalso.
    destruct (decide (Forall (λ x, x ≠ Asleep) (workers p))) as [Hf|Hf].
    + by apply (Hr (notify_one p None)), RunNotifyOne.
    + apply not_Forall_Exists in Hf; [|intros x; apply _].
      apply Exists_exists in Hf as (x & [w Hw]%list_elem_of_lookup & Hx).
      apply dec_stable in Hx as ->. by apply (Hr (notify_one p (Some w))), RunNotifyOne.
  - destruct (all_pending p) eqn:E; [|done]. by destruct (Hr (notify_all p)); constructor.
Qed.

Lemma awake_asleep ws : Forall (λ w, w = Asleep ∨ w = Returned) ws → awake ws = 0 ∧ busy ws = [].
Proof.
  unfold awake. induction 1 as [|x ws Hx _ [IH1 IH2]]; [done|].
  rewrite filter_cons. by destruct Hx as [-> | ->].
Qed.

(** At rest before the destructor, the queue is empty: a job is never left
    queued while every worker sleeps. *)
Lemma rest_drained p :
  pool_wf p → pool_alert p → workers p ≠ [] → stop p = false → at_rest p →
  jobs p = [] ∧ finished p ≡ₚ submitted p.
Proof.
  intros [Hf _ Hw _ Hret] [Hj _] Hn Hst Hrest.
  destruct (rest_workers p Hrest) as (Hall & Hone & _).
  destruct (awake_asleep _ Hall) as [Ha Hb]. specialize (Hret Hst).
  assert (Asleep ∈ workers p) as Hin.
  { destruct (workers p) as [|x ws]; [done|]. inversion_clear Hall as [|? ? Hx _].
    inversion_clear Hret. destruct Hx as [-> | ->]; [left|done]. }
  specialize (Hj Hin Hst). rewrite Hone, Ha in Hj.
  assert (jobs p = []) as Hq by (destruct (jobs p); simpl in Hj; [done|lia]).
  split; [done|]. rewrite Hq, app_nil_r in Hf. rewrite Hb, app_nil_r in Hw. by rewrite <- Hw, Hf.
Qed.

(** ** The destructor terminates *)
Definition weight (w : worker) : nat :=
  match w with Ready => 1 | Asleep => 2 | Busy _ => 2 | Returned => 0 end.
Definition pending_work (p : Pool) : nat :=
  2 * length (jobs p) + sum_list_with weight (workers p) + one_pending p + Nat.b2n (all_pending p).

Lemma weight_insert ws w x y :
  ws !! w = Some x →
  sum_list_with weight (<[w := y]> ws) + weight x = sum_list_with weight ws + weight y.
Proof.
  revert w. induction ws as [|z ws IH]; intros [|w]; simpl; try done.
  - intros [= ->]. lia.
  - intros Hw. specialize (IH w Hw). lia.
Qed.

Lemma weight_woken ws : sum_list_with weight (woken <$> ws) ≤ sum_list_with weight ws.
Proof. induction ws as [|w ws IH]; [done|]. rewrite fmap_cons. destruct w; simpl; lia. Qed.

(** Once [stop_] is set no worker goes back to sleep: every step counts down,
    spurious wake-ups included. *)
Lemma worker_step_works p p' :
  stop p = true → worker_step p p' → pending_work p' < pending_work p ∧ stop p' = true.
Proof.
  unfold pending_work. intros Hst Hs. revert Hst.
  destruct Hs as [q q' [r w Hw|r w j Hw|r c Hp Hc|r Ha]|q w Hw]; intros Hst; simpl.
  - pose proof (weight_insert _ _ _ Returned Hw) as Hi. simpl in Hi.
    unfold take_job. destruct (jobs r) as [|j js] eqn:Ej; [rewrite Hst|]; simpl; rewrite ?Ej, ?Hst.
    + simpl. split; [lia|done].
    + pose proof (weight_insert _ _ _ (Busy j) Hw) as Hk. simpl in Hk. split; [lia|done].
  - pose proof (weight_insert _ _ _ Ready Hw) as Hi. simpl in Hi. split; [lia|done].
  - destruct c as [w|]; simpl in *; [|split; [lia|done]].
    pose proof (weight_insert _ _ _ Ready Hc) as Hi. simpl in Hi. split; [lia|done].
  - rewrite Ha. pose proof (weight_woken (workers r)). simpl. split; [lia|done].
  - pose proof (weight_insert _ _ _ Ready Hw) as Hi. simpl in Hi. split; [lia|done].
Qed.

Lemma worker_step_reachable q p p' :
  rtc pool_step q p → rtc worker_step p p' → rtc pool_step q p'.
Proof.
  intros Hq Hr. etransitivity; [exact Hq|].
  eapply rtc_subrel; [|exact Hr]. intros x y Hxy. by apply StepWork.
Qed.

Lemma worker_steps_stop p p' : rtc worker_step p p' → stop p = true → stop p' = true.
Proof. induction 1; [done|]. intros Hs. by apply IHrtc, worker_step_works with (p := x). Qed.

Lemma worker_step_acc p : stop p = true → Acc (λ a b, worker_step b a) p.
Proof.
  induction p as [p IH] using (induction_ltof1 _ pending_work). intros Hs. constructor.
  intros y Hy. destruct (worker_step_works _ _ Hs Hy). by apply IH.
Qed.

Lemma stopped_rest p : pool_alert p → stop p = true → at_rest p → all_returned p.
Proof.
  intros [_ Hs] Hst Hr. destruct (rest_workers p Hr) as (Hall & _ & Hno).
  apply Forall_forall. intros x Hx. rewrite Forall_forall in Hall.
  destruct (Hall x Hx) as [-> |]; [|done]. specialize (Hs Hx Hst). congruence.
Qed.

Lemma run_or_rest p : (∃ p', run_step p p') ∨ at_rest p.
Proof.
  destruct (decide (Forall (λ w, w = Asleep ∨ w = Returned) (workers p))) as [Hall|Hn].
  - destruct (decide (one_pending p = 0)) as [Hone|Hone].
    + destruct (all_pending p) eqn:Ha; [left; eexists; by apply RunNotifyAll|]. right.
      intros p' Hp. rewrite Forall_lookup in Hall.
      destruct Hp as [q w Hw|q w j Hw|q c Hp _|q Hp]; [| |done|congruence];
        by destruct (Hall _ _ Hw).
    + left. destruct (decide (Forall (λ x, x ≠ Asleep) (workers p))) as [Hf|Hf].
      * exists (notify_one p None). by apply RunNotifyOne.
      * apply not_Forall_Exists in Hf; [|intros x; apply _].
        apply Exists_exists in Hf as (x & [w Hw]%list_elem_of_lookup & Hx).
        apply dec_stable in Hx as ->. exists (notify_one p (Some w)). by apply RunNotifyOne.
  - left. apply not_Forall_Exists in Hn; [|intros x; apply _].
    apply Exists_exists in Hn as (x & [w Hw]%list_elem_of_lookup & Hx).
    destruct x as [| |j|]; [| |eexists; by eapply RunFinish|]; try (by destruct Hx; auto).
    eexists. by eapply RunTake.
Qed.

Lemma stopped_run n p :
  rtc pool_step (new_pool n) p → stop p = true → ∃ p', rtc run_step p p' ∧ all_returned p'.
Proof.
  intros Hr Hst. revert Hr. induction (worker_step_acc p Hst) as [q _ IH]. intros Hr.
  destruct (run_or_rest q) as [[q' Hq]|Hrest].
  - assert (worker_step q q') as Hw by by apply WorkRun.
    destruct (IH q' Hw) as (z & Hz & Hall).
    + by destruct (worker_step_works _ _ Hst Hw).
    + eapply rtc_r; [exact Hr|]. by apply StepWork.
    + exists z. split; [by eapply rtc_l|done].
  - exists q. split; [done|]. by eapply stopped_rest; [eapply pool_reachable_alert|..].
Qed.

(** C24: in whatever interleaving a pool with at least one worker was left,
    no wake-up is lost.  Before the destructor, the threads come to rest only
    with the queue empty and every submitted job finished, even if the
    condition variable never wakes a worker spuriously.  Once the destructor
    has set [stop_], the workers cannot run for ever, spurious wake-ups
    included; some run gets every worker to return; and without any spurious
    wake-up the only states they come to rest in have every worker returned,
    so that the destructor's joins return. *)
Theorem pool_shutdown_terminates (n : nat) (p : Pool) :
  0 < n → rtc pool_step (new_pool n) p →
  (stop p = false → at_rest p → jobs p = [] ∧ finished p ≡ₚ submitted p) ∧
  (stop p = true →
     Acc (λ a b, worker_step b a) p ∧
     (∃ p', rtc run_step p p' ∧ all_returned p') ∧
     (∀ p', rtc worker_step p p' → at_rest p' → all_returned p')).
Proof.
  intros Hn Hr. split.
  - apply rest_drained; eauto using pool_reachable_wf, new_pool_wf, pool_reachable_alert.
    pose proof (pool_reachable_threads n p Hr). by destruct (workers p); [simpl in *; lia|].
  - intros Hst. split_and!; eauto using worker_step_acc, stopped_run.
    intros p' Hp Hrest. eapply stopped_rest; eauto using worker_steps_stop.
    eapply pool_reachable_alert, worker_step_reachable; eauto.
Qed.

(** ** A run: two workers, two jobs, the second one finishing first.  The first
    worker sleeps before the jobs come and is woken by the first notification;
    both sleep again when the destructor sets [stop_], and [notify_all] wakes
    them. *)
Definition demo_end : Pool := mkPool [] [Returned; Returned] true 0 false [0; 1] [0; 1] [1; 0].
Definition demo_idle : Pool := mkPool [] [Asleep; Asleep] false 0 false [0; 1] [0; 1] [1; 0].
Definition demo_stopped : Pool := mkPool [] [Asleep; Asleep] true 0 true [0; 1] [0; 1] [1; 0].

Ltac worker_runs t := eapply rtc_l; [apply StepWork, WorkRun; t|]; simpl.

Lemma demo_to_idle : rtc pool_step (new_pool 2) demo_idle.
Proof.
  worker_runs ltac:(apply (RunTake _ 0); reflexivity).
  eapply rtc_l; [eapply (StepSubmit _ _ 0); [apply not_elem_of_nil|reflexivity]|].
  worker_runs ltac:(apply (RunNotifyOne _ (Some 0)); [done|reflexivity]).
  worker_runs ltac:(apply (RunTake _ 0); reflexivity).
  eapply rtc_l; [eapply (StepSubmit _ _ 1); [by apply (bool_decide_unpack (1 ∉ [0]))|reflexivity]|].
  worker_runs ltac:(apply (RunTake _ 1); reflexivity).
  worker_runs ltac:(apply (RunNotifyOne _ None); [done|by repeat constructor]).
  worker_runs ltac:(apply (RunFinish _ 1 1); reflexivity).
  worker_runs ltac:(apply (RunFinish _ 0 0); reflexivity).
  worker_runs ltac:(apply (RunTake _ 1); reflexivity).
  worker_runs ltac:(apply (RunTake _ 0); reflexivity).
  apply rtc_refl.
Qed.

Lemma demo_to_stopped : rtc pool_step (new_pool 2) demo_stopped.
Proof. eapply rtc_r; [apply demo_to_idle|apply (StepStop demo_idle)]. Qed.

Lemma demo_run : rtc pool_step (new_pool 2) demo_end.
Proof.
  etransitivity; [apply demo_to_stopped|].
  worker_runs ltac:(by apply RunNotifyAll).
  worker_runs ltac:(apply (RunTake _ 1); reflexivity).
  worker_runs ltac:(apply (RunTake _ 0); reflexivity).
  apply rtc_refl.
Qed.

Lemma pool_runs_jobs_once_witness :
  NoDup (finished demo_end) ∧ finished demo_end ≡ₚ submitted demo_end.
Proof.
  destruct (pool_runs_jobs_once 2 demo_end demo_run) as (_ & Hn & _ & Hall).
  split; [exact Hn|]. apply Hall; [lia|].
  by apply (bool_decide_unpack (Forall (λ w, w = Returned) (workers demo_end))).
Defined.

Lemma demo_idle_rests : at_rest demo_idle.
Proof.
  destruct (run_or_rest demo_idle) as [[p' Hp]|]; [|done]. exfalso. unfold demo_idle in Hp.
  inversion Hp as [? w Hw|? w j Hw|? c Hc _|]; simplify_eq/=; destruct w as [|[|w]]; done.
Qed.

Lemma pool_shutdown_terminates_witness :
  (jobs demo_idle = [] ∧ finished demo_idle ≡ₚ submitted demo_idle) ∧
  ∃ p', rtc run_step demo_stopped p' ∧ all_returned p'.
Proof.
  assert (0 < 2) as H2 by lia. split.
  - apply (pool_shutdown_terminates 2 demo_idle H2 demo_to_idle); [reflexivity|apply demo_idle_rests].
  - apply (pool_shutdown_terminates 2 demo_stopped H2 demo_to_stopped). reflexivity.
Defined.
