(* ===== verification/Upload.v ===== *)
(** * Upload: the head server's side of an upload
    (src/src/head_server/file_upload.cpp)

    The client's stream is the bytes it sends after the request line.  The
    registry and the health map can change while chunks arrive: [view_at k]
    is what they are when the servers of the [k]-th chunk are selected.  The
    transfers run on a pool: [schedule] is the order in which they happen. *)
From Stdlib Require Import Lia SpecFloat.
From S2P Require Import Prelude.
From S2P Require Import Text.
From S2P Require Import Ordered.
From S2P Require Import Float.
From S2P Require Import Sha256.
From S2P Require Import Net.
From S2P Require Import Metadata.
From S2P Require Import Registry.
From S2P Require Import Health.
From S2P Require Import Wire.
From S2P Require Import ChunkStore.
From S2P Require Import HeadNet.
Local Open Scope Z_scope.

Record UploadConfig := mkUploadConfig {
  chunk_size : Z;                        (* storage.chunk_size, a size_t; positive *)
  replication_factor : Z;                (* storage.replication_factor *)
  config_servers : list (bytes * Z)      (* get_cluster_servers(): host, port *)
}.

(** ** Choosing servers *)
Definition fallback_servers : list bytes :=
  [lit "127.0.0.1:8080"; lit "127.0.0.1:8081"; lit "127.0.0.1:8082"].

Definition load_cluster_servers (cfg : UploadConfig) : list bytes :=
  match map (λ e, show_address e.1 e.2) (config_servers cfg) with
  | [] => fallback_servers
  | l => l
  end.

(** [health.ip == ip || health.ip == srv] *)
Definition health_of (srv : bytes) (kv : Z * ServerHealth) : Prop :=
  ip kv.2 = (parse_address srv 8080).1 ∨ ip kv.2 = srv.
#[export] Instance health_of_dec srv kv : Decision (health_of srv kv).
Proof. unfold health_of. apply _. Defined.

(** The first matching entry decides; an unknown server is a candidate. *)
Definition is_candidate (hm : gmap Z ServerHealth) (srv : bytes) : bool :=
  match list_find (health_of srv) (zmap_list hm) with
  | Some (_, kv) => is_healthy kv.2
  | None => true
  end.

Definition hundred : spec_float := S754_finite false 13107200 (-17).  (* 100.0f *)

(** The last matching entry decides. *)
Definition disk_of (hm : gmap Z ServerHealth) (srv : bytes) : spec_float :=
  fold_left (λ d kv, if decide (health_of srv kv) then disk_usage kv.2 else d)
    (zmap_list hm) hundred.

Definition less_disk (hm : gmap Z ServerHealth) (a b : bytes) : bool :=
  SFltb (disk_of hm a) (disk_of hm b).

(** [success] and [file_path] *)
Abbreviation TransferOutcome := (bool * bytes)%type.

Section upload.
Context `{!StdSort} `{!HashOrder bytes FileRecord} {N : Type} `{!Network N} `{!Protobuf}.
Variable cfg : UploadConfig.

Definition known_servers (reg : Registry) : list bytes :=
  match get_addresses reg with [] => load_cluster_servers cfg | l => l end.
Definition candidates (reg : Registry) (hm : gmap Z ServerHealth) : list bytes :=
  match filter (λ s, is_candidate hm s = true) (known_servers reg) with
  | [] => known_servers reg
  | l => l
  end.

Definition select_servers_for_chunk (reg : Registry) (hm : gmap Z ServerHealth) (r : Z)
  : list bytes :=
  let servers := std_sort (less_disk hm) (candidates reg hm) in
  take (Z.to_nat (Z.min r (Z.of_nat (length servers)))) servers.

(** ** Transfers *)
Record PendingTransfer := mkPending {
  pt_chunk_id : Z; pt_server : bytes; pt_data : bytes; pt_checksum : bytes }.
Definition submit_chunk_transfers (reg : Registry) (hm : gmap Z ServerHealth)
    (cid : Z) (data checksum : bytes) : list PendingTransfer :=
  map (λ srv, mkPending cid srv data checksum)
    (select_servers_for_chunk reg hm (replication_factor cfg)).

(** The pool runs the transfers in the order [schedule]. *)
Definition run_transfers (net : N) (reg_at : nat → Registry) (file : bytes)
    (tasks : list PendingTransfer) (schedule : list nat) : N * gmap nat TransferOutcome :=
  run_pool (λ net i t, send_chunk_to_server net (reg_at i) (pt_server t) (pt_chunk_id t)
                         (pt_data t) file) net tasks schedule.

Record ChunkInfo := mkInfo {
  ci_chunk_id : Z; ci_server_ip : bytes; ci_file_path : bytes; ci_size : Z;
  ci_checksum : bytes; ci_replica_count : Z }.

Definition succeeded (results : list (PendingTransfer * TransferOutcome))
  : list (PendingTransfer * TransferOutcome) := filter (λ r, r.2.1 = true) results.

Definition collect_transfers (file : bytes) (results : list (PendingTransfer * TransferOutcome))
  : list ChunkInfo :=
  map (λ r, let '(t, (_, path)) := r in
    mkInfo (pt_chunk_id t) (pt_server t)
      (match path with [] => assumed_path (pt_server t) file (pt_chunk_id t) | _ => path end)
      (Z.of_nat (length (pt_data t))) (pt_checksum t)
      (Z.of_nat (length (filter (λ r', pt_chunk_id r'.1 = pt_chunk_id t) (succeeded results)))))
    (succeeded results).

(** [get()] on every future, in the order of submission. *)
Definition results_of (tasks : list PendingTransfer) (m : gmap nat TransferOutcome)
  : list (PendingTransfer * TransferOutcome) :=
  imap (λ i t, (t, default (false, []) (m !! i))) tasks.

(** ** Metadata *)
Definition info_line (c : ChunkInfo) : bytes :=
  show_Z (ci_chunk_id c) ++ sp :: ci_server_ip c ++ sp :: ci_file_path c ++ sp :: ci_checksum c
  ++ sp :: show_Z (ci_replica_count c).

Definition metadata_request (file : bytes) (cs : list ChunkInfo) (hash : bytes) : bytes :=
  to_text ([file; lit "TTL=3600"; lit "HASH=" ++ hash;
            lit "REPLICAS=" ++ show_Z (replication_factor cfg)] ++ map info_line cs).

Definition store_metadata (s : MetaState) (file : bytes) (cs : list ChunkInfo) (hash : bytes)
  : MetaState := create_entry s (metadata_request file cs hash).

(** ** The request line *)
Record UploadRequest := mkRequest {
  rq_file : bytes; rq_size : Z; rq_chunks : Z; rq_hash : bytes }.

Definition upload_word : bytes := lit "UPLOAD".

(** [None]: not an upload request.  A number that does not parse throws. *)
Definition parse_upload_request (req : bytes) : exc (option UploadRequest) :=
  match words req with
  | [u; f; s; h] =>
      if decide (u = upload_word) then
        size ← stoull s;
        let n := if decide (size = 0) then 0
                 else w64 (size + chunk_size cfg - 1) `div` chunk_size cfg in
        Val (Some (mkRequest f size n h))
      else Val None
  | u :: f :: s :: n :: h :: _ =>
      if decide (u = upload_word) then
        size ← stoull s; n ← stoull n; Val (Some (mkRequest f size n h))
      else Val None
  | _ => Val None
  end.

(** ** Receiving the chunks *)

(** Bytes up to a newline or the end of the stream. *)
Definition read_line (s : bytes) : bytes * bytes :=
  match find_char nl s with
  | Some i => (take i s, drop (i + 1) s)
  | None => (s, [])
  end.

(** [ch_iss >> chunk_id >> chunk_size >> client_chunk_hash] *)
Definition parse_chunk_header (line : bytes) : option (Z * Z * bytes) :=
  '(cid, s) ← read_int (drop 6 line);
  '(size, s) ← read_u64 s;
  '(h, _) ← read_word s;
  Some (cid, size, h).

Definition error_malformed (line : bytes) : bytes :=
  lit "ERROR: Malformed CHUNK header: " ++ line ++ [nl].
Definition error_chunk_checksum (cid : Z) : bytes :=
  lit "ERROR: Chunk checksum mismatch for chunk " ++ show_Z cid ++ [nl].
Definition error_expected_chunk (line : bytes) : bytes :=
  lit "ERROR: Expected CHUNK header, got: " ++ line ++ [nl].

(** The transfers submitted, the full-file hash so far, and the chunks that
    arrived. *)
Record Received := mkReceived {
  rx_pending : list PendingTransfer; rx_hasher : SHA256; rx_chunks : list (Z * bytes) }.

(** How the loop ends: normally, with an early [return] after an error
    message (possibly empty), or with an exception nobody catches.  [RxOutOfFuel]
    is the model's only; [upload_terminates] shows that it does not happen. *)
Inductive receive_end := RxDone | RxStopped (error : bytes) | RxCrashed | RxOutOfFuel.

(** [max_alloc]: the largest buffer that can be allocated. *)
Variable max_alloc : Z.
Variable view_at : nat → Registry * gmap Z ServerHealth.

Definition take_chunk (rx : Received) (cid : Z) (data : bytes) : Received :=
  let '(reg, hm) := view_at (length (rx_chunks rx)) in
  mkReceived (rx_pending rx ++ submit_chunk_transfers reg hm cid data (sha256 data))
    (update_bytes (rx_hasher rx) data) (rx_chunks rx ++ [(cid, data)]).

Fixpoint receive_chunks (fuel : nat) (num_chunks : Z) (rx : Received) (s : bytes)
  : Received * receive_end :=
  match fuel with
  | O => (rx, RxOutOfFuel)
  | S fuel =>
    if decide (num_chunks ≤ Z.of_nat (length (rx_chunks rx))) then (rx, RxDone)
    else
      let '(line, s) := read_line s in
      if decide (line = []) then (rx, RxStopped [])
      else if starts_with (lit "CHUNK ") line then
        match parse_chunk_header line with
        | None => (rx, RxStopped (error_malformed line))
        | Some (cid, size, h) =>
            if decide (max_alloc < size) then (rx, RxCrashed)
            else match recv_exact (Z.to_nat size) s with
                 | None => (rx, RxStopped [])
                 | Some (data, s) =>
                     if decide (sha256 data = h)
                     then receive_chunks fuel num_chunks (take_chunk rx cid data) s
                     else (rx, RxStopped (error_chunk_checksum cid))
                 end
        end
      else if decide (line = lit "EOF") then (rx, RxDone)
      else (rx, RxStopped (error_expected_chunk line))
  end.

(** ** [handle_client_upload] *)
Record Upload := mkUpload {
  up_sent : bytes;               (* everything sent to the client *)
  up_meta : MetaState;
  up_net : N;
  up_received : Received;
  up_crashed : bool              (* an uncaught exception: the process dies *)
}.

Definition no_transfers : Received := mkReceived [] fresh [].
Definition ready_msg : bytes := lit "READY" ++ [nl].
Definition success_msg : bytes := lit "SUCCESS" ++ [nl].
Definition error_format : bytes :=
  lit "ERROR: Invalid upload request format. Expected: UPLOAD <filename> <size> [chunks] <sha256>"
  ++ [nl].
Definition error_file_checksum : bytes := lit "ERROR: SHA256 checksum mismatch" ++ [nl].
Definition error_no_replicas : bytes :=
  lit "ERROR: Failed to store chunk replicas across cluster servers" ++ [nl].

(** After the receive loop: wait for the transfers, check, record. *)
Definition finish_upload (meta : MetaState) (net : N) (req : UploadRequest) (rx : Received)
    (outcomes : gmap nat TransferOutcome) : bytes * MetaState :=
  let chunks := collect_transfers (rq_file req) (results_of (rx_pending rx) outcomes) in
  let computed := digest (rx_hasher rx) in
  if decide (rq_hash req ≠ [] ∧ computed ≠ rq_hash req) then (error_file_checksum, meta)
  else if decide (chunks = [] ∧ 0 < rq_size req) then (error_no_replicas, meta)
  else (success_msg, store_metadata meta (rq_file req) chunks computed).

Definition handle_client_upload (meta : MetaState) (net : N) (reg_at : nat → Registry)
    (schedule : list nat) (ready_sent : bool) (req : bytes) (stream : bytes) : Upload :=
  match parse_upload_request req with
  | Throw _ => mkUpload [] meta net no_transfers true
  | Val None => mkUpload error_format meta net no_transfers false
  | Val (Some r) =>
    if negb ready_sent then mkUpload [] meta net no_transfers false
    else if decide (rq_size r = 0) then
      let h := match rq_hash r with [] => sha256 [] | h => h end in
      mkUpload (ready_msg ++ success_msg) (store_metadata meta (rq_file r) [] h) net
        no_transfers false
    else
      let '(rx, e) := receive_chunks (S (length stream)) (rq_chunks r) no_transfers stream in
      let '(net', outcomes) := run_transfers net reg_at (rq_file r) (rx_pending rx) schedule in
      match e with
      | RxCrashed | RxOutOfFuel => mkUpload ready_msg meta net' rx true
      | RxStopped msg => mkUpload (ready_msg ++ msg) meta net' rx false
      | RxDone =>
          let '(msg, meta') := finish_upload meta net' r rx outcomes in
          mkUpload (ready_msg ++ msg) meta' net' rx false
      end
  end.
End upload.
