(* ===== verification/UploadSpec.v ===== *)
(** * UploadSpec: what an upload guarantees
    (src/src/head_server/file_upload.cpp)

    Which servers are chosen; that the receive loop ends; that an upload
    answered SUCCESS left, for every record of the metadata, a server that holds
    the chunk; and the uploads that end badly. *)
From Stdlib Require Import Lia SpecFloat.
From S2P Require Import Prelude.
From S2P Require Import Text.
From S2P Require Import Ordered.
From S2P Require Import Float.
From S2P Require Import Sha256.
From S2P Require Import Net.
From S2P Require Import Metadata.
From S2P Require Import Registry.
From S2P Require Import Health.
From S2P Require Import Wire.
From S2P Require Import WireCodec.
From S2P Require Import ChunkStore.
From S2P Require Import ChunkSpec.
From S2P Require Import HeadNet.
From S2P Require Import Cluster.
From S2P Require Import Upload.
Local Open Scope Z_scope.

(** ** Choosing servers *)

(** No server ever reported a NaN. *)
Definition disks_known (hm : gmap Z ServerHealth) : Prop :=
  map_Forall (λ _ h, is_number (disk_usage h)) hm.

Lemma disk_of_number hm srv : disks_known hm → is_number (disk_of hm srv).
Proof.
  intros Hk. unfold disk_of.
  assert (∀ l d, (∀ kv, kv ∈ l → is_number (disk_usage kv.2)) → is_number d →
    is_number (fold_left (λ d (kv : Z * ServerHealth),
      if decide (health_of srv kv) then disk_usage kv.2 else d) l d)) as Hfold.
  { induction l as [|kv l IH]; intros d Hl Hd; [done|]. cbn [fold_left].
    apply IH; [intros x Hx; apply Hl; by right|].
    case_decide; [apply Hl; by left|done]. }
  apply Hfold; [|done]. intros [i h] Hin. by eapply Hk, elem_of_ordered.
Qed.

Lemma less_disk_weak hm l : disks_known hm → strict_weak (less_disk hm) l.
Proof.
  intros Hk. unfold less_disk. pose proof (λ s, disk_of_number hm s Hk) as Hn.
  split_and!; intros; [apply SFltb_irrefl|eapply SFltb_trans; eauto|eapply SFltb_cotrans; eauto].
Qed.

Section selection.
Context `{!StdSort}.
Variable cfg : UploadConfig.

Lemma candidates_known reg hm : candidates cfg reg hm ⊆ known_servers cfg reg.
Proof.
  unfold candidates. destruct (filter _ _) as [|s l] eqn:E; [done|]. rewrite <- E.
  intros x [_ Hx]%list_elem_of_filter. done.
Qed.

Lemma candidates_healthy reg hm s :
  s ∈ candidates cfg reg hm →
  is_candidate hm s = true ∨ Forall (λ t, is_candidate hm t = false) (known_servers cfg reg).
Proof.
  unfold candidates. destruct (filter _ _) as [|t l] eqn:E.
  - intros _. right. apply Forall_forall. intros t Ht.
    destruct (is_candidate hm t) eqn:Et; [|done].
    assert (t ∈ filter (λ s, is_candidate hm s = true) (known_servers cfg reg)) as Hin
      by (by apply list_elem_of_filter). rewrite E in Hin. by apply elem_of_nil in Hin.
  - rewrite <- E. intros [Hs _]%list_elem_of_filter. by left.
Qed.

(** C34: the servers selected for a chunk are distinct known servers, as many
    as the replication factor allows; an unhealthy one is used only when no
    known server is healthy, and no server left out has a lower disk usage
    than one selected. *)
Theorem select_servers_spec (reg : Registry) (hm : gmap Z ServerHealth) (r : Z) :
  disks_known hm →
  let selected := select_servers_for_chunk cfg reg hm r in
  selected ⊆ known_servers cfg reg ∧
  length selected = Z.to_nat (Z.min r (Z.of_nat (length (candidates cfg reg hm)))) ∧
  (NoDup (known_servers cfg reg) → NoDup selected) ∧
  (∀ s, s ∈ selected →
     is_candidate hm s = true ∨ Forall (λ t, is_candidate hm t = false) (known_servers cfg reg)) ∧
  (∀ s t, s ∈ selected → t ∈ candidates cfg reg hm → t ∉ selected → less_disk hm t s = false).
Proof.
  intros Hk. pose proof (less_disk_weak hm (candidates cfg reg hm) Hk) as Hw.
  pose proof (std_sort_perm _ _ Hw) as Hp. pose proof (std_sort_sorted _ _ Hw) as Hs.
  unfold select_servers_for_chunk. cbv zeta.
  set (l := std_sort _ _) in *. set (n := Z.to_nat _).
  assert (∀ s, s ∈ take n l → s ∈ candidates cfg reg hm) as Hin.
  { intros s Hs'. rewrite <- Hp, <- (take_drop n l). apply elem_of_app. by left. }
  split; [|split; [|split; [|split]]].
  - intros s Hs'. by eapply candidates_known, Hin.
  - rewrite length_take, <- Hp. subst n. lia.
  - intros Hnd. assert (NoDup l) as Hl.
    { rewrite Hp. unfold candidates. destruct (filter _ _) eqn:E; [done|].
      rewrite <- E. by apply NoDup_filter. }
    rewrite <- (take_drop n l) in Hl. by apply NoDup_app in Hl as [? _].
  - intros s Hs'. by apply candidates_healthy, Hin.
  - intros s t Hs' Ht Hnt. rewrite <- (take_drop n l) in Hs.
    rewrite <- Hp, <- (take_drop n l) in Ht. apply elem_of_app in Ht as [?|Ht]; [done|].
    by eapply StronglySorted_app_1_elem_of in Hs.
Qed.
End selection.

(** ** Recording the chunks *)
Definition record_of (c : ChunkInfo) : ChunkRecord :=
  mkChunk (ci_chunk_id c) (ci_server_ip c) (ci_file_path c) (ci_checksum c) (ci_replica_count c).

(** Chunk descriptions the request format can carry. *)
Record info_ok (c : ChunkInfo) : Prop := {
  io_chunk : wf_chunk (record_of c);
  io_count : 0 < ci_replica_count c ≤ INT_MAX
}.

Lemma getline_cons d l rest :
  no_char d l → getline d (l ++ d :: rest) = Some (l, rest).
Proof.
  intros Hl. assert (l ++ d :: rest ≠ []) as Hne by (by destruct l). unfold getline.
  destruct (l ++ d :: rest) as [|c s] eqn:E; [done|]. rewrite <- E. clear E Hne.
  assert (Forall (λ c, negb (bool_decide (c = d)) = true) l) as HF.
  { apply Forall_forall. intros x Hx. apply negb_true_iff, bool_decide_eq_false.
    intros ->. by apply Hl. }
  rewrite take_while_app, drop_while_app by done. simpl.
  rewrite bool_decide_true by done. simpl. by rewrite app_nil_r.
Qed.

Lemma to_text_cons l ls : to_text (l :: ls) = l ++ nl :: to_text ls.
Proof. unfold to_text. cbn [map concat]. by rewrite <- app_assoc. Qed.

Lemma filter_nonempty (ls : list bytes) : Forall (λ l, l ≠ []) ls → filter (λ l, l ≠ []) ls = ls.
Proof.
  induction 1 as [|l ls Hl _ IH]; [done|]. rewrite filter_cons, decide_True by done. by rewrite IH.
Qed.

Lemma pop_prefixed_here p v ls : pop_prefixed p ((p ++ v) :: ls) = (Some v, ls).
Proof. unfold pop_prefixed. by rewrite starts_with_app, drop_app_length. Qed.

Lemma info_line_parsed c : info_ok c → parse_entry_line (info_line c) = Some (record_of c).
Proof.
  intros [[Hid Hs Hp Hc] Hn]. unfold parse_entry_line, info_line. simpl in *.
  unfold read_ll. rewrite read_range_show by done. cbn [mbind option_bind].
  rewrite read_word_skip, read_word_sep by done. cbn [mbind option_bind].
  rewrite read_word_skip, read_word_sep by done. cbn [mbind option_bind].
  rewrite (read_tail_words 0 (ci_checksum c) (ci_replica_count c)); [done|done| |done].
  unfold INT_MIN. lia.
Qed.

Lemma info_line_text c : info_ok c → no_char nl (info_line c) ∧ info_line c ≠ [].
Proof.
  intros [[_ [_ Hs] [_ Hp] [_ Hc]] _]. simpl in *.
  assert (∀ z, Forall (λ c, is_space c = false) (show_Z z)) as Hz by (intros; apply word_show_Z).
  unfold info_line. split.
  - unfold no_char. rewrite !not_elem_of_app, !not_elem_of_cons.
    assert (∀ w, Forall (λ c, is_space c = false) w → nl ∉ w) as Hw by (intros; by apply word_no_nl).
    rewrite !not_elem_of_app, !not_elem_of_cons. rewrite !not_elem_of_app, !not_elem_of_cons.
    rewrite !not_elem_of_app, !not_elem_of_cons. auto 20.
  - intros E. apply app_eq_nil in E as [_ ?]. done.
Qed.

Section metadata.
Context `{!HashOrder bytes FileRecord}.
Variable cfg : UploadConfig.

(** The lines of a request, as both metadata backends read them. *)
Lemma request_lines file cs hash :
  no_char nl file → no_char nl hash → Forall info_ok cs →
  ∃ rest, getline nl (metadata_request cfg file cs hash) = Some (file, rest) ∧
    getlines nl rest = (lit "TTL=" ++ lit "3600") :: (lit "HASH=" ++ hash)
      :: (lit "REPLICAS=" ++ show_Z (replication_factor cfg)) :: map info_line cs.
Proof.
  intros Hf Hh Hcs. unfold metadata_request. rewrite <- app_comm_cons, to_text_cons, getline_cons by done.
  eexists. split; [done|]. rewrite getlines_to_text; [done|]. cbn [app].
  assert (∀ p v, no_char nl p → no_char nl v → no_char nl (p ++ v)) as Happ.
  { intros p v Hp Hv. unfold no_char. rewrite not_elem_of_app. done. }
  repeat apply Forall_cons_2.
  - by apply (bool_decide_unpack (nl ∉ lit "TTL=3600")).
  - apply Happ; [|done]. by apply (bool_decide_unpack (nl ∉ lit "HASH=")).
  - apply Happ; [|by apply word_no_nl, word_show_Z]. by apply (bool_decide_unpack (nl ∉ lit "REPLICAS=")).
  - apply Forall_fmap. eapply Forall_impl; [exact Hcs|]. intros c Hc. by apply info_line_text.
Qed.

Lemma info_lines_parsed cs :
  Forall info_ok cs → omap parse_entry_line (map info_line cs) = map record_of cs.
Proof.
  induction 1 as [|c cs Hc _ IH]; [done|].
  cbn [map omap list_omap]. rewrite info_line_parsed by done. by rewrite <- IH.
Qed.

Lemma fill_counts_infos infos :
  Forall info_ok infos → fill_counts (map record_of infos) = map record_of infos.
Proof.
  intros H. apply fill_counts_positive, Forall_fmap.
  eapply Forall_impl; [exact H|]. by intros c [_ [? _]].
Qed.

(** What [store_metadata] makes of its request, line by line. *)
Lemma store_metadata_replaces s file cs hash :
  no_char nl file → no_char nl hash → Forall info_ok cs → int32_ok (replication_factor cfg) →
  store_metadata cfg s file cs hash =
    replace_file_chunks s file hash (map record_of cs)
      (default_file_replicas (replication_factor cfg) (map record_of cs)).
Proof.
  intros Hf Hh Hcs Hr. unfold store_metadata, create_entry.
  destruct (request_lines file cs hash Hf Hh Hcs) as (rest & -> & E). cbn [default id].
  rewrite E, filter_nonempty.
  2: { repeat apply Forall_cons_2; try done. apply Forall_fmap.
       eapply Forall_impl; [exact Hcs|]. intros c Hc. by apply info_line_text. }
  rewrite !pop_prefixed_here. cbn [default id]. rewrite stoi_show by done.
  cbn [try_catch]. rewrite info_lines_parsed by done.
  by rewrite fill_counts_infos.
Qed.
End metadata.

(** ** Transfers: an accepted chunk stays held *)
Definition key_ok (file : bytes) (cid : Z) : Prop := text_ok (chunk_key file cid) ∧ text_ok file.

Lemma chunk_key_inj file c c' : chunk_key file c = chunk_key file c' → c = c'.
Proof.
  unfold chunk_key, unique_chunk_id. intros E. apply app_inv_head, app_inv_head in E.
  by apply show_Z_inj.
Qed.

Section transfers.
Context {N : Type} `{!Network N} `{!Protobuf} `{!ChunkCluster N}.
Variables (reg : Registry) (file : bytes).

Definition task_ok (t : PendingTransfer) : Prop :=
  key_ok file (pt_chunk_id t) ∧ data_ok (pt_data t).

(** Chunks of the same id carry the same data. *)
Definition coherent (tasks : list PendingTransfer) : Prop :=
  ∀ t t', t ∈ tasks → t' ∈ tasks → pt_chunk_id t = pt_chunk_id t' → pt_data t = pt_data t'.

Definition stored (net : N) (t : PendingTransfer) : Prop :=
  held net (endpoint reg (pt_server t)) !! chunk_key file (pt_chunk_id t) = Some (pt_data t).

Lemma send_chunk_stores net t net' o :
  cluster_wf net → task_ok t →
  send_chunk_to_server net reg (pt_server t) (pt_chunk_id t) (pt_data t) file = (net', o) →
  cluster_wf net' ∧ (o.1 = true → stored net' t) ∧
  (∀ t0, (pt_chunk_id t0 = pt_chunk_id t → pt_data t0 = pt_data t) → stored net t0 → stored net' t0).
Proof.
  intros Hwf [[Hk Hf] Hd]. unfold send_chunk_to_server, call.
  destruct (endpoint reg (pt_server t)) as [h p] eqn:He.
  destruct (exchange net h p _) as [net1 ans] eqn:Ex. intros [= <- <-].
  assert (wire_ok (mkChunkData (chunk_key file (pt_chunk_id t)) file (pt_data t))) as Hw by done.
  destruct (store_law _ _ _ _ _ _ _ _ Hwf Hw Ex) as (Hwf' & Hother & Hthis).
  split; [done|]. unfold stored. rewrite He. split.
  - destruct Hthis as [Hh|[_ Hno]]; [rewrite Hh; intros _; apply lookup_insert_eq|by rewrite Hno].
  - intros t0 Hsame Hst. destruct (decide (endpoint reg (pt_server t0) = (h, p))) as [E|Hne].
    + rewrite E in Hst |- *. destruct Hthis as [->|[-> _]]; [|done].
      rewrite lookup_insert. case_decide as Hkey; [|done].
      apply chunk_key_inj in Hkey. by rewrite Hsame.
    + by rewrite Hother.
Qed.

Lemma run_transfers_stored net tasks schedule net' m :
  cluster_wf net → Forall task_ok tasks → coherent tasks →
  run_transfers net (λ _, reg) file tasks schedule = (net', m) →
  cluster_wf net' ∧
  (∀ t, t ∈ tasks → stored net t → stored net' t) ∧
  (∀ i t path, tasks !! i = Some t → m !! i = Some (true, path) → stored net' t).
Proof.
  intros Hwf Hok Hco Hrun. rewrite Forall_forall in Hok.
  destruct (run_pool_inv
    (λ net _ t, send_chunk_to_server net reg (pt_server t) (pt_chunk_id t) (pt_data t) file)
    cluster_wf (λ net t o, o.1 = true → stored net t) tasks) with schedule net net' m
    as (Hwf' & Hkeep & Hget); [|done|done|].
  - intros n i t n' o Hn Hi Hs. apply list_elem_of_lookup_2 in Hi.
    destruct (send_chunk_stores _ _ _ _ Hn (Hok t Hi) Hs) as (Hn' & Hnew & Hold).
    split; [done|]. split; [done|]. intros t0 o0 Ht0 Hst Ho. apply Hold; [by apply Hco|by apply Hst].
  - split; [done|]. split.
    + intros t Ht Hst. by apply (Hkeep t (true, [])).
    + intros i t path Hi Hm. by apply (Hget i t (true, path)).
Qed.
End transfers.

(** The registry may change from one transfer to the next ([reg_at]), and the
    client may have sent several contents under one id: the server named by a
    transfer that succeeded then holds one of them. *)
Section any_transfers.
Context {N : Type} `{!Network N} `{!Protobuf} `{!ChunkCluster N}.
Variables (reg_at : nat → Registry) (file : bytes) (tasks : list PendingTransfer).

Definition holds_one (net : N) (ep : bytes * Z) (cid : Z) : Prop :=
  ∃ t, t ∈ tasks ∧ pt_chunk_id t = cid ∧ held net ep !! chunk_key file cid = Some (pt_data t).

Lemma send_chunk_holds reg net t net' o :
  cluster_wf net → t ∈ tasks → task_ok file t →
  send_chunk_to_server net reg (pt_server t) (pt_chunk_id t) (pt_data t) file = (net', o) →
  cluster_wf net' ∧ (o.1 = true → holds_one net' (endpoint reg (pt_server t)) (pt_chunk_id t)) ∧
  (∀ ep cid, holds_one net ep cid → holds_one net' ep cid).
Proof.
  intros Hwf Ht [[Hk Hf] Hd]. unfold send_chunk_to_server, call.
  destruct (endpoint reg (pt_server t)) as [h p] eqn:He.
  destruct (exchange net h p _) as [net1 ans] eqn:Ex. intros [= <- <-].
  assert (wire_ok (mkChunkData (chunk_key file (pt_chunk_id t)) file (pt_data t))) as Hw by done.
  destruct (store_law _ _ _ _ _ _ _ _ Hwf Hw Ex) as (Hwf' & Hother & Hthis).
  split; [done|]. split.
  - destruct Hthis as [Hh|[_ Hno]]; [|by rewrite Hno]. intros _. exists t. rewrite Hh.
    split_and!; [done..|]. apply lookup_insert_eq.
  - intros ep cid (t0 & Hin & Hid & Hst). destruct (decide (ep = (h, p))) as [->|Hne].
    + destruct Hthis as [Hh|[Hh _]]; [|exists t0; by rewrite Hh].
      destruct (decide (pt_chunk_id t = cid)) as [<-|Hcid].
      * exists t. rewrite Hh, lookup_insert_eq. done.
      * exists t0. rewrite Hh, lookup_insert_ne; [done|]. by intros ?%chunk_key_inj.
    + exists t0. by rewrite Hother.
Qed.

Lemma run_transfers_hold net schedule net' m :
  cluster_wf net → Forall (task_ok file) tasks →
  run_transfers net reg_at file tasks schedule = (net', m) →
  ∀ i t path, tasks !! i = Some t → m !! i = Some (true, path) →
  ∃ k, holds_one net' (endpoint (reg_at k) (pt_server t)) (pt_chunk_id t).
Proof.
  intros Hwf Hok Hrun. rewrite Forall_forall in Hok.
  destruct (run_pool_inv
    (λ net i t, send_chunk_to_server net (reg_at i) (pt_server t) (pt_chunk_id t) (pt_data t) file)
    cluster_wf (λ net t o, o.1 = true →
      ∃ k, holds_one net (endpoint (reg_at k) (pt_server t)) (pt_chunk_id t)) tasks)
    with schedule net net' m as (_ & _ & Hget); [|done|done|].
  - intros n i t n' o Hn Hi Hs. apply list_elem_of_lookup_2 in Hi.
    destruct (send_chunk_holds _ _ _ _ _ Hn Hi (Hok t Hi) Hs) as (Hn' & Hnew & Hold).
    split; [done|]. split; [by eauto|]. intros t0 o0 Ht0 Hst Ho.
    destruct (Hst Ho) as [k Hk]. exists k. by apply Hold.
  - intros i t path Hi Hm. by apply (Hget i t (true, path)).
Qed.
End any_transfers.

(** ** The receive loop *)
Section receiving.
Context `{!StdSort}.
Variables (cfg : UploadConfig) (max_alloc : Z) (view_at : nat → Registry * gmap Z ServerHealth).

(** A transfer of a chunk that arrived, to a server known at the time. *)
Definition task_of (rx : Received) (t : PendingTransfer) : Prop :=
  (pt_chunk_id t, pt_data t) ∈ rx_chunks rx ∧ pt_checksum t = sha256 (pt_data t) ∧
  ∃ k, pt_server t ∈ known_servers cfg (view_at k).1.

Record rx_wf (rx : Received) : Prop := {
  rxw_hash : rx_hasher rx = fold_left update_bytes (rx_chunks rx).*2 fresh;
  rxw_tasks : Forall (task_of rx) (rx_pending rx);
  rxw_chunks : Forall (λ c, int32_ok c.1 ∧ Z.of_nat (length c.2) ≤ max_alloc) (rx_chunks rx)
}.

Definition error_text (e : bytes) : Prop := e = [] ∨ starts_with (lit "ERROR") e = true.

Lemma error_text_lit (s : string) rest :
  starts_with (lit "ERROR") (lit s) = true → error_text (lit s ++ rest).
Proof.
  intros Hs. right. apply starts_with_spec in Hs as [t ->]. rewrite <- app_assoc.
  apply starts_with_app.
Qed.

Lemma read_int_range s z rest : read_int s = Some (z, rest) → int32_ok z.
Proof.
  unfold read_int, read_range. destruct (scan_int s) as [[[neg m] r]|]; [|done].
  cbn [mbind option_bind]. case_decide; [|done]. intros [= <- _]. done.
Qed.

Lemma parse_chunk_header_ranges line cid size h :
  parse_chunk_header line = Some (cid, size, h) → int32_ok cid ∧ 0 ≤ size.
Proof.
  unfold parse_chunk_header. destruct (read_int _) as [[z r]|] eqn:E; [|done].
  cbn [mbind option_bind]. destruct (read_u64 r) as [[u r']|] eqn:Eu; [|done].
  cbn [mbind option_bind]. destruct (read_word r') as [[w ?]|]; [|done].
  cbn [mbind option_bind]. intros [= <- <- <-]. split; [by eapply read_int_range|].
  unfold read_u64 in Eu. destruct (scan_int r) as [[[neg m] ?]|]; [|done].
  cbn [mbind option_bind] in Eu. case_decide; [|done]. injection Eu as <- _.
  apply Z.mod_pos_bound. lia.
Qed.

Lemma no_transfers_wf : rx_wf no_transfers.
Proof. constructor; [done|apply Forall_nil_2|apply Forall_nil_2]. Qed.

Hypothesis Hviews : ∀ k, disks_known (view_at k).2.

Lemma selected_known k r s :
  s ∈ select_servers_for_chunk cfg (view_at k).1 (view_at k).2 r →
  s ∈ known_servers cfg (view_at k).1.
Proof.
  intros Hs. unfold select_servers_for_chunk in Hs.
  pose proof (std_sort_perm _ _ (less_disk_weak _ (candidates cfg (view_at k).1 (view_at k).2)
                (Hviews k))) as Hp.
  set (l := std_sort _ _) in *. eapply candidates_known. rewrite <- Hp.
  rewrite <- (take_drop (Z.to_nat (Z.min r (Z.of_nat (length l)))) l).
  apply elem_of_app. by left.
Qed.

Lemma take_chunk_wf rx cid data :
  rx_wf rx → int32_ok cid → Z.of_nat (length data) ≤ max_alloc →
  rx_wf (take_chunk cfg view_at rx cid data).
Proof.
  intros [Hh Ht Hc] Hid Hlen. unfold take_chunk.
  destruct (view_at (length (rx_chunks rx))) as [reg hm] eqn:Ev. constructor; cbn.
  - by rewrite fmap_app, fold_left_app, Hh.
  - apply Forall_app. split.
    + eapply Forall_impl; [exact Ht|]. intros t (H1 & H2 & H3). split; [|done].
      apply elem_of_app. by left.
    + unfold submit_chunk_transfers. apply Forall_fmap, Forall_forall. intros s Hs. split.
      * apply elem_of_app. right. by apply list_elem_of_singleton.
      * split; [done|]. exists (length (rx_chunks rx)).
        eapply (selected_known _ (replication_factor cfg)). by rewrite Ev.
  - apply Forall_app. split; [done|]. by apply Forall_singleton.
Qed.

Lemma receive_chunks_wf fuel n rx s rx' e :
  rx_wf rx → receive_chunks cfg max_alloc view_at fuel n rx s = (rx', e) →
  rx_wf rx' ∧ match e with RxStopped msg => error_text msg | _ => True end.
Proof.
  revert rx s. induction fuel as [|fuel IH]; intros rx s Hwf; cbn [receive_chunks].
  { by intros [= <- <-]. }
  case_decide; [by intros [= <- <-]|]. destruct (read_line s) as [line rest].
  case_decide; [by intros [= <- <-]; split; [|left]|].
  destruct (starts_with _ line).
  - destruct (parse_chunk_header line) as [[[cid size] h]|] eqn:Eh.
    2: { intros [= <- <-]. split; [done|]. by apply error_text_lit. }
    case_decide; [by intros [= <- <-]|].
    destruct (recv_exact (Z.to_nat size) rest) as [[data rest']|] eqn:Er.
    2: { intros [= <- <-]. split; [done|]. by left. }
    case_decide; [|intros [= <- <-]; split; [done|]; by apply error_text_lit].
    apply recv_exact_Some in Er as [_ Hlen]. apply IH. apply take_chunk_wf; [done| |].
    + by eapply parse_chunk_header_ranges.
    + apply parse_chunk_header_ranges in Eh as [_ Hs]. lia.
  - case_decide; [by intros [= <- <-]|]. intros [= <- <-]. split; [done|]. by apply error_text_lit.
Qed.
End receiving.

(** ** The fuel of the receive loop is enough *)
Lemma read_line_shorter s line rest :
  read_line s = (line, rest) → line ≠ [] → (length rest < length s)%nat.
Proof.
  unfold read_line. destruct (find_char nl s) as [i|] eqn:E; intros [= <- <-] Hne.
  - assert (s ≠ []) by (by intros ->). rewrite length_drop. destruct s; [done|]. simpl. lia.
  - simpl. destruct s; [done|]. simpl. lia.
Qed.

Lemma receive_chunks_fuel `{!StdSort} cfg max_alloc view_at fuel fuel' n rx s :
  (length s < fuel)%nat → (length s < fuel')%nat →
  receive_chunks cfg max_alloc view_at fuel n rx s =
  receive_chunks cfg max_alloc view_at fuel' n rx s.
Proof.
  revert fuel' rx s. induction fuel as [|fuel IH]; intros [|fuel'] rx s Hf Hf'; try lia.
  cbn [receive_chunks]. case_decide; [done|].
  destruct (read_line s) as [line rest] eqn:El. case_decide as Hne; [done|].
  pose proof (read_line_shorter _ _ _ El Hne) as Hlt.
  destruct (starts_with _ line); [|done].
  destruct (parse_chunk_header line) as [[[cid size] h]|]; [|done].
  case_decide; [done|].
  destruct (recv_exact (Z.to_nat size) rest) as [[data rest']|] eqn:Er; [|done].
  case_decide; [|done]. apply recv_exact_Some in Er as [-> _]. rewrite length_app in Hlt.
  apply IH; lia.
Qed.

(** ** What is recorded *)
Section recording.
Variable file : bytes.

Lemma elem_of_results tasks (m : gmap nat TransferOutcome) t o :
  (t, o) ∈ results_of tasks m →
  ∃ i, tasks !! i = Some t ∧ o = default (false, []) (m !! i).
Proof.
  unfold results_of. intros Hin. apply list_elem_of_lookup_1 in Hin as [i Hi].
  rewrite list_lookup_imap in Hi. apply fmap_Some in Hi as (t' & Ht & [= -> ->]). eauto.
Qed.

Lemma elem_of_collect results c :
  c ∈ collect_transfers file results →
  ∃ t path, (t, (true, path)) ∈ results ∧ ci_chunk_id c = pt_chunk_id t ∧
    ci_server_ip c = pt_server t ∧ ci_checksum c = pt_checksum t ∧
    (path = [] ∧ ci_file_path c = assumed_path (pt_server t) file (pt_chunk_id t) ∨
     path ≠ [] ∧ ci_file_path c = path).
Proof.
  unfold collect_transfers, succeeded. intros Hin.
  apply list_elem_of_fmap in Hin as ([t [ok path]] & -> & [Hok Hin]%list_elem_of_filter).
  simpl in Hok. subst ok. exists t, path. split; [done|]. simpl.
  split_and!; try done. destruct path; [by left|by right].
Qed.

Lemma collect_counts results c :
  c ∈ collect_transfers file results →
  ci_replica_count c =
    occurrences (map record_of (collect_transfers file results)) (ci_chunk_id c) ∧
  0 < ci_replica_count c.
Proof.
  intros Hin.
  assert (∀ cid, occurrences (map record_of (collect_transfers file results)) cid =
     Z.of_nat (length (filter (λ r' : PendingTransfer * TransferOutcome,
                                 pt_chunk_id r'.1 = cid) (succeeded results)))) as Hocc.
  { intros cid. unfold occurrences, collect_transfers. rewrite map_map. f_equal.
    generalize (succeeded results) at 2 3. intros l.
    induction l as [|[t [ok path]] l IH]; [done|]. cbn [map]. rewrite !filter_cons.
    cbn [chunk_id record_of ci_chunk_id fst]. case_decide; cbn [length]; by rewrite IH. }
  split.
  - rewrite Hocc. unfold collect_transfers in Hin.
    apply list_elem_of_fmap in Hin as ([t [ok path]] & -> & _). done.
  - assert (record_of c ∈ map record_of (collect_transfers file results)) as Hr
      by (by apply list_elem_of_fmap_2).
    pose proof (occurrences_pos _ _ Hr) as Hpos. simpl in Hpos. rewrite Hocc in Hpos.
    unfold collect_transfers in Hin.
    apply list_elem_of_fmap in Hin as ([t [ok path]] & -> & _). done.
Qed.
End recording.

Lemma word_assumed_path srv file cid : word srv → word file → word (assumed_path srv file cid).
Proof.
  intros [_ Hs] [_ Hf]. unfold assumed_path. apply word_app; [lit_word|].
  repeat apply Forall_app_2; try done; [by apply (bool_decide_unpack (Forall _ (lit "_")))|
    by apply (bool_decide_unpack (Forall _ (lit "_chunk_")))|apply word_show_Z].
Qed.

Section durable.
Context `{!StdSort} `{!HashOrder bytes FileRecord} {N : Type} `{!Network N} `{!Protobuf}
  `{!ChunkCluster N}.
Variables (cfg : UploadConfig) (max_alloc : Z) (view_at : nat → Registry * gmap Z ServerHealth).

(** What the environment guarantees while a file is uploaded. *)
Record upload_env (file : bytes) : Prop := {
  ue_file : word file;
  ue_keys : ∀ cid, int32_ok cid → key_ok file cid;
  ue_alloc : max_alloc ≤ 2 ^ 30;
  ue_factor : int32_ok (replication_factor cfg);
  ue_disks : ∀ k, disks_known (view_at k).2;
  ue_servers : ∀ k s, s ∈ known_servers cfg (view_at k).1 → word s
}.

(** Paths reported by servers that the metadata format can carry. *)
Definition paths_ok (m : gmap nat TransferOutcome) : Prop :=
  map_Forall (λ _ o, o.1 = true → o.2 = [] ∨ word o.2) m.

Lemma collected_info file rx m :
  upload_env file → rx_wf cfg max_alloc view_at rx → paths_ok m →
  Z.of_nat (length (rx_pending rx)) ≤ INT_MAX →
  Forall info_ok (collect_transfers file (results_of (rx_pending rx) m)).
Proof.
  intros He [_ Ht Hc] Hp Hsmall. apply Forall_forall. intros c Hin.
  destruct (collect_counts file _ c Hin) as [Hcount Hpos].
  destruct (elem_of_collect file _ c Hin) as (t & path & Hr & Hid & Hsrv & Hchk & Hpath).
  apply elem_of_results in Hr as (i & Hi & Ho).
  rewrite Forall_forall in Ht. destruct (Ht t) as (Hin' & Hsum & k & Hk).
  { by eapply list_elem_of_lookup_2. }
  rewrite Forall_forall in Hc. destruct (Hc _ Hin') as [Hcid _]. cbn in Hcid.
  constructor; [constructor|split; [done|]]; simpl.
  - rewrite Hid. revert Hcid. unfold int32_ok, INT_MIN, INT_MAX, LLONG_MIN, LLONG_MAX. lia.
  - rewrite Hsrv. by eapply (ue_servers _ He).
  - destruct Hpath as [[_ ->]|[Hne ->]].
    + apply word_assumed_path; [by eapply (ue_servers _ He)|apply He].
    + destruct (m !! i) as [o|] eqn:Em; [|done]. simpl in Ho. subst o.
      by destruct (Hp _ _ Em eq_refl).
  - rewrite Hchk, Hsum. apply sha256_word.
  - rewrite Hcount. etransitivity; [apply occurrences_le|]. rewrite length_map.
    unfold collect_transfers. rewrite length_map. etransitivity; [|exact Hsmall].
    apply Nat2Z.inj_le. etransitivity; [apply length_filter|]. unfold results_of.
    by rewrite length_imap.
Qed.

Lemma pending_ok file rx :
  upload_env file → rx_wf cfg max_alloc view_at rx → Forall (task_ok file) (rx_pending rx).
Proof.
  intros He [_ Ht Hc]. eapply Forall_impl; [exact Ht|]. intros t (Hin & _).
  rewrite Forall_forall in Hc. destruct (Hc _ Hin) as [H1 H2].
  split; [by apply (ue_keys _ He)|]. cbn in H2. unfold data_ok. pose proof (ue_alloc _ He). lia.
Qed.

Lemma pending_coherent rx :
  rx_wf cfg max_alloc view_at rx → NoDup (rx_chunks rx).*1 → coherent (rx_pending rx).
Proof.
  intros [_ Ht _] Hnd t1 t2 H1 H2 E. rewrite Forall_forall in Ht.
  destruct (Ht t1 H1) as (Hc1 & _). destruct (Ht t2 H2) as (Hc2 & _).
  apply list_elem_of_lookup_1 in Hc1 as [j1 Hj1]. apply list_elem_of_lookup_1 in Hc2 as [j2 Hj2].
  assert (j1 = j2) as ->; [|rewrite Hj1 in Hj2; by injection Hj2].
  eapply (NoDup_lookup _ _ _ _ Hnd).
  - by rewrite list_lookup_fmap, Hj1.
  - by rewrite list_lookup_fmap, Hj2; simpl; rewrite E.
Qed.

(** Every record made from the transfers names a chunk that arrived, and its
    server holds something that arrived under that id. *)
Lemma collected_stored file reg_at net schedule net' rx m info :
  cluster_wf net → upload_env file → rx_wf cfg max_alloc view_at rx →
  run_transfers net reg_at file (rx_pending rx) schedule = (net', m) →
  info ∈ collect_transfers file (results_of (rx_pending rx) m) →
  ∃ data held_data k,
    (ci_chunk_id info, data) ∈ rx_chunks rx ∧ ci_checksum info = sha256 data ∧
    (ci_chunk_id info, held_data) ∈ rx_chunks rx ∧
    held net' (endpoint (reg_at k) (ci_server_ip info)) !! chunk_key file (ci_chunk_id info) =
      Some held_data.
Proof.
  intros Hwf He Hrx Etr Hin.
  destruct (elem_of_collect _ _ info Hin) as (t & path & Hr & -> & -> & -> & _).
  apply elem_of_results in Hr as (i & Hi & Ho).
  pose proof (rxw_tasks _ _ _ _ Hrx) as Ht. rewrite Forall_forall in Ht.
  destruct (Ht t) as (Hin' & Hsum & _); [by eapply list_elem_of_lookup_2|].
  destruct (m !! i) as [o|] eqn:Em; [|done]. cbn in Ho. subst o.
  destruct (run_transfers_hold reg_at file (rx_pending rx) net schedule net' m Hwf) with i t path
    as (k & t' & Ht' & Hid & Hheld); [by apply pending_ok|done..|].
  exists (pt_data t), (pt_data t'), k. split_and!; [done..| |done].
  destruct (Ht t' Ht') as (Hin2 & _). by rewrite <- Hid.
Qed.

Lemma parse_upload_request_ranges req r :
  parse_upload_request cfg req = Val (Some r) → 0 ≤ rq_size r ∧ word (rq_hash r).
Proof.
  unfold parse_upload_request. pose proof (words_words req) as Hw. rewrite Forall_forall in Hw.
  destruct (words req) as [|u [|f [|sz [|a l]]]]; try done.
  assert (∀ x, x ∈ [u; f; sz] ++ a :: l → word x) as Hw' by exact Hw.
  destruct l as [|h l]; (case_decide; [|done]); (destruct (stoull sz) as [size|] eqn:Es; [|done]);
    cbn [mbind exc_bind]; apply stoull_range in Es.
  - intros [= <-]. split; [simpl; lia|]. apply Hw'. set_solver.
  - destruct (stoull a); [|done]. cbn [mbind exc_bind]. intros [= <-].
    split; [simpl; lia|]. apply Hw'. set_solver.
Qed.

(** What SUCCESS leaves behind, for an announced size that is not 0. *)
Lemma upload_durable_at (meta : MetaState) (net : N) (reg_at : nat → Registry)
    (schedule : list nat) (req stream : bytes) (r : UploadRequest) :
  let u := handle_client_upload cfg max_alloc view_at meta net reg_at schedule true req stream in
  parse_upload_request cfg req = Val (Some r) → 0 < rq_size r →
  up_crashed u = false → up_sent u = ready_msg ++ success_msg →
  cluster_wf net → upload_env (rq_file r) →
  Z.of_nat (length (rx_pending (up_received u))) ≤ INT_MAX →
  paths_ok (run_transfers net reg_at (rq_file r) (rx_pending (up_received u)) schedule).2 →
  ∃ rec, store (up_meta u) !! rq_file r = Some rec ∧
    file_hash rec = sha256 (concat (rx_chunks (up_received u)).*2) ∧
    (rq_hash r = [] ∨ rq_hash r = file_hash rec) ∧
    chunks rec ≠ [] ∧
    ∀ c, c ∈ chunks rec → ∃ data held_data k,
      (chunk_id c, data) ∈ rx_chunks (up_received u) ∧ checksum c = sha256 data ∧
      replica_count c = occurrences (chunks rec) (chunk_id c) ∧
      (chunk_id c, held_data) ∈ rx_chunks (up_received u) ∧
      held (up_net u) (endpoint (reg_at k) (server c)) !! chunk_key (rq_file r) (chunk_id c) =
        Some held_data.
Proof.
  cbv zeta. intros Hparse Hsize. unfold handle_client_upload. rewrite Hparse. cbn [negb].
  rewrite decide_False by lia.
  destruct (receive_chunks _ _ _ _ _ _ _) as [rx e] eqn:Erx.
  destruct (run_transfers net _ _ (rx_pending rx) schedule) as [net' m] eqn:Etr.
  intros Hcrash Hsent Hwf He Hsmall Hpaths.
  destruct (receive_chunks_wf cfg max_alloc view_at (ue_disks _ He) _ _ _ _ _ _
              (no_transfers_wf cfg max_alloc view_at) Erx) as [Hrx Hmsg].
  destruct e as [|msg| |]; cbn [up_sent up_crashed] in Hcrash, Hsent; [|exfalso|done..].
  2: { apply app_inv_head in Hsent. subst msg. by destruct Hmsg. }
  unfold finish_upload in *. set (infos := collect_transfers _ _) in *.
  case_decide as Hhash; [cbn in Hsent; discriminate Hsent|].
  case_decide as Hno; [cbn in Hsent; discriminate Hsent|].
  cbn [up_received up_meta up_net] in *. rewrite Etr in Hpaths. cbn in Hpaths.
  assert (Forall info_ok infos) as Hinfos by (by eapply collected_info).
  assert (digest (rx_hasher rx) = sha256 (concat (rx_chunks rx).*2)) as Hdig
    by (by rewrite (rxw_hash _ _ _ _ Hrx), sha256_pieces).
  rewrite store_metadata_replaces; [|apply word_no_nl, He|apply word_no_nl; rewrite Hdig;
    apply sha256_word|done|apply He].
  unfold replace_file_chunks. rewrite persist_locked_store. cbn [store with_store].
  rewrite lookup_insert_eq. eexists. split; [done|]. cbn [file_hash chunks].
  rewrite fill_counts_infos by done. split; [done|]. split.
  { destruct (decide (rq_hash r = [])) as [|Hne]; [by left|right].
    destruct (decide (digest (rx_hasher rx) = rq_hash r)) as [E|Hd]; [done|].
    exfalso. apply Hhash. by split. }
  split.
  { intros E. apply Hno. split; [|done]. by destruct infos. }
  intros c Hc. apply list_elem_of_fmap in Hc as (info & -> & Hin).
  destruct (collected_stored _ _ _ _ _ _ _ _ Hwf He Hrx Etr Hin) as (data & hd & k & ? & ? & ? & ?).
  exists data, hd, k. split; [done|]. split; [done|]. split; [|done].
  by apply (collect_counts _ _ info Hin).
Qed.

(** The same with one registry and one content for each id. *)
Lemma upload_durable (meta : MetaState) (net : N) (reg : Registry)
    (schedule : list nat) (req stream : bytes) (r : UploadRequest) :
  let u := handle_client_upload cfg max_alloc view_at meta net (λ _, reg) schedule true req stream in
  parse_upload_request cfg req = Val (Some r) → 0 < rq_size r →
  up_crashed u = false → up_sent u = ready_msg ++ success_msg →
  cluster_wf net → upload_env (rq_file r) →
  NoDup (rx_chunks (up_received u)).*1 →
  Z.of_nat (length (rx_pending (up_received u))) ≤ INT_MAX →
  paths_ok (run_transfers net (λ _, reg) (rq_file r) (rx_pending (up_received u)) schedule).2 →
  ∃ rec, store (up_meta u) !! rq_file r = Some rec ∧
    file_hash rec = sha256 (concat (rx_chunks (up_received u)).*2) ∧
    (rq_hash r = [] ∨ rq_hash r = file_hash rec) ∧
    chunks rec ≠ [] ∧
    ∀ c, c ∈ chunks rec → ∃ data,
      (chunk_id c, data) ∈ rx_chunks (up_received u) ∧ checksum c = sha256 data ∧
      replica_count c = occurrences (chunks rec) (chunk_id c) ∧
      held (up_net u) (endpoint reg (server c)) !! chunk_key (rq_file r) (chunk_id c) = Some data.
Proof.
  cbv zeta. intros Hparse Hsize Hcrash Hsent Hwf He Hnd Hsmall Hpaths.
  destruct (upload_durable_at meta net (λ _, reg) schedule req stream r Hparse Hsize Hcrash Hsent
    Hwf He Hsmall Hpaths) as (rec & H1 & H2 & H3 & H4 & Hc).
  exists rec. split_and!; [done..|]. intros c Hin.
  destruct (Hc c Hin) as (data & hd & _ & Hd & ? & ? & Hhd & Hheld).
  exists data. split_and!; [done..|]. rewrite Hheld. f_equal.
  apply list_elem_of_lookup_1 in Hd as [i Hi]. apply list_elem_of_lookup_1 in Hhd as [j Hj].
  assert (i = j) as <-; [|rewrite Hi in Hj; by injection Hj].
  eapply (NoDup_lookup _ _ _ _ Hnd); [by rewrite list_lookup_fmap, Hi|by rewrite list_lookup_fmap, Hj].
Qed.

(** C3: what SUCCESS on an upload means.  In whatever order the transfers ran,
    through whatever changes of the registry, and whatever chunks the client
    sent: for an announced size above 0 the file's metadata has the SHA-256 of
    the bytes received, which is the hash announced, at least one chunk record,
    and every record names a chunk that arrived, with its checksum and its number
    of replicas; the named server holds, under the file's key, bytes that
    arrived under that chunk id (the bytes with that checksum, when the client
    sent one content for each id).  For an announced size of 0 nothing is read,
    stored or verified: the metadata is an empty file with the hash announced.
    The environment: a file name of one word that fits in a message, buffers of
    at most 2^30 bytes, known servers named by words, numbers in the disk
    usages, paths without white space from the servers. *)
Theorem upload_success_durable (meta : MetaState) (net : N) (reg_at : nat → Registry)
    (schedule : list nat) (req stream : bytes) (r : UploadRequest) :
  let u := handle_client_upload cfg max_alloc view_at meta net reg_at schedule true req stream in
  parse_upload_request cfg req = Val (Some r) →
  up_crashed u = false → up_sent u = ready_msg ++ success_msg →
  cluster_wf net → upload_env (rq_file r) →
  Z.of_nat (length (rx_pending (up_received u))) ≤ INT_MAX →
  paths_ok (run_transfers net reg_at (rq_file r) (rx_pending (up_received u)) schedule).2 →
  ∃ rec, store (up_meta u) !! rq_file r = Some rec ∧
    if decide (rq_size r = 0)
    then chunks rec = [] ∧ file_hash rec = rq_hash r ∧ rx_chunks (up_received u) = [] ∧ up_net u = net
    else
      file_hash rec = sha256 (concat (rx_chunks (up_received u)).*2) ∧
      rq_hash r = file_hash rec ∧
      chunks rec ≠ [] ∧
      ∀ c, c ∈ chunks rec → ∃ data held_data k,
        (chunk_id c, data) ∈ rx_chunks (up_received u) ∧ checksum c = sha256 data ∧
        replica_count c = occurrences (chunks rec) (chunk_id c) ∧
        (chunk_id c, held_data) ∈ rx_chunks (up_received u) ∧
        held (up_net u) (endpoint (reg_at k) (server c)) !! chunk_key (rq_file r) (chunk_id c) =
          Some held_data.
Proof.
  cbv zeta. intros Hparse Hcrash Hsent Hwf He Hsmall Hpaths.
  destruct (parse_upload_request_ranges _ _ Hparse) as [Hsize [Hne Hword]].
  destruct (decide (rq_size r = 0)) as [Hz|Hz].
  - unfold handle_client_upload. rewrite Hparse. cbn [negb]. rewrite decide_True by done.
    cbn [up_received up_meta up_net rx_chunks no_transfers].
    destruct (rq_hash r) as [|c h] eqn:Eh; [done|]. rewrite <- Eh in *.
    rewrite store_metadata_replaces; [|apply word_no_nl, He|by apply word_no_nl|by constructor|apply He].
    unfold replace_file_chunks. rewrite persist_locked_store. cbn [store with_store].
    rewrite lookup_insert_eq. eexists. split; [done|]. done.
  - destruct (upload_durable_at meta net reg_at schedule req stream r Hparse ltac:(lia) Hcrash Hsent
      Hwf He Hsmall Hpaths) as (rec & H1 & H2 & [H3|H3] & H4 & Hc); [done|].
    exists rec. done.
Qed.
End durable.

Section termination.
Context `{!StdSort}.
Variables (cfg : UploadConfig) (max_alloc : Z) (view_at : nat → Registry * gmap Z ServerHealth).

(** The loop reads a chunk header as the next line of the stream. *)
Definition next_header (n : Z) (st : Received * bytes) (cid size : Z) (h rest : bytes) : Prop :=
  Z.of_nat (length (rx_chunks st.1)) < n ∧
  ∃ line, read_line st.2 = (line, rest) ∧ starts_with (lit "CHUNK ") line = true ∧
    parse_chunk_header line = Some (cid, size, h).

(** One chunk is accepted. *)
Inductive accepts (n : Z) : Received * bytes → Received * bytes → Prop :=
  | Accepts rx s cid size h rest data s' :
      next_header n (rx, s) cid size h rest → size ≤ max_alloc →
      recv_exact (Z.to_nat size) rest = Some (data, s') → sha256 data = h →
      accepts n (rx, s) (take_chunk cfg view_at rx cid data, s').

(** The next header announces a chunk that cannot be allocated. *)
Definition too_big (n : Z) (st : Received * bytes) : Prop :=
  ∃ cid size h rest, next_header n st cid size h rest ∧ max_alloc < size.

Lemma accepts_next n st st' :
  accepts n st st' → ∃ cid size h rest data s',
    next_header n st cid size h rest ∧ size ≤ max_alloc ∧
    recv_exact (Z.to_nat size) rest = Some (data, s') ∧ sha256 data = h.
Proof. destruct 1. by eauto 12. Qed.

(** The loop goes as far as chunks are accepted, and where it stops the cause
    is read off the stream. *)
Definition ends (n : Z) (rx : Received) (s : bytes) (r : Received * receive_end) : Prop :=
  ∃ st, rtc (accepts n) (rx, s) st ∧ (∀ st', ¬ accepts n st st') ∧ r.1 = st.1 ∧
    r.2 ≠ RxOutOfFuel ∧ (r.2 = RxCrashed ↔ too_big n st).

Lemma ends_here n rx s e :
  (∀ cid size h rest, next_header n (rx, s) cid size h rest →
     max_alloc < size ∨ ∀ data s', recv_exact (Z.to_nat size) rest = Some (data, s') → sha256 data ≠ h) →
  e ≠ RxOutOfFuel → (e = RxCrashed ↔ too_big n (rx, s)) → ends n rx s (rx, e).
Proof.
  intros Hno He Hc. exists (rx, s). split_and!; [done| |done|done|done].
  intros st' (cid & size & h & rest & data & s' & Hh & Hle & Hd & Hs)%accepts_next.
  destruct (Hno _ _ _ _ Hh) as [Hgt|Hbad]; [lia|by eapply Hbad].
Qed.

(** No header is read: the loop stops without a crash. *)
Lemma ends_without n rx s e :
  (∀ cid size h rest, ¬ next_header n (rx, s) cid size h rest) →
  e ≠ RxOutOfFuel → e ≠ RxCrashed → ends n rx s (rx, e).
Proof.
  intros Hno H1 H2. apply ends_here; [|done|].
  - intros * Hh. by destruct (Hno _ _ _ _ Hh).
  - split; [done|]. intros (? & ? & ? & ? & Hh & _). by destruct (Hno _ _ _ _ Hh).
Qed.

Lemma next_header_line n rx s line rest cid size h r :
  read_line s = (line, rest) → next_header n (rx, s) cid size h r →
  Z.of_nat (length (rx_chunks rx)) < n ∧ starts_with (lit "CHUNK ") line = true ∧
  parse_chunk_header line = Some (cid, size, h) ∧ r = rest.
Proof. intros El (Hlt & l & Hl & Hs & Hp). simpl in Hl. rewrite El in Hl. by injection Hl as <- <-. Qed.

Lemma receive_chunks_ends fuel n rx s :
  (length s < fuel)%nat → ends n rx s (receive_chunks cfg max_alloc view_at fuel n rx s).
Proof.
  revert rx s. induction fuel as [|fuel IH]; intros rx s Hf; [lia|]. cbn [receive_chunks].
  destruct (read_line s) as [line rest] eqn:El.
  pose proof (λ cid size h r, next_header_line n rx s line rest cid size h r El) as Hline.
  case_decide as Hn; [apply ends_without; [|done..]; intros * [Hlt _]%Hline; lia|].
  case_decide as Hne; [apply ends_without; [|done..]; intros * (_ & Hs & _)%Hline; by subst line|].
  destruct (starts_with (lit "CHUNK ") line) eqn:Est.
  2: { case_decide; (apply ends_without; [|done..]); intros * (_ & Hs & _)%Hline; congruence. }
  destruct (parse_chunk_header line) as [[[cid size] h]|] eqn:Eh.
  2: { apply ends_without; [|done..]. intros * (_ & _ & Hp & _)%Hline. congruence. }
  assert (next_header n (rx, s) cid size h rest) as Hnext.
  { split; [simpl; lia|]. by exists line. }
  case_decide as Hbig.
  { apply ends_here; [|done|].
    - intros * (_ & _ & [= <- <- <-] & ->)%Hline. by left.
    - split; [|done]. intros _. by exists cid, size, h, rest. }
  assert (¬ too_big n (rx, s)) as Hfits.
  { intros (? & ? & ? & ? & (_ & _ & [= <- <- <-] & ->)%Hline & Hgt). lia. }
  destruct (recv_exact (Z.to_nat size) rest) as [[data s']|] eqn:Er.
  2: { apply ends_here; [|done|by split]. intros * (_ & _ & [= <- <- <-] & ->)%Hline. right. congruence. }
  case_decide as Hsum.
  2: { apply ends_here; [|done|by split]. intros * (_ & _ & [= <- <- <-] & ->)%Hline. right. congruence. }
  pose proof (read_line_shorter _ _ _ El Hne) as Hlt.
  assert (length s' < fuel)%nat as Hf'.
  { apply recv_exact_Some in Er as [-> _]. rewrite length_app in Hlt. lia. }
  destruct (IH (take_chunk cfg view_at rx cid data) s' Hf') as (st & Hr & Hrest).
  exists st. split; [|exact Hrest]. eapply rtc_l; [|exact Hr]. econstructor; [done|lia|done|done].
Qed.

(** C33: the receive loop always ends, and for a reason that the stream shows.
    Any two fuels above the length of the stream give the same result and none
    runs out.  The chunks received are those accepted one after the other until
    the next one is not; and the loop ends in a crash exactly when, with chunks
    still expected, the next line of the stream there is a header of a chunk
    that cannot be allocated. *)
Theorem upload_terminates (fuel fuel' : nat) (n : Z) (rx : Received) (s : bytes) :
  (length s < fuel)%nat → (length s < fuel')%nat →
  receive_chunks cfg max_alloc view_at fuel n rx s =
    receive_chunks cfg max_alloc view_at fuel' n rx s ∧
  (receive_chunks cfg max_alloc view_at fuel n rx s).2 ≠ RxOutOfFuel ∧
  ∃ rx' s', rtc (accepts n) (rx, s) (rx', s') ∧ (∀ st, ¬ accepts n (rx', s') st) ∧
    (receive_chunks cfg max_alloc view_at fuel n rx s).1 = rx' ∧
    ((receive_chunks cfg max_alloc view_at fuel n rx s).2 = RxCrashed ↔ too_big n (rx', s')).
Proof.
  intros Hf Hf'. split; [by apply receive_chunks_fuel|].
  destruct (receive_chunks_ends fuel n rx s Hf) as ([rx' s'] & H1 & H2 & H3 & H4 & H5).
  split; [done|]. by exists rx', s'.
Qed.
End termination.

(** A size that is not a number takes the head server down.  Nothing on
    the path from the client's thread to [std::stoull] catches its exception. *)
Theorem bad_upload_size_crashes `{!StdSort} `{!HashOrder bytes FileRecord} {N : Type}
    `{!Network N} `{!Protobuf} (cfg : UploadConfig) (max_alloc : Z)
    (view_at : nat → Registry * gmap Z ServerHealth) (meta : MetaState) (net : N)
    (reg_at : nat → Registry) (schedule : list nat) (ready_sent : bool)
    (file size n hash stream : bytes) (e : exn) :
  Forall word [file; size; n; hash] → stoull size = Throw e →
  up_crashed (handle_client_upload cfg max_alloc view_at meta net reg_at schedule ready_sent
                (join_words [upload_word; file; size; n; hash]) stream) = true.
Proof.
  intros Hw Hs. unfold handle_client_upload, parse_upload_request.
  rewrite words_join by (constructor; [lit_word|done]).
  rewrite decide_True by done. by rewrite Hs.
Qed.

(** ** A concrete cluster *)
Section demo.
Existing Instance net_protobuf.
Existing Instance cluster_network.

Definition demo_server : Server := mkServer (mkStorage (lit "/d/") ∅ ∅ 0) hundred hundred 1.
Definition demo_node (h : string) (fs : list fault) : Cluster :=
  mkCluster {[(lit h, 8180) := demo_server]} fs 1000.
Definition demo_reg : Registry := (add_server 0 empty_registry (lit "10.0.0.1") 8080 8180 8280).1.1.
Definition demo_cfg : UploadConfig := mkUploadConfig 4 1 [].
Definition demo_view (_ : nat) : Registry * gmap Z ServerHealth := (demo_reg, ∅).
Definition demo_meta : MetaState := mkMeta ∅ [] true.

Definition chunk_header (cid : Z) (data : bytes) : bytes :=
  join_words [lit "CHUNK"; show_Z cid; show_nat (length data); sha256 data] ++ [nl].
Definition demo_line (n : Z) (content : bytes) : bytes :=
  join_words [upload_word; lit "f.txt"; show_nat (length content); show_Z n; sha256 content].
Definition demo_stream : bytes :=
  chunk_header 0 (lit "abcd") ++ lit "abcd" ++ chunk_header 1 (lit "ef") ++ lit "ef" ++ lit "EOF" ++ [nl].

Definition demo_upload (fs : list fault) : Upload (N := Cluster) :=
  handle_client_upload demo_cfg (2 ^ 30) demo_view demo_meta (demo_node "10.0.0.1" fs)
    (λ _, demo_reg) [1%nat; 0%nat] true (demo_line 2 (lit "abcdef")) demo_stream.

(** SUCCESS does not mean that every chunk was stored.  Only an empty list
    of replicas is an error: here the one transfer of chunk 0 is refused, the
    client is told SUCCESS, and the metadata has no record of chunk 0. *)
Theorem success_with_missing_chunk :
  up_sent (demo_upload [Delivered IoOk; Refused]) = ready_msg ++ success_msg ∧
  map chunk_id (chunks (query_metadata (up_meta (demo_upload [Delivered IoOk; Refused]))
                          (lit "f.txt"))) = [1].
Proof. vm_compute. split; reflexivity. Qed.

Lemma demo_disks : disks_known (∅ : gmap Z ServerHealth).
Proof. apply map_Forall_empty. Qed.

Lemma select_servers_spec_witness :
  length (select_servers_for_chunk demo_cfg demo_reg ∅ 1) = 1%nat ∧
  select_servers_for_chunk demo_cfg demo_reg ∅ 1 ⊆ known_servers demo_cfg demo_reg.
Proof.
  destruct (select_servers_spec demo_cfg demo_reg ∅ 1 demo_disks) as (H1 & H2 & _).
  split; [exact H2|exact H1].
Defined.

Lemma text_ok_app a b :
  Forall (λ c, is_ascii c = true) a → Forall (λ c, is_ascii c = true) b →
  Z.of_nat (length a) + Z.of_nat (length b) ≤ 2 ^ 20 → text_ok (a ++ b).
Proof. intros Ha Hb Hl. split; [by apply Forall_app|]. rewrite length_app. lia. Qed.

Lemma show_Z_ascii z : Forall (λ c, is_ascii c = true) (show_Z z).
Proof.
  assert (∀ n, Forall (λ c, is_ascii c = true) (show_N n)) as HN.
  { intros n. eapply Forall_impl; [apply show_N_digits|].
    intros [[] [] [] [] [] [] [] []]; vm_compute; congruence. }
  unfold show_Z. destruct (z <? 0); [by constructor|done].
Qed.

Lemma key_ok_short file cid :
  Forall (λ c, is_ascii c = true) file → Z.of_nat (length file) ≤ 1000 → int32_ok cid →
  key_ok file cid.
Proof.
  intros Hf Hl Hc. change (2 ^ 20) with 1048576. split.
  - unfold chunk_key, unique_chunk_id. apply text_ok_app; [done| |].
    + apply Forall_app. split; [by apply (bool_decide_unpack (Forall _ (lit "_chunk_")))|
        apply show_Z_ascii].
    + rewrite length_app. pose proof (length_show_Z cid) as Hs.
      unfold int32_ok, INT_MIN, INT_MAX in Hc. change (length (lit "_chunk_")) with 7%nat.
      change (2 ^ 20) with 1048576. lia.
  - split; [done|]. change (2 ^ 20) with 1048576. lia.
Qed.

Lemma demo_env_ok : upload_env demo_cfg (2 ^ 30) demo_view (lit "f.txt").
Proof.
  constructor.
  - lit_word.
  - intros cid. apply key_ok_short; [|by vm_compute].
    by apply (bool_decide_unpack (Forall (λ c, is_ascii c = true) (lit "f.txt"))).
  - done.
  - by split.
  - intros k. apply demo_disks.
  - intros k. apply Forall_forall.
    by apply (bool_decide_unpack (Forall word (known_servers demo_cfg demo_reg))).
Qed.

Lemma demo_node_wf h fs : wf_cluster (demo_node h fs).
Proof.
  intros ep nd Hnd. unfold demo_node in Hnd. cbn [servers] in Hnd.
  apply lookup_singleton_Some in Hnd as [_ <-]. constructor; [|done|done|by split].
  constructor; simpl; intros ? ?; by rewrite lookup_empty.
Qed.

Lemma upload_success_durable_witness :
  ∃ rec, store (up_meta (demo_upload [])) !! lit "f.txt" = Some rec ∧
    file_hash rec = sha256 (concat (rx_chunks (up_received (demo_upload []))).*2).
Proof.
  destruct (upload_success_durable demo_cfg (2 ^ 30) demo_view demo_meta (demo_node "10.0.0.1" [])
    (λ _, demo_reg) [1%nat; 0%nat] (demo_line 2 (lit "abcdef")) demo_stream
    (mkRequest (lit "f.txt") 6 2 (sha256 (lit "abcdef")))) as (rec & H1 & H2 & _).
  - vm_compute. reflexivity.
  - vm_compute. reflexivity.
  - vm_compute. reflexivity.
  - apply demo_node_wf.
  - exact demo_env_ok.
  - vm_compute. discriminate.
  - by_decision.
  - exists rec. split; [exact H1|exact H2].
Defined.

(** The second header announces more than can be allocated. *)
Definition huge_stream : bytes :=
  chunk_header 0 (lit "ab") ++ lit "ab" ++ lit "CHUNK 1 99 aa" ++ [nl].

Lemma upload_terminates_witness :
  receive_chunks demo_cfg 10 demo_view 200 2 no_transfers huge_stream =
    receive_chunks demo_cfg 10 demo_view 300 2 no_transfers huge_stream ∧
  ∃ rx' s', rtc (accepts demo_cfg 10 demo_view 2) (no_transfers, huge_stream) (rx', s') ∧
    rx_chunks rx' = [(0, lit "ab")] ∧ too_big 10 2 (rx', s').
Proof.
  destruct (upload_terminates demo_cfg 10 demo_view 200 300 2 no_transfers huge_stream)
    as (H1 & _ & rx' & s' & Hr & _ & Hrx & Hc); [apply Nat.ltb_lt; vm_compute; reflexivity..|].
  split; [exact H1|]. exists rx', s'. split; [exact Hr|]. split.
  - rewrite <- Hrx. vm_compute. reflexivity.
  - apply Hc. vm_compute. reflexivity.
Defined.

Lemma bad_upload_size_crashes_witness :
  up_crashed (handle_client_upload demo_cfg 10 demo_view demo_meta (demo_node "10.0.0.1" [])
    (λ _, demo_reg) [] true (lit "UPLOAD f.txt big 1 abc") []) = true.
Proof.
  apply (bad_upload_size_crashes demo_cfg 10 demo_view demo_meta (demo_node "10.0.0.1" [])
    (λ _, demo_reg) [] true (lit "f.txt") (lit "big") (lit "1") (lit "abc") [] InvalidArgument).
  - by apply (bool_decide_unpack (Forall word [lit "f.txt"; lit "big"; lit "1"; lit "abc"])).
  - vm_compute. reflexivity.
Defined.
End demo.
