(* ===== verification/Download.v ===== *)
(** * Download: the head server's side of a download and of a delete
    (src/src/head_server/head_server.cpp 56-449)

    The head server never sends chunk data: it asks every replica for its
    hash, takes the majority, and tells the client which server to read each
    chunk from. *)
From Stdlib Require Import Lia SpecFloat.
From S2P Require Import Prelude.
From S2P Require Import Text.
From S2P Require Import Ordered.
From S2P Require Import Float.
From S2P Require Import Sha256.
From S2P Require Import Net.
From S2P Require Import Metadata.
From S2P Require Import Registry.
From S2P Require Import Wire.
From S2P Require Import ChunkStore.
From S2P Require Import HeadNet.
Local Open Scope Z_scope.

(** ** Where the chunks are *)
Definition get_chunk_locations (meta : MetaState) (file : bytes) : list ChunkLocation * bytes :=
  let rec := query_metadata meta file in
  (map (λ c, mkLoc (sint32 (chunk_id c)) (server c) (path c)) (chunks rec), file_hash rec).

(** [chunk_replicas[loc.chunk_id].push_back(loc)] *)
Definition push_replica (m : gmap Z (list ChunkLocation)) (l : ChunkLocation)
  : gmap Z (list ChunkLocation) := push_to loc_chunk_id m l.
Definition chunk_replicas (locs : list ChunkLocation) : gmap Z (list ChunkLocation) :=
  fold_left push_replica locs ∅.
(** One hash request per replica, chunk by chunk. *)
Definition hash_jobs (locs : list ChunkLocation) : list ChunkLocation :=
  concat (zmap_list (chunk_replicas locs)).*2.

(** ** The vote *)
Definition Vote : Type := ChunkLocation * FetchHashResponse.

Definition votes_for (cid : Z) (votes : list Vote) : list Vote :=
  filter (λ v, loc_chunk_id v.1 = cid ∧ hr_success v.2 = true) votes.

(** [hash_counts] *)
Definition hash_counts (votes : list Vote) : gmap bytes Z :=
  fold_left (λ m v, <[hr_hash v.2 := default 0 (m !! hr_hash v.2) + 1]> m) votes ∅.

(** The first hash, in increasing order, with the most votes. *)
Definition better (best : bytes * Z) (e : bytes * Z) : bytes * Z :=
  if decide (best.2 < e.2) then e else best.
Definition majority_hash (votes : list Vote) : bytes :=
  (fold_left better (smap_list (hash_counts votes)) ([], 0)).1.

(** [a.active_connections < b.active_connections], then [load_score] *)
Definition less_busy (a b : Vote) : bool :=
  if decide (hr_active_connections a.2 = hr_active_connections b.2)
  then SFltb (hr_load_score a.2) (hr_load_score b.2)
  else hr_active_connections a.2 <? hr_active_connections b.2.

Record ChunkFetchPlan := mkPlan {
  plan_chunk_id : Z; best_server : ChunkLocation; plan_hash : bytes }.

Section download.
Context `{!StdSort} `{!HashOrder bytes FileRecord} {N : Type} `{!Network N} `{!Protobuf}.

(** [None]: nobody answered for the chunk. *)
Definition plan_chunk (votes : list Vote) (cid : Z) : option ChunkFetchPlan :=
  match votes_for cid votes with
  | [] => None
  | vs =>
      let h := majority_hash vs in
      match std_sort less_busy (filter (λ v, hr_hash v.2 = h) vs) with
      | v :: _ => Some (mkPlan cid v.1 h)
      | [] => None                    (* not reached: the majority has a voter *)
      end
  end.

(** Plans in increasing order of chunk ids, or the first id without an answer. *)
Fixpoint plan_all (votes : list Vote) (cids : list Z) : Z + list ChunkFetchPlan :=
  match cids with
  | [] => inr []
  | cid :: rest =>
      match plan_chunk votes cid with
      | None => inl cid
      | Some p =>
          match plan_all votes rest with
          | inl bad => inl bad
          | inr ps => inr (p :: ps)
          end
      end
  end.

(** ** What the client is told *)
Definition public_port_of (reg : Registry) (srv : bytes) : Z :=
  match list_find (λ e, address e = srv) (get_all reg) with
  | Some (_, e) => public_port e
  | None => 8080
  end.

Definition ip_only (srv : bytes) : bytes :=
  match find_char colon srv with Some i => take i srv | None => srv end.

Definition chunk_loc_line (reg : Registry) (p : ChunkFetchPlan) : bytes :=
  lit "CHUNK_LOC " ++ show_Z (plan_chunk_id p) ++ lit " " ++ ip_only (loc_server (best_server p))
  ++ lit " " ++ show_Z (public_port_of reg (loc_server (best_server p))) ++ lit " "
  ++ plan_hash p ++ [nl].

Definition hash_line (h : bytes) : bytes := lit "FILE_HASH " ++ h ++ [nl].
Definition eof_line : bytes := lit "EOF" ++ [nl].
Definition error_no_chunks : bytes := lit "ERROR: No chunks found for file" ++ [nl].
Definition error_unverified (cid : Z) : bytes :=
  lit "ERROR: Could not verify hashes for chunk " ++ show_Z cid ++ [nl].

(** The answers to the hash requests, in the order the requests were made. *)
Definition collect_votes (net : N) (reg_at : nat → Registry) (file : bytes)
    (jobs : list ChunkLocation) (schedule : list nat) : N * list Vote :=
  let '(net, m) := run_pool (λ net i l, get_chunk_hash net (reg_at i) l file) net jobs schedule in
  (net, imap (λ i l, (l, default no_hash (m !! i))) jobs).

Definition stream_file_to_client (meta : MetaState) (net : N) (reg_at : nat → Registry)
    (reg : Registry) (schedule : list nat) (file : bytes) : N * bytes * bool :=
  let '(locs, h) := get_chunk_locations meta file in
  match locs with
  | [] =>
      (net, if decide (h = []) then error_no_chunks else hash_line h ++ eof_line,
       negb (bool_decide (h = [])))
  | _ =>
      let replicas := chunk_replicas locs in
      let head := hash_line h ++ lit "CHUNKS " ++ show_nat (size replicas) ++ [nl] in
      let '(net, votes) := collect_votes net reg_at file (hash_jobs locs) schedule in
      match plan_all votes (zmap_list replicas).*1 with
      | inl cid => (net, head ++ error_unverified cid, false)
      | inr plans =>
          (net, head ++ concat (map (chunk_loc_line reg) plans) ++ hash_line h ++ eof_line, true)
      end
  end.

(** ** Deleting a file *)
Definition delete_request (file : bytes) (cid : Z) : bytes :=
  lit "DELETE_CHUNK " ++ chunk_key file cid ++ [nl].

(** One chunk: connect to the main port, send, look at one [recv]. *)
Definition delete_on_server (net : N) (file : bytes) (l : ChunkLocation) : N * bool :=
  let '(h, p) := parse_address (loc_server l) 8080 in
  let '(net, answer) := exchange net h p (delete_request file (loc_chunk_id l)) in
  (net, match answer with Some r => contains (lit "SUCCESS") (take 63 r) | None => false end).

(** Every location is tried, whatever the others answered. *)
Fixpoint delete_all (net : N) (file : bytes) (locs : list ChunkLocation) : N * bool :=
  match locs with
  | [] => (net, true)
  | l :: rest =>
      let '(net, ok) := delete_on_server net file l in
      let '(net, all) := delete_all net file rest in (net, ok && all)
  end.

Definition error_not_found : bytes := lit "ERROR: File not found" ++ [nl].
Definition error_not_deleted : bytes := lit "ERROR: Could not delete chunks" ++ [nl].
Definition deleted_msg : bytes := lit "SUCCESS" ++ [nl].

Definition handle_client_delete (meta : MetaState) (net : N) (file : bytes)
  : MetaState * N * bytes :=
  let '(locs, _) := get_chunk_locations meta file in
  match locs with
  | [] => (meta, net, error_not_found)
  | _ =>
      let '(net, all_deleted) := delete_all net file locs in
      if all_deleted : bool then (delete_entry meta file, net, deleted_msg)
      else (meta, net, error_not_deleted)
  end.
End download.
