(* ===== verification/DownloadSpec.v ===== *)
(** * DownloadSpec: what the download plan and the delete guarantee
    (src/src/head_server/head_server.cpp 56-449)

    The majority of the replicas' hashes, the server chosen for each chunk, the
    text of the plan, and what a delete needs and removes. *)
From Stdlib Require Import Lia SpecFloat.
From S2P Require Import Prelude.
From S2P Require Import Text.
From S2P Require Import Ordered.
From S2P Require Import Float.
From S2P Require Import Sha256.
From S2P Require Import Net.
From S2P Require Import Metadata.
From S2P Require Import Registry.
From S2P Require Import Wire.
From S2P Require Import WireCodec.
From S2P Require Import ChunkStore.
From S2P Require Import ChunkSpec.
From S2P Require Import HeadNet.
From S2P Require Import Cluster.
From S2P Require Import Upload.
From S2P Require Import UploadSpec.
From S2P Require Import Download.
Local Open Scope Z_scope.

(** ** The majority *)
Definition support (votes : list Vote) (h : bytes) : Z :=
  Z.of_nat (length (filter (λ v, hr_hash v.2 = h) votes)).

Lemma hash_counts_support votes h : default 0 (hash_counts votes !! h) = support votes h.
Proof.
  unfold hash_counts, support.
  assert (∀ m : gmap bytes Z, default 0 (fold_left (λ m (v : Vote),
      <[hr_hash v.2 := default 0 (m !! hr_hash v.2) + 1]> m) votes m !! h) =
    default 0 (m !! h) + Z.of_nat (length (filter (λ v : Vote, hr_hash v.2 = h) votes))) as Hm.
  { induction votes as [|v votes IH]; intros m; [simpl; lia|].
    cbn [fold_left]. rewrite IH, filter_cons, lookup_insert.
    repeat case_decide; subst; try done; cbn [length default from_option id]; lia. }
  rewrite Hm. by rewrite lookup_empty.
Qed.

Lemma hash_counts_keys votes h :
  is_Some (hash_counts votes !! h) ↔ h ∈ map (λ v : Vote, hr_hash v.2) votes.
Proof.
  unfold hash_counts.
  assert (∀ m : gmap bytes Z, is_Some (fold_left (λ m (v : Vote),
      <[hr_hash v.2 := default 0 (m !! hr_hash v.2) + 1]> m) votes m !! h) ↔
    is_Some (m !! h) ∨ h ∈ map (λ v : Vote, hr_hash v.2) votes) as Hm.
  { induction votes as [|v votes IH]; intros m; cbn [fold_left map].
    - rewrite elem_of_nil. tauto.
    - rewrite IH, elem_of_cons, lookup_insert_is_Some'.
      split; [intros [[->|?]|?]|intros [?|[->|?]]]; eauto. }
  rewrite Hm, lookup_empty. split; [intros [[? [=]]|?]|]; auto.
Qed.

Lemma fold_better l b :
  StronglySorted (key_le str_le) l →
  let r := fold_left better l b in
  (r = b ∧ ∀ e, e ∈ l → e.2 ≤ b.2) ∨
  (r ∈ l ∧ b.2 < r.2 ∧ (∀ e, e ∈ l → e.2 ≤ r.2) ∧
   ∀ e, e ∈ l → e.2 = r.2 → str_le r.1 e.1).
Proof.
  cbv zeta. intros Hs. revert b. induction Hs as [|x l Hs IH Hx]; intros b; cbn [fold_left].
  { left. split; [done|]. by intros e ?%elem_of_nil. }
  rewrite Forall_forall in Hx. destruct (IH (better b x)) as [[-> Hle]|(Hin & Hlt & Hle & Hmin)];
    unfold better in *; case_decide as Hb.
  - right. split; [by left|]. split; [done|]. split.
    + intros e [->|He]%elem_of_cons; [lia|auto].
    + intros e [->|He]%elem_of_cons _; [apply str_le_refl|by apply Hx].
  - left. split; [done|]. intros e [->|He]%elem_of_cons; [lia|auto].
  - right. split; [by right|]. split; [lia|]. split.
    + intros e [->|He]%elem_of_cons; [lia|auto].
    + intros e [->|He]%elem_of_cons; [lia|auto].
  - right. split; [by right|]. split; [lia|]. split.
    + intros e [->|He]%elem_of_cons; [lia|auto].
    + intros e [->|He]%elem_of_cons; [lia|auto].
Qed.

Lemma support_pos votes v : v ∈ votes → 0 < support votes (hr_hash v.2).
Proof.
  intros Hv. unfold support.
  assert (v ∈ filter (λ w : Vote, hr_hash w.2 = hr_hash v.2) votes) as Hin
    by (by apply list_elem_of_filter).
  destruct (filter _ votes); [by apply elem_of_nil in Hin|]. simpl. lia.
Qed.

Lemma majority_hash_props (votes : list Vote) :
  votes ≠ [] →
  (∃ v, v ∈ votes ∧ hr_hash v.2 = majority_hash votes) ∧
  (∀ h, support votes h ≤ support votes (majority_hash votes)) ∧
  (∀ v, v ∈ votes → support votes (hr_hash v.2) = support votes (majority_hash votes) →
     str_le (majority_hash votes) (hr_hash v.2)).
Proof.
  intros Hne. unfold majority_hash.
  set (l := smap_list (hash_counts votes)).
  assert (StronglySorted (key_le str_le) l) as Hs.
  { apply Sorted_StronglySorted; [|apply ordered_sorted, _].
    intros x y z Hxy Hyz. unfold key_le in *. by etransitivity. }
  assert (∀ h n, (h, n) ∈ l → n = support votes h ∧ h ∈ map (λ v : Vote, hr_hash v.2) votes) as Hl.
  { intros h n Hin. apply elem_of_ordered in Hin. split.
    - by rewrite <- hash_counts_support, Hin.
    - apply hash_counts_keys. by eexists. }
  assert (∀ v, v ∈ votes → (hr_hash v.2, support votes (hr_hash v.2)) ∈ l) as Hin.
  { intros v Hv. apply elem_of_ordered.
    assert (is_Some (hash_counts votes !! hr_hash v.2)) as [n Hn]
      by (apply hash_counts_keys; by apply (list_elem_of_fmap_2 (λ v : Vote, hr_hash v.2))).
    by rewrite <- hash_counts_support, Hn. }
  destruct votes as [|v0 votes']; [done|]. set (votes := v0 :: votes') in *.
  assert (v0 ∈ votes) as H0 by (by left).
  destruct (fold_better l ([], 0) Hs) as [[_ Hle]|(Hr & _ & Hle & Hmin)].
  { specialize (Hle _ (Hin v0 H0)). cbn in Hle. pose proof (support_pos votes v0 H0). lia. }
  destruct (fold_left better l ([], 0)) as [h n] eqn:Ef. cbn [fst snd] in *.
  destruct (Hl h n Hr) as [-> Hh]. apply list_elem_of_fmap in Hh as (v & -> & Hv).
  split; [by exists v|]. split.
  - intros h'. destruct (decide (h' ∈ map (λ v : Vote, hr_hash v.2) votes)) as [Hm|Hno].
    + apply list_elem_of_fmap in Hm as (w & -> & Hw). apply (Hle _ (Hin w Hw)).
    + rewrite <- (hash_counts_support votes h').
      destruct (hash_counts votes !! h') eqn:E; [|pose proof (support_pos votes v Hv); cbn; lia].
      destruct Hno. apply hash_counts_keys. by eexists.
  - intros w Hw Heq. apply (Hmin _ (Hin w Hw) Heq).
Qed.

(** C32: the majority hash is a hash some server answered, no hash has more
    votes, and among hashes with as many votes it is the least. *)
Theorem majority_hash_spec (votes : list Vote) :
  votes ≠ [] →
  (∃ v, v ∈ votes ∧ hr_hash v.2 = majority_hash votes) ∧
  (∀ h, support votes h ≤ support votes (majority_hash votes)) ∧
  (∀ v, v ∈ votes → support votes (hr_hash v.2) = support votes (majority_hash votes) →
     str_le (majority_hash votes) (hr_hash v.2)).
Proof. apply majority_hash_props. Qed.

(** ** Grouping the replicas *)
Lemma chunk_replicas_lookup locs cid :
  chunk_replicas locs !! cid =
    match filter (λ l, loc_chunk_id l = cid) locs with [] => None | ls => Some ls end.
Proof. exact (group_lookup loc_chunk_id locs cid). Qed.

Lemma elem_of_hash_jobs locs l : l ∈ hash_jobs locs → l ∈ locs.
Proof.
  unfold hash_jobs. intros Hin. apply list_elem_of_In, in_concat in Hin as (ls & Hls & Hl).
  apply list_elem_of_In in Hls, Hl.
  apply list_elem_of_fmap in Hls as ([cid ls'] & -> & Hin). cbn in Hl.
  apply elem_of_ordered in Hin. by apply (group_elem loc_chunk_id _ _ _ l Hin) in Hl as [? _].
Qed.

(** Every recorded replica is asked once. *)
Lemma hash_jobs_perm locs : hash_jobs locs ≡ₚ locs.
Proof.
  unfold hash_jobs. transitivity (concat (map_to_list (chunk_replicas locs)).*2).
  - assert (∀ l l' : list (list ChunkLocation), l ≡ₚ l' → concat l ≡ₚ concat l') as Hc.
    { intros l l' Hl. induction Hl as [|x l l' _ IH|x y l|l1 l2 l3 _ IH1 _ IH2]; cbn [concat].
      - done.
      - by rewrite IH.
      - rewrite !app_assoc. apply Permutation_app_tail, Permutation_app_comm.
      - by rewrite IH1. }
    apply Hc. by rewrite ordered_perm.
  - apply (group_perm loc_chunk_id).
Qed.

Lemma collect_votes_jobs {N : Type} `{!Network N} `{!Protobuf} (net : N) reg_at file jobs schedule :
  (collect_votes net reg_at file jobs schedule).2.*1 = jobs.
Proof.
  unfold collect_votes. destruct (run_pool _ _ _ _) as [net' m]. cbn [snd]. rewrite fmap_imap.
  apply list_eq. intros i. rewrite list_lookup_imap. by destruct (jobs !! i).
Qed.

(** ** The strict order on voters *)
Lemma less_busy_weak votes :
  Forall (λ v : Vote, is_number (hr_load_score v.2)) votes → strict_weak less_busy votes.
Proof.
  intros Hn. rewrite Forall_forall in Hn. unfold less_busy. split_and!.
  - intros x Hx. rewrite decide_True by done. apply SFltb_irrefl.
  - intros x y z Hx Hy Hz. repeat case_decide; rewrite ?Z.ltb_lt; try lia; try congruence.
    apply SFltb_trans; auto.
  - intros x y z Hx Hy Hz. repeat case_decide; rewrite ?Z.ltb_ge; try lia; try congruence.
    apply SFltb_cotrans; auto.
Qed.

Section plan.
Context `{!StdSort}.

Lemma plan_chunk_Some votes cid p :
  Forall (λ v : Vote, hr_success v.2 = true → is_number (hr_load_score v.2)) votes →
  plan_chunk votes cid = Some p →
  plan_chunk_id p = cid ∧ plan_hash p = majority_hash (votes_for cid votes) ∧
  ∃ v, v ∈ votes_for cid votes ∧ best_server p = v.1 ∧ plan_hash p = hr_hash v.2 ∧
    ∀ w, w ∈ votes_for cid votes → hr_hash w.2 = plan_hash p → less_busy w v = false.
Proof.
  intros Hn. unfold plan_chunk. destruct (votes_for cid votes) as [|v0 vs0] eqn:Ev; [done|].
  rewrite <- Ev in *. set (maj := filter _ _).
  assert (strict_weak less_busy maj) as Hw.
  { apply less_busy_weak. apply Forall_forall. intros v [_ Hv]%list_elem_of_filter.
    apply list_elem_of_filter in Hv as [[_ Hs] Hin]. rewrite Forall_forall in Hn. by apply Hn. }
  destruct (std_sort less_busy maj) as [|v l] eqn:Es; [done|]. intros [= <-]. cbn.
  destruct (std_sort_head _ _ _ _ Hw Es) as [Hv Hmin].
  apply list_elem_of_filter in Hv as [Hh Hv]. split; [done|]. split; [done|].
  exists v. split; [done|]. split; [done|]. split; [done|].
  intros w Hw' Hwh. apply Hmin. by apply list_elem_of_filter.
Qed.

Lemma plan_chunk_None votes cid :
  Forall (λ v : Vote, hr_success v.2 = true → is_number (hr_load_score v.2)) votes →
  plan_chunk votes cid = None → votes_for cid votes = [].
Proof.
  intros Hn. unfold plan_chunk. destruct (votes_for cid votes) as [|v0 vs0] eqn:Ev; [done|].
  set (maj := filter _ _).
  assert (strict_weak less_busy maj) as Hw.
  { apply less_busy_weak. apply Forall_forall. intros v [_ Hv]%list_elem_of_filter.
    rewrite <- Ev in Hv.
    apply list_elem_of_filter in Hv as [[_ Hs] Hin]. rewrite Forall_forall in Hn. by apply Hn. }
  pose proof (std_sort_perm _ _ Hw) as Hp.
  destruct (std_sort less_busy maj) as [|v l] eqn:Es; [|done]. intros _. exfalso.
  apply Permutation_nil_l in Hp.
  destruct (majority_hash_props (v0 :: vs0)) as ((v & Hv & Hh) & _); [done|].
  assert (v ∈ maj) as Hin by (by apply list_elem_of_filter). rewrite <- Hp in Hin.
  by apply elem_of_nil in Hin.
Qed.

Lemma plan_all_inr votes cids ps :
  plan_all votes cids = inr ps → Forall2 (λ cid p, plan_chunk votes cid = Some p) cids ps.
Proof.
  revert ps. induction cids as [|cid cids IH]; intros ps; cbn [plan_all]; [by intros [= <-]|].
  destruct (plan_chunk votes cid) eqn:E; [|done].
  destruct (plan_all votes cids) eqn:E2; [done|]. intros [= <-]. constructor; [done|by apply IH].
Qed.

Lemma plan_all_inl votes cids bad :
  plan_all votes cids = inl bad → bad ∈ cids ∧ plan_chunk votes bad = None.
Proof.
  induction cids as [|cid cids IH]; cbn [plan_all]; [done|].
  destruct (plan_chunk votes cid) eqn:E; [|intros [= <-]; split; [by left|done]].
  destruct (plan_all votes cids) eqn:E2; [|done]. intros [= <-].
  destruct IH; [done|]. split; [by right|done].
Qed.
End plan.

(** ** The plan sent to the client *)
Section planning.
Context `{!StdSort} {N : Type} `{!Network N} `{!Protobuf} `{!ChunkCluster N}.
Variables (reg : Registry) (file : bytes).

(** A replica's answer is about bytes its server holds. *)
Definition vouched (net : N) (l : ChunkLocation) (resp : FetchHashResponse) : Prop :=
  hr_success resp = true →
  is_number (hr_load_score resp) ∧
  ∃ data, data ≠ [] ∧ hr_hash resp = sha256 data ∧
    held net (endpoint reg (loc_server l)) !! chunk_key file (loc_chunk_id l) = Some data.

Definition loc_ok (l : ChunkLocation) : Prop :=
  text_ok (chunk_key file (loc_chunk_id l)) ∧ text_ok (loc_path l).

Lemma get_chunk_hash_vouched net l net' resp :
  cluster_wf net → loc_ok l → get_chunk_hash net reg l file = (net', resp) →
  cluster_wf net' ∧ vouched net' l resp ∧ (∀ e, held net e ⊆ held net' e).
Proof.
  intros Hwf Hl. unfold get_chunk_hash, call. unfold vouched.
  destruct (endpoint reg (loc_server l)) as [h p].
  destruct (exchange net h p _) as [net1 ans] eqn:Ex. intros [= <- <-].
  destruct (hash_law _ _ _ _ _ _ _ Hwf Hl Ex) as (Hwf' & Hsub & Hbody).
  split; [done|]. split; [|done].
  destruct (body_of ans) as [b|]; [|done].
  destruct (Hbody b eq_refl) as (r & Hr & Hs). unfold parse_into. rewrite Hr. cbn.
  intros Hok. destruct (Hs Hok) as (? & data & ? & ? & ?). eauto 6.
Qed.

Lemma collect_votes_vouched net locs schedule net' votes :
  cluster_wf net → Forall loc_ok locs →
  collect_votes net (λ _, reg) file (hash_jobs locs) schedule = (net', votes) →
  cluster_wf net' ∧ (∀ e, held net e ⊆ held net' e) ∧
  Forall (λ v, v.1 ∈ locs ∧ vouched net' v.1 v.2) votes.
Proof.
  intros Hwf Hok. unfold collect_votes. rewrite Forall_forall in Hok.
  destruct (run_pool _ net _ schedule) as [net1 m] eqn:Er. intros [= <- <-].
  destruct (run_pool_inv (λ net _ l, get_chunk_hash net reg l file)
    (λ n, cluster_wf n ∧ ∀ e, held net e ⊆ held n e) vouched
    (hash_jobs locs)) with schedule net net1 m as ([Hwf' Hkeep] & _ & Hget); [|done|done|].
  - intros n i l n' r [Hn Hk] Hi Hg. apply list_elem_of_lookup_2, elem_of_hash_jobs in Hi.
    destruct (get_chunk_hash_vouched _ _ _ _ Hn (Hok l Hi) Hg) as (Hn' & Hv & Hsub).
    split; [split; [done|]; intros e; etransitivity; [apply Hk|apply Hsub]|]. split; [done|]. intros l0 r0 _ Hv0 Hs.
    destruct (Hv0 Hs) as (? & data & ? & ? & Hd). split; [done|]. exists data.
    split; [done|]. split; [done|]. eapply lookup_weaken; [exact Hd|apply Hsub].
  - split; [done|]. split; [done|]. apply Forall_forall. intros [l r] Hin. apply list_elem_of_lookup_1 in Hin as [i Hi].
    rewrite list_lookup_imap in Hi. apply fmap_Some in Hi as (l' & Hl & [= -> ->]).
    split; [by eapply elem_of_hash_jobs, list_elem_of_lookup_2|].
    cbn [fst snd]. destruct (m !! i) as [r'|] eqn:Em; [by eapply Hget|done].
Qed.

(** One line of the plan, against the answers for its chunk: the hash has the
    most votes, the least of those that do; the server is a recorded replica of
    the chunk that answered this hash, none that did is less busy, and it holds
    bytes with this hash. *)
Record sound_plan (net : N) (locs : list ChunkLocation) (answers : list Vote) (p : ChunkFetchPlan)
  : Prop := {
  sp_replica : best_server p ∈ locs ∧ loc_chunk_id (best_server p) = plan_chunk_id p;
  sp_support : ∀ h, support answers h ≤ support answers (plan_hash p);
  sp_least : ∀ v, v ∈ answers → support answers (hr_hash v.2) = support answers (plan_hash p) →
               str_le (plan_hash p) (hr_hash v.2);
  sp_voter : ∃ v, v ∈ answers ∧ v.1 = best_server p ∧ hr_hash v.2 = plan_hash p ∧
               ∀ w, w ∈ answers → hr_hash w.2 = plan_hash p → less_busy w v = false;
  sp_held : ∃ data, data ≠ [] ∧ plan_hash p = sha256 data ∧
              held net (endpoint reg (loc_server (best_server p)))
                !! chunk_key file (plan_chunk_id p) = Some data
}.

Lemma plan_chunk_sound net locs votes cid p :
  Forall (λ v, v.1 ∈ locs ∧ vouched net v.1 v.2) votes → plan_chunk votes cid = Some p →
  sound_plan net locs (votes_for (plan_chunk_id p) votes) p.
Proof.
  intros Hv Hc.
  assert (Forall (λ v : Vote, hr_success v.2 = true → is_number (hr_load_score v.2)) votes) as Hn.
  { eapply Forall_impl; [exact Hv|]. intros v [_ Hvv] Hs. by apply Hvv. }
  destruct (plan_chunk_Some _ _ _ Hn Hc) as (Hid & Hm & v & Hvin & Hbest & Hph & Hbusy).
  pose proof Hvin as [[Hvid Hs] Hin]%list_elem_of_filter.
  rewrite Forall_forall in Hv. destruct (Hv v Hin) as [Hloc Hvv].
  destruct (Hvv Hs) as (_ & data & Hd & Hh & Hheld).
  destruct (majority_hash_props (votes_for cid votes)) as (_ & Hsup & Hleast).
  { intros E. rewrite E in Hvin. by apply elem_of_nil in Hvin. }
  rewrite <- Hm in Hsup, Hleast.
  constructor; rewrite ?Hid, ?Hbest; [done|done|done|by exists v|].
  exists data. rewrite Hph. by rewrite <- Hvid.
Qed.

Lemma stream_plan_full `{!HashOrder bytes FileRecord} (meta : MetaState) (net net' : N)
    (schedule : list nat) (sent : bytes) :
  let '(locs, h) := get_chunk_locations meta file in
  locs ≠ [] → cluster_wf net → Forall loc_ok locs →
  stream_file_to_client meta net (λ _, reg) reg schedule file = (net', sent, true) →
  ∃ plans votes,
    collect_votes net (λ _, reg) file (hash_jobs locs) schedule = (net', votes) ∧
    votes.*1 ≡ₚ locs ∧ Forall (λ v, vouched net' v.1 v.2) votes ∧
    sent = hash_line h ++ lit "CHUNKS " ++ show_nat (length plans) ++ [nl]
           ++ concat (map (chunk_loc_line reg) plans) ++ hash_line h ++ eof_line ∧
    StronglySorted Z.lt (map plan_chunk_id plans) ∧
    (∀ cid, cid ∈ map plan_chunk_id plans ↔ cid ∈ map loc_chunk_id locs) ∧
    Forall (λ p, sound_plan net' locs (votes_for (plan_chunk_id p) votes) p) plans ∧
    ∀ e, held net e ⊆ held net' e.
Proof.
  destruct (get_chunk_locations meta file) as [locs h] eqn:El. intros Hne Hwf Hok.
  unfold stream_file_to_client. rewrite El. destruct locs as [|l0 locs0]; [done|].
  set (locs := l0 :: locs0) in *.
  destruct (collect_votes _ _ _ _ _) as [net1 votes] eqn:Ev.
  destruct (plan_all votes _) as [bad|plans] eqn:Ep; [done|]. intros Hres.
  pose proof (f_equal (λ r, r.1.1) Hres) as Hnet. pose proof (f_equal (λ r, r.1.2) Hres) as Hsent.
  clear Hres. cbn [fst snd] in Hnet, Hsent. subst net' sent.
  destruct (collect_votes_vouched _ _ _ _ _ Hwf Hok Ev) as (_ & Hkeep & Hv).
  apply plan_all_inr in Ep.
  assert (Forall (λ v : Vote, hr_success v.2 = true → is_number (hr_load_score v.2)) votes) as Hn.
  { eapply Forall_impl; [exact Hv|]. intros v [_ Hvv] Hs. by apply Hvv. }
  assert (map plan_chunk_id plans = (zmap_list (chunk_replicas locs)).*1) as Hids.
  { clear -Ep Hn. induction Ep as [|cid p cids ps Hp _ IH]; [done|]. cbn [map].
    rewrite IH. f_equal. by eapply plan_chunk_Some. }
  assert (size (chunk_replicas locs) = length plans) as Hsize.
  { rewrite <- (length_ordered Z.le). rewrite <- (length_map plan_chunk_id plans), Hids.
    by rewrite length_fmap. }
  exists plans, votes. split_and!.
  - done.
  - rewrite <- (hash_jobs_perm locs). pose proof (collect_votes_jobs net (λ _, reg) file (hash_jobs locs) schedule) as Hj.
    rewrite Ev in Hj. simpl in Hj. by rewrite Hj.
  - eapply Forall_impl; [exact Hv|]. by intros v [_ ?].
  - rewrite Hsize. by rewrite <- !app_assoc.
  - rewrite Hids. apply zmap_keys_sorted.
  - intros cid. rewrite Hids. split.
    + intros Hin. apply list_elem_of_fmap in Hin as ([c ls] & -> & Hin).
      apply elem_of_ordered in Hin. rewrite chunk_replicas_lookup in Hin.
      change (c ∈ map loc_chunk_id locs). destruct (filter _ locs) as [|x xs] eqn:E; [done|].
      assert (x ∈ filter (λ l, loc_chunk_id l = c) locs) as Hx by (rewrite E; by left).
      apply list_elem_of_filter in Hx as [<- Hx]. by apply (list_elem_of_fmap_2 loc_chunk_id).
    + intros Hin. apply list_elem_of_fmap in Hin as (l & -> & Hl).
      assert (is_Some (chunk_replicas locs !! loc_chunk_id l)) as [ls Hls].
      { rewrite chunk_replicas_lookup.
        assert (l ∈ filter (λ l', loc_chunk_id l' = loc_chunk_id l) locs) as Hf
          by (by apply list_elem_of_filter).
        destruct (filter _ locs); [by apply elem_of_nil in Hf|by eexists]. }
      apply list_elem_of_fmap. exists (loc_chunk_id l, ls). split; [done|]. by apply elem_of_ordered.
  - apply Forall_forall. intros p Hp. apply list_elem_of_lookup_1 in Hp as [i Hi].
    destruct (Forall2_lookup_r _ _ _ _ _ Ep Hi) as (cid & _ & Hc). by eapply plan_chunk_sound.
  - done.
Qed.

Lemma stream_plan `{!HashOrder bytes FileRecord} (meta : MetaState) (net net' : N)
    (schedule : list nat) (sent : bytes) :
  let '(locs, h) := get_chunk_locations meta file in
  locs ≠ [] → cluster_wf net → Forall loc_ok locs →
  stream_file_to_client meta net (λ _, reg) reg schedule file = (net', sent, true) →
  ∃ plans,
    sent = hash_line h ++ lit "CHUNKS " ++ show_nat (length plans) ++ [nl]
           ++ concat (map (chunk_loc_line reg) plans) ++ hash_line h ++ eof_line ∧
    StronglySorted Z.lt (map plan_chunk_id plans) ∧
    (∀ cid, cid ∈ map plan_chunk_id plans ↔ cid ∈ map loc_chunk_id locs) ∧
    Forall (λ p,
      best_server p ∈ locs ∧ loc_chunk_id (best_server p) = plan_chunk_id p ∧
      ∃ data, data ≠ [] ∧ plan_hash p = sha256 data ∧
        held net' (endpoint reg (loc_server (best_server p)))
          !! chunk_key file (plan_chunk_id p) = Some data) plans ∧
    ∀ e, held net e ⊆ held net' e.
Proof.
  pose proof (stream_plan_full meta net net' schedule sent) as Hfull.
  destruct (get_chunk_locations meta file) as [locs h]. intros H1 H2 H3 H4.
  destruct (Hfull H1 H2 H3 H4) as (plans & votes & _ & _ & _ & ? & ? & ? & Hp & ?).
  exists plans. split_and!; [done..| |done]. eapply Forall_impl; [exact Hp|].
  intros p [[? ?] _ _ _ ?]. done.
Qed.

(** C4: a download plan only names verified replicas.  When the plan is
    complete, each recorded replica was asked once, and every positive answer is
    the hash of bytes its server holds; the plan has exactly one line per chunk
    id of the file, in increasing order; each line names a recorded replica of
    that chunk whose server answered the announced hash and really holds bytes
    with it, no less busy server answered it too, no other hash has more
    answers, and none with as many is smaller.  Asking for the hashes loses no
    chunk.  (The registry does not change during the request.) *)
Theorem download_plan_verified `{!HashOrder bytes FileRecord} (meta : MetaState) (net net' : N)
    (schedule : list nat) (sent : bytes) :
  let '(locs, h) := get_chunk_locations meta file in
  locs ≠ [] → cluster_wf net → Forall loc_ok locs →
  stream_file_to_client meta net (λ _, reg) reg schedule file = (net', sent, true) →
  ∃ plans votes,
    collect_votes net (λ _, reg) file (hash_jobs locs) schedule = (net', votes) ∧
    votes.*1 ≡ₚ locs ∧ Forall (λ v, vouched net' v.1 v.2) votes ∧
    sent = hash_line h ++ lit "CHUNKS " ++ show_nat (length plans) ++ [nl]
           ++ concat (map (chunk_loc_line reg) plans) ++ hash_line h ++ eof_line ∧
    StronglySorted Z.lt (map plan_chunk_id plans) ∧
    (∀ cid, cid ∈ map plan_chunk_id plans ↔ cid ∈ map loc_chunk_id locs) ∧
    Forall (λ p, sound_plan net' locs (votes_for (plan_chunk_id p) votes) p) plans ∧
    ∀ e, held net e ⊆ held net' e.
Proof. apply stream_plan_full. Qed.
End planning.

(** ** Deleting *)

(** The main ports of the cluster servers as a network; [down] says, exchange
    by exchange, whether the server is unreachable. *)
Record MainPorts := mkPorts { mp_servers : gmap (bytes * Z) ChunkStorage; mp_down : list bool }.

(** The server after a message ([None]: it terminated), and its reply. *)
Definition after_message (s : ChunkStorage) (msg : bytes) : option ChunkStorage * bytes :=
  match handle_emergency IoOk s msg with
  | Terminated r => (None, r)
  | Reexecuted r => (Some (reboot s), r)
  | Answered s' r => (Some s', r)
  end.

#[export] Instance main_network : Network MainPorts := λ n h p req,
  let unreachable := default false (head (mp_down n)) in
  match mp_servers n !! (h, p) with
  | Some s =>
      if unreachable : bool then (mkPorts (mp_servers n) (tail (mp_down n)), None)
      else let '(s', r) := after_message s (take 1023 req) in
           (mkPorts (partial_alter (λ _, s') (h, p) (mp_servers n)) (tail (mp_down n)), Some r)
  | None => (mkPorts (mp_servers n) (tail (mp_down n)), None)
  end.

(** No server at [ep] has the chunk. *)
Definition lacks (n : MainPorts) (ep : bytes * Z) (id : bytes) : Prop :=
  ∀ s, mp_servers n !! ep = Some s → chunk_registry s !! id = None.

(** A message on the main port never makes a server have a chunk. *)
Lemma after_message_lacks s msg id s' r :
  chunk_registry s !! id = None → after_message s msg = (Some s', r) →
  chunk_registry s' !! id = None.
Proof.
  intros Hs. unfold after_message, handle_emergency.
  destruct msg as [|c msg]; [by intros [= <- <-]|].
  destruct (contains (lit "DEAD") _ || contains (lit "KILL") _); [done|].
  destruct (contains (lit "RESTART") _); [by intros [= <- <-]|].
  destruct (contains (lit "DELETE_CHUNK ") _); [|by intros [= <- <-]].
  set (w := match read_word _ with Some _ => _ | None => _ end). unfold delete_chunk.
  destruct (chunk_registry s !! w); intros [= <- <-]; [|done].
  cbn. rewrite lookup_delete. by case_decide.
Qed.

Lemma exchange_lacks n h p req n' r ep id :
  exchange n h p req = (n', r) → lacks n ep id → lacks n' ep id.
Proof.
  unfold exchange, main_network. intros Hex Hl s0.
  destruct (mp_servers n !! (h, p)) as [s|] eqn:Es; [|injection Hex as <- <-; apply Hl].
  destruct (default false (head (mp_down n))); [injection Hex as <- <-; apply Hl|].
  destruct (after_message s _) as [s' r'] eqn:Ea. injection Hex as <- <-. cbn.
  rewrite lookup_partial_alter. case_decide as He; [|apply Hl].
  intros ->. subst ep. eapply after_message_lacks; [by apply Hl|exact Ea].
Qed.

Lemma delete_on_server_lacks n n' file l ok ep id :
  delete_on_server n file l = (n', ok) → lacks n ep id → lacks n' ep id.
Proof.
  unfold delete_on_server. destruct (parse_address (loc_server l) 8080) as [h p].
  destruct (exchange n h p _) as [n1 ans] eqn:Ex. intros [= <- _]. by eapply exchange_lacks.
Qed.

Lemma word_chunk_key file cid : word file → word (chunk_key file cid).
Proof.
  intros Hf. unfold chunk_key, unique_chunk_id. apply word_app; [done|].
  apply Forall_app_2; [by apply (bool_decide_unpack (Forall _ (lit "_chunk_")))|apply word_show_Z].
Qed.

(** Deleting a chunk the server lacks is not a success. *)
Lemma delete_on_server_fails n n' file l ok :
  word file → (length (chunk_key file (loc_chunk_id l)) ≤ 1000)%nat →
  lacks n (parse_address (loc_server l) 8080) (chunk_key file (loc_chunk_id l)) →
  delete_on_server n file l = (n', ok) → ok = false.
Proof.
  intros Hf Hlen Hl. unfold delete_on_server.
  destruct (parse_address (loc_server l) 8080) as [h p] eqn:Ep.
  unfold exchange, main_network.
  destruct (mp_servers n !! (h, p)) as [s|] eqn:Es; [|by intros [= _ <-]].
  destruct (default false (head (mp_down n))); [by intros [= _ <-]|].
  rewrite take_ge.
  2: { unfold delete_request. rewrite !length_app. change (length (lit "DELETE_CHUNK ")) with 13%nat.
       simpl. lia. }
  unfold after_message. change (delete_request file (loc_chunk_id l)) with
    (delete_message (chunk_key file (loc_chunk_id l))).
  rewrite handle_emergency_delete by (by apply word_chunk_key).
  destruct (contains (lit "DEAD") _ || contains (lit "KILL") _); [by intros [= _ <-]|].
  destruct (contains (lit "RESTART") _); [by intros [= _ <-]|].
  unfold delete_chunk. rewrite (Hl s Es). by intros [= _ <-].
Qed.

Lemma delete_all_fails n n' file locs l ok :
  word file → l ∈ locs → (length (chunk_key file (loc_chunk_id l)) ≤ 1000)%nat →
  lacks n (parse_address (loc_server l) 8080) (chunk_key file (loc_chunk_id l)) →
  delete_all n file locs = (n', ok) → ok = false.
Proof.
  intros Hf Hin Hlen. revert n ok. induction locs as [|l0 locs IH]; intros n ok Hl;
    [by apply elem_of_nil in Hin|]. cbn [delete_all].
  destruct (delete_on_server n file l0) as [n1 o1] eqn:E1.
  destruct (delete_all n1 file locs) as [n2 o2] eqn:E2. intros [= <- <-].
  apply elem_of_cons in Hin as [->|Hin].
  - by rewrite (delete_on_server_fails _ _ _ _ _ Hf Hlen Hl E1).
  - rewrite (IH Hin n1 o2); [apply andb_false_r| |done].
    by eapply delete_on_server_lacks.
Qed.

Section deleting.
Context `{!HashOrder bytes FileRecord}.

(** A delete is not retryable.  As soon as one recorded replica is gone
    from its server (because an earlier delete removed it before failing on
    another server), every further DELETE of the file answers an error and
    keeps the metadata: the file stays listed for good. *)
Theorem delete_needs_every_replica (meta : MetaState) (n : MainPorts) (file : bytes)
    (l : ChunkLocation) :
  word file → l ∈ (get_chunk_locations meta file).1 →
  (length (chunk_key file (loc_chunk_id l)) ≤ 1000)%nat →
  lacks n (parse_address (loc_server l) 8080) (chunk_key file (loc_chunk_id l)) →
  ∃ n', handle_client_delete meta n file = (meta, n', error_not_deleted).
Proof.
  intros Hf Hin Hlen Hl. unfold handle_client_delete.
  destruct (get_chunk_locations meta file) as [locs h]. cbn [fst] in Hin.
  destruct locs as [|l0 locs]; [by apply elem_of_nil in Hin|].
  destruct (delete_all n file (l0 :: locs)) as [n' ok] eqn:Ed.
  rewrite (delete_all_fails _ _ _ _ _ _ Hf Hin Hlen Hl Ed). by exists n'.
Qed.

(** An empty file cannot be deleted.  An upload of zero bytes records a
    file without chunks; DELETE answers that it does not exist, whatever the
    network, and the entry stays. *)
Theorem empty_file_not_deleted {N : Type} `{!Network N} (cfg : UploadConfig) (meta : MetaState)
    (net : N) (file hash : bytes) :
  word file → word hash → int32_ok (replication_factor cfg) →
  let meta' := store_metadata cfg meta file [] hash in
  file ∈ list_all_files meta' ∧
  handle_client_delete meta' net file = (meta', net, error_not_found).
Proof.
  intros Hf Hh Hr. cbv zeta.
  rewrite store_metadata_replaces; [|by apply word_no_nl, Hf|by apply word_no_nl, Hh|done|done].
  unfold replace_file_chunks. set (s := persist_locked _).
  assert (∃ n, store s !! file = Some (mkFile hash n [])) as [n Hs].
  { eexists. unfold s. rewrite persist_locked_store. cbn [store with_store].
    by rewrite lookup_insert_eq. }
  split.
  - unfold list_all_files, list_files_snapshot. rewrite sorted_strings_perm.
    apply list_elem_of_fmap. exists (file, mkFile hash n []). split; [done|].
    by apply elem_of_hash_order.
  - unfold handle_client_delete, get_chunk_locations, query_metadata, get_chunks.
    destruct file as [|c file]; [by destruct Hf|]. by rewrite Hs.
Qed.
End deleting.

(** ** Concrete runs *)
Section demo.
Existing Instance net_protobuf.
Existing Instance cluster_network.

Definition answered (srv : string) (h : string) (active : Z) : Vote :=
  (mkLoc 0 (lit srv) (lit "/p"), mkFetchHashResponse true (lit "f_chunk_0") (lit h) [] hundred active).

Lemma majority_hash_spec_witness :
  majority_hash [answered "a" "bb" 1; answered "b" "aa" 2; answered "c" "bb" 3] = lit "bb" ∧
  support [answered "a" "bb" 1; answered "b" "aa" 2; answered "c" "bb" 3] (lit "aa") ≤
  support [answered "a" "bb" 1; answered "b" "aa" 2; answered "c" "bb" 3]
    (majority_hash [answered "a" "bb" 1; answered "b" "aa" 2; answered "c" "bb" 3]).
Proof.
  split; [vm_compute; reflexivity|].
  apply (majority_hash_spec [answered "a" "bb" 1; answered "b" "aa" 2; answered "c" "bb" 3]).
  discriminate.
Defined.

Definition held_store : ChunkStorage :=
  mkStorage (lit "/d/") {[lit "f.txt_chunk_0" := lit "/d/x"]} {[lit "/d/x" := lit "abcd"]} 7.
Definition held_cluster : Cluster :=
  mkCluster {[(lit "10.0.0.1", 8180) := mkServer held_store hundred hundred 1]} [] 1000.
Definition held_meta : MetaState :=
  mkMeta {[lit "f.txt" := mkFile (sha256 (lit "abcd")) 1
    [mkChunk 0 (lit "10.0.0.1:8080") (lit "/d/x") (sha256 (lit "abcd")) 1]]} [] true.

Lemma held_path_old now : old_path now (lit "/d/x").
Proof.
  intros d i e n _ E. unfold chunk_path in E. rewrite !app_assoc in E.
  apply (f_equal last) in E. by rewrite last_app in E.
Qed.

Lemma held_cluster_wf : wf_cluster held_cluster.
Proof.
  intros ep nd Hnd. unfold held_cluster in Hnd. cbn [servers] in Hnd.
  apply lookup_singleton_Some in Hnd as [_ <-].
  constructor; [|done|done|by split]. unfold held_store.
  constructor; cbn [server_store chunk_registry disk_files].
  - intros id p [_ <-]%lookup_singleton_Some. apply held_path_old.
  - intros p f [<- <-]%lookup_singleton_Some. split; [apply held_path_old|by vm_compute].
Qed.

Lemma download_plan_verified_witness :
  let '(locs, h) := get_chunk_locations held_meta (lit "f.txt") in
  let r := stream_file_to_client held_meta held_cluster (λ _, demo_reg) demo_reg [0%nat] (lit "f.txt") in
  ∃ plans votes,
    collect_votes held_cluster (λ _, demo_reg) (lit "f.txt") (hash_jobs locs) [0%nat] = (r.1.1, votes) ∧
    r.1.2 = hash_line h ++ lit "CHUNKS " ++ show_nat (length plans) ++ [nl]
            ++ concat (map (chunk_loc_line demo_reg) plans) ++ hash_line h ++ eof_line ∧
    Forall (λ p, ∀ h, support (votes_for (plan_chunk_id p) votes) h ≤
                      support (votes_for (plan_chunk_id p) votes) (plan_hash p)) plans.
Proof.
  destruct (download_plan_verified demo_reg (lit "f.txt") held_meta held_cluster
    (stream_file_to_client held_meta held_cluster (λ _, demo_reg) demo_reg [0%nat] (lit "f.txt")).1.1
    [0%nat]
    (stream_file_to_client held_meta held_cluster (λ _, demo_reg) demo_reg [0%nat] (lit "f.txt")).1.2)
    as (plans & votes & Hvotes & _ & _ & Hsent & _ & _ & Hplans & _).
  - vm_compute. discriminate.
  - exact held_cluster_wf.
  - apply Forall_singleton. split; [|by apply (text_ok_lit "/d/x")].
    change (text_ok (chunk_key (lit "f.txt") 0)). apply key_ok_short; [by_decision|by vm_compute|by split].
  - vm_compute. reflexivity.
  - exists plans, votes. split; [exact Hvotes|]. split; [exact Hsent|].
    eapply Forall_impl; [exact Hplans|]. intros p Hp. apply Hp.
Defined.

(** Two replicas; the second server is unreachable during the first delete. *)
Definition two_replicas : MetaState :=
  mkMeta {[lit "f.txt" := mkFile (sha256 (lit "abcd")) 2
    [mkChunk 0 (lit "10.0.0.1:8080") (lit "/d/x") (sha256 (lit "abcd")) 2;
     mkChunk 0 (lit "10.0.0.2:8080") (lit "/d/x") (sha256 (lit "abcd")) 2]]} [] true.
Definition two_servers : MainPorts :=
  mkPorts (<[(lit "10.0.0.2", 8080) := held_store]> {[(lit "10.0.0.1", 8080) := held_store]})
    [false; true].
Definition first_delete : MetaState * MainPorts * bytes :=
  handle_client_delete two_replicas two_servers (lit "f.txt").

Example first_delete_partial :
  first_delete.2 = error_not_deleted ∧
  mp_down first_delete.1.2 = [].
Proof. vm_compute. split; reflexivity. Qed.

Lemma delete_needs_every_replica_witness :
  ∃ n', handle_client_delete two_replicas first_delete.1.2 (lit "f.txt") =
        (two_replicas, n', error_not_deleted).
Proof.
  apply (delete_needs_every_replica two_replicas first_delete.1.2 (lit "f.txt")
    (mkLoc 0 (lit "10.0.0.1:8080") (lit "/d/x"))).
  - lit_word.
  - vm_compute. left.
  - vm_compute. repeat constructor.
  - intros s. vm_compute. by intros [= <-].
Defined.

Lemma empty_file_not_deleted_witness :
  handle_client_delete (store_metadata demo_cfg demo_meta (lit "f") [] (lit "h")) two_servers (lit "f")
  = (store_metadata demo_cfg demo_meta (lit "f") [] (lit "h"), two_servers, error_not_found).
Proof.
  apply (empty_file_not_deleted demo_cfg demo_meta two_servers (lit "f") (lit "h"));
    [lit_word|lit_word|by split].
Defined.
End demo.
