(* ===== verification/Heartbeat.v ===== *)
(** * Heartbeat: from a cluster server to the head server's health monitor
    (src/src/cluster_server/chunk_service.cpp 309-382,
    src/src/head_server/head_server.cpp 511-582)

    A heartbeat is one UDP datagram: a 32-bit length and a [HeartBeat]. *)
From Stdlib Require Import Lia SpecFloat.
From S2P Require Import Prelude.
From S2P Require Import Text.
From S2P Require Import Net.
From S2P Require Import Health.
From S2P Require Import Wire.
From S2P Require Import WireCodec.
Local Open Scope Z_scope.

(** What the system monitor measured. *)
Record SystemUsage := mkUsage {
  su_cpu : spec_float; su_ram : spec_float; su_disk : spec_float;
  su_in : bytes; su_out : bytes; su_in_bps : Z; su_out_bps : Z }.

(** [sample]: the cached measurement, or the disk and RAM percentages read on
    the spot when there is none yet. *)
Definition make_heartbeat (server_id : Z) (server_ip : bytes) (port now : Z)
    (sample : SystemUsage + spec_float * spec_float) : HeartBeat :=
  let addr := show_address server_ip port in
  match sample with
  | inl u => mkHeartBeat server_id addr (su_cpu u) (su_disk u) now (su_ram u) (su_disk u)
               (su_in u) (su_out u) (su_in_bps u) (su_out_bps u)
  | inr (disk, ram) => mkHeartBeat server_id addr no_float disk now ram disk [] [] 0 0
  end.

Section heartbeat.
Context `{!Protobuf}.

Definition build_frame (hb : HeartBeat) : bytes := frame (serialize hb).

Definition health_of_heartbeat (hb : HeartBeat) : ServerHealth :=
  mkHealth (hb_server_id hb) (hb_ip hb) (hb_cpu_usage hb) (hb_ram_usage hb) (hb_disk_usage hb)
    (hb_network_in hb) (hb_network_out hb) (hb_network_in_bytes_per_sec hb)
    (hb_network_out_bytes_per_sec hb) true 0 0.

(** [uint8_t buf[8192]]. *)
Definition datagram_max : Z := 8192.

(** What one datagram does.  [Overrun]: the parser is called with a length
    that, read as an [int], is negative. *)
Inductive datagram_effect :=
  | Ignored
  | Overrun
  | Recorded (m : HealthMonitor) (ns : list notification).

Definition receive_heartbeat (now : Z) (m : HealthMonitor) (datagram : bytes) : datagram_effect :=
  let buf := take (Z.to_nat datagram_max) datagram in
  let n := Z.of_nat (length buf) in
  if decide (n < 4) then Ignored
  else
    let msg_len := of_be32 (take 4 buf) in
    if decide (n < w32 (4 + msg_len)) then Ignored           (* uint32_t arithmetic *)
    else if decide (INT_MAX < msg_len) then Overrun
    else match parse (take (Z.to_nat msg_len) (drop 4 buf)) with
         | None => Ignored
         | Some hb =>
             let '(m', ns) := record_heartbeat now m (hb_server_id hb) (health_of_heartbeat hb) in
             Recorded m' ns
         end.

(** ** Laws *)
Lemma of_be32_range b : length b = 4%nat → 0 ≤ of_be32 b < 2 ^ 32.
Proof.
  intros Hb. destruct b as [|w [|x [|y [|z [|]]]]]; try done.
  unfold of_be32. cbn [fold_left].
  pose proof (byte_z_range w). pose proof (byte_z_range x).
  pose proof (byte_z_range y). pose proof (byte_z_range z). lia.
Qed.

Lemma receive_parsed now m datagram n body hb :
  (length datagram ≤ Z.to_nat datagram_max)%nat →
  datagram = be32 n ++ body → 0 ≤ n ≤ INT_MAX → n ≤ Z.of_nat (length body) →
  parse (take (Z.to_nat n) body) = Some hb →
  receive_heartbeat now m datagram =
    let '(m', ns) := record_heartbeat now m (hb_server_id hb) (health_of_heartbeat hb) in
    Recorded m' ns.
Proof.
  intros Hl -> Hn Hb Hp. unfold receive_heartbeat. rewrite take_ge by done.
  unfold INT_MAX in *. rewrite length_app, length_be32.
  rewrite (take_app_length' _ _ 4), (drop_app_length' _ _ 4) by (by rewrite length_be32).
  rewrite of_be32_be32 by lia. unfold wrap. rewrite Z.mod_small by lia.
  rewrite !decide_False by (unfold INT_MAX; lia). by rewrite Hp.
Qed.

(** The record the sender's measurements call for. *)
Definition health_sent (now sid : Z) (address : bytes) (sample : SystemUsage + spec_float * spec_float)
  : ServerHealth :=
  match sample with
  | inl u => mkHealth sid address (su_cpu u) (su_ram u) (su_disk u) (su_in u) (su_out u)
               (su_in_bps u) (su_out_bps u) true now 0
  | inr (disk, ram) => mkHealth sid address no_float ram disk [] [] 0 0 true now 0
  end.

(** C37: a heartbeat is received as it was sent.  Whatever the cluster server
    reports (if it fits in a datagram), the head server's record of the server
    is then exactly what was measured: its "host:port" address, CPU, RAM and
    disk usage, both network descriptions and both rates (or disk and RAM alone,
    when nothing was sampled yet), healthy, heard of now, with no missed check;
    the other servers are left alone. *)
Theorem heartbeat_received (now sent_at : Z) (m : HealthMonitor) (sid : Z) (addr : bytes) (port : Z)
    (sample : SystemUsage + spec_float * spec_float) :
  let hb := make_heartbeat sid addr port sent_at sample in
  wire_ok hb → (length (build_frame hb) ≤ Z.to_nat datagram_max)%nat →
  ∃ m' ns, receive_heartbeat now m (build_frame hb) = Recorded m' ns ∧
    hm_servers m' !! sid = Some (health_sent now sid (show_address addr port) sample) ∧
    ∀ sid', sid' ≠ sid → hm_servers m' !! sid' = hm_servers m !! sid'.
Proof.
  cbv zeta. set (hb := make_heartbeat _ _ _ _ _). intros Hw Hl.
  assert (hb_server_id hb = sid ∧
    with_liveness (health_of_heartbeat hb) true now 0 = health_sent now sid (show_address addr port) sample)
    as [Hid Hrec] by (unfold hb, make_heartbeat; by destruct sample as [u|[]]).
  clearbody hb. pose proof (serialize_small hb Hw) as Hs.
  assert (Z.of_nat (length (serialize hb)) ≤ 8192) as Hl'.
  { unfold build_frame, frame, datagram_max in Hl. rewrite length_app in Hl. lia. }
  eexists _, _. split; [|split].
  - eapply receive_parsed; [done|done|..].
    + unfold wrap. rewrite Z.mod_small by lia. unfold INT_MAX. lia.
    + unfold wrap. rewrite Z.mod_small by lia. lia.
    + unfold wrap. rewrite Z.mod_small, Nat2Z.id, take_ge by lia.
      by apply parse_serialize.
  - simpl. by rewrite Hid, Hrec, lookup_insert_eq.
  - intros sid' Hne. simpl. rewrite Hid. by rewrite lookup_insert_ne by done.
Qed.

(** The length check of the receiver is done in 32 bits.  The parser is
    handed a negative length exactly for the datagrams of at least four bytes
    whose length word is one of the last four values of an [uint32_t]; for
    every other datagram that is parsed, the parsed bytes are in the datagram. *)
Theorem heartbeat_length_check (now : Z) (m : HealthMonitor) (datagram : bytes) :
  (receive_heartbeat now m datagram = Overrun ↔
   (4 ≤ length datagram)%nat ∧ 2 ^ 32 - 4 ≤ of_be32 (take 4 datagram)) ∧
  (∀ m' ns, receive_heartbeat now m datagram = Recorded m' ns →
     4 + of_be32 (take 4 datagram) ≤ Z.min datagram_max (Z.of_nat (length datagram))).
Proof.
  unfold receive_heartbeat, datagram_max. rewrite take_take, Nat.min_l by lia.
  rewrite length_take. assert (Hmax : Z.of_nat (Z.to_nat 8192) = 8192) by lia.
  set (K := Z.to_nat 8192) in *. clearbody K.
  destruct (decide (Z.of_nat (Nat.min K (length datagram)) < 4)) as [Hshort|Hlong].
  { split; [|done]. split; [done|]. intros [? _]. lia. }
  pose proof (of_be32_range (take 4 datagram)) as Hr.
  rewrite length_take in Hr. specialize (Hr ltac:(lia)).
  set (n := of_be32 _) in *. clearbody n.
  assert (Hw : w32 (4 + n) = 4 + n ∧ n < 2 ^ 32 - 4 ∨
               w32 (4 + n) = 4 + n - 2 ^ 32 ∧ 2 ^ 32 - 4 ≤ n).
  { unfold wrap. destruct (decide (n < 2 ^ 32 - 4)); [left|right].
    - rewrite Z.mod_small by lia. lia.
    - split; [|lia]. symmetry. apply Z.mod_unique with 1; lia. }
  destruct (decide (Z.of_nat (Nat.min K (length datagram)) < w32 (4 + n))) as [Hlt|Hge].
  { split; [|done]. split; [done|]. lia. }
  destruct (decide (INT_MAX < n)) as [Hbig|Hsmall]; unfold INT_MAX in *.
  - split; [|done]. split; [|done]. intros _. lia.
  - split.
    + split; [|lia]. destruct (parse _) as [hb|]; [|done].
      by destruct (record_heartbeat _ _ _ _).
    + intros m' ns. lia.
Qed.
End heartbeat.

(** A server with no sample yet, and its first datagram. *)
Definition demo_heartbeat : HeartBeat :=
  make_heartbeat 3 (lit "10.0.0.3") 8083 42 (inr (no_float, no_float)).

Lemma demo_heartbeat_ok : wire_ok demo_heartbeat.
Proof.
  unfold wire_ok; cbn -[Z.le Z.pow]. unfold int32_ok, uint64_ok, float_ok, text_ok.
  split_and!; by_decision.
Qed.

Lemma heartbeat_received_witness :
  ∃ m' ns, receive_heartbeat (H := net_protobuf) 50 demo_monitor
             (build_frame (H := net_protobuf) demo_heartbeat) = Recorded m' ns ∧
    hm_servers m' !! 3 =
      Some (mkHealth 3 (lit "10.0.0.3:8083") no_float no_float no_float [] [] 0 0 true 50 0) ∧
    ∀ sid', sid' ≠ 3 → hm_servers m' !! sid' = hm_servers demo_monitor !! sid'.
Proof.
  apply (heartbeat_received (H := net_protobuf) 50 42 demo_monitor 3 (lit "10.0.0.3") 8083
           (inr (no_float, no_float))).
  - exact demo_heartbeat_ok.
  - by_decision.
Defined.
