(* ===== verification/Failover.v ===== *)
(** * Failover: what the head server does about a silent cluster server
    (src/src/head_server/head_server.cpp 584-1013, 1138-1153)

    [verify_cluster_server_dead_consensus] (the vote), then
    [send_dead_signal_to_cluster_server], then the removal from the registry,
    then [rereplicate_dead_server_chunks]. *)
From Stdlib Require Import Lia.
From S2P Require Import Prelude.
From S2P Require Import Text.
From S2P Require Import Ordered.
From S2P Require Import JsonText.
From S2P Require Import Net.
From S2P Require Import Metadata.
From S2P Require Import Registry.
From S2P Require Import Health.
From S2P Require Import ControlApi.
From S2P Require Import ControlClient.
From S2P Require Import Zk.
From S2P Require Import Wire.
From S2P Require Import HeadNet.
Local Open Scope Z_scope.

(** One question on a fresh connection: [connect_with_timeout], [send_all], and
    a single [recv] of at most the given number of bytes. *)
Inductive heard := Unreachable | Silent | Heard (b : bytes).
Class OneShot (N : Type) := ask : N → bytes → Z → bytes → Z → N * heard.

Section signal.
Context {N : Type} `{!OneShot N}.

(** ** The DEAD signal *)
Definition dead_cmd : bytes := lit "DEAD" ++ [nl].

(** The main port, or the transfer port when it cannot be connected to. *)
Definition signal_once (net : N) (reg : Registry) (addr : bytes) : N * heard :=
  let '(h, p) := parse_address addr 8080 in
  match ask net h p dead_cmd 63 with
  | (net, Unreachable) => ask net h (transfer_port_of reg addr) dead_cmd 63
  | r => r
  end.

(** Whether an attempt was answered with OK. *)
Fixpoint signal_attempts (tries : nat) (net : N) (reg : Registry) (addr : bytes) : N * bool :=
  match tries with
  | O => (net, false)
  | S tries =>
      let '(net, r) := signal_once net reg addr in
      let acked := match r with Heard b => contains (lit "OK") b | _ => false end in
      if acked then (net, true) else signal_attempts tries net reg addr
  end.

Definition send_dead_signal (net : N) (reg : Registry) (addr : bytes) : N * bool :=
  if decide ((parse_address addr 8080).2 = 0) then (net, false)
  else let '(net, _) := signal_attempts 3 net reg addr in (net, true).

(** ** The vote *)
Definition server_znode (sid : Z) : bytes := lit "/dfg/cluster_servers/server_" ++ show_Z sid.
Definition timestamp_mark : bytes := lit "|timestamp:".

(** Whether ZooKeeper says that the server is alive. *)
Definition zk_alive (now_sec : Z) (zk : ZkStore) (sid : Z) : bool :=
  let znode := server_znode sid in
  if node_exists zk znode then
    let data := get_node_data zk znode in
    match find timestamp_mark data with
    | Some pos =>
        match stoll (drop (pos + 11) data) with
        | Val last_ts => now_sec - last_ts <? 30
        | Throw _ => false
        end
    | None => true
    end
  else false.

Definition head_servers_path : bytes := lit "/dfg/head_servers".

(** Registered head servers, other than those on our own control port. *)
Definition zk_peers (zk : ZkStore) (our_control_port : Z) : list (bytes * Z) :=
  if node_exists zk head_servers_path then
    omap (λ child,
      match get_node_data zk (head_servers_path ++ slash ++ child) with
      | [] => None
      | data =>
          let '(h, p) := parse_address data 8080 in
          if decide (0 < p ∧ p ≠ our_control_port) then Some (h, p) else None
      end) (get_children zk head_servers_path)
  else [].

Definition add_peer (our_control_port : Z) (peers : list (bytes * Z)) (entry : bytes * Z)
  : list (bytes * Z) :=
  if decide (entry.2 ≠ our_control_port ∧ entry ∉ peers) then peers ++ [entry] else peers.

Definition peers_of (zk : ZkStore) (cfg_heads : list (bytes * Z)) (our_control_port : Z)
  : list (bytes * Z) :=
  fold_left (add_peer our_control_port) cfg_heads (zk_peers zk our_control_port).

Definition health_query (sid : Z) (peer_host : bytes) : bytes :=
  plain_request (lit "GET")
    (lit "/api/v1/servers/cluster/" ++ show_Z sid ++ lit "/health") peer_host.

Definition claims_healthy (resp : bytes) : bool :=
  contains (jlit "'healthy':true") resp || contains (jlit "'healthy': true") resp.

(** Whether every peer let the consensus stand. *)
Fixpoint poll_peers (net : N) (sid : Z) (peers : list (bytes * Z)) : N * bool :=
  match peers with
  | [] => (net, true)
  | (h, p) :: peers =>
      let '(net, r) := ask net h p (health_query sid h) 1023 in
      match r with
      | Heard b => if claims_healthy b then (net, false) else poll_peers net sid peers
      | Unreachable | Silent => poll_peers net sid peers
      end
  end.

Definition verify_consensus (net : N) (now_sec : Z) (zk : ZkStore) (cfg_heads : list (bytes * Z))
    (our_control_port sid : Z) : N * bool :=
  if zk_alive now_sec zk sid then (net, false)
  else poll_peers net sid (peers_of zk cfg_heads our_control_port).
End signal.

(** The ZooKeeper store of a head server's process after [run_head_server]
    registered it; [zk] is the handle, connected. *)
Definition ensure_node (zk : ZkClient) (s : ZkStore) (path : bytes) : ZkStore :=
  if node_exists s path then s else (create_node zk s path [] false false).1.1.
Definition head_znode (control_port : Z) : bytes :=
  lit "/dfg/head_servers/head_" ++ show_Z control_port.
Definition register_head (zk : ZkClient) (s : ZkStore) (control_port : Z) : ZkStore :=
  let zk := (connect zk).1 in
  let s := ensure_node zk s (lit "/dfg") in
  let s := ensure_node zk s head_servers_path in
  (create_node zk s (head_znode control_port) (lit "127.0.0.1:" ++ show_Z control_port)
     true false).1.1.

(** ** Re-replication *)

(** Registered servers other than the dead one, with no unhealthy record. *)
Definition h_ok (h : ServerHealth) (srv : bytes) : bool :=
  negb (bool_decide (ip h = srv ∨ ip h = (parse_address srv 8080).1) && negb (is_healthy h)).
Definition healthy_servers (reg : Registry) (hm : gmap Z ServerHealth) (dead : bytes) : list bytes :=
  filter (λ srv, srv ≠ dead ∧ forallb (λ h, h_ok h srv) (zmap_list hm).*2 = true)
    (get_addresses reg).

(** [chunk_map[cr.chunk_id].push_back(cr)] *)
Definition push_record (m : gmap Z (list ChunkRecord)) (c : ChunkRecord)
  : gmap Z (list ChunkRecord) := push_to chunk_id m c.
Definition chunk_map (cs : list ChunkRecord) : gmap Z (list ChunkRecord) :=
  fold_left push_record cs ∅.

Record Survey := mkSurvey {
  has_dead_replica : bool; surviving_server : bytes; surviving_path : bytes;
  dead_checksum : bytes }.
Definition survey_step (dead : bytes) (v : Survey) (r : ChunkRecord) : Survey :=
  if decide (server r = dead)
  then mkSurvey true (surviving_server v) (surviving_path v) (checksum r)
  else match surviving_server v with
       | [] => mkSurvey (has_dead_replica v) (server r) (path r) (dead_checksum v)
       | _ => v
       end.
Definition survey (dead : bytes) (records : list ChunkRecord) : Survey :=
  fold_left (survey_step dead) records (mkSurvey false [] [] []).

(** The first healthy server that does not host the chunk; empty if none. *)
Definition pick_target (healthy : list bytes) (records : list ChunkRecord) : bytes :=
  default [] (head (filter (λ cand, cand ∉ map server records) healthy)).

Definition replica_record (target file : bytes) (cid : Z) (new_path sum : bytes)
    (records : list ChunkRecord) : ChunkRecord :=
  mkChunk cid target
    (match new_path with [] => assumed_path target file cid | _ => new_path end)
    sum (sint32 (Z.of_nat (length records))).

Abbreviation updates := (gmap bytes (list ChunkRecord)).
(** [file_chunks_to_update[filename].push_back(rep_record)] *)
Definition push_update (u : updates) (file : bytes) (c : ChunkRecord) : updates :=
  <[file := default [] (u !! file) ++ [c]]> u.

Section rereplicate.
Context {N : Type} `{!Network N} `{!Protobuf} `{!HashOrder bytes FileRecord}.
Variables (reg : Registry) (dead : bytes).

(** The body of the loop over the chunks of a file. *)
Definition failover_chunk (healthy : list bytes) (file : bytes) (st : N * updates)
    (group : Z * list ChunkRecord) : N * updates :=
  let '(net, u) := st in
  let '(cid, records) := group in
  let v := survey dead records in
  if has_dead_replica v then
    match surviving_server v with
    | [] => st                                   (* cannot be recovered *)
    | source =>
        match pick_target healthy records with
        | [] => st                               (* every server hosts it *)
        | target =>
            let '(net, (ok, new_path)) :=
              replicate_chunk_to_server net reg source (sint32 cid) target file
                (surviving_path v) in
            (net, if ok
                  then push_update u file
                         (replica_record target file cid new_path (dead_checksum v) records)
                  else u)
        end
    end
  else st.

Definition failover_file (meta : MetaState) (healthy : list bytes) (st : N * updates)
    (file : bytes) : N * updates :=
  fold_left (failover_chunk healthy file)
    (zmap_list (chunk_map (chunks (query_metadata meta file)))) st.

Definition rereplicate (net : N) (hm : gmap Z ServerHealth) (meta : MetaState) : N * MetaState :=
  match list_all_files meta with
  | [] => (net, delete_server_metadata meta dead)
  | files =>
      match healthy_servers reg hm dead with
      | [] => (net, meta)
      | (primary :: _) as healthy =>
          let '(net, u) := fold_left (failover_file meta healthy) files (net, ∅) in
          let meta := if decide (u = ∅) then meta
                      else (atomic_replace_server_chunks meta dead primary u).1 in
          (net, delete_server_metadata meta dead)
      end
  end.
End rereplicate.

(** ** [on_server_unhealthy_callback] *)
Record HeadProcess (N : Type) := mkProcess {
  hp_head : Head; hp_meta : MetaState; hp_zk : ZkStore; hp_net : N;
  hp_recovering : gset bytes }.
Arguments mkProcess {N}. Arguments hp_head {N}. Arguments hp_meta {N}.
Arguments hp_zk {N}. Arguments hp_net {N}. Arguments hp_recovering {N}.

Section callback.
Context {N : Type} `{!Network N} `{!OneShot N} `{!Protobuf} `{!HashOrder bytes FileRecord}.
Variables (cfg_heads : list (bytes * Z)) (our_control_port : Z).

(** The guard: [None] when a failover of the address is under way. *)
Definition begin_failover (recovering : gset bytes) (addr : bytes) : option (gset bytes) :=
  if decide (addr ∈ recovering) then None else Some ({[addr]} ∪ recovering).
Definition end_failover (recovering : gset bytes) (addr : bytes) : gset bytes :=
  recovering ∖ {[addr]}.

Definition on_server_unhealthy (now_sec : Z) (p : HeadProcess N) (sid : Z) (h : ServerHealth)
  : HeadProcess N :=
  match begin_failover (hp_recovering p) (ip h) with
  | None => p
  | Some recovering =>
      let finished := end_failover recovering (ip h) in
      let '(net, consensus_dead) :=
        verify_consensus (hp_net p) now_sec (hp_zk p) cfg_heads our_control_port sid in
      if consensus_dead then
        let reg := registry (hp_head p) in
        let '(net, _) := send_dead_signal net reg (ip h) in
        let '(reg, _, _) := remove_server reg sid in
        let '(net, meta) :=
          rereplicate reg (ip h) net (get_all_health (monitor (hp_head p))) (hp_meta p) in
        mkProcess (mkHead reg (monitor (hp_head p))) meta (hp_zk p) net finished
      else mkProcess (hp_head p) (hp_meta p) (hp_zk p) net finished
  end.
End callback.
