(* ===== verification/Client.v ===== *)
(** * Client: the command-line client, and the head server's client port
    (src/src/client/client.cpp 25-482, src/src/head_server/head_server.cpp 1211-1246)

    A local file is its contents.  What the head server sends is a byte
    string; what a cluster server's public port sends comes from a [Network]. *)
From Stdlib Require Import Lia.
From S2P Require Import Prelude.
From S2P Require Import Text.
From S2P Require Import Ordered.
From S2P Require Import Sha256.
From S2P Require Import Net.
From S2P Require Import Metadata.
From S2P Require Import HeadNet.
From S2P Require Import Upload.
Local Open Scope Z_scope.

(** ** The head server's side: which command was received *)
Inductive client_command :=
  | CmdDownload (file : bytes)
  | CmdDelete (file : bytes)
  | CmdUpload (req : bytes)
  | CmdList
  | CmdUnknown.

Definition line_end (c : ascii) : bool := bool_decide (c = nl ∨ c = cr).
(** [find_last_not_of(" \n\r\t")] *)
Definition blank (c : ascii) : bool := bool_decide (c = sp ∨ c = nl ∨ c = cr ∨ c = tab).

(** [sent]: what the client sent, which waits for the answer; one [recv] takes
    at most 1023 bytes of it ([sizeof(buf) - 1]) and the C string made of them
    stops at the first zero byte. *)
Definition command_buffer : nat := 1023.
Definition parse_command (sent : bytes) : client_command :=
  let received := take command_buffer sent in
  let req := take_while (λ c, negb (bool_decide (c = "000"%char))) received in
  if starts_with (lit "DOWNLOAD ") req then CmdDownload (rtrim line_end (drop 9 req))
  else if starts_with (lit "DELETE ") req then CmdDelete (rtrim blank (drop 7 req))
  else if starts_with (lit "UPLOAD ") req then CmdUpload (rtrim line_end req)
  else if starts_with (lit "LIST") req then CmdList
  else CmdUnknown.

Definition list_reply `{!HashOrder bytes FileRecord} (meta : MetaState) : bytes :=
  to_text (list_all_files meta ++ [lit "EOF"]).

(** ** [file_delete] *)
Definition delete_cmd (file : bytes) : bytes := lit "DELETE " ++ file ++ [nl].
(** The exit code, from what one [recv] of at most 255 bytes returned. *)
Definition delete_exit (resp : bytes) : Z := if contains (lit "SUCCESS") resp then 0 else 1.

(** ** [file_list] *)
Definition list_cmd : bytes := lit "LIST" ++ [nl].
(** [None]: the server reported an error. *)
Fixpoint read_listing (fuel : nat) (s : bytes) (files : list bytes) : option (list bytes) :=
  match fuel with
  | O => None
  | S fuel =>
      let '(line, s) := read_line s in
      if decide (line = [] ∨ line = lit "EOF") then Some files
      else if starts_with (lit "ERROR:") line then None
      else read_listing fuel s (files ++ [line])
  end.
Definition file_list (reply : bytes) : option (list bytes) := read_listing (S (length reply)) reply [].

(** ** [file_upload] *)
Definition DEFAULT_CHUNK_SIZE : Z := 64 * 1024 * 1024.

Section upload.
Variable CHUNK_SIZE : Z.

Definition num_chunks (size : Z) : Z :=
  if decide (size = 0) then 0 else (size + CHUNK_SIZE - 1) `div` CHUNK_SIZE.

(** The [n] chunks read from what is left of the file. *)
Fixpoint read_chunks (n : nat) (rest : bytes) : list bytes :=
  match n with
  | O => []
  | S n =>
      let current_chunk_size := Z.to_nat (Z.min CHUNK_SIZE (Z.of_nat (length rest))) in
      take current_chunk_size rest :: read_chunks n (drop current_chunk_size rest)
  end.
Definition file_chunks (content : bytes) : list bytes :=
  read_chunks (Z.to_nat (num_chunks (Z.of_nat (length content)))) content.

Definition upload_cmd (file content : bytes) : bytes :=
  lit "UPLOAD " ++ file ++ sp :: show_Z (Z.of_nat (length content)) ++ sp ::
  show_Z (num_chunks (Z.of_nat (length content))) ++ sp :: sha256 content ++ [nl].

Definition chunk_hdr (i : nat) (data : bytes) : bytes :=
  lit "CHUNK " ++ show_Z (Z.of_nat i) ++ sp :: show_Z (Z.of_nat (length data)) ++ sp ::
  sha256 data ++ [nl].

(** Everything sent once the server is ready. *)
Definition upload_stream (content : bytes) : bytes :=
  concat (imap (λ i data, chunk_hdr i data ++ data) (file_chunks content)) ++ lit "EOF" ++ [nl].
End upload.

(** What the client waits for before sending, and the exit code at the end. *)
Definition server_ready (reply : bytes) : bool := starts_with (lit "READY") (read_line reply).1.
Definition upload_exit (reply : bytes) : Z :=
  let '(ready, reply) := read_line reply in
  if starts_with (lit "READY") ready then
    if starts_with (lit "SUCCESS") (read_line reply).1 then 0 else 1
  else 1.

(** ** [file_download] *)
Definition download_cmd (file : bytes) : bytes := lit "DOWNLOAD " ++ file ++ [nl].

Record FetchInfo := mkFetchInfo { fi_id : Z; fi_ip : bytes; fi_port : Z; fi_hash : bytes }.

(** [iss >> info.id >> info.ip >> info.port >> info.hash] *)
Definition parse_chunk_loc (s : bytes) : option FetchInfo :=
  '(i, s) ← read_int s;
  '(h, s) ← read_word s;
  '(p, s) ← read_int s;
  '(sum, _) ← read_word s;
  Some (mkFetchInfo i h p sum).

(** The loop over the lines of the plan: the file's hash and the chunks. *)
Fixpoint read_plan_loop (fuel : nat) (s hash : bytes) (chunks : list FetchInfo)
  : option (bytes * list FetchInfo) :=
  match fuel with
  | O => None
  | S fuel =>
      let '(line, s) := read_line s in
      if decide (line = []) then None
      else if starts_with (lit "ERROR:") line then None
      else if starts_with (lit "FILE_HASH ") line then read_plan_loop fuel s (drop 10 line) chunks
      else if starts_with (lit "CHUNKS ") line then read_plan_loop fuel s hash chunks
      else if starts_with (lit "CHUNK_LOC ") line then
        match parse_chunk_loc (drop 10 line) with
        | None => None
        | Some info => read_plan_loop fuel s hash (chunks ++ [info])
        end
      else if decide (line = lit "EOF") then Some (hash, chunks)
      else read_plan_loop fuel s hash chunks
  end.
Definition read_plan (reply : bytes) : option (bytes * list FetchInfo) :=
  read_plan_loop (S (length reply)) reply [] [].

Definition get_req (cid : Z) (file : bytes) : bytes :=
  lit "GET_CHUNK " ++ show_Z cid ++ sp :: file ++ [nl].

(** One download thread: the verified bytes, a failure, or an exception that
    ends the process. *)
Inductive fetched := FetchFailed | FetchCrashed | Fetched (data : bytes).

(** [max_alloc]: the largest buffer that can be allocated. *)
Definition check_chunk (max_alloc : Z) (sum : bytes) (answer : option bytes) : fetched :=
  match answer with
  | None => FetchFailed
  | Some answer =>
      let '(resp, rest) := read_line answer in
      if starts_with (lit "CHUNK_SIZE ") resp then
        match stoull (drop 11 resp) with
        | Throw _ => FetchCrashed
        | Val size =>
            if decide (max_alloc < size) then FetchCrashed
            else match recv_exact (Z.to_nat size) rest with
                 | None => FetchFailed
                 | Some (buf, _) => if decide (sha256 buf = sum) then Fetched buf else FetchFailed
                 end
        end
      else FetchFailed
  end.

Section download.
Context {N : Type} `{!Network N}.
Variable max_alloc : Z.

Record Fetches := mkFetches {
  fs_net : N; download_error : bool; fetch_crashed : bool; chunk_data : gmap Z bytes }.

Definition fetch_chunk (file : bytes) (c : FetchInfo) (st : Fetches) : Fetches :=
  let '(net, answer) := exchange (fs_net st) (fi_ip c) (fi_port c) (get_req (fi_id c) file) in
  match check_chunk max_alloc (fi_hash c) answer with
  | FetchFailed => mkFetches net true (fetch_crashed st) (chunk_data st)
  | FetchCrashed => mkFetches net (download_error st) true (chunk_data st)
  | Fetched buf =>
      mkFetches net (download_error st) (fetch_crashed st) (<[fi_id c := buf]> (chunk_data st))
  end.

(** The threads, in the order they take the lock. *)
Definition fetch_all (file : bytes) (net : N) (threads : list FetchInfo) : Fetches :=
  fold_left (λ st c, fetch_chunk file c st) threads (mkFetches net false false ∅).

Inductive download_result := DownloadFailed | DownloadCrashed | Saved (content : bytes).

(** [file_hash.update(chunk_data[i])] for each [i]; an absent chunk is empty. *)
Definition assemble (n : nat) (data : gmap Z bytes) : list bytes :=
  map (λ i, default [] (data !! Z.of_nat i)) (seq 0 n).

(** [reply] is all the head server sends; [order] the order in which the
    threads finish; [can_open] whether the output file can be opened.  [Saved]
    is what is written to the file before the exit code 0; neither the writes
    nor the close are checked, so on a full disk less may be there. *)
Definition file_download (net : N) (file reply : bytes) (order : list FetchInfo → list FetchInfo)
    (can_open : bool) : N * download_result :=
  match read_plan reply with
  | None => (net, DownloadFailed)
  | Some (hash, chunks) =>
      let st := fetch_all file net (order chunks) in
      (fs_net st,
       if fetch_crashed st then DownloadCrashed
       else if download_error st then DownloadFailed
       else if negb can_open then DownloadFailed
       else
         let pieces := assemble (length chunks) (chunk_data st) in
         let final := digest (fold_left update_bytes pieces fresh) in
         if decide (hash ≠ [] ∧ final ≠ hash) then DownloadFailed
         else Saved (concat pieces))
  end.
End download.
