(* ===== verification/ClientSpec.v ===== *)
(** * ClientSpec: the client and the head server understand each other
    (src/src/client/client.cpp against [Upload], [Download] and [Metadata])

    What an honest client writes is what the head server parses, so an upload
    ends in one of two ways; listings and plans are read back as sent. *)
From Stdlib Require Import Lia.
From S2P Require Import Prelude.
From S2P Require Import Text.
From S2P Require Import Ordered.
From S2P Require Import Sha256.
From S2P Require Import Net.
From S2P Require Import Metadata.
From S2P Require Import Registry.
From S2P Require Import Health.
From S2P Require Import Wire.
From S2P Require Import WireCodec.
From S2P Require Import HeadNet.
From S2P Require Import ChunkStore.
From S2P Require Import ChunkSpec.
From S2P Require Import Upload.
From S2P Require Import UploadSpec.
From S2P Require Import Cluster.
From S2P Require Import Download.
From S2P Require Import DownloadSpec.
From S2P Require Import Client.
Local Open Scope Z_scope.

(** ** Lines *)
Lemma read_line_cons l rest : no_char nl l → read_line (l ++ nl :: rest) = (l, rest).
Proof.
  intros Hl. unfold read_line. rewrite find_char_app by done.
  by rewrite take_app_length, drop_past_char.
Qed.

Lemma word_no_char c w : word w → is_space c = true → no_char c w.
Proof.
  intros [_ Hw] Hc Hin. rewrite Forall_forall in Hw. specialize (Hw _ Hin). congruence.
Qed.

(** ** The listing *)
(** What the client lists when the head server has [files]; [None]: an error. *)
Fixpoint shown (files : list bytes) : option (list bytes) :=
  match files with
  | [] => Some []
  | f :: files =>
      if decide (f = [] ∨ f = lit "EOF") then Some []
      else if starts_with (lit "ERROR:") f then None
      else cons f <$> shown files
  end.

Lemma read_listing_shown fuel fs acc rest :
  Forall (no_char nl) fs → (length fs < fuel)%nat →
  read_listing fuel (to_text fs ++ lit "EOF" ++ nl :: rest) acc = app acc <$> shown fs.
Proof.
  intros Hfs. revert fuel acc. induction Hfs as [|f fs Hnl Hfs IH];
    intros [|fuel] acc Hf; simpl in Hf; try lia; cbn [read_listing shown].
  - unfold to_text. cbn [map concat app]. rewrite read_line_cons by lit_no_char.
    rewrite decide_True by (by right). simpl. by rewrite app_nil_r.
  - rewrite to_text_cons, <- app_assoc, <- app_comm_cons, read_line_cons by done.
    case_decide; [simpl; by rewrite app_nil_r|].
    destruct (starts_with (lit "ERROR:") f); [done|]. rewrite IH by lia.
    destruct (shown fs); [|done]. simpl. by rewrite <- app_assoc.
Qed.

Lemma shown_all files :
  Forall (λ f, f ≠ [] ∧ f ≠ lit "EOF" ∧ starts_with (lit "ERROR:") f = false) files →
  shown files = Some files.
Proof.
  induction 1 as [|f files (Hne & Heof & Herr) _ IH]; [done|]. cbn [shown].
  rewrite decide_False by (by intros [?|?]). by rewrite Herr, IH.
Qed.

Lemma to_text_app a b : to_text (a ++ b) = to_text a ++ to_text b.
Proof. unfold to_text. by rewrite map_app, concat_app. Qed.

Lemma length_to_text ls : (length ls ≤ length (to_text ls))%nat.
Proof.
  induction ls as [|l ls IH]; [done|]. rewrite to_text_cons, length_app. simpl. lia.
Qed.

(** The client lists the files the head server has, in order.  The names
    the protocol uses are the exceptions: the list stops at a file named "EOF"
    or with no name, and a name that starts with "ERROR:" makes it fail. *)
Theorem listing_roundtrip `{!HashOrder bytes FileRecord} (meta : MetaState) :
  Forall (no_char nl) (list_all_files meta) →
  file_list (list_reply meta) = shown (list_all_files meta) ∧
  (Forall (λ f, f ≠ [] ∧ f ≠ lit "EOF" ∧ starts_with (lit "ERROR:") f = false)
     (list_all_files meta) → file_list (list_reply meta) = Some (list_all_files meta)).
Proof.
  intros Hnl. unfold file_list, list_reply. rewrite to_text_app.
  change (to_text [lit "EOF"]) with (lit "EOF" ++ [nl]).
  rewrite read_listing_shown; [|done|rewrite length_app;
    pose proof (length_to_text (list_all_files meta)); lia].
  assert (app [] <$> shown (list_all_files meta) = shown (list_all_files meta)) as ->
    by (by destruct (shown _)).
  split; [done|apply shown_all].
Qed.

(** ** Cutting a file into chunks *)
Section cutting.
Variable CHUNK_SIZE : Z.
Hypothesis Hchunk : 0 < CHUNK_SIZE.

Lemma read_chunks_concat n rest :
  Z.of_nat (length rest) ≤ Z.of_nat n * CHUNK_SIZE → concat (read_chunks CHUNK_SIZE n rest) = rest.
Proof.
  revert rest. induction n as [|n IH]; intros rest Hl; cbn [read_chunks concat].
  { destruct rest; [done|simpl in Hl; lia]. }
  rewrite IH, take_drop; [done|]. rewrite length_drop. nia.
Qed.

Lemma read_chunks_length n rest : length (read_chunks CHUNK_SIZE n rest) = n.
Proof. revert rest. induction n as [|n IH]; intros rest; simpl; [done|by rewrite IH]. Qed.

Lemma read_chunks_sizes n rest :
  Forall (λ d, Z.of_nat (length d) ≤ CHUNK_SIZE ∧ (length d ≤ length rest)%nat)
    (read_chunks CHUNK_SIZE n rest).
Proof.
  revert rest. induction n as [|n IH]; intros rest; cbn [read_chunks]; constructor.
  - rewrite length_take. lia.
  - eapply Forall_impl; [apply IH|]. intros d. rewrite length_drop. lia.
Qed.

Lemma num_chunks_enough size :
  0 ≤ size → 0 ≤ num_chunks CHUNK_SIZE size ∧ size ≤ num_chunks CHUNK_SIZE size * CHUNK_SIZE ∧
  num_chunks CHUNK_SIZE size ≤ size.
Proof.
  intros Hs. unfold num_chunks. case_decide; [lia|].
  pose proof (Z.div_mod (size + CHUNK_SIZE - 1) CHUNK_SIZE).
  pose proof (Z.mod_pos_bound (size + CHUNK_SIZE - 1) CHUNK_SIZE Hchunk).
  assert (0 ≤ (size + CHUNK_SIZE - 1) `div` CHUNK_SIZE) by (apply Z.div_pos; lia).
  nia.
Qed.

Lemma file_chunks_spec content :
  concat (file_chunks CHUNK_SIZE content) = content ∧
  Z.of_nat (length (file_chunks CHUNK_SIZE content)) = num_chunks CHUNK_SIZE (Z.of_nat (length content)) ∧
  Forall (λ d, Z.of_nat (length d) ≤ CHUNK_SIZE ∧ (length d ≤ length content)%nat)
    (file_chunks CHUNK_SIZE content).
Proof.
  unfold file_chunks. destruct (num_chunks_enough (Z.of_nat (length content))) as (H1 & H2 & _); [lia|].
  split; [apply read_chunks_concat; lia|]. split; [rewrite read_chunks_length; lia|].
  apply read_chunks_sizes.
Qed.
End cutting.

(** ** The upload stream *)
Lemma chunk_hdr_line i data :
  ∃ line, chunk_hdr i data = line ++ [nl] ∧ no_char nl line ∧ line ≠ [] ∧
    starts_with (lit "CHUNK ") line = true ∧
    (Z.of_nat i ≤ INT_MAX → Z.of_nat (length data) ≤ ULLONG_MAX →
     parse_chunk_header line = Some (Z.of_nat i, Z.of_nat (length data), sha256 data)).
Proof.
  set (rest := show_Z (Z.of_nat i) ++ sp :: show_Z (Z.of_nat (length data)) ++ sp :: sha256 data).
  exists (lit "CHUNK " ++ rest). unfold chunk_hdr.
  pose proof (sha256_word data) as Hw. pose proof (word_show_Z (Z.of_nat i)) as Hi.
  pose proof (word_show_Z (Z.of_nat (length data))) as Hl.
  split; [unfold rest; rewrite <- !app_assoc, <- !app_comm_cons, <- !app_assoc; done|].
  split.
  { unfold no_char, rest. rewrite !not_elem_of_app, !not_elem_of_cons, !not_elem_of_app, not_elem_of_cons.
    split_and!; try done; [by_decision|by apply word_no_char..]. }
  split; [done|]. split; [apply starts_with_app|]. intros Hib Hlb.
  unfold parse_chunk_header. change (drop 6 (lit "CHUNK " ++ rest)) with rest. unfold rest, read_int.
  unfold INT_MAX, ULLONG_MAX in *.
  rewrite read_range_show; [|unfold INT_MIN, INT_MAX; lia|done]. cbn [mbind option_bind].
  rewrite read_u64_skip by done. rewrite read_u64_show; [|unfold ULLONG_MAX; lia|done].
  cbn [mbind option_bind]. rewrite read_word_skip by done. by rewrite read_word_end.
Qed.

Definition stream_from (i : nat) (ds : list bytes) : bytes :=
  concat (imap (λ j data, chunk_hdr (i + j) data ++ data) ds).
Lemma stream_from_cons i d ds :
  stream_from i (d :: ds) = chunk_hdr i d ++ d ++ stream_from (S i) ds.
Proof.
  unfold stream_from. rewrite imap_cons. cbn [concat]. rewrite Nat.add_0_r, <- app_assoc.
  do 3 f_equal. apply imap_ext. intros j x _. simpl. by rewrite Nat.add_succ_r.
Qed.

Section receiving.
Context `{!StdSort}.
Variables (cfg : UploadConfig) (max_alloc : Z) (view_at : nat → Registry * gmap Z ServerHealth).

Lemma receive_honest ds : ∀ fuel i rx rest,
  Forall (λ d, Z.of_nat (length d) ≤ max_alloc ∧ Z.of_nat (length d) ≤ ULLONG_MAX) ds →
  Z.of_nat (i + length ds) ≤ INT_MAX → length (rx_chunks rx) = i →
  (length (stream_from i ds ++ rest) < fuel)%nat →
  ∃ rx', receive_chunks cfg max_alloc view_at fuel (Z.of_nat (i + length ds)) rx
           (stream_from i ds ++ rest) = (rx', RxDone) ∧
    rx_chunks rx' = rx_chunks rx ++ imap (λ j d, (Z.of_nat (i + j), d)) ds ∧
    rx_hasher rx' = fold_left update_bytes ds (rx_hasher rx).
Proof.
  induction ds as [|d ds IH]; intros fuel i rx rest Hds Hi Hrx Hf; (destruct fuel as [|fuel]; [lia|]);
    cbn [receive_chunks].
  { rewrite Nat.add_0_r, Hrx. rewrite decide_True by lia. exists rx. by rewrite app_nil_r. }
  inversion_clear Hds as [|? ? [Hd1 Hd2] Hds'].
  rewrite decide_False by (rewrite Hrx; simpl; lia).
  destruct (chunk_hdr_line i d) as (line & E & Hnl & Hne & Hst & Hp).
  rewrite stream_from_cons, E in Hf |- *. rewrite <- !app_assoc. cbn [app].
  rewrite read_line_cons by done. rewrite decide_False by done. rewrite Hst.
  rewrite Hp; [|simpl in Hi; lia|done]. rewrite decide_False by lia.
  rewrite recv_exact_app by lia. rewrite decide_True by done.
  assert (length (rx_chunks (take_chunk cfg view_at rx (Z.of_nat i) d)) = S i ∧
          rx_chunks (take_chunk cfg view_at rx (Z.of_nat i) d) = rx_chunks rx ++ [(Z.of_nat i, d)] ∧
          rx_hasher (take_chunk cfg view_at rx (Z.of_nat i) d) = update_bytes (rx_hasher rx) d)
    as (Hl & Hc & Hh).
  { unfold take_chunk. destruct (view_at _). cbn. rewrite length_app. simpl. split; [lia|done]. }
  destruct (IH fuel (S i) (take_chunk cfg view_at rx (Z.of_nat i) d) rest) as (rx' & Hr & Hch & Hhash);
    [done|simpl in *; lia|done| |].
  { rewrite !length_app in *. simpl in Hf. lia. }
  exists rx'. replace (i + length (d :: ds))%nat with (S i + length ds)%nat by (simpl; lia).
  split; [done|]. split; [|by rewrite Hhash, Hh].
  rewrite Hch, Hc, <- app_assoc, imap_cons. do 2 f_equal.
  cbn [app]. f_equal; [by rewrite Nat.add_0_r|]. apply imap_ext. intros j y _. simpl.
  by rewrite Nat.add_succ_r.
Qed.
End receiving.

(** ** The request line *)
Definition NUL : ascii := "000"%char.

Lemma take_while_all f (s : bytes) : Forall (λ c, f c = true) s → take_while f s = s.
Proof. intros Hs. rewrite <- (app_nil_r s) at 1. rewrite take_while_app by done. by rewrite app_nil_r. Qed.

Lemma rtrim_line f (s : bytes) c : f c = false → rtrim f (s ++ [c]) = s ++ [c].
Proof.
  intros Hc. unfold rtrim. rewrite rev_app_distr. cbn [rev app drop_while]. rewrite Hc. cbn [rev].
  by rewrite rev_involutive.
Qed.
Lemma rtrim_newline (s : bytes) : rtrim line_end (s ++ [nl]) = rtrim line_end s.
Proof. unfold rtrim. by rewrite rev_app_distr. Qed.

(** A word that ends a line is not trimmed. *)
Lemma rtrim_word (s w : bytes) : word w → rtrim line_end (s ++ w) = s ++ w.
Proof.
  intros [Hne Hw]. destruct w as [|c w] using rev_ind; [done|].
  rewrite app_assoc. apply rtrim_line. apply Forall_app in Hw as [_ Hw].
  inversion_clear Hw as [|? ? Hc _]. unfold line_end. apply bool_decide_eq_false.
  by intros [-> | ->].
Qed.

Lemma rtrim_id f (s : bytes) : Forall (λ c, f c = false) s → rtrim f s = s.
Proof.
  intros Hs. destruct s as [|c s _] using rev_ind; [done|]. apply Forall_app in Hs as [_ Hs].
  apply rtrim_line. by inversion_clear Hs.
Qed.

Lemma sha256_no_nul d : NUL ∉ sha256 d.
Proof.
  destruct (finalize_shape (update fresh (map byte_val d))) as [_ Hh]. intros Hin.
  rewrite Forall_forall in Hh. by specialize (Hh _ Hin).
Qed.

Section requests.
Context `{!StdSort} `{!HashOrder bytes FileRecord} {N : Type} `{!Network N} `{!Protobuf}.
Variables (CHUNK_SIZE max_alloc : Z) (cfg : UploadConfig)
  (view_at : nat → Registry * gmap Z ServerHealth).

Definition upload_line (file content : bytes) : bytes :=
  join_words [upload_word; file; show_Z (Z.of_nat (length content));
              show_Z (num_chunks CHUNK_SIZE (Z.of_nat (length content))); sha256 content].

Lemma upload_cmd_line file content :
  upload_cmd CHUNK_SIZE file content = upload_line file content ++ [nl].
Proof.
  unfold upload_cmd, upload_line. cbn [join_words]. unfold upload_word.
  change (lit "UPLOAD ") with (lit "UPLOAD" ++ [sp]).
  repeat (rewrite <- !app_assoc; cbn [app]). done.
Qed.

Lemma upload_cmd_no_nul file content :
  NUL ∉ file → Forall (λ c, c ≠ NUL) (upload_cmd CHUNK_SIZE file content).
Proof.
  intros Hn. assert (∀ s, NUL ∉ s → Forall (λ c, c ≠ NUL) s) as Hs.
  { intros s Hs. apply Forall_forall. by intros c Hc ->. }
  assert (∀ z, Forall (λ c, c ≠ NUL) (show_Z z)) as Hz by (intros z; by apply Hs, digit_run_no).
  unfold upload_cmd. apply Forall_app_2; [by_decision|]. apply Forall_app_2; [by apply Hs|].
  apply Forall_cons_2; [done|]. apply Forall_app_2; [done|]. apply Forall_cons_2; [done|].
  apply Forall_app_2; [done|]. apply Forall_cons_2; [done|].
  apply Forall_app_2; [apply Hs, sha256_no_nul|by_decision].
Qed.

Lemma upload_cmd_parsed file content :
  word file → NUL ∉ file → (length (upload_cmd CHUNK_SIZE file content) ≤ command_buffer)%nat →
  parse_command (upload_cmd CHUNK_SIZE file content) = CmdUpload (upload_line file content).
Proof.
  intros Hf Hn Hl. unfold parse_command. rewrite take_ge by done. rewrite take_while_all.
  2: { eapply Forall_impl; [by apply upload_cmd_no_nul|].
       intros c Hc. by apply negb_true_iff, bool_decide_eq_false. }
  assert (starts_with (lit "UPLOAD ") (upload_cmd CHUNK_SIZE file content) = true) as Hs
    by apply starts_with_app.
  assert (starts_with (lit "DOWNLOAD ") (upload_cmd CHUNK_SIZE file content) = false) as -> by done.
  assert (starts_with (lit "DELETE ") (upload_cmd CHUNK_SIZE file content) = false) as -> by done.
  rewrite Hs, upload_cmd_line, rtrim_newline. f_equal.
  assert (∃ pre, upload_line file content = pre ++ sha256 content) as [pre ->].
  { exists (upload_word ++ sp :: file ++ sp :: show_Z (Z.of_nat (length content)) ++ sp ::
            show_Z (num_chunks CHUNK_SIZE (Z.of_nat (length content))) ++ [sp]).
    unfold upload_line. cbn [join_words]. repeat (rewrite <- app_assoc; cbn [app]). done. }
  apply rtrim_word, sha256_word.
Qed.

Lemma upload_line_request file content :
  word file → Z.of_nat (length content) ≤ ULLONG_MAX →
  0 < CHUNK_SIZE →
  parse_upload_request cfg (upload_line file content) =
    Val (Some (mkRequest file (Z.of_nat (length content))
                 (num_chunks CHUNK_SIZE (Z.of_nat (length content))) (sha256 content))).
Proof.
  intros Hf Hl Hc. unfold parse_upload_request, upload_line.
  rewrite words_join.
  2: { repeat apply Forall_cons_2; [lit_word|done|apply word_show_Z|apply word_show_Z|
         apply sha256_word|apply Forall_nil_2]. }
  rewrite decide_True by done.
  destruct (num_chunks_enough CHUNK_SIZE Hc (Z.of_nat (length content))) as (? & _ & ?); [lia|].
  rewrite stoull_show by lia. cbn [mbind exc_bind]. rewrite stoull_show by lia. done.
Qed.
End requests.

(** A name too long for the command buffer is cut: the head server deletes, and
    looks up, the file named by its first characters. *)
Lemma long_name_cut (file : bytes) :
  word file → NUL ∉ file → (1016 ≤ length file)%nat →
  parse_command (delete_cmd file) = CmdDelete (take 1016 file) ∧
  parse_command (download_cmd file) = CmdDownload (take 1014 file).
Proof.
  intros [_ Hf] Hn Hl. unfold parse_command, delete_cmd, download_cmd, command_buffer.
  assert (∀ k, Forall (λ c, negb (bool_decide (c = "000"%char)) = true) (take k file)) as Hk.
  { intros k. apply Forall_take, Forall_forall. intros c Hc.
    apply negb_true_iff, bool_decide_eq_false. by intros ->. }
  assert (∀ (f : ascii → bool) k, (∀ c, f c = true → is_space c = true) →
            rtrim f (take k file) = take k file) as Ht.
  { intros f k Hfs. apply rtrim_id. eapply Forall_impl; [apply Forall_take, Hf|].
    intros c Hc. destruct (f c) eqn:E; [|done]. apply Hfs in E. simpl in Hc. congruence. }
  assert (∀ c, blank c = true → is_space c = true) as Hb.
  { intros c Hc%bool_decide_eq_true. by destruct Hc as [->|[->|[->| ->]]]. }
  assert (∀ c, line_end c = true → is_space c = true) as He.
  { intros c Hc%bool_decide_eq_true. by destruct Hc as [->| ->]. }
  assert (∀ pre k, (length pre + k = 1023)%nat → (k ≤ length file)%nat →
            Forall (λ c, negb (bool_decide (c = "000"%char)) = true) pre →
            take_while (λ c, negb (bool_decide (c = "000"%char))) (take 1023 (pre ++ file ++ [nl]))
              = pre ++ take k file) as Hcut.
  { intros pre k Hlen Hk' Hpre. rewrite take_app_ge by lia.
    replace (1023 - length pre)%nat with k by lia. rewrite take_app_le by done.
    apply take_while_all. by apply Forall_app. }
  rewrite (Hcut (lit "DELETE ") 1016%nat), (Hcut (lit "DOWNLOAD ") 1014%nat)
    by (done || lia || by_decision).
  rewrite (starts_with_app (lit "DOWNLOAD ")), (starts_with_app (lit "DELETE ")).
  change (starts_with (lit "DOWNLOAD ") (lit "DELETE " ++ _)) with false.
  change (drop 7 (lit "DELETE " ++ ?x)) with x. change (drop 9 (lit "DOWNLOAD " ++ ?x)) with x.
  by rewrite !Ht.
Qed.

(** ** The outcome of an honest upload *)
Section outcome.
Context `{!StdSort} `{!HashOrder bytes FileRecord} {N : Type} `{!Network N} `{!Protobuf}.
Variables (CHUNK_SIZE max_alloc : Z) (cfg : UploadConfig)
  (view_at : nat → Registry * gmap Z ServerHealth).

(** What the client and the head server can handle.  The request line has to
    fit in the 1023 bytes the server reads: a longer name is cut
    ([long_name_cut]). *)
Record sendable (file content : bytes) : Prop := {
  se_chunk : 0 < CHUNK_SIZE ≤ max_alloc;
  se_file : word file;
  se_nul : NUL ∉ file;
  se_line : (length (upload_cmd CHUNK_SIZE file content) ≤ command_buffer)%nat;
  se_size : 0 < Z.of_nat (length content) ≤ ULLONG_MAX;
  se_chunks : num_chunks CHUNK_SIZE (Z.of_nat (length content)) ≤ INT_MAX
}.

(** The chunks, numbered as the client numbers them. *)
Definition numbered (content : bytes) : list (Z * bytes) :=
  imap (λ i d, (Z.of_nat i, d)) (file_chunks CHUNK_SIZE content).

Lemma numbered_data content :
  0 < CHUNK_SIZE → (numbered content).*2 = file_chunks CHUNK_SIZE content ∧
  concat (numbered content).*2 = content ∧ NoDup (numbered content).
Proof.
  intros Hc. assert ((numbered content).*2 = file_chunks CHUNK_SIZE content) as E.
  { unfold numbered. rewrite fmap_imap. apply list_eq. intros i. rewrite list_lookup_imap.
    by destruct (_ !! i). }
  rewrite E. split; [done|]. split; [by apply file_chunks_spec|].
  apply (NoDup_fmap_1 fst). unfold numbered. rewrite fmap_imap. apply NoDup_alt.
  intros i j x. rewrite !list_lookup_imap.
  intros (d & _ & ->)%fmap_Some (d' & _ & E')%fmap_Some. simpl in E'. lia.
Qed.

Lemma honest_received file content :
  sendable file content →
  ∃ rx, receive_chunks cfg max_alloc view_at (S (length (upload_stream CHUNK_SIZE content)))
          (num_chunks CHUNK_SIZE (Z.of_nat (length content))) no_transfers
          (upload_stream CHUNK_SIZE content) = (rx, RxDone) ∧
    rx_chunks rx = numbered content ∧ digest (rx_hasher rx) = sha256 content.
Proof.
  intros [[Hc Ha] _ _ _ [_ Hl] Hn].
  destruct (file_chunks_spec CHUNK_SIZE Hc content) as (Hcat & Hlen & Hsz).
  destruct (receive_honest cfg max_alloc view_at (file_chunks CHUNK_SIZE content)
    (S (length (upload_stream CHUNK_SIZE content))) 0 no_transfers (lit "EOF" ++ [nl]))
    as (rx & Hr & Hch & Hh); [| |done| |].
  - eapply Forall_impl; [exact Hsz|]. intros d [H1 H2]. lia.
  - lia.
  - unfold stream_from, upload_stream. simpl. lia.
  - exists rx. rewrite <- Hlen. split; [exact Hr|]. split; [exact Hch|].
    rewrite Hh. cbn [rx_hasher no_transfers]. by rewrite sha256_pieces, Hcat.
Qed.

(** The upload as the head server runs it. *)
Lemma honest_upload (meta : MetaState) (net : N) (reg_at : nat → Registry)
    (schedule : list nat) (file content : bytes) :
  sendable file content →
  let u := handle_client_upload cfg max_alloc view_at meta net reg_at schedule true
             (upload_line CHUNK_SIZE file content) (upload_stream CHUNK_SIZE content) in
  up_crashed u = false ∧ rx_chunks (up_received u) = numbered content ∧
  (up_sent u = ready_msg ++ success_msg ∧ upload_exit (up_sent u) = 0 ∨
   up_sent u = ready_msg ++ error_no_replicas ∧ upload_exit (up_sent u) = 1 ∧ up_meta u = meta).
Proof.
  intros Hs. pose proof Hs as [[Hc Ha] Hf Hn _ [Hl0 Hl] Hk]. unfold handle_client_upload.
  rewrite upload_line_request by done. cbn [negb rq_size rq_chunks rq_file].
  rewrite decide_False by lia.
  destruct (honest_received file content Hs) as (rx & -> & Hch & Hdig).
  destruct (run_transfers _ _ _ _ _) as [net' outcomes].
  unfold finish_upload. cbn [rq_hash rq_file rq_size].
  rewrite Hdig. rewrite decide_False by tauto.
  case_decide as Hno; cbn [up_crashed up_received up_sent up_meta]; (split; [done|]);
    (split; [done|]); [right|left]; by split.
Qed.

(** C10: an honest client is served.  For every non-empty file whose name is one
    word and whose request line fits in the 1023 bytes the server reads of it,
    whose chunks can be allocated and counted in an int, the head server takes the request for an upload of that file, receives exactly
    its chunks, which put together are the file, and answers SUCCESS (exit code
    0) or that no replica could be stored (exit code 1): never a format or
    checksum error, and it does not crash. *)
Theorem client_upload_outcome (meta : MetaState) (net : N) (reg_at : nat → Registry)
    (schedule : list nat) (file content : bytes) :
  sendable file content →
  ∃ req, parse_command (upload_cmd CHUNK_SIZE file content) = CmdUpload req ∧
    let u := handle_client_upload cfg max_alloc view_at meta net reg_at schedule true req
               (upload_stream CHUNK_SIZE content) in
    up_crashed u = false ∧
    (rx_chunks (up_received u)).*2 = file_chunks CHUNK_SIZE content ∧
    concat (rx_chunks (up_received u)).*2 = content ∧
    (up_sent u = ready_msg ++ success_msg ∧ upload_exit (up_sent u) = 0 ∨
     up_sent u = ready_msg ++ error_no_replicas ∧ upload_exit (up_sent u) = 1 ∧ up_meta u = meta).
Proof.
  intros Hs. exists (upload_line CHUNK_SIZE file content).
  split; [apply upload_cmd_parsed; apply Hs|].
  destruct (honest_upload meta net reg_at schedule file content Hs) as (H1 & H2 & H3).
  destruct (numbered_data content) as (Hd1 & Hd2 & _); [apply Hs|].
  cbv zeta. rewrite H2, Hd1. rewrite Hd1 in Hd2. done.
Qed.
End outcome.

(** ** Concrete runs *)
Section demo.
Existing Instance net_protobuf.
Existing Instance cluster_network.

Lemma listing_roundtrip_witness :
  file_list (list_reply two_replicas) = Some [lit "f.txt"].
Proof.
  destruct (listing_roundtrip two_replicas) as [_ Hall]; [by_decision|].
  rewrite Hall; [by vm_compute|by_decision].
Defined.

Lemma demo_sendable : sendable 4 (2 ^ 30) (lit "f.txt") (lit "abcdef").
Proof. constructor; [by split|lit_word|by_decision|by_decision|by split|by vm_compute]. Qed.

Lemma client_upload_outcome_witness :
  ∃ req, parse_command (upload_cmd 4 (lit "f.txt") (lit "abcdef")) = CmdUpload req ∧
    concat (rx_chunks (up_received (handle_client_upload demo_cfg (2 ^ 30) demo_view demo_meta
      (demo_node "10.0.0.1" []) (λ _, demo_reg) [1%nat; 0%nat] true req
      (upload_stream 4 (lit "abcdef"))))).*2 = lit "abcdef".
Proof.
  destruct (client_upload_outcome 4 (2 ^ 30) demo_cfg demo_view demo_meta
    (demo_node "10.0.0.1" []) (λ _, demo_reg) [1%nat; 0%nat] (lit "f.txt") (lit "abcdef")
    demo_sendable) as (req & Hreq & _ & _ & Hcat & _).
  exists req. split; [exact Hreq|exact Hcat].
Defined.
End demo.
