(* ===== verification/RoundTrip.v ===== *)
(** * RoundTrip: what was uploaded is what a download saves

    The client's download ([Client.file_download]) against the plan the head
    server sends ([Download.stream_file_to_client]) and the public ports of
    the cluster servers ([ChunkStore.handle_public_connection]). *)
From Stdlib Require Import Lia.
From S2P Require Import Prelude.
From S2P Require Import Text.
From S2P Require Import Ordered.
From S2P Require Import Float.
From S2P Require Import Sha256.
From S2P Require Import Net.
From S2P Require Import Metadata.
From S2P Require Import Registry.
From S2P Require Import Health.
From S2P Require Import Wire.
From S2P Require Import WireCodec.
From S2P Require Import ChunkStore.
From S2P Require Import ChunkSpec.
From S2P Require Import HeadNet.
From S2P Require Import Cluster.
From S2P Require Import Upload.
From S2P Require Import UploadSpec.
From S2P Require Import Download.
From S2P Require Import DownloadSpec.
From S2P Require Import Client.
From S2P Require Import ClientSpec.
Local Open Scope Z_scope.

(** ** The plan as the client reads it *)
Definition info_of (reg : Registry) (p : ChunkFetchPlan) : FetchInfo :=
  mkFetchInfo (plan_chunk_id p) (ip_only (loc_server (best_server p)))
    (public_port_of reg (loc_server (best_server p))) (plan_hash p).

(** A plan whose line can be parsed back. *)
Record showable (reg : Registry) (p : ChunkFetchPlan) : Prop := {
  sh_id : int32_ok (plan_chunk_id p);
  sh_ip : word (ip_only (loc_server (best_server p)));
  sh_port : int32_ok (public_port_of reg (loc_server (best_server p)));
  sh_hash : word (plan_hash p)
}.

Definition loc_fields (reg : Registry) (p : ChunkFetchPlan) : bytes :=
  show_Z (plan_chunk_id p) ++ sp :: ip_only (loc_server (best_server p)) ++ sp ::
  show_Z (public_port_of reg (loc_server (best_server p))) ++ sp :: plan_hash p.

Lemma chunk_loc_fields reg p :
  chunk_loc_line reg p = (lit "CHUNK_LOC " ++ loc_fields reg p) ++ [nl].
Proof.
  unfold chunk_loc_line, loc_fields. change (lit " ") with [sp].
  repeat (rewrite <- !app_assoc; cbn [app]). done.
Qed.

Lemma loc_fields_parsed reg p :
  showable reg p → no_char nl (loc_fields reg p) ∧
  parse_chunk_loc (loc_fields reg p) = Some (info_of reg p).
Proof.
  intros [Hid Hip Hport Hh]. unfold loc_fields. split.
  - unfold no_char. rewrite !not_elem_of_app, !not_elem_of_cons, !not_elem_of_app,
      !not_elem_of_cons, !not_elem_of_app, !not_elem_of_cons.
    split_and!; try done; apply word_no_char; try done; apply word_show_Z.
  - unfold parse_chunk_loc, read_int. rewrite read_range_show by done. cbn [mbind option_bind].
    rewrite read_word_skip, read_word_sep by done. cbn [mbind option_bind].
    rewrite read_range_skip, read_range_show by done. cbn [mbind option_bind].
    rewrite read_word_skip, read_word_end by done. done.
Qed.

Lemma read_locs reg ps : ∀ fuel rest h acc,
  Forall (showable reg) ps → (length ps ≤ fuel)%nat →
  read_plan_loop fuel (concat (map (chunk_loc_line reg) ps) ++ rest) h acc =
  read_plan_loop (fuel - length ps) rest h (acc ++ map (info_of reg) ps).
Proof.
  induction ps as [|p ps IH]; intros fuel rest h acc Hps Hf.
  { by rewrite Nat.sub_0_r, app_nil_r. }
  inversion_clear Hps as [|? ? Hp Hps']. destruct (loc_fields_parsed reg p Hp) as [Hnl Hparse].
  destruct fuel as [|fuel]; [simpl in Hf; lia|]. cbn [map concat read_plan_loop].
  rewrite chunk_loc_fields, <- !app_assoc. cbn [app].
  rewrite app_assoc, read_line_cons.
  2: { unfold no_char. rewrite not_elem_of_app. split; [by_decision|done]. }
  set (line := lit "CHUNK_LOC " ++ loc_fields reg p).
  rewrite decide_False by done.
  assert (starts_with (lit "ERROR:") line = false) as -> by done.
  assert (starts_with (lit "FILE_HASH ") line = false) as -> by done.
  assert (starts_with (lit "CHUNKS ") line = false) as -> by done.
  assert (starts_with (lit "CHUNK_LOC ") line = true) as -> by apply starts_with_app.
  change (drop 10 line) with (loc_fields reg p). rewrite Hparse.
  rewrite IH by (done || (simpl in Hf; lia)). by rewrite <- app_assoc.
Qed.

Lemma read_hash_line h fuel rest h0 acc :
  word h →
  read_plan_loop (S fuel) (hash_line h ++ rest) h0 acc = read_plan_loop fuel rest h acc.
Proof.
  intros Hh. unfold hash_line. cbn [read_plan_loop]. rewrite <- !app_assoc. cbn [app].
  rewrite app_assoc, read_line_cons.
  2: { unfold no_char. rewrite not_elem_of_app. split; [by_decision|by apply word_no_char]. }
  rewrite decide_False by done.
  assert (starts_with (lit "ERROR:") (lit "FILE_HASH " ++ h) = false) as -> by done.
  by rewrite starts_with_app.
Qed.

Lemma length_locs reg ps : (length ps ≤ length (concat (map (chunk_loc_line reg) ps)))%nat.
Proof.
  induction ps as [|p ps IH]; [done|]. cbn [map concat]. rewrite length_app, chunk_loc_fields.
  rewrite length_app. simpl. lia.
Qed.

(** The client reads back the hash and the plan. *)
Lemma read_plan_roundtrip reg h ps :
  word h → Forall (showable reg) ps →
  read_plan (hash_line h ++ lit "CHUNKS " ++ show_nat (length ps) ++ [nl]
             ++ concat (map (chunk_loc_line reg) ps) ++ hash_line h ++ eof_line) =
  Some (h, map (info_of reg) ps).
Proof.
  intros Hh Hps. unfold read_plan. set (sent := hash_line h ++ _).
  assert (length ps + 12 ≤ length sent)%nat as Hl.
  { unfold sent. rewrite !length_app. pose proof (length_locs reg ps).
    unfold hash_line, eof_line. rewrite !length_app. change (length (lit "FILE_HASH ")) with 10%nat.
    change (length (lit "EOF")) with 3%nat. simpl. lia. }
  unfold sent at 2. rewrite read_hash_line by done.
  destruct (length sent) as [|fuel]; [lia|]. cbn [read_plan_loop].
  rewrite (app_assoc (lit "CHUNKS ")). cbn [app]. rewrite read_line_cons.
  2: { unfold no_char. rewrite not_elem_of_app. split; [by_decision|].
       apply word_no_char; [apply word_show_Z|done]. }
  set (line := lit "CHUNKS " ++ show_nat (length ps)). rewrite decide_False by done.
  assert (starts_with (lit "ERROR:") line = false) as -> by done.
  assert (starts_with (lit "FILE_HASH ") line = false) as -> by done.
  assert (starts_with (lit "CHUNKS ") line = true) as -> by apply starts_with_app.
  rewrite read_locs by (done || lia). cbn [app].
  replace (fuel - length ps)%nat with (S (S (fuel - length ps - 2))) by lia.
  rewrite read_hash_line by done. unfold eof_line. cbn [read_plan_loop].
  rewrite read_line_cons by lit_no_char. done.
Qed.

(** ** Answers cut short *)

(** The decimal number of a positive length does not start with 0. *)
Lemma show_N_fuel_lead fuel n :
  (0 < n)%N → (n < 10 ^ N.of_nat (S fuel))%N →
  ∃ c ds, show_N_fuel fuel n = c :: ds ∧ is_digit c = true ∧ (0 < digit_val c)%N.
Proof.
  revert n. induction fuel as [|fuel IH]; intros n Hn Hb; cbn [show_N_fuel].
  - exists (digit_char n), []. change (10 ^ N.of_nat 1)%N with 10%N in Hb.
    rewrite digit_val_char, is_digit_char by lia. done.
  - destruct (N.ltb_spec n 10).
    + exists (digit_char n), []. rewrite digit_val_char, is_digit_char by lia. done.
    + assert (n / 10 < 10 ^ N.of_nat (S fuel))%N as Hd.
      { apply N.Div0.div_lt_upper_bound. rewrite <- N.pow_succ_r'. by rewrite <- Nat2N.inj_succ. }
      destruct (IH (n / 10)%N) as (c & ds & -> & Hc & Hpos); [|done|].
      { apply N.div_str_pos. lia. }
      exists c, (ds ++ [digit_char (n mod 10)]). done.
Qed.

Lemma dec_value_from_pos ds a :
  (0 < a)%N → (0 < fold_left (λ acc c, (10 * acc + digit_val c)%N) ds a)%N.
Proof. revert a. induction ds as [|c ds IH]; intros a Ha; cbn [fold_left]; [done|]. apply IH. lia. Qed.

(** A prefix of a positive number is no number, or a positive one. *)
Lemma cut_number n k :
  0 < n → n ≤ ULLONG_MAX →
  (∃ e, stoull (take k (show_Z n)) = Throw e) ∨
  ∃ m, stoull (take k (show_Z n)) = Val m ∧ 0 < m.
Proof.
  intros Hn Hmax.
  assert (show_Z n = show_N (Z.to_N n)) as -> by (unfold show_Z; by destruct (Z.ltb_spec n 0); [lia|]).
  destruct (show_N_fuel_lead (N.to_nat (N.log2 (Z.to_N n))) (Z.to_N n)) as (c & ds & E & Hc & Hpos);
    [lia|apply show_N_bound|].
  pose proof (show_N_digits (Z.to_N n)) as Hd. pose proof (dec_value_show (Z.to_N n)) as Hv.
  unfold show_N in *. rewrite E in *. destruct k as [|k]; [left; by eexists|].
  right. cbn [take]. set (pre := c :: take k ds).
  assert (Forall (λ c, is_digit c = true) pre) as Hpre.
  { inversion_clear Hd. apply Forall_cons_2; [done|]. by apply Forall_take. }
  assert (0 < dec_value pre)%N as Hp.
  { unfold dec_value, pre. cbn [fold_left]. apply dec_value_from_pos. lia. }
  assert (dec_value pre ≤ dec_value (c :: ds))%N as Hle.
  { assert (∀ l a, (a ≤ fold_left (λ acc c, (10 * acc + digit_val c)%N) l a)%N) as Hmono.
    { induction l as [|x l IH]; intros a; cbn [fold_left]; [done|].
      etransitivity; [|apply IH]. lia. }
    rewrite <- (take_drop k ds) at 1. unfold dec_value, pre. rewrite app_comm_cons, fold_left_app.
    apply Hmono. }
  exists (Z.of_N (dec_value pre)). split; [|lia]. unfold stoull.
  assert (scan_int pre = Some (false, dec_value pre, [])) as ->.
  { unfold scan_int, skip_space, pre. assert (is_space c = false) as Hs by by apply is_digit_not_space.
    cbn [drop_while]. rewrite Hs. rewrite <- (app_nil_r (c :: take k ds)).
    assert (take_while is_digit (c :: take k ds) = c :: take k ds) as Ht
      by (by apply take_while_all).
    assert (drop_while is_digit (c :: take k ds) = []) as Hdr.
    { rewrite <- (app_nil_r (c :: take k ds)). by rewrite drop_while_app. }
    rewrite app_nil_r. destruct c as [[] [] [] [] [] [] [] []]; try done; cbn in Hc; try done;
      by rewrite Ht, Hdr. }
  unfold ULLONG_MAX in *. cbn [signed_of]. rewrite decide_True by lia.
  unfold w64, wrap. rewrite Z.mod_small; [done|lia].
Qed.

Lemma read_line_none l : no_char nl l → read_line l = (l, []).
Proof. intros Hl. unfold read_line. apply find_char_None in Hl. by rewrite Hl. Qed.

(** What one download thread makes of an answer, whole or cut, about a chunk
    whose bytes are [data]. *)
Lemma check_chunk_cut max_alloc data k :
  data ≠ [] → Z.of_nat (length data) ≤ ULLONG_MAX →
  let r := check_chunk max_alloc (sha256 data) (Some (take k (public_reply (Some data)))) in
  r = FetchFailed ∨ r = FetchCrashed ∨ r = Fetched data.
Proof.
  intros Hne Hl. cbv zeta. destruct data as [|x d]; [done|]. set (data := x :: d) in *.
  set (hdr := lit "CHUNK_SIZE " ++ show_nat (length data)).
  assert (public_reply (Some data) = hdr ++ nl :: data) as ->.
  { unfold public_reply, hdr, data. by rewrite <- !app_assoc. }
  assert (no_char nl hdr) as Hnl.
  { unfold no_char, hdr. rewrite not_elem_of_app. split; [by_decision|].
    apply word_no_char; [apply word_show_Z|done]. }
  unfold check_chunk. destruct (decide (k ≤ length hdr)%nat) as [Hk|Hk].
  - rewrite take_app_le by done. rewrite read_line_none.
    2: { intros Hin. apply Hnl. rewrite <- (take_drop k hdr). apply elem_of_app. by left. }
    destruct (starts_with (lit "CHUNK_SIZE ") (take k hdr)) eqn:Es; [|by left].
    apply starts_with_spec in Es as [t Et].
    assert (drop 11 (take k hdr) = take (k - 11) (show_nat (length data))) as ->.
    { by rewrite skipn_firstn_comm. }
    unfold show_nat. destruct (cut_number (Z.of_nat (length data)) (k - 11)) as [[e ->]|(m & -> & Hm)];
      [unfold data; simpl; lia|done|by right; left|].
    case_decide; [by right; left|]. unfold recv_exact.
    destruct (Nat.leb_spec (Z.to_nat m) (length (A := ascii) [])); [simpl in *; lia|by left].
  - replace k with (length hdr + S (k - length hdr - 1))%nat by lia.
    rewrite take_app_add. cbn [take]. rewrite read_line_cons by done.
    unfold hdr at 1. rewrite starts_with_app.
    change (drop 11 hdr) with (show_nat (length data)). unfold show_nat.
    rewrite stoull_show by lia. case_decide; [by right; left|]. rewrite Nat2Z.id.
    destruct (recv_exact (length data) _) as [[buf rest]|] eqn:Er; [|by left].
    apply recv_exact_take in Er as (c & Er & _).
    pose proof (recv_exact_app data []) as Hr. rewrite app_nil_r in Hr.
    rewrite Hr in Er by done. injection Er as <- _. rewrite decide_True by done. by right; right.
Qed.

Lemma check_chunk_whole max_alloc data :
  data ≠ [] → Z.of_nat (length data) ≤ max_alloc → max_alloc ≤ ULLONG_MAX →
  check_chunk max_alloc (sha256 data) (Some (public_reply (Some data))) = Fetched data.
Proof.
  intros Hne Hl Hmax. destruct data as [|x d]; [done|]. set (data := x :: d) in *.
  unfold check_chunk, public_reply. cbn [app].
  rewrite app_assoc. unfold data at 1. fold data.
  rewrite (read_line_cons (lit "CHUNK_SIZE " ++ show_nat (length data)) data).
  2: { unfold no_char. rewrite not_elem_of_app. split; [by_decision|].
       apply word_no_char; [apply word_show_Z|done]. }
  rewrite starts_with_app.
  change (drop 11 (lit "CHUNK_SIZE " ++ show_nat (length data))) with (show_nat (length data)).
  unfold show_nat. rewrite stoull_show by lia. rewrite decide_False by lia. rewrite Nat2Z.id.
  pose proof (recv_exact_app data []) as Hr. rewrite app_nil_r in Hr.
  rewrite Hr by done. by rewrite decide_True.
Qed.

Lemma check_chunk_absent max_alloc sum k :
  check_chunk max_alloc sum (Some (take k (public_reply None))) = FetchFailed.
Proof.
  unfold check_chunk. destruct (read_line _) as [resp rest] eqn:E.
  assert (starts_with (lit "CHUNK_SIZE ") resp = false) as ->; [|done].
  destruct k as [|k]; [by injection E as <- _|].
  unfold public_reply, read_line in E. cbn [take app lit list_ascii_of_string] in E.
  destruct (find_char nl _) as [i|]; injection E as <- _; [by destruct i|done].
Qed.

(** ** The public ports *)

(** What the cluster servers promise to a downloading client. *)
Class PublicPorts (N : Type) `{!Network N} := {
  (** every server is up, answers in full and reads its disk *)
  public_up : N → Prop;
  (** the chunks behind an endpoint *)
  public_held : N → bytes * Z → gmap bytes bytes;
  get_law n h p file cid n' r :
    word file → (length (get_req cid file) < 255)%nat →
    exchange n h p (get_req cid file) = (n', r) →
    (∀ e, public_held n' e = public_held n e) ∧
    (∀ a, r = Some a →
       ∃ k, a = take k (public_reply None) ∨
            a = take k (public_reply (public_held n (h, p) !! chunk_key file cid))) ∧
    (public_up n →
       public_up n' ∧ (is_Some (public_held n (h, p) !! chunk_key file cid) →
         r = Some (public_reply (public_held n (h, p) !! chunk_key file cid))))
}.

(** The public ports of the servers of [ChunkStore] as a network; the faults
    are those of [Cluster]. *)
Record PublicNet := mkPublic {
  pub_servers : gmap (bytes * Z) ChunkStorage;     (* by host and public port *)
  pub_faults : list fault
}.

#[export] Instance public_network : Network PublicNet := λ n h p req,
  let after s' := mkPublic (partial_alter (λ _, s') (h, p) (pub_servers n)) (drop 1 (pub_faults n)) in
  match pub_servers n !! (h, p), default (Delivered IoOk) (head (pub_faults n)) with
  | None, _ => (mkPublic (pub_servers n) (drop 1 (pub_faults n)), None)
  | Some s, Refused => (after (Some s), None)
  | Some s, Delivered i =>
      let '(s', reply) := handle_public_connection i s req in (after (Some s'), Some reply)
  | Some s, CutAfter k i =>
      let '(s', reply) := handle_public_connection i s req in (after (Some s'), Some (take k reply))
  end.

Definition public_contents (n : PublicNet) (ep : bytes * Z) : gmap bytes bytes :=
  match pub_servers n !! ep with Some s => contents s | None => ∅ end.

Lemma public_net_get n h p file cid n' r :
  word file → (length (get_req cid file) < 255)%nat →
  exchange n h p (get_req cid file) = (n', r) →
  pub_servers n' = pub_servers n ∧ pub_faults n' = drop 1 (pub_faults n) ∧
  (∀ a, r = Some a → ∃ k, a = take k (public_reply None) ∨
     a = take k (public_reply (public_contents n (h, p) !! chunk_key file cid))) ∧
  (pub_faults n = [] → is_Some (public_contents n (h, p) !! chunk_key file cid) →
   r = Some (public_reply (public_contents n (h, p) !! chunk_key file cid))).
Proof.
  intros Hf Hlen. unfold exchange, public_network, public_contents.
  destruct (pub_servers n !! (h, p)) as [s|] eqn:Es.
  2: { intros [= <- <-]. split; [done|]. split; [done|]. split; [done|].
       intros _. by rewrite lookup_empty, is_Some_alt. }
  assert (∀ i, handle_public_connection i s (get_req cid file) =
            (s, public_reply (if reads i then contents s !! chunk_key file cid else None))) as Hget.
  { intros i. pose proof (public_get i s file (show_Z cid) [] Hf (word_show_Z cid)) as Hp.
    rewrite app_nil_r in Hp. apply Hp. exact Hlen. }
  assert (partial_alter (λ _, Some s) (h, p) (pub_servers n) = pub_servers n) as Hsame.
  { apply partial_alter_id. by rewrite Es. }
  assert (∀ i k, ∃ k', take k (public_reply (if reads i then contents s !! chunk_key file cid else None))
            = take k' (public_reply None) ∨
          take k (public_reply (if reads i then contents s !! chunk_key file cid else None))
            = take k' (public_reply (contents s !! chunk_key file cid))) as Hcut.
  { intros i k. exists k. destruct (reads i); auto. }
  assert (∀ i, ∃ k', public_reply (if reads i then contents s !! chunk_key file cid else None)
            = take k' (public_reply None) ∨
          public_reply (if reads i then contents s !! chunk_key file cid else None)
            = take k' (public_reply (contents s !! chunk_key file cid))) as Hall.
  { intros i. destruct (Hcut i (length (public_reply (if reads i then contents s !! chunk_key file cid
      else None)))) as [k' Hk]. rewrite firstn_all in Hk. by exists k'. }
  destruct (pub_faults n) as [|[i| |k i] fs] eqn:Ef; cbn [head default from_option id];
    rewrite ?Hget, Hsame; intros [= <- <-]; cbn [pub_servers pub_faults];
    (split; [done|]); (split; [done|]); (split; [|done]).
  - intros a [= <-]. apply (Hall IoOk).
  - intros a [= <-]. apply (Hall i).
  - done.
  - intros a [= <-]. apply (Hcut i).
Qed.

#[export] Program Instance public_net_keeps : PublicPorts PublicNet := {|
  public_up n := pub_faults n = [];
  public_held := public_contents
|}.
Next Obligation.
  intros n h p file cid n' r Hf Hlen Hex.
  destruct (public_net_get _ _ _ _ _ _ _ Hf Hlen Hex) as (Hs & Hfl & Hans & Hup).
  split; [intros e; unfold public_contents; by rewrite Hs|].
  split; [done|]. intros Hu. rewrite Hfl, Hu. split; [done|by apply Hup].
Qed.

(** ** The download threads *)
Section fetching.
Context {N : Type} `{!Network N} `{!PublicPorts N}.
Variables (max_alloc : Z) (file : bytes).
Hypothesis Hmax : max_alloc ≤ ULLONG_MAX.
Hypothesis Hfile : word file.

(** The server named for a chunk holds its bytes [data], of the announced hash. *)
Record served (n : N) (c : FetchInfo) (data : bytes) : Prop := {
  sv_req : (length (get_req (fi_id c) file) < 255)%nat;
  sv_held : public_held n (fi_ip c, fi_port c) !! chunk_key file (fi_id c) = Some data;
  sv_data : data ≠ [];
  sv_size : Z.of_nat (length data) ≤ max_alloc;
  sv_hash : fi_hash c = sha256 data
}.

Variable target : gmap Z bytes.
Definition all_served (n : N) (cs : list FetchInfo) : Prop :=
  Forall (λ c, ∃ data, target !! fi_id c = Some data ∧ served n c data) cs.

Definition going_well (st : Fetches (N := N)) : Prop :=
  download_error st = false ∧ fetch_crashed st = false.

Lemma fetch_chunk_step st c data :
  served (fs_net st) c data →
  let st' := fetch_chunk max_alloc file c st in
  (∀ e, public_held (fs_net st') e = public_held (fs_net st) e) ∧
  (chunk_data st' = <[fi_id c := data]> (chunk_data st) ∨
   chunk_data st' = chunk_data st ∧ ¬ going_well st') ∧
  (going_well st' → going_well st) ∧
  (public_up (fs_net st) → going_well st → public_up (fs_net st') ∧ going_well st').
Proof.
  intros [Hreq Hheld Hne Hsz Hsum]. cbv zeta. unfold fetch_chunk.
  destruct (exchange _ _ _ _) as [n' r] eqn:Ex.
  destruct (get_law _ _ _ _ _ _ _ Hfile Hreq Ex) as (Hsame & Hans & Hup).
  rewrite Hheld in *. rewrite Hsum.
  assert (Z.of_nat (length data) ≤ ULLONG_MAX) by lia.
  assert (public_up (fs_net st) → public_up n' ∧ check_chunk max_alloc (sha256 data) r = Fetched data)
    as Hfine.
  { intros Hu. destruct (Hup Hu) as [? ->]; [|by eexists]. split; [done|].
    by apply check_chunk_whole. }
  assert (check_chunk max_alloc (sha256 data) r = FetchFailed ∨
          check_chunk max_alloc (sha256 data) r = FetchCrashed ∨
          check_chunk max_alloc (sha256 data) r = Fetched data) as Hr.
  { destruct r as [a|]; [|by left].
    destruct (Hans a eq_refl) as (k & [-> | ->]); [left; apply check_chunk_absent|].
    by apply check_chunk_cut. }
  unfold going_well.
  destruct Hr as [E|[E|E]]; rewrite E in Hfine |- *; cbn [fs_net chunk_data download_error fetch_crashed];
    (split; [done|]).
  - split; [right; split; [done|by intros [? _]]|]. split; [by intros [? _]|].
    intros Hu. by destruct (Hfine Hu).
  - split; [right; split; [done|by intros [_ ?]]|]. split; [by intros [_ ?]|].
    intros Hu. by destruct (Hfine Hu).
  - split; [by left|]. split; [done|]. intros Hu ?. by destruct (Hfine Hu).
Qed.

Lemma all_served_same n n' cs :
  (∀ e, public_held n' e = public_held n e) → all_served n cs → all_served n' cs.
Proof.
  intros Hsame Hs. eapply Forall_impl; [exact Hs|]. intros c (data & Ht & [H1 H2 H3 H4 H5]).
  exists data. split; [done|]. constructor; try done. by rewrite Hsame.
Qed.

Lemma fetch_all_spec cs : ∀ st,
  all_served (fs_net st) cs → chunk_data st ⊆ target →
  let st' := fold_left (λ st c, fetch_chunk max_alloc file c st) cs st in
  chunk_data st' ⊆ target ∧
  (going_well st' → going_well st ∧ ∀ i, is_Some (chunk_data st !! i) ∨ i ∈ map fi_id cs →
     is_Some (chunk_data st' !! i)) ∧
  (public_up (fs_net st) → going_well st → going_well st').
Proof.
  induction cs as [|c cs IH]; intros st Hs Hsub; cbn [fold_left map].
  { split; [done|]. split; [|done]. intros Hg. split; [done|].
    intros i [?|Hi]; [done|by apply elem_of_nil in Hi]. }
  inversion_clear Hs as [|? ? (data & Ht & Hc) Hs'].
  destruct (fetch_chunk_step st c data Hc) as (Hsame & Hdata & Hback & Hup).
  set (st1 := fetch_chunk max_alloc file c st) in *.
  assert (chunk_data st1 ⊆ target) as Hsub1.
  { destruct Hdata as [->|[-> _]]; [|done]. by apply insert_subseteq_l. }
  destruct (IH st1 (all_served_same _ _ _ Hsame Hs') Hsub1) as (H1 & H2 & H3).
  split; [done|]. split.
  - intros Hg. destruct (H2 Hg) as [Hg1 Hall]. split; [by apply Hback|].
    destruct Hdata as [Hd|[_ Hbad]]; [|by destruct Hbad].
    intros i Hi. apply Hall. rewrite Hd, lookup_insert_is_Some'.
    destruct Hi as [?|[->|?]%elem_of_cons]; eauto.
  - intros Hu Hg. destruct (Hup Hu Hg) as [Hu1 Hg1]. by apply H3.
Qed.
End fetching.

(** ** A download against a plan *)
Section saving.
Context {N : Type} `{!Network N} `{!PublicPorts N}.
Variables (max_alloc : Z) (file : bytes).

Lemma assemble_digest n data :
  digest (fold_left update_bytes (assemble n data) fresh) = sha256 (concat (assemble n data)).
Proof. apply sha256_pieces. Qed.

(** Only bytes with the announced hash are saved. *)
Lemma saved_hash (net : N) reply order can_open h infos out :
  read_plan reply = Some (h, infos) → h ≠ [] →
  (file_download max_alloc net file reply order can_open).2 = Saved out → sha256 out = h.
Proof.
  intros Hp Hh. unfold file_download. rewrite Hp. cbn [snd].
  destruct (fetch_crashed _); [done|]. destruct (download_error _); [done|].
  destruct can_open; [|done]. cbn [negb]. case_decide as Hd; [done|]. intros [= <-].
  rewrite assemble_digest in Hd. destruct (decide (sha256 (concat (assemble (length infos)
    (chunk_data (fetch_all max_alloc file net (order infos))))) = h)); [done|].
  by destruct Hd.
Qed.

Hypothesis Hmax : max_alloc ≤ ULLONG_MAX.
Hypothesis Hfile : word file.
Variable target : gmap Z bytes.

Lemma assemble_target n data :
  data ⊆ target → (∀ i, (i < n)%nat → is_Some (data !! Z.of_nat i)) →
  assemble n data = assemble n target.
Proof.
  intros Hsub Hall. unfold assemble. apply map_ext_in. intros i Hi%in_seq.
  destruct (Hall i) as [d Hd]; [lia|]. rewrite Hd. symmetry.
  by rewrite (lookup_weaken _ _ _ _ Hd Hsub).
Qed.

(** When every chunk has a line, what is saved is the chunks put together;
    with servers that answer, it is saved. *)
Lemma saved_content (net : N) reply order can_open h infos :
  read_plan reply = Some (h, infos) → order infos ≡ₚ infos →
  map fi_id infos = map Z.of_nat (List.seq 0 (length infos)) →
  all_served max_alloc file target net infos →
  (∀ out, (file_download max_alloc net file reply order can_open).2 = Saved out →
     out = concat (assemble (length infos) target)) ∧
  (public_up net → can_open = true → sha256 (concat (assemble (length infos) target)) = h →
   (file_download max_alloc net file reply order can_open).2 =
     Saved (concat (assemble (length infos) target))).
Proof.
  intros Hp Hperm Hids Hs.
  assert (all_served max_alloc file target net (order infos)) as Hs'.
  { unfold all_served. by rewrite Hperm. }
  destruct (fetch_all_spec max_alloc file Hmax Hfile target (order infos)
    (mkFetches net false false ∅) Hs' (map_empty_subseteq _)) as (Hsub & Hgood & Hup).
  fold (fetch_all max_alloc file net (order infos)) in *.
  set (st := fetch_all max_alloc file net (order infos)) in *.
  assert (going_well st → assemble (length infos) (chunk_data st) = assemble (length infos) target)
    as Hasm.
  { intros Hg. apply assemble_target; [done|]. intros i Hi. destruct (Hgood Hg) as [_ Hall].
    apply Hall. right. rewrite (Permutation_map fi_id Hperm), Hids.
    apply list_elem_of_fmap. exists i. split; [done|]. apply elem_of_seq. lia. }
  unfold file_download, going_well in *. rewrite Hp. fold st. cbn [snd].
  destruct (fetch_crashed st) eqn:Ec, (download_error st) eqn:Ee.
  1-3: (split; [done|]; intros Hu; exfalso; by destruct (Hup Hu)).
  rewrite assemble_digest, Hasm by done. split.
  - intros out. destruct can_open; [|done]. cbn [negb]. case_decide; [done|]. by intros [= <-].
  - intros _ -> Hh. cbn [negb]. rewrite Hh. rewrite decide_False by tauto. done.
Qed.
End saving.

(** ** From an upload to a download *)
Lemma zlt_sorted_eq (l1 l2 : list Z) :
  StronglySorted Z.lt l1 → StronglySorted Z.lt l2 → (∀ x, x ∈ l1 ↔ x ∈ l2) → l1 = l2.
Proof.
  intros H1 H2 Hx.
  assert (∀ l, StronglySorted Z.lt l → NoDup l) as Hnd.
  { induction 1 as [|x l _ IH Hl]; constructor; [|done]. intros Hin.
    rewrite Forall_forall in Hl. specialize (Hl _ Hin). lia. }
  assert (AntiSymm (=) Z.lt) by (intros ???; lia).
  apply (StronglySorted_unique Z.lt); [done..|]. apply NoDup_Permutation; auto.
Qed.

Lemma seq_sorted n k : StronglySorted Z.lt (map Z.of_nat (List.seq k n)).
Proof.
  revert k. induction n as [|n IH]; intros k; cbn [List.seq map]; constructor; [apply IH|].
  apply Forall_fmap, Forall_forall. intros i Hi%elem_of_seq. simpl. lia.
Qed.

Section delivery.
Context `{!StdSort} `{!HashOrder bytes FileRecord} `{!Protobuf}.
Context {N : Type} `{!Network N} `{!ChunkCluster N}.
Context {P : Type} `{!Network P} `{!PublicPorts P}.
Variables (CHUNK_SIZE max_alloc : Z) (cfg : UploadConfig)
  (view_at : nat → Registry * gmap Z ServerHealth) (reg : Registry).

Definition target_of (content : bytes) : gmap Z bytes :=
  list_to_map (numbered CHUNK_SIZE content).

Lemma numbered_keys content :
  0 < CHUNK_SIZE →
  (numbered CHUNK_SIZE content).*1 = map Z.of_nat (List.seq 0 (length (file_chunks CHUNK_SIZE content))).
Proof.
  intros Hc. unfold numbered. rewrite fmap_imap. apply list_eq. intros i.
  rewrite list_lookup_imap, list_lookup_fmap.
  destruct (file_chunks CHUNK_SIZE content !! i) as [d|] eqn:E.
  - rewrite lookup_seq_lt by (by eapply lookup_lt_Some). done.
  - rewrite lookup_seq_ge by (by apply lookup_ge_None). done.
Qed.

Lemma target_lookup content i d :
  0 < CHUNK_SIZE → target_of content !! i = Some d ↔ (i, d) ∈ numbered CHUNK_SIZE content.
Proof.
  intros Hc. unfold target_of. symmetry. apply elem_of_list_to_map.
  rewrite numbered_keys by done. apply NoDup_fmap_2; [|apply NoDup_seq]. intros ???; lia.
Qed.

Lemma assemble_file content :
  0 < CHUNK_SIZE →
  assemble (length (file_chunks CHUNK_SIZE content)) (target_of content) =
  file_chunks CHUNK_SIZE content.
Proof.
  intros Hc. apply list_eq. intros i. unfold assemble. rewrite list_lookup_fmap.
  destruct (file_chunks CHUNK_SIZE content !! i) as [d|] eqn:E.
  - rewrite lookup_seq_lt by (by eapply lookup_lt_Some). simpl.
    assert (target_of content !! Z.of_nat i = Some d) as ->; [|done].
    apply target_lookup; [done|]. apply list_elem_of_lookup. exists i. unfold numbered.
    by rewrite list_lookup_imap, E.
  - rewrite lookup_seq_ge by (by apply lookup_ge_None). done.
Qed.

Lemma numbered_range content i d :
  0 < CHUNK_SIZE → num_chunks CHUNK_SIZE (Z.of_nat (length content)) ≤ INT_MAX →
  (i, d) ∈ numbered CHUNK_SIZE content →
  int32_ok i ∧ sint32 i = i ∧ Z.of_nat (length d) ≤ CHUNK_SIZE.
Proof.
  intros Hc Hn Hin. destruct (file_chunks_spec CHUNK_SIZE Hc content) as (_ & Hl & Hsz).
  unfold numbered in Hin. apply list_elem_of_lookup in Hin as [k Hk].
  rewrite list_lookup_imap in Hk. apply fmap_Some in Hk as (d' & Hd' & [= -> ->]).
  rewrite Forall_forall in Hsz. pose proof (lookup_lt_Some _ _ _ Hd').
  assert (int32_ok (Z.of_nat k)) as Hr by (unfold int32_ok, INT_MIN, INT_MAX in *; lia).
  split; [done|]. split; [by apply sint32_small|]. apply list_elem_of_lookup_2 in Hd'. by destruct (Hsz d' Hd').
Qed.

(** The client can be told where the replica is. *)
Definition loc_shown (l : ChunkLocation) : Prop :=
  word (ip_only (loc_server l)) ∧ int32_ok (public_port_of reg (loc_server l)).

(** The public port of a replica's server shows what its transfer port holds. *)
Definition same_servers (locs : list ChunkLocation) (net : N) (pnet : P) : Prop :=
  Forall (λ l, held net (endpoint reg (loc_server l)) ⊆
    public_held pnet (ip_only (loc_server l), public_port_of reg (loc_server l))) locs.

(** What the metadata says of an uploaded file. *)
Record recorded (net : N) (file content : bytes) (rec : FileRecord) : Prop := {
  rc_hash : file_hash rec = sha256 content;
  rc_some : chunks rec ≠ [];
  rc_held : ∀ c, c ∈ chunks rec → ∃ data, (chunk_id c, data) ∈ numbered CHUNK_SIZE content ∧
    held net (endpoint reg (server c)) !! chunk_key file (chunk_id c) = Some data
}.

Lemma recorded_locations meta net file content rec :
  0 < CHUNK_SIZE → num_chunks CHUNK_SIZE (Z.of_nat (length content)) ≤ INT_MAX →
  file ≠ [] → store meta !! file = Some rec → recorded net file content rec →
  (get_chunk_locations meta file).2 = sha256 content ∧
  (get_chunk_locations meta file).1 ≠ [] ∧
  map loc_chunk_id (get_chunk_locations meta file).1 = map chunk_id (chunks rec) ∧
  ∀ l, l ∈ (get_chunk_locations meta file).1 → ∃ data,
    (loc_chunk_id l, data) ∈ numbered CHUNK_SIZE content ∧
    held net (endpoint reg (loc_server l)) !! chunk_key file (loc_chunk_id l) = Some data.
Proof.
  intros Hc Hn Hf Hs [Hh Hne Hheld].
  assert (∀ c, c ∈ chunks rec → sint32 (chunk_id c) = chunk_id c) as Hid.
  { intros c Hin. destruct (Hheld c Hin) as (d & Hd & _). by eapply numbered_range. }
  unfold get_chunk_locations, query_metadata, get_chunks. destruct file as [|x file]; [done|].
  rewrite Hs. cbn [fst snd default from_option id]. split; [done|]. split.
  { intros E. by apply map_eq_nil in E. }
  split.
  { rewrite map_map. apply map_ext_in. intros c Hin%list_elem_of_In. by apply Hid. }
  intros l (c & -> & Hin)%list_elem_of_fmap. cbn [loc_chunk_id loc_server].
  rewrite (Hid c Hin). by apply Hheld.
Qed.

(** The plan of an uploaded file leads to its chunks. *)
Lemma plan_served meta (net net' : N) (pnet : P) schedule file content rec sent :
  sendable CHUNK_SIZE max_alloc file content → max_alloc ≤ ULLONG_MAX →
  store meta !! file = Some rec → recorded net file content rec →
  let locs := (get_chunk_locations meta file).1 in
  cluster_wf net → Forall (loc_ok file) locs → Forall loc_shown locs →
  (∀ cid, int32_ok cid → (length (get_req cid file) < 255)%nat) →
  same_servers locs net' pnet →
  stream_file_to_client meta net (λ _, reg) reg schedule file = (net', sent, true) →
  ∃ infos, read_plan sent = Some (sha256 content, infos) ∧
    StronglySorted Z.lt (map fi_id infos) ∧
    (∀ cid, cid ∈ map fi_id infos ↔ cid ∈ map chunk_id (chunks rec)) ∧
    all_served max_alloc file (target_of content) pnet infos.
Proof.
  intros Hse Hmax Hrec Hok. cbv zeta. intros Hwf Hlocs Hshown Hreq Hsame Hstream.
  pose proof Hse as [[Hc Ha] Hf _ _ _ Hn].
  destruct (recorded_locations meta net file content rec Hc Hn (proj1 Hf) Hrec Hok)
    as (Hh & Hne & Hids & Hheld).
  pose proof (stream_plan reg file meta net net' schedule sent) as Hplan.
  destruct (get_chunk_locations meta file) as [locs h]. cbn [fst snd] in *. subst h.
  destruct (Hplan Hne Hwf Hlocs Hstream) as (plans & -> & Hsort & Hcids & Hall & Hkeep).
  rewrite Forall_forall in Hall. unfold same_servers in Hsame. rewrite Forall_forall in Hshown, Hsame.
  assert (∀ p, p ∈ plans → ∃ data, (plan_chunk_id p, data) ∈ numbered CHUNK_SIZE content ∧
            data ≠ [] ∧ plan_hash p = sha256 data ∧
            held net' (endpoint reg (loc_server (best_server p))) !! chunk_key file (plan_chunk_id p)
              = Some data) as Hp.
  { intros p Hp. destruct (Hall p Hp) as (Hl & Hid & data & Hd & Hph & Hhe).
    destruct (Hheld _ Hl) as (data' & Hin & Hhe'). rewrite Hid in Hin, Hhe'.
    pose proof (lookup_weaken _ _ _ _ Hhe' (Hkeep _)) as E. rewrite E in Hhe.
    injection Hhe as ->. by exists data. }
  exists (map (info_of reg) plans). split; [|split; [|split]].
  - apply read_plan_roundtrip; [apply sha256_word|]. apply Forall_forall. intros p Hin.
    destruct (Hp p Hin) as (d & Hd & _ & Hph & _). destruct (Hall p Hin) as (Hl & _).
    destruct (Hshown _ Hl). constructor; [by eapply numbered_range|done|done|].
    rewrite Hph. apply sha256_word.
  - rewrite map_map. exact Hsort.
  - intros cid. rewrite map_map, <- Hids. apply Hcids.
  - apply Forall_fmap, Forall_forall. intros p Hin.
    destruct (Hp p Hin) as (d & Hd & Hne' & Hph & Hhe). exists d.
    destruct (numbered_range content _ d Hc Hn Hd) as (Hr & _ & Hsz).
    split; [by apply target_lookup|]. constructor; cbn [info_of fi_id fi_ip fi_port fi_hash]; try done.
    + by apply Hreq.
    + eapply lookup_weaken; [exact Hhe|]. apply Hsame. by destruct (Hall p Hin).
    + lia.
Qed.

Lemma download_cmd_parsed file :
  word file → NUL ∉ file → (length (download_cmd file) ≤ command_buffer)%nat →
  parse_command (download_cmd file) = CmdDownload file.
Proof.
  intros Hf Hn Hl. unfold parse_command. rewrite take_ge by done. rewrite take_while_all.
  2: { unfold download_cmd. repeat apply Forall_app_2; [by_decision| |by_decision].
       apply Forall_forall. intros c Hc. apply negb_true_iff, bool_decide_eq_false. by intros ->. }
  unfold download_cmd. rewrite starts_with_app. f_equal.
  change (drop 9 (lit "DOWNLOAD " ++ file ++ [nl])) with (file ++ [nl]).
  rewrite rtrim_newline. exact (rtrim_word [] file Hf).
Qed.

(** A download's request line is shorter than the upload's. *)
Lemma download_line_fits CHUNK file content :
  (length (upload_cmd CHUNK file content) ≤ command_buffer)%nat →
  (length (download_cmd file) ≤ command_buffer)%nat.
Proof.
  unfold upload_cmd, download_cmd. rewrite !length_app. cbn [length]. rewrite !length_app.
  cbn [length]. rewrite !length_app. pose proof (proj1 (finalize_shape (update fresh (map byte_val content)))) as Hh.
  change (finalize _) with (sha256 content) in Hh. change (length (lit "UPLOAD ")) with 7%nat.
  change (length (lit "DOWNLOAD ")) with 9%nat. cbn [length]. rewrite length_app, Hh. simpl. lia.
Qed.

(** An honest upload leaves a cluster that keeps its promises. *)
Lemma upload_cluster_wf meta (net : N) schedule file content :
  sendable CHUNK_SIZE max_alloc file content → cluster_wf net →
  upload_env cfg max_alloc view_at file →
  cluster_wf (up_net (handle_client_upload cfg max_alloc view_at meta net (λ _, reg) schedule true
    (upload_line CHUNK_SIZE file content) (upload_stream CHUNK_SIZE content))).
Proof.
  intros Hse Hwf He. pose proof Hse as [[Hc _] Hf _ _ [Hl0 Hl] _]. unfold handle_client_upload.
  rewrite upload_line_request by done. cbn [negb rq_size rq_chunks rq_file].
  rewrite decide_False by lia.
  destruct (honest_received CHUNK_SIZE max_alloc cfg view_at file content Hse) as (rx & Hrx & Hch & _).
  rewrite Hrx. destruct (run_transfers _ _ _ _ _) as [net' m] eqn:Er.
  destruct (receive_chunks_wf cfg max_alloc view_at (ue_disks _ _ _ _ He) _ _ _ _ _ _
              (no_transfers_wf cfg max_alloc view_at) Hrx) as [Hw _].
  destruct (finish_upload _ _ _ _ _). cbn [up_net].
  eapply (run_transfers_stored reg file); [exact Hwf| | |exact Er].
  - by eapply pending_ok.
  - eapply pending_coherent; [done|]. rewrite Hch, numbered_keys by done.
    apply NoDup_fmap_2; [intros ???; lia|apply NoDup_seq].
Qed.

(** What an upload that succeeded left behind. *)
Lemma upload_recorded meta (net : N) schedule file content :
  let u := handle_client_upload cfg max_alloc view_at meta net (λ _, reg) schedule true
             (upload_line CHUNK_SIZE file content) (upload_stream CHUNK_SIZE content) in
  sendable CHUNK_SIZE max_alloc file content → up_sent u = ready_msg ++ success_msg →
  cluster_wf net → upload_env cfg max_alloc view_at file →
  Z.of_nat (length (rx_pending (up_received u))) ≤ INT_MAX →
  paths_ok (run_transfers net (λ _, reg) file (rx_pending (up_received u)) schedule).2 →
  ∃ rec, store (up_meta u) !! file = Some rec ∧ recorded (up_net u) file content rec.
Proof.
  cbv zeta. intros Hse Hsent Hwf He Hpend Hpaths. pose proof Hse as [[Hc _] Hf _ _ [Hl0 Hl] _].
  destruct (honest_upload CHUNK_SIZE max_alloc cfg view_at meta net (λ _, reg) schedule file content
              Hse) as (Hcrash & Hrx & _).
  destruct (numbered_data CHUNK_SIZE content Hc) as (_ & Hcat & _).
  destruct (upload_durable cfg max_alloc view_at meta net reg schedule
    (upload_line CHUNK_SIZE file content) (upload_stream CHUNK_SIZE content)
    (mkRequest file (Z.of_nat (length content)) (num_chunks CHUNK_SIZE (Z.of_nat (length content)))
       (sha256 content))) as (rec & Hs & Hh & _ & Hne & Hheld); try done.
  - by apply upload_line_request.
  - rewrite Hrx, numbered_keys by done. apply NoDup_fmap_2; [|apply NoDup_seq]. intros ???; lia.
  - exists rec. split; [exact Hs|]. rewrite Hrx in Hh, Hheld. rewrite Hcat in Hh.
    constructor; [done|done|]. intros c Hin. destruct (Hheld c Hin) as (d & ? & _ & _ & ?).
    by exists d.
Qed.

(** What a download makes of a file whose records are right. *)
Lemma download_recorded meta (net net' : N) (pnet : P) schedule file content rec sent
    (order : list FetchInfo → list FetchInfo) (can_open : bool) :
  sendable CHUNK_SIZE max_alloc file content → max_alloc ≤ ULLONG_MAX →
  store meta !! file = Some rec → recorded net file content rec →
  let locs := (get_chunk_locations meta file).1 in
  let result := (file_download max_alloc pnet file sent order can_open).2 in
  cluster_wf net → Forall (loc_ok file) locs → Forall loc_shown locs →
  (∀ cid, int32_ok cid → (length (get_req cid file) < 255)%nat) →
  same_servers locs net' pnet →
  stream_file_to_client meta net (λ _, reg) reg schedule file = (net', sent, true) →
  (∀ l, order l ≡ₚ l) →
  (∀ out, result = Saved out → sha256 out = sha256 content) ∧
  ((∀ i, i ∈ (numbered CHUNK_SIZE content).*1 → i ∈ map chunk_id (chunks rec)) →
   (∀ out, result = Saved out → out = content) ∧
   (public_up pnet → can_open = true → result = Saved content)).
Proof.
  cbv zeta. intros Hse Hmax Hrec Hok Hwf Hlocs Hshown Hget Hsame Hstream Hord.
  pose proof Hse as [[Hc Ha] Hf _ _ [Hl0 Hl] Hn].
  destruct (plan_served meta net net' pnet schedule file content rec sent Hse Hmax Hrec Hok
    Hwf Hlocs Hshown Hget Hsame Hstream) as (infos & Hplan & Hsort & Hids & Hserved).
  destruct Hok as [_ _ Hheld].
  split.
  { intros out. apply (saved_hash max_alloc file pnet sent order can_open _ infos); [exact Hplan|].
    apply sha256_word. }
  intros Hall.
  assert (map fi_id infos = map Z.of_nat (List.seq 0 (length (file_chunks CHUNK_SIZE content)))) as Hseq.
  { apply zlt_sorted_eq; [done|apply seq_sorted|]. intros x. rewrite Hids.
    rewrite <- numbered_keys by done. split; [|apply Hall].
    intros (c & -> & Hin)%list_elem_of_fmap. destruct (Hheld c Hin) as (d & Hd & _).
    by apply (list_elem_of_fmap_2 fst) in Hd. }
  assert (length infos = length (file_chunks CHUNK_SIZE content)) as Hlen.
  { rewrite <- (length_map fi_id), Hseq, length_map. apply length_seq. }
  rewrite <- Hlen in Hseq.
  destruct (saved_content max_alloc file Hmax Hf (target_of content) pnet sent order can_open
    (sha256 content) infos Hplan (Hord infos) Hseq Hserved) as (H1 & H2).
  rewrite Hlen, assemble_file in H1, H2 by done.
  destruct (file_chunks_spec CHUNK_SIZE Hc content) as (Hcat & _). rewrite Hcat in H1, H2.
  split; [exact H1|]. intros Hu Hop. by apply H2.
Qed.

(** C1: a download saves what was uploaded.  A client's upload was answered
    SUCCESS, no server lost a chunk since, and another client's download gets a
    complete plan.  Then whatever faults the public ports have and in whatever
    order the threads finish, nothing is saved but bytes with the uploaded
    file's SHA-256; if every chunk has a record nothing is saved but the
    uploaded bytes; and if moreover the servers answer, they are saved. *)
Theorem download_returns_upload (meta : MetaState) (net net2 net3 : N) (pnet : P)
    (schedule schedule2 : list nat) (file file' content req sent : bytes)
    (order : list FetchInfo → list FetchInfo) (can_open : bool) :
  let u := handle_client_upload cfg max_alloc view_at meta net (λ _, reg) schedule true req
             (upload_stream CHUNK_SIZE content) in
  let locs := (get_chunk_locations (up_meta u) file).1 in
  let result := (file_download max_alloc pnet file sent order can_open).2 in
  sendable CHUNK_SIZE max_alloc file content →
  parse_command (upload_cmd CHUNK_SIZE file content) = CmdUpload req →
  up_sent u = ready_msg ++ success_msg →
  cluster_wf net → upload_env cfg max_alloc view_at file →
  Z.of_nat (length (rx_pending (up_received u))) ≤ INT_MAX →
  paths_ok (run_transfers net (λ _, reg) file (rx_pending (up_received u)) schedule).2 →
  cluster_wf net2 → (∀ e, held (up_net u) e ⊆ held net2 e) →
  Forall (loc_ok file) locs → Forall loc_shown locs →
  (∀ cid, int32_ok cid → (length (get_req cid file) < 255)%nat) →
  parse_command (download_cmd file) = CmdDownload file' →
  stream_file_to_client (up_meta u) net2 (λ _, reg) reg schedule2 file' = (net3, sent, true) →
  same_servers locs net3 pnet → (∀ l, order l ≡ₚ l) →
  (∀ out, result = Saved out → sha256 out = sha256 content) ∧
  ((∀ i, i ∈ (numbered CHUNK_SIZE content).*1 → i ∈ map loc_chunk_id locs) →
   (∀ out, result = Saved out → out = content) ∧
   (public_up pnet → can_open = true → result = Saved content)).
Proof.
  cbv zeta. intros Hse Hreq Hsent Hwf He Hpend Hpaths Hwf2 Hkept Hlocs Hshown Hget Hcmd Hstream
    Hsame Hord.
  pose proof Hse as [[Hc Ha] Hf Hnul Hline [Hl0 Hl] Hn].
  rewrite upload_cmd_parsed in Hreq by done. injection Hreq as <-.
  rewrite download_cmd_parsed in Hcmd by (done || by eapply download_line_fits). injection Hcmd as <-.
  destruct (upload_recorded meta net schedule file content Hse Hsent Hwf He Hpend Hpaths)
    as (rec & Hrec & [Hh Hne Hheld]).
  assert (max_alloc ≤ ULLONG_MAX) as Hmax.
  { pose proof (ue_alloc _ _ _ _ He). unfold ULLONG_MAX. lia. }
  set (u := handle_client_upload _ _ _ _ _ _ _ _ _ _) in *.
  assert (recorded net2 file content rec) as Hok.
  { constructor; [done|done|]. intros c Hin. destruct (Hheld c Hin) as (d & ? & Hd).
    exists d. split; [done|]. eapply lookup_weaken; [exact Hd|apply Hkept]. }
  destruct (recorded_locations (up_meta u) net2 file content rec Hc Hn (proj1 Hf) Hrec Hok)
    as (_ & _ & -> & _).
  by apply (download_recorded (up_meta u) net2 net3 pnet schedule2 file content rec).
Qed.
End delivery.

(** ** A concrete run *)
Section demo.
Existing Instance net_protobuf.
Existing Instance cluster_network.
Existing Instance cluster_keeps_chunks.

#[local] Abbreviation rt_upload :=
  (handle_client_upload demo_cfg (2 ^ 30) demo_view demo_meta (demo_node "10.0.0.1" [])
    (λ _, demo_reg) [1%nat; 0%nat] true (upload_line 4 (lit "f.txt") (lit "abcdef"))
    (upload_stream 4 (lit "abcdef"))).
#[local] Abbreviation rt_stream :=
  (stream_file_to_client (up_meta rt_upload) (up_net rt_upload) (λ _, demo_reg) demo_reg
    [0%nat; 1%nat] (lit "f.txt")).
Definition rt_locs : list ChunkLocation :=
  [mkLoc 0 (lit "10.0.0.1:8080") (lit "/d/chunk_f.txt_chunk_0_1001_2.dat");
   mkLoc 1 (lit "10.0.0.1:8080") (lit "/d/chunk_f.txt_chunk_1_1000_1.dat")].
(** The same server's public port. *)
Definition rt_public : PublicNet :=
  mkPublic (match servers rt_stream.1.1 !! (lit "10.0.0.1", 8180) with
            | Some nd => {[(lit "10.0.0.1", 8280) := server_store nd]}
            | None => ∅
            end) [].

Example rt_locations :
  (get_chunk_locations (up_meta rt_upload) (lit "f.txt")).1 = rt_locs.
Proof. vm_compute. reflexivity. Qed.

Lemma rt_same_servers : same_servers demo_reg rt_locs rt_stream.1.1 rt_public.
Proof.
  assert (∀ net : Cluster, held net (lit "10.0.0.1", 8180) ⊆
    public_held (mkPublic (match servers net !! (lit "10.0.0.1", 8180) with
      | Some nd => {[(lit "10.0.0.1", 8280) := server_store nd]} | None => ∅ end) [])
      (lit "10.0.0.1", 8280)) as H.
  { intros net. cbn [held public_held cluster_keeps_chunks public_net_keeps].
    unfold cluster_held, public_contents. cbn [pub_servers].
    destruct (servers net !! _); [by rewrite lookup_singleton_eq|apply map_empty_subseteq]. }
  repeat apply Forall_cons_2; [exact (H rt_stream.1.1)..|apply Forall_nil_2].
Qed.

Lemma triple_true {A B} (t : A * B * bool) : t.2 = true → t = (t.1.1, t.1.2, true).
Proof. destruct t as [[a b] c]. by intros [= ->]. Qed.

Lemma download_returns_upload_witness :
  (file_download (2 ^ 30) rt_public (lit "f.txt") rt_stream.1.2 (@rev _) true).2 =
  Saved (lit "abcdef").
Proof.
  destruct (download_returns_upload 4 (2 ^ 30) demo_cfg demo_view demo_reg demo_meta
    (demo_node "10.0.0.1" []) (up_net rt_upload) rt_stream.1.1 rt_public [1%nat; 0%nat]
    [0%nat; 1%nat] (lit "f.txt") (lit "f.txt") (lit "abcdef")
    (upload_line 4 (lit "f.txt") (lit "abcdef")) rt_stream.1.2 (@rev _) true) as (_ & Hall).
  - exact demo_sendable.
  - by vm_compute.
  - by vm_compute.
  - apply demo_node_wf.
  - exact demo_env_ok.
  - by_decision.
  - by_decision.
  - apply upload_cluster_wf; [exact demo_sendable|apply demo_node_wf|exact demo_env_ok].
  - done.
  - rewrite rt_locations. repeat apply Forall_cons_2; [..|apply Forall_nil_2]; split.
    1,3: apply key_ok_short; [by_decision|by vm_compute|by split].
    + by apply (text_ok_lit "/d/chunk_f.txt_chunk_0_1001_2.dat").
    + by apply (text_ok_lit "/d/chunk_f.txt_chunk_1_1000_1.dat").
  - rewrite rt_locations. by_decision.
  - intros cid Hcid. unfold get_req. rewrite length_app. cbn [length]. rewrite length_app.
    pose proof (length_show_Z cid) as Hs. unfold int32_ok, INT_MIN, INT_MAX in Hcid. simpl. lia.
  - by vm_compute.
  - apply triple_true. by vm_compute.
  - rewrite rt_locations. exact rt_same_servers.
  - intros l. symmetry. apply Permutation_rev.
  - destruct Hall as [_ Hsaved].
    + rewrite rt_locations. intros i. vm_compute. tauto.
    + by apply Hsaved.
Defined.
End demo.
