(* ===== verification/Consensus.v ===== *)
(** * Consensus: what the vote on a silent server comes to
    (src/src/head_server/head_server.cpp 665-793) *)
From Stdlib Require Import Lia.
From S2P Require Import Prelude.
From S2P Require Import Text.
From S2P Require Import Ordered.
From S2P Require Import JsonText.
From S2P Require Import Http.
From S2P Require Import Net.
From S2P Require Import Registry.
From S2P Require Import Health.
From S2P Require Import ControlApi.
From S2P Require Import ControlClient.
From S2P Require Import Zk.
From S2P Require Import ChunkSpec.
From S2P Require Import Failover.
Local Open Scope Z_scope.

(** ** The ZooKeeper store of a head server *)
Lemma last_show_Z z : ∃ c, last (show_Z z) = Some c ∧ c ≠ "/"%char.
Proof.
  destruct (word_show_Z z) as [Hne _].
  destruct (last (show_Z z)) as [c|] eqn:E; [|by apply last_None in E].
  exists c. split; [done|]. intros ->. apply last_Some in E as [q Hq].
  apply (digit_run_no "/"%char z); [done..|]. rewrite Hq. apply elem_of_app. right. by left.
Qed.

Lemma normalize_numbered (prefix : bytes) z :
  head prefix = Some "/"%char → normalize_path (prefix ++ show_Z z) = prefix ++ show_Z z.
Proof.
  intros Hh. destruct (last_show_Z z) as (c & Hc & Hne).
  apply (normalize_path_done _ c); [by destruct prefix| |done].
  apply last_Some in Hc as [q ->]. by rewrite app_assoc, last_snoc.
Qed.

Lemma create_node_store c s path data eph sequence :
  connected c = true →
  (create_node c s path data eph sequence).1.1 =
  (create_node demo_client s path data eph sequence).1.1.
Proof.
  intros Hc. unfold create_node. rewrite Hc. cbn [connected demo_client negb].
  destruct (if sequence then _ else _) as [s1 actual].
  repeat case_decide; done.
Qed.

(** The store before the head server's own node is created. *)
Definition base_nodes : gmap bytes Node :=
  <[head_servers_path := mkNode [] false 0 ∅]>
    (<[lit "/dfg" := mkNode [] false 0 {[lit "head_servers"]}]>
      {[slash := mkNode [] false 0 {[lit "dfg"]}]}).

Lemma head_znode_parts port :
  head_znode port ≠ slash ∧ parent_path (head_znode port) = head_servers_path ∧
  child_name (head_znode port) = lit "head_" ++ show_Z port.
Proof.
  assert (head_znode port = child_path head_servers_path (lit "head_" ++ show_Z port)) as -> by done.
  apply child_path_parts; [|done]. split; [done|]. rewrite not_elem_of_app.
  split; [by_decision|by apply digit_run_no].
Qed.

Lemma link_node_under m actual data eph parent :
  parent_path actual = parent → parent ≠ [] →
  link_node m actual data eph =
    update_children (<[actual := mkNode data eph 0 ∅]> m) parent (union {[child_name actual]}).
Proof. intros <- Hp. unfold link_node. by destruct (parent_path actual). Qed.

(** The base paths have at most 17 characters. *)
Lemma base_nodes_long (p : bytes) c : p !! 17%nat = Some c → base_nodes !! p = None.
Proof.
  intros Hp. unfold base_nodes.
  rewrite !lookup_insert_ne, lookup_singleton_ne; [done|..]; by intros <-.
Qed.

Definition base_store : ZkStore :=
  ensure_node demo_client (ensure_node demo_client initial_store (lit "/dfg")) head_servers_path.

#[local] Instance Node_eq_dec : EqDecision Node.
Proof. solve_decision. Defined.

Lemma base_store_nodes : nodes base_store = base_nodes.
Proof. by_decision. Qed.

Lemma register_head_nodes c port :
  nodes (register_head c initial_store port) =
    <[head_servers_path := mkNode [] false 0 {[lit "head_" ++ show_Z port]}]>
      (<[head_znode port := mkNode (lit "127.0.0.1:" ++ show_Z port) true 0 ∅]> base_nodes).
Proof.
  assert (connected (connect c).1 = true) as Hc
    by (unfold connect; by destruct (connected c) eqn:E).
  unfold register_head, ensure_node. rewrite !(create_node_store _ _ _ _ _ _ Hc).
  pose proof base_store_nodes as Hs2. unfold base_store, ensure_node in Hs2.
  set (s2 := if node_exists _ head_servers_path then _ else _) in *.
  clearbody s2. unfold create_node. cbn [connected demo_client negb].
  assert (normalize_path (head_znode port) = head_znode port) as ->
    by (by apply normalize_numbered).
  destruct (head_znode_parts port) as (Hne & Hpar & Hname). rewrite Hs2, Hpar.
  pose proof (base_nodes_long (head_znode port) "/"%char eq_refl) as Hnone.
  rewrite decide_False by (rewrite Hnone; by intros []).
  rewrite decide_False by (intros [_ E]; by vm_compute in E).
  cbn [fst nodes]. rewrite (link_node_under _ _ _ _ _ Hpar) by done. rewrite Hname.
  unfold update_children. rewrite lookup_insert_ne by (intros E; by rewrite E in Hnone).
  assert (base_nodes !! head_servers_path = Some (mkNode [] false 0 ∅)) as ->
    by apply lookup_insert_eq.
  unfold with_children, from_option, id.
  cbn [node_data ephemeral version children].
  by rewrite (right_id_L ∅ (∪)).
Qed.

(** ZooKeeper, seen from a head server, never vouches for a cluster server. *)
Lemma registered_not_alive c port now_sec sid :
  zk_alive now_sec (register_head c initial_store port) sid = false.
Proof.
  unfold zk_alive, node_exists.
  assert (normalize_path (server_znode sid) = server_znode sid) as ->
    by (by apply normalize_numbered).
  rewrite register_head_nodes, !lookup_insert_ne, (base_nodes_long _ "e"%char); done.
Qed.

(** The only head server it knows is itself. *)
Lemma registered_no_peer c port :
  INT_MIN ≤ port ≤ INT_MAX → zk_peers (register_head c initial_store port) port = [].
Proof.
  intros Hp. unfold zk_peers. destruct (node_exists _ _); [|done].
  unfold get_children. change (normalize_path head_servers_path) with head_servers_path.
  rewrite register_head_nodes, lookup_insert_eq. cbn [children].
  rewrite elements_singleton. change (sorted_strings [?x]) with [x].
  change (head_servers_path ++ slash ++ lit "head_" ++ show_Z port) with (head_znode port).
  assert (get_node_data (register_head c initial_store port) (head_znode port) =
            show_address (lit "127.0.0.1") port) as E.
  { unfold get_node_data.
    assert (normalize_path (head_znode port) = head_znode port) as ->
      by (by apply normalize_numbered).
    rewrite register_head_nodes, lookup_insert_ne, lookup_insert_eq; [done|].
    intros E. by apply (f_equal (λ p : bytes, p !! 17%nat)) in E. }
  cbn [omap list_omap]. 
  change (head_servers_path ++ slash ++ lit "head_" ++ show_Z port) with (head_znode port).
  rewrite E. pose proof (parse_show_address (lit "127.0.0.1") port 8080) as Hparse.
  destruct (show_address _ _) as [|x l]; [done|].
  rewrite Hparse; [|by_decision|done]. by rewrite decide_False by tauto.
Qed.

(** ** The peers *)
Lemma contains_prefix p a b : contains p a = true → contains p (a ++ b) = true.
Proof.
  rewrite !contains_spec. intros (x & y & ->). exists x, (y ++ b). by rewrite <- !app_assoc.
Qed.

Lemma rejection_no_claim b rest : invalid_id = b ++ rest → claims_healthy b = false.
Proof.
  intros E. unfold claims_healthy.
  assert (contains (jlit "'healthy':true") invalid_id = false) as H1 by (by vm_compute).
  assert (contains (jlit "'healthy': true") invalid_id = false) as H2 by (by vm_compute).
  destruct (contains (jlit "'healthy':true") b) eqn:E1.
  { by rewrite E, (contains_prefix _ _ _ E1) in H1. }
  destruct (contains (jlit "'healthy': true") b) eqn:E2; [|done].
  by rewrite E, (contains_prefix _ _ _ E2) in H2.
Qed.

(** Our own control API rejects the question [verify_consensus] asks. *)
Lemma health_query_rejected reachable now s sid h :
  response (handle_request reachable now s (health_query sid h)).2 = invalid_id.
Proof.
  set (path := lit "/api/v1/servers/cluster/" ++ show_Z sid ++ lit "/health").
  assert (word path) as Hp.
  { unfold path. rewrite app_assoc. apply word_app; [apply word_app; [lit_word|apply word_show_Z]|by_decision]. }
  assert (∃ rest, health_query sid h = lit "GET" ++ sp :: path ++ sp :: rest) as [rest E].
  { unfold health_query, plain_request, header_text. cbn [map concat]. eexists.
    fold path. clearbody path. rewrite <- !app_assoc, <- !app_comm_cons, <- !app_assoc.
    reflexivity. }
  unfold handle_request. rewrite E. rewrite parse_request_words; [|lit_word|done].
  assert (starts_with cluster_slash path = true) as Hs by apply starts_with_app.
  assert (contains (lit "/health") path = true) as Hc.
  { apply contains_spec. exists (lit "/api/v1/servers/cluster/" ++ show_Z sid), [].
    unfold path. by rewrite app_nil_r, <- app_assoc. }
  clearbody path. cbn [lit list_ascii_of_string app].
  change (["G"; "E"; "T"]%char) with (lit "GET"). by rewrite health_route.
Qed.

Lemma peers_from_config zk cfg port p :
  p ∈ peers_of zk cfg port → p ∈ zk_peers zk port ∨ p ∈ cfg.
Proof.
  unfold peers_of. generalize (zk_peers zk port) as ps.
  induction cfg as [|e cfg IH]; intros ps; cbn [fold_left]; [by left|].
  intros Hin. apply IH in Hin as [Hin|Hin]; [|right; by right].
  unfold add_peer in Hin. case_decide; [|by left].
  apply elem_of_app in Hin as [Hin|Hin]; [by left|].
  apply list_elem_of_singleton in Hin as ->. right. by left.
Qed.

Section consensus.
Context {N : Type} `{!OneShot N}.

(** [b] is the beginning of what a head server running [ControlApi] answers. *)
Definition from_control_api (request b : bytes) : Prop :=
  ∃ reachable now s rest,
    response (handle_request reachable now s request).2 = b ++ rest.

Lemma vote_reached (c : ZkClient) (cfg : list (bytes * Z)) (port now_sec sid : Z)
    (net : N) :
  INT_MIN ≤ port ≤ INT_MAX →
  (∀ n h p n' b, (h, p) ∈ cfg → ask n h p (health_query sid h) 1023 = (n', Heard b) →
     from_control_api (health_query sid h) b) →
  ∃ net', verify_consensus net now_sec (register_head c initial_store port) cfg port sid =
          (net', true).
Proof.
  intros Hport Hpeers. unfold verify_consensus. rewrite registered_not_alive.
  assert (∀ p, p ∈ peers_of (register_head c initial_store port) cfg port → p ∈ cfg) as Hin.
  { intros p Hp. apply peers_from_config in Hp as [Hp|Hp]; [|done].
    rewrite registered_no_peer in Hp by done. by apply elem_of_nil in Hp. }
  revert net Hin. induction (peers_of _ _ _) as [|[h p] ps IH]; intros net Hin; [by eexists|].
  cbn [poll_peers]. assert ((h, p) ∈ cfg) as Hhp by (apply Hin; by left).
  assert (∀ q, q ∈ ps → q ∈ cfg) as Hps by (intros q Hq; apply Hin; by right).
  destruct (ask _ _ _ _ _) as [n' [| |b]] eqn:Ea; [by apply IH..|].
  destruct (Hpeers _ _ _ _ _ Hhp Ea) as (reachable & now & s & rest & Hb).
  rewrite health_query_rejected in Hb. rewrite (rejection_no_claim _ _ Hb). by apply IH.
Qed.

(** C11: the vote cannot save a live server.  In a head server that registered
    itself as [run_head_server] does, ZooKeeper never vouches for a cluster
    server and names no other head server; and if the peers of the
    configuration run this control API, whatever their state, none of their
    answers is read as "healthy".  So the consensus that a server is dead is
    always reached, even while every peer knows it to be alive. *)
Theorem consensus_always_reached (c : ZkClient) (cfg : list (bytes * Z)) (port now_sec sid : Z)
    (net : N) :
  INT_MIN ≤ port ≤ INT_MAX →
  (∀ n h p n' b, (h, p) ∈ cfg → ask n h p (health_query sid h) 1023 = (n', Heard b) →
     from_control_api (health_query sid h) b) →
  ∃ net', verify_consensus net now_sec (register_head c initial_store port) cfg port sid =
          (net', true).
Proof. apply vote_reached. Qed.
End consensus.

(** A peer that knows the server to be healthy. *)
Definition informed_head : Head :=
  mkHead empty_registry (register_server 5 (mkMonitor ∅ 60 3 true true) 7 (lit "10.0.0.7:8080")).
Definition informed_peer : OneShot unit := λ n h p request limit,
  (n, Heard (take (Z.to_nat limit) (response (handle_request up 0 informed_head request).2))).

Lemma consensus_always_reached_witness :
  is_healthy <$> hm_servers (monitor informed_head) !! 7 = Some true ∧
  ∃ net', verify_consensus (OneShot0 := informed_peer) tt 100
            (register_head demo_client initial_store 9670) [(lit "10.0.0.2", 9671)] 9670 7 = (net', true).
Proof.
  split; [by vm_compute|].
  apply (consensus_always_reached (OneShot0 := informed_peer)); [by_decision|].
  intros n h p n' b _ E. exists up, 0, informed_head, (drop (Z.to_nat 1023)
    (response (handle_request up 0 informed_head (health_query 7 h)).2)).
  apply (f_equal (λ r : unit * heard, match r.2 with Heard x => x | _ => [] end)) in E.
  cbn [snd] in E. rewrite <- E. symmetry. exact (take_drop _ _).
Defined.
