(* ===== verification/FailoverSpec.v ===== *)
(** * FailoverSpec: what a failover guarantees
    (src/src/head_server/head_server.cpp 795-1013)

    Its exact effect on the metadata, that every replica it records is held by
    the server it names, and that no server has two failovers at a time. *)
From Stdlib Require Import Lia SpecFloat.
From S2P Require Import Prelude.
From S2P Require Import Text.
From S2P Require Import Ordered.
From S2P Require Import JsonText.
From S2P Require Import Sha256.
From S2P Require Import Net.
From S2P Require Import Metadata.
From S2P Require Import Registry.
From S2P Require Import Health.
From S2P Require Import ControlApi.
From S2P Require Import ControlClient.
From S2P Require Import Zk.
From S2P Require Import Wire.
From S2P Require Import WireCodec.
From S2P Require Import ChunkStore.
From S2P Require Import ChunkSpec.
From S2P Require Import HeadNet.
From S2P Require Import Cluster.
From S2P Require Import Upload.
From S2P Require Import UploadSpec.
From S2P Require Import DownloadSpec.
From S2P Require Import Failover.
Local Open Scope Z_scope.

(** ** The survey of a chunk's replicas *)
Lemma survey_spec dead records :
  let v := survey dead records in
  (has_dead_replica v = true →
     ∃ r, r ∈ records ∧ server r = dead ∧ checksum r = dead_checksum v) ∧
  (surviving_server v ≠ [] →
     ∃ r, r ∈ records ∧ server r ≠ dead ∧ server r = surviving_server v ∧
          path r = surviving_path v).
Proof.
  cbv zeta. induction records as [|r records [IHd IHs]] using rev_ind; [done|].
  unfold survey in *. rewrite fold_left_app. cbn [fold_left].
  set (v := fold_left _ _ _) in *. unfold survey_step.
  assert (∀ x, x ∈ records → x ∈ records ++ [r]) as Hin by (intros; apply elem_of_app; by left).
  assert (r ∈ records ++ [r]) as Hr by (apply elem_of_app; right; by left).
  case_decide as Hd; [|destruct (surviving_server v) as [|c w] eqn:E];
    cbn [has_dead_replica surviving_server surviving_path dead_checksum].
  - split; [eauto|]. intros Hs. destruct (IHs Hs) as (x & ? & ?). eauto.
  - split; [|eauto]. intros Hs. destruct (IHd Hs) as (x & ? & ?). eauto.
  - rewrite E. split.
    + intros Hs. destruct (IHd Hs) as (x & ? & ?). eauto.
    + intros Hs. destruct (IHs Hs) as (x & ? & ?). eauto.
Qed.

Lemma pick_target_spec healthy records :
  pick_target healthy records ≠ [] →
  pick_target healthy records ∈ healthy ∧ pick_target healthy records ∉ map server records.
Proof.
  unfold pick_target. destruct (filter _ _) as [|t l] eqn:E; [done|]. intros _. simpl.
  assert (t ∈ t :: l) as Ht by (by left). rewrite <- E in Ht.
  apply list_elem_of_filter in Ht. tauto.
Qed.

(** ** The jobs of a failover, in order *)
Abbreviation job := (bytes * (Z * list ChunkRecord))%type.
Definition job_key (j : job) : bytes * Z := (j.1, j.2.1).
Definition file_jobs (meta : MetaState) (file : bytes) : list job :=
  map (pair file) (zmap_list (chunk_map (chunks (query_metadata meta file)))).
Definition jobs (meta : MetaState) (files : list bytes) : list job :=
  concat (map (file_jobs meta) files).

Lemma elem_of_jobs meta files j :
  j ∈ jobs meta files ↔ ∃ file, file ∈ files ∧ j ∈ file_jobs meta file.
Proof.
  unfold jobs. rewrite list_elem_of_In, List.in_concat. split.
  - intros (ls & Hls & Hj). apply list_elem_of_In, list_elem_of_fmap in Hls as (f & -> & Hf).
    exists f. split; [done|]. by apply list_elem_of_In.
  - intros (f & Hf & Hj). exists (file_jobs meta f). rewrite <- !list_elem_of_In.
    split; [|done]. by apply (list_elem_of_fmap_2 (file_jobs meta)).
Qed.

Lemma file_jobs_spec meta file j :
  j ∈ file_jobs meta file →
  j.1 = file ∧ ∃ rec, store meta !! file = Some rec ∧
    ∀ r, r ∈ j.2.2 ↔ r ∈ chunks rec ∧ chunk_id r = j.2.1.
Proof.
  unfold file_jobs. intros ([cid rs] & -> & Hin)%list_elem_of_fmap. simpl. split; [done|].
  apply elem_of_ordered in Hin. unfold chunk_map in Hin.
  pose proof (λ r, group_elem chunk_id _ _ _ r Hin) as Hrs.
  unfold query_metadata, get_chunks in *.
  destruct file as [|c file]; [by destruct (lookup_empty_Some (M := gmap Z) cid rs)|].
  destruct (store meta !! (c :: file)) as [rec|]; [by exists rec|].
  by destruct (lookup_empty_Some (M := gmap Z) cid rs).
Qed.

Lemma jobs_NoDup meta files : NoDup files → NoDup (map job_key (jobs meta files)).
Proof.
  intros Hnd. unfold jobs. induction Hnd as [|f files Hf Hnd IH]; [by apply NoDup_nil|].
  cbn [map concat]. rewrite map_app. apply NoDup_app. split; [|split].
  - unfold file_jobs. rewrite map_map. unfold job_key. simpl.
    assert (∀ l : list (Z * list ChunkRecord), map (λ x, (f, x.1)) l = map (pair f) l.*1) as ->.
    { intros l. unfold fmap. by rewrite <- (map_map fst). }
    apply (NoDup_fmap_2 (pair f)). apply ordered_NoDup.
  - intros k Hk Hk'. apply Hf. apply list_elem_of_fmap in Hk as (j & -> & Hj).
    apply list_elem_of_fmap in Hk' as (j' & E & Hj'). apply elem_of_jobs in Hj' as (f' & Hf' & Hj').
    apply file_jobs_spec in Hj as [Ej _]. apply file_jobs_spec in Hj' as [Ej' _].
    apply (f_equal fst) in E. simpl in E. congruence.
  - apply IH.
Qed.

(** ** What is added to the metadata *)

(** [c] replaces a lost replica of its chunk on a server that had none. *)
Record fresh_replica (dead : bytes) (healthy : list bytes) (rec : FileRecord) (c : ChunkRecord)
  : Prop := {
  fre_target : server c ∈ healthy;
  fre_new : ∀ r, r ∈ chunks rec → chunk_id r = chunk_id c → server r ≠ server c;
  fre_lost : ∃ r, r ∈ chunks rec ∧ chunk_id r = chunk_id c ∧ server r = dead ∧
                  checksum r = checksum c;
  fre_source : ∃ r, r ∈ chunks rec ∧ chunk_id r = chunk_id c ∧ server r ≠ dead
}.

Section spec.
Context {N : Type} `{!Network N} `{!Protobuf} `{!HashOrder bytes FileRecord}.
Variables (reg : Registry) (dead : bytes) (meta : MetaState) (healthy : list bytes).
Definition run_job (st : N * updates) (j : job) : N * updates :=
  failover_chunk reg dead healthy j.1 st j.2.

Lemma failover_files_flat files st :
  fold_left (failover_file reg dead meta healthy) files st = fold_left run_job (jobs meta files) st.
Proof.
  revert st. induction files as [|f files IH]; intros st; [done|].
  cbn [fold_left]. unfold jobs. cbn [map concat]. rewrite fold_left_app, IH.
  f_equal. unfold failover_file, file_jobs. generalize (zmap_list (chunk_map (chunks (query_metadata meta f)))).
  intros l. clear. revert st. induction l as [|g l IH]; intros st; [done|]. cbn [fold_left map].
  apply IH.
Qed.

Lemma job_fresh files file cid records :
  (file, (cid, records)) ∈ jobs meta files →
  has_dead_replica (survey dead records) = true → surviving_server (survey dead records) ≠ [] →
  pick_target healthy records ≠ [] → ∃ rec, store meta !! file = Some rec ∧
  (∀ r, r ∈ records ↔ r ∈ chunks rec ∧ chunk_id r = cid) ∧
  ∀ np, fresh_replica dead healthy rec
    (replica_record (pick_target healthy records) file cid np (dead_checksum (survey dead records)) records).
Proof.
  intros Hj Hd Hs Ht. apply elem_of_jobs in Hj as (f & _ & Hj).
  apply file_jobs_spec in Hj as (<- & rec & Hrec & Hr). cbn [fst snd] in *.
  exists rec. split; [done|]. split; [done|]. intros np.
  destruct (survey_spec dead records) as [H1 H2]. destruct (pick_target_spec _ _ Ht) as [H3 H4].
  destruct (H1 Hd) as (d & Hd1 & Hd2 & Hd3). destruct (H2 Hs) as (s & Hs1 & Hs2 & _).
  apply Hr in Hd1 as [? ?], Hs1 as [? ?]. constructor; simpl; [done| |eauto|eauto].
  intros r Hr1 Hr2 E. apply H4. rewrite <- E. apply (list_elem_of_fmap_2 server). by apply Hr.
Qed.

Section invariant.
(** [I] holds throughout; [P] holds of every record once it is added. *)
Variables (I : N → Prop) (P : N → bytes → ChunkRecord → Prop) (files : list bytes).
Hypothesis Hstep : ∀ net file cid records net' ok np,
  let v := survey dead records in
  let target := pick_target healthy records in
  (file, (cid, records)) ∈ jobs meta files → I net →
  has_dead_replica v = true → surviving_server v ≠ [] → target ≠ [] →
  replicate_chunk_to_server net reg (surviving_server v) (sint32 cid) target file
    (surviving_path v) = (net', (ok, np)) →
  I net' ∧
  (ok = true → P net' file (replica_record target file cid np (dead_checksum v) records)) ∧
  ∀ file0 c0, (file0, chunk_id c0) ∈ map job_key (jobs meta files) →
    (file0, chunk_id c0) ≠ (file, cid) → P net file0 c0 → P net' file0 c0.

Definition entries (u : updates) (file : bytes) : list ChunkRecord := default [] (u !! file).

(** Of the updates collected so far, while [todo] remains. *)
Record collected (net : N) (u : updates) (todo : list (bytes * Z)) : Prop := {
  col_inv : I net;
  col_added : ∀ file c, c ∈ entries u file →
    (file, chunk_id c) ∈ map job_key (jobs meta files) ∧ P net file c ∧ (file, chunk_id c) ∉ todo;
  col_once : ∀ file, NoDup (map chunk_id (entries u file))
}.

Lemma run_job_collected net u j todo :
  j ∈ jobs meta files → job_key j ∉ todo →
  collected net u (job_key j :: todo) →
  let '(net', u') := run_job (net, u) j in collected net' u' todo.
Proof.
  destruct j as [file [cid records]]. unfold run_job, failover_chunk, job_key. cbn [fst snd].
  intros Hj Hni [Hi Ha Ho].
  assert (collected net u todo) as Hsame.
  { constructor; [done| |done]. intros f c Hc. destruct (Ha f c Hc) as (? & ? & Hx).
    split; [done|]. split; [done|]. intros Hin. apply Hx. by right. }
  destruct (has_dead_replica _) eqn:Hd; [|done].
  destruct (surviving_server _) as [|s0 s1] eqn:Es; [done|].
  destruct (pick_target _ _) as [|t0 t1] eqn:Et; [done|].
  destruct (replicate_chunk_to_server _ _ _ _ _ _ _) as [net' [ok np]] eqn:Er.
  destruct (Hstep net file cid records net' ok np Hj Hi Hd) as (Hi' & Hnew & Hkeep);
    [by rewrite Es|by rewrite Et|by rewrite Es, Et|]. rewrite Et in Hnew.
  assert (collected net' u todo) as Hskip.
  { constructor; [done| |done]. intros f c Hc. destruct (Ha f c Hc) as (Hk & HP & Hx).
    split; [done|]. split.
    - apply (Hkeep f c Hk); [|done]. intros Hin. apply Hx. rewrite Hin. by left.
    - intros Hin. apply Hx. by right. }
  destruct ok; [|done]. destruct Hskip as [_ Ha' _].
  set (c := replica_record _ _ _ _ _ _) in *.
  assert (chunk_id c = cid) as Hc by done.
  assert (∀ f, entries (push_update u file c) f =
            if decide (f = file) then entries u file ++ [c] else entries u f) as Hent.
  { intros f. unfold entries, push_update. case_decide as Hf.
    - by rewrite Hf, lookup_insert_eq.
    - by rewrite lookup_insert_ne. }
  constructor; [done| |].
  - intros f c' Hc'. rewrite Hent in Hc'. case_decide as Hf; [|by apply Ha'].
    subst f. apply elem_of_app in Hc' as [Hc'|Hc']; [by apply Ha'|].
    apply list_elem_of_singleton in Hc' as ->. rewrite Hc. split; [|split; [by apply Hnew|done]].
    by apply (list_elem_of_fmap_2 job_key) in Hj.
  - intros f. rewrite Hent. case_decide as Hf; [|apply Ho]. subst f. rewrite map_app.
    apply NoDup_app. split; [apply Ho|]. split; [|apply NoDup_singleton].
    intros k Hk. simpl. intros Hk'. apply list_elem_of_singleton in Hk' as ->.
    apply list_elem_of_fmap in Hk as (c' & E & Hc').
    destruct (Ha file c' Hc') as (_ & _ & Hx). apply Hx. rewrite <- E. by left.
Qed.

Lemma run_jobs_collected todo net u :
  (∀ j, j ∈ todo → j ∈ jobs meta files) → NoDup (map job_key todo) →
  collected net u (map job_key todo) →
  let '(net', u') := fold_left run_job todo (net, u) in collected net' u' [].
Proof.
  revert net u. induction todo as [|j todo IH]; intros net u Hin Hnd Hc; [done|].
  cbn [map fold_left] in *. apply NoDup_cons in Hnd as [Hni Hnd].
  pose proof (run_job_collected net u j _ (Hin j ltac:(by left)) Hni Hc) as Hj.
  destruct (run_job (net, u) j) as [net1 u1]. apply IH; [|done|done].
  intros j' Hj'. apply Hin. by right.
Qed.
End invariant.
End spec.

(** ** The metadata afterwards *)
Lemma core_filter dead l :
  map core (filter (λ c, server c ≠ dead) l) = filter (λ k, k.1.1.2 ≠ dead) (map core l).
Proof.
  induction l as [|c l IH]; [done|]. cbn [map]. rewrite !filter_cons. cbn [core fst snd].
  case_decide; [cbn [map]; by rewrite IH|done].
Qed.

Lemma replaced_none dead r1 r2 :
  replaced dead [] r1 r2 → Forall (λ c, server c ≠ dead) (chunks r2).
Proof.
  intros [_ Hc _]. rewrite app_nil_r in Hc. apply Forall_forall. intros c Hin.
  destruct (core_elem _ _ c Hc Hin) as (c' & Hc' & <-).
  by apply list_elem_of_filter in Hc' as [? _].
Qed.

Lemma replaced_purged dead new rec r1 r2 :
  Forall (λ c, server c ≠ dead) new → replaced dead new rec r1 → replaced dead [] r1 r2 →
  replaced dead new rec r2.
Proof.
  intros Hnew [Hh1 Hc1 Hn1] [Hh2 Hc2 Hn2]. rewrite app_nil_r in Hc2.
  constructor; [congruence| |done]. rewrite Hc2, core_filter, Hc1, <- core_filter, filter_app.
  f_equal. rewrite (filter_all _ new) by done. f_equal. apply filter_all, Forall_forall.
  intros c Hc. by apply list_elem_of_filter in Hc as [? _].
Qed.

Section metadata.
Context {N : Type} `{!Network N} `{!Protobuf} `{!HashOrder bytes FileRecord}.
Variables (reg : Registry) (dead : bytes).

(** The records of a file after the failover. *)
Definition failed_over (meta' : MetaState) (file : bytes) (rec : FileRecord)
    (new : list ChunkRecord) : Prop :=
  ∃ rec', store meta' !! file = Some rec' ∧ replaced dead new rec rec' ∧
    Forall (λ c, server c ≠ dead) (chunks rec') ∧ NoDup (map chunk_id new).

Lemma list_all_files_spec (meta : MetaState) :
  NoDup (list_all_files meta) ∧ ∀ file, file ∈ list_all_files meta ↔ is_Some (store meta !! file).
Proof.
  unfold list_all_files, list_files_snapshot. split.
  - rewrite sorted_strings_perm. apply hash_order_NoDup.
  - intros file. rewrite sorted_strings_perm, list_elem_of_fmap. split.
    + intros ([f r] & -> & Hin%elem_of_hash_order). by eexists.
    + intros [r Hr]. exists (file, r). split; [done|]. by apply elem_of_hash_order.
Qed.

Lemma update_store_spec (meta : MetaState) (primary : bytes) (u : updates) (file : bytes) :
  (∀ file c, c ∈ entries u file → server c ≠ dead) → (∀ file, NoDup (map chunk_id (entries u file))) →
  let meta1 := if decide (u = ∅) then meta
               else (atomic_replace_server_chunks meta dead primary u).1 in
  match store meta !! file with
  | None => store (delete_server_metadata meta1 dead) !! file = None
  | Some rec => failed_over (delete_server_metadata meta1 dead) file rec (entries u file)
  end.
Proof.
  intros Hs Ho meta1.
  assert (store meta1 = fold_left (replace_in_file dead) (smap_list u) (store meta)) as E1.
  { unfold meta1. case_decide as Hu; [subst u; by rewrite ordered_empty|].
    unfold atomic_replace_server_chunks. cbn [fst]. by rewrite persist_locked_store. }
  unfold delete_server_metadata, failed_over. rewrite persist_locked_store. simpl.
  rewrite lookup_fmap, E1.
  assert (file ∉ (smap_list u).*1 ∨ ∃ new, u !! file = Some new ∧ (file, new) ∈ smap_list u)
    as [Hni|(new & Hu & Hin)].
  { destruct (u !! file) as [new|] eqn:Hu.
    - right. exists new. split; [done|]. by apply elem_of_ordered.
    - left. intros ([f new] & -> & Hin)%list_elem_of_fmap. apply elem_of_ordered in Hin.
      simpl in Hu. congruence. }
  - rewrite replace_all_other by done. destruct (store meta !! file) as [rec|]; [|done].
    simpl. assert (entries u file = []) as ->.
    { unfold entries. destruct (u !! file) as [new|] eqn:Hu; [|done]. destruct Hni.
      apply list_elem_of_fmap. exists (file, new). split; [done|]. by apply elem_of_ordered. }
    eexists. split; [done|]. pose proof (drop_server_replaced dead rec) as Hr. split; [done|].
    split; [by apply (replaced_none dead _ _ Hr)|by apply NoDup_nil].
  - destruct (store meta !! file) as [rec|] eqn:Hrec.
    + destruct (replace_all_at dead (smap_list u) (store meta) file new rec) as (r1 & -> & Hr1);
        [apply ordered_NoDup|done|done|]. simpl. eexists. split; [done|].
      pose proof (Hs file) as Hsf. pose proof (Ho file) as Hof.
      unfold entries in *. rewrite Hu in *. simpl in *.
      pose proof (drop_server_replaced dead r1) as Hr.
      split; [eapply replaced_purged; [by apply Forall_forall|done|done]|].
      split; [by apply (replaced_none dead _ _ Hr)|done].
    + by rewrite replace_all_absent.
Qed.
End metadata.

Section rereplication.
Context {N : Type} `{!Network N} `{!Protobuf} `{!HashOrder bytes FileRecord}.
Variables (reg : Registry) (dead : bytes) (hm : gmap Z ServerHealth) (meta : MetaState).

Lemma rereplicate_spec (I : N → Prop) (P : N → bytes → ChunkRecord → Prop) net net' meta' :
  (∀ net file cid records net' ok np,
    let v := survey dead records in
    let target := pick_target (healthy_servers reg hm dead) records in
    (file, (cid, records)) ∈ jobs meta (list_all_files meta) → I net →
    has_dead_replica v = true → surviving_server v ≠ [] → target ≠ [] →
    replicate_chunk_to_server net reg (surviving_server v) (sint32 cid) target file
      (surviving_path v) = (net', (ok, np)) →
    I net' ∧
    (ok = true → P net' file (replica_record target file cid np (dead_checksum v) records)) ∧
    ∀ file0 c0, (file0, chunk_id c0) ∈ map job_key (jobs meta (list_all_files meta)) →
      (file0, chunk_id c0) ≠ (file, cid) → P net file0 c0 → P net' file0 c0) →
  (∀ net file c, P net file c → server c ≠ dead) →
  I net → healthy_servers reg hm dead ≠ [] →
  rereplicate reg dead net hm meta = (net', meta') →
  I net' ∧ ∀ file,
    match store meta !! file with
    | None => store meta' !! file = None
    | Some rec => ∃ new, failed_over dead meta' file rec new ∧ Forall (P net' file) new
    end.
Proof.
  intros Hstep HP Hi Hh. unfold rereplicate.
  destruct (list_all_files_spec meta) as [Hnd Hfiles].
  destruct (list_all_files meta) as [|f0 fs] eqn:Ef.
  { intros [= <- <-]. split; [done|]. intros file.
    assert (store meta !! file = None) as E.
    { apply eq_None_not_Some. rewrite <- Hfiles. apply not_elem_of_nil. }
    unfold delete_server_metadata. rewrite E, persist_locked_store. simpl.
    by rewrite lookup_fmap, E. }
  rewrite <- Ef in *. clear f0 fs Ef.
  destruct (healthy_servers reg hm dead) as [|primary hs] eqn:Eh; [done|]. rewrite <- Eh in *.
  rewrite failover_files_flat.
  pose proof (run_jobs_collected reg dead meta (healthy_servers reg hm dead) I P
    (list_all_files meta) Hstep (jobs meta (list_all_files meta)) net ∅
    (λ j Hj, Hj) (jobs_NoDup _ _ Hnd)) as Hrun.
  destruct (fold_left _ _ (net, ∅)) as [net1 u]. intros [= <- <-].
  destruct Hrun as [Hi' Ha Ho].
  { constructor; [done|intros file c|intros file]; unfold entries; rewrite lookup_empty;
      [by intros ?%elem_of_nil|by apply NoDup_nil]. }
  split; [done|]. intros file.
  pose proof (update_store_spec dead meta primary u file) as Hu. cbv zeta in Hu.
  destruct (store meta !! file) as [rec|]; [exists (entries u file); split|]; try apply Hu; try done.
  1,3: intros f c Hc; apply (HP net1 f), Ha, Hc.
  apply Forall_forall. intros c Hc. by apply Ha.
Qed.

(** C6: a failover repairs the metadata exactly, whatever the network does.
    Without a healthy server it changes nothing.  Otherwise no file appears or
    disappears, no record is left on the dead server, the other records stay
    in order, and what is added is at most one replica per chunk, on a healthy
    server that had none, and only for a chunk that lost a replica and has a
    surviving one (a chunk that was only on the dead server is forgotten). *)
Theorem failover_exact (net net' : N) (meta' : MetaState) :
  rereplicate reg dead net hm meta = (net', meta') →
  match healthy_servers reg hm dead with
  | [] => store meta' = store meta
  | healthy => ∀ file,
      match store meta !! file with
      | None => store meta' !! file = None
      | Some rec => ∃ new, failed_over dead meta' file rec new ∧
                           Forall (fresh_replica dead healthy rec) new
      end
  end.
Proof.
  intros Hr. destruct (healthy_servers reg hm dead) as [|h0 hs] eqn:Eh.
  - unfold rereplicate in Hr. rewrite Eh in Hr. destruct (list_all_files_spec meta) as [_ Hf].
    destruct (list_all_files meta); [|by injection Hr as <- <-]. injection Hr as <- <-.
    unfold delete_server_metadata. rewrite persist_locked_store. simpl.
    apply map_eq. intros f. rewrite lookup_fmap.
    assert (store meta !! f = None) as ->; [|done].
    apply eq_None_not_Some. rewrite <- Hf. apply not_elem_of_nil.
  - rewrite <- Eh.
    destruct (rereplicate_spec (λ _, True)
      (λ _ file c, ∃ rec, store meta !! file = Some rec ∧
         fresh_replica dead (healthy_servers reg hm dead) rec c) net net' meta') as [_ Hfiles];
      [| |done|by rewrite Eh|done|].
    + intros n file cid records n' ok np v target Hj _ Hd Hs Ht _. split; [done|]. split; [|done].
      intros _. destruct (job_fresh dead meta (healthy_servers reg hm dead) _ _ _ _ Hj Hd Hs Ht)
        as (rec & Hrec & _ & Hf). eauto.
    + intros _ file c (rec & _ & Hf). apply fre_target in Hf.
      by apply list_elem_of_filter in Hf as [[? _] _].
    + intros file. specialize (Hfiles file). destruct (store meta !! file) as [rec|]; [|done].
      destruct Hfiles as (new & Hnew & Hall). exists new. split; [done|].
      eapply Forall_impl; [exact Hall|]. by intros c (? & [= <-] & ?).
Qed.
End rereplication.

(** ** Where the data is afterwards *)
Lemma chunk_key_file_inj file c file' c' :
  chunk_key file c = chunk_key file' c' → file = file' ∧ c = c'.
Proof.
  unfold chunk_key, unique_chunk_id. intros E.
  assert (∀ f z, f ++ lit "_chunk_" ++ show_Z z = (f ++ lit "_chunk") ++ "_"%char :: show_Z z) as Hs
    by (intros; by rewrite <- app_assoc).
  rewrite !Hs in E. apply last_char_inj in E as [E1 E2]; [|by apply digit_run_no..].
  apply app_inv_tail in E1. split; [done|by apply show_Z_inj].
Qed.

Section data.
Context {N : Type} `{!Network N} `{!Protobuf} `{!ChunkCluster N} `{!HashOrder bytes FileRecord}.
Variables (reg : Registry) (dead : bytes).

(** The server of [c] and a surviving replica hold the same bytes. *)
Definition copied (net : N) (file : bytes) (rec : FileRecord) (c : ChunkRecord) : Prop :=
  ∃ r data, r ∈ chunks rec ∧ chunk_id r = chunk_id c ∧ server r ≠ dead ∧ data ≠ [] ∧
    held net (endpoint reg (server r)) !! chunk_key file (chunk_id c) = Some data ∧
    held net (endpoint reg (server c)) !! chunk_key file (chunk_id c) = Some data.

Lemma replicate_copies net source cid target file path net' ok np :
  cluster_wf net → key_ok file cid → text_ok path →
  replicate_chunk_to_server net reg source cid target file path = (net', (ok, np)) →
  cluster_wf net' ∧
  (ok = true → ∃ data, data ≠ [] ∧
     held net' (endpoint reg source) !! chunk_key file cid = Some data ∧
     held net' (endpoint reg target) !! chunk_key file cid = Some data) ∧
  ∀ e key data,
    (key = chunk_key file cid → held net (endpoint reg source) !! key = Some data) →
    held net e !! key = Some data → held net' e !! key = Some data.
Proof.
  intros Hwf [Hk Hf] Hp. unfold replicate_chunk_to_server, read_chunk_from_server, call.
  cbn [loc_server loc_chunk_id loc_path]. destruct (endpoint reg source) as [h p].
  destruct (exchange net h p _) as [net1 ans] eqn:Ex.
  destruct (fetch_law _ _ _ _ _ _ _ Hwf (conj Hk Hp) Ex) as (Hwf1 & Hsub & Hbody).
  assert (∀ e key data, held net e !! key = Some data → held net1 e !! key = Some data) as Hkeep.
  { intros e key data Hd. eapply lookup_weaken; [exact Hd|apply Hsub]. }
  set (data := match body_of ans ≫= parse with Some r => _ | None => [] end).
  assert (data ≠ [] → held net1 (h, p) !! chunk_key file cid = Some data) as Hdata.
  { unfold data. destruct (body_of ans) as [b|]; [|done]. cbn [mbind option_bind].
    destruct (Hbody b eq_refl) as (r & -> & Hr). destruct (fr_success r); [|done].
    intros _. by apply Hr. }
  destruct data as [|x data]; [intros [= <- <- <-]; split; [done|]; split; [done|]; by eauto|].
  specialize (Hdata ltac:(done)). set (d := x :: data) in *.
  unfold repair_chunk_on_server, call. cbn [loc_server loc_chunk_id].
  destruct (endpoint reg target) as [h' p'] eqn:Et.
  destruct (exchange net1 h' p' _) as [net2 ans2] eqn:Ex2.
  assert (wire_ok (mkChunkData (chunk_key file cid) file d)) as Hw
    by (split; [done|]; split; [done|]; by eapply held_small).
  destruct (store_law _ _ _ _ _ _ _ _ Hwf1 Hw Ex2) as (Hwf2 & Hother & Hthis).
  intros Hres. assert (net2 = net' ∧ (ok = true → is_Some (body_of ans2 ≫= accepted))) as [<- Hok].
  { destruct (body_of ans2 ≫= accepted); by injection Hres as <- <- <-. }
  split; [done|]. split.
  - intros Ho. apply Hok in Ho as [? Ho].
    destruct Hthis as [Hh|[_ Hno]]; [|congruence].
    exists d. split; [done|]. rewrite Hh. split; [|apply lookup_insert_eq].
    destruct (decide ((h, p) = (h', p'))) as [E|Hne].
    + rewrite E, Hh. apply lookup_insert_eq.
    + by rewrite Hother.
  - intros e key dt Hsrc Hd. apply Hkeep in Hd. destruct (decide (e = (h', p'))) as [->|Hn].
    + destruct Hthis as [->|[-> _]]; [|done].
      destruct (decide (key = chunk_key file cid)) as [->|Hne]; [|by rewrite lookup_insert_ne].
      rewrite lookup_insert_eq, <- Hdata. by apply Hkeep, Hsrc.
    + by rewrite Hother.
Qed.

(** What uploads put in the metadata. *)
Definition transferable (meta : MetaState) : Prop :=
  ∀ file rec r, store meta !! file = Some rec → r ∈ chunks rec →
    int32_ok (chunk_id r) ∧ key_ok file (chunk_id r) ∧ text_ok (path r).

(** C5: every replica a failover records exists.  Whatever faults the network
    has, when the metadata is updated, each record added for a file names a
    server that holds the chunk, with the same bytes as a surviving replica. *)
Theorem failover_replicas_held (hm : gmap Z ServerHealth) (meta : MetaState) (net net' : N)
    (meta' : MetaState) :
  transferable meta → cluster_wf net → healthy_servers reg hm dead ≠ [] →
  rereplicate reg dead net hm meta = (net', meta') →
  ∀ file rec, store meta !! file = Some rec →
    ∃ new, failed_over dead meta' file rec new ∧ Forall (copied net' file rec) new.
Proof.
  intros Hmeta Hwf Hh Hr.
  destruct (rereplicate_spec reg dead hm meta cluster_wf
    (λ n file c, ∃ rec, store meta !! file = Some rec ∧ int32_ok (chunk_id c) ∧
       fresh_replica dead (healthy_servers reg hm dead) rec c ∧ copied n file rec c) net net' meta')
    as [_ Hfiles]; [| |done|done|done|].
  - intros n file cid records n' ok np v target Hj Hn Hd Hs Ht Hrep.
    destruct (job_fresh dead meta (healthy_servers reg hm dead) _ _ _ _ Hj Hd Hs Ht)
      as (rec & Hrec & Hrs & Hf).
    destruct (proj2 (survey_spec dead records) Hs) as (src & Hin & Hne & Hsrc & Hpath).
    fold v in Hsrc, Hpath. pose proof (proj1 (Hrs src) Hin) as [Hin' Hcid].
    destruct (Hmeta file rec src Hrec Hin') as (Hi & Hk & Hp). rewrite Hcid in Hi, Hk.
    rewrite Hpath in Hp. rewrite sint32_small in Hrep by done.
    destruct (replicate_copies n _ _ _ _ _ _ _ _ Hn Hk Hp Hrep)
      as (Hn' & Hnew & Hkeep).
    split; [done|]. split.
    + intros Ho. destruct (Hnew Ho) as (data & Hne' & Hd1 & Hd2). exists rec.
      split; [done|]. split; [done|]. split; [apply Hf|].
      exists src, data. rewrite <- Hsrc in Hd1. by repeat (split; [done|]).
    + intros f0 c0 _ Hkey (rec0 & Hrec0 & Hi0 & Hf0 & r0 & data & ? & ? & ? & ? & Hd1 & Hd2).
      assert (chunk_key f0 (chunk_id c0) ≠ chunk_key file cid) as Hnk.
      { intros E. apply chunk_key_file_inj in E as [-> E]. by rewrite E in Hkey. }
      exists rec0. split; [done|]. split; [done|]. split; [done|].
      exists r0, data. split_and!; try done; by apply Hkeep.
  - intros _ file c (rec & _ & _ & Hf & _). apply fre_target in Hf.
    by apply list_elem_of_filter in Hf as [[? _] _].
  - intros file rec Hrec. specialize (Hfiles file). rewrite Hrec in Hfiles.
    destruct Hfiles as (new & Hnew & Hall). exists new. split; [done|].
    eapply Forall_impl; [exact Hall|]. intros c (rec0 & E & _ & _ & Hc). congruence.
Qed.
End data.

(** ** One failover at a time *)

(** The threads started by the callback: the set of addresses being recovered,
    and the threads past the guard with their address. *)
Record Failovers := mkFailovers { recovering : gset bytes; running : list (nat * bytes) }.

Inductive failover_step : Failovers → Failovers → Prop :=
  | Start r r' ts tid addr :
      begin_failover r addr = Some r' →
      failover_step (mkFailovers r ts) (mkFailovers r' ((tid, addr) :: ts))
  | Skip r ts addr :
      begin_failover r addr = None →
      failover_step (mkFailovers r ts) (mkFailovers r ts)
  | End r ts1 ts2 tid addr :
      failover_step (mkFailovers r (ts1 ++ (tid, addr) :: ts2))
        (mkFailovers (end_failover r addr) (ts1 ++ ts2)).

Lemma failover_step_exclusive s s' :
  failover_step s s' →
  NoDup (running s).*2 ∧ (∀ addr, addr ∈ recovering s ↔ addr ∈ (running s).*2) →
  NoDup (running s').*2 ∧ (∀ addr, addr ∈ recovering s' ↔ addr ∈ (running s').*2).
Proof.
  intros Hst [Hnd Hr]. destruct Hst as [r r' ts tid a Hb|r ts a _|r ts1 ts2 tid a]; [|done|];
    cbn [recovering running] in *.
  - unfold begin_failover in Hb. case_decide as Ha; [done|]. injection Hb as <-.
    rewrite fmap_cons. cbn [snd]. split.
    + apply NoDup_cons. split; [by rewrite <- Hr|done].
    + intros x. rewrite elem_of_union, elem_of_singleton, elem_of_cons, Hr. done.
  - rewrite fmap_app, fmap_cons in *. cbn [snd] in *.
    rewrite <- Permutation_middle in Hnd. apply NoDup_cons in Hnd as [Ha Hnd].
    split; [done|]. intros x. unfold end_failover.
    rewrite elem_of_difference, elem_of_singleton, Hr, !elem_of_app, elem_of_cons.
    rewrite elem_of_app in Ha. split; [tauto|]. intros Hx. split; [tauto|]. intros ->. tauto.
Qed.

(** At most one failover per server.  However the callbacks of the health
    monitor interleave, no two threads past the guard work on the same address,
    and the guard set is exactly the addresses being worked on. *)
Theorem failover_exclusive (s : Failovers) :
  rtc failover_step (mkFailovers ∅ []) s →
  NoDup (running s).*2 ∧ ∀ addr, addr ∈ recovering s ↔ addr ∈ (running s).*2.
Proof.
  intros Hr. assert (∀ s0, rtc failover_step s0 s →
    NoDup (running s0).*2 ∧ (∀ addr, addr ∈ recovering s0 ↔ addr ∈ (running s0).*2) →
    NoDup (running s).*2 ∧ ∀ addr, addr ∈ recovering s ↔ addr ∈ (running s).*2) as Hinv.
  { clear Hr. intros s0 Hs. induction Hs as [|x y z Hxy _ IH]; [done|].
    intros Hx. apply IH. by eapply failover_step_exclusive. }
  apply (Hinv _ Hr). split; [by apply NoDup_nil|]. intros addr. cbn.
  by rewrite elem_of_nil, elem_of_empty.
Qed.

Lemma failover_exclusive_witness :
  let a := lit "10.0.0.1:8080" in let b := lit "10.0.0.2:8080" in
  let s := mkFailovers (end_failover ({[b]} ∪ ({[a]} ∪ ∅)) a) [(2%nat, b)] in
  NoDup (running s).*2 ∧ ∀ addr, addr ∈ recovering s ↔ addr ∈ (running s).*2.
Proof.
  intros a b s. apply (failover_exclusive s).
  eapply rtc_l; [apply (Start ∅ ({[a]} ∪ ∅) [] 1 a)|].
  { unfold begin_failover. by rewrite decide_False by by_decision. }
  eapply rtc_l; [apply (Start _ ({[b]} ∪ ({[a]} ∪ ∅)) _ 2 b)|].
  { unfold begin_failover. by rewrite decide_False by by_decision. }
  eapply rtc_l; [apply (End _ [(2%nat, b)] [] 1 a)|]. apply rtc_refl.
Defined.

(** ** Ids that do not match *)
Section mismatch.
Context {N : Type} `{!Network N} `{!OneShot N} `{!Protobuf} `{!HashOrder bytes FileRecord}.

Lemma failover_registry cfg port now_sec (pr : HeadProcess N) sid hl :
  let pr' := on_server_unhealthy cfg port now_sec pr sid hl in
  (registry (hp_head pr') = registry (hp_head pr) ∨
   registry (hp_head pr') = (remove_server (registry (hp_head pr)) sid).1.1) ∧
  (ip hl ∉ hp_recovering pr →
   (verify_consensus (hp_net pr) now_sec (hp_zk pr) cfg port sid).2 = true →
   registry (hp_head pr') = (remove_server (registry (hp_head pr)) sid).1.1).
Proof.
  unfold on_server_unhealthy, begin_failover. case_decide as Hip; [by split; [left|]|].
  destruct (verify_consensus _ _ _ _ _ _) as [net []]; [|by split; [left|]].
  destruct (send_dead_signal _ _ _) as [net' ok].
  destruct (remove_server _ _) as [[reg b] cs] eqn:E.
  destruct (rereplicate _ _ _ _ _) as [net2 meta]. cbn. by split; [right|].
Qed.

Lemma remove_server_lookup reg sid j :
  reg_servers (remove_server reg sid).1.1 !! j =
    if decide (j = sid) then None else reg_servers reg !! j.
Proof.
  unfold remove_server. destruct (reg_servers reg !! sid) eqn:E; cbn.
  - rewrite lookup_delete. repeat case_decide; by subst.
  - case_decide; by subst.
Qed.

(** The failover of a self-registered server removes another server's
    registry entry.  A cluster server started with id [sid] reports [sid] in its
    heartbeats but is filed under another id: after its failover its own entry
    is still registered, and whatever server was filed under [sid] is not. *)
Theorem failover_removes_wrong_entry (reachable : bytes → Z → bool) (now : Z) (s : Head)
    (hh h : bytes) (sid p tp pp : Z) (cfg : list (bytes * Z)) (port now_sec : Z)
    (pr : HeadProcess N) (hl : ServerHealth) :
  word hh → plain_host h → port_ok p → int_ok tp → int_ok pp →
  0 < sid < INT_MAX → count (registry s) < INT_MAX →
  find_endpoint (registry s) h p = None →
  hp_head pr = (handle_request reachable now s (self_register_request hh sid h p tp pp)).1 →
  ip hl = show_address h p →
  let pr' := on_server_unhealthy cfg port now_sec pr sid hl in
  (∃ e, e ∈ get_all (registry (hp_head pr')) ∧ address e = ip hl) ∧
  (ip hl ∉ hp_recovering pr →
   (verify_consensus (hp_net pr) now_sec (hp_zk pr) cfg port sid).2 = true →
   reg_servers (registry (hp_head pr')) !! sid = None).
Proof.
  intros Hhh Hh Hp Htp Hpp Hsid Hcount Hnone Hhead Hip pr'.
  pose proof (self_register_files reachable now s hh h sid p tp pp Hhh Hh Hp Htp Hpp Hsid Hcount
    Hnone) as Hreg. cbv zeta in Hreg. set (id := Z.max _ _) in Hreg.
  destruct (handle_request _ _ _ _) as [s' o]. cbn [fst] in Hhead.
  destruct Hreg as (Hne & (e & He & _ & Hhost & Hport & _) & _).
  destruct (failover_registry cfg port now_sec pr sid hl) as [Hor Hdone]. fold pr' in Hor, Hdone.
  split.
  - exists e. split; [|by rewrite Hip; unfold address, show_address; rewrite Hhost, Hport].
    unfold get_all. apply list_elem_of_fmap. exists (id, e). split; [done|].
    apply elem_of_ordered. rewrite <- Hhead in He.
    destruct Hor as [->| ->]; [done|]. by rewrite remove_server_lookup, decide_False.
  - intros Hr Hc. by rewrite Hdone, remove_server_lookup, decide_True.
Qed.
End mismatch.

(** ** Witnesses: a chunk on a dead server and on a live one *)
Section demo.
Existing Instance net_protobuf.
Existing Instance cluster_network.
Existing Instance cluster_keeps_chunks.

Definition dead_addr : bytes := lit "10.0.0.9:8080".
Definition failover_cluster : Cluster :=
  mkCluster (<[(lit "10.0.0.2", 8180) := demo_server]> (servers held_cluster)) [] 1000.
Definition failover_reg : Registry :=
  (add_server 0 demo_reg (lit "10.0.0.2") 8080 8180 8280).1.1.
Definition lost_chunk (srv : bytes) : ChunkRecord :=
  mkChunk 0 srv (lit "/d/x") (sha256 (lit "abcd")) 2.
Definition failover_meta : MetaState :=
  mkMeta {[lit "f.txt" := mkFile (sha256 (lit "abcd")) 2
    [lost_chunk dead_addr; lost_chunk (lit "10.0.0.1:8080")]]} [] true.
Definition failover_run : Cluster * MetaState :=
  rereplicate failover_reg dead_addr failover_cluster ∅ failover_meta.

Lemma failover_meta_ok : transferable failover_meta.
Proof.
  intros file rec r Hf Hr. unfold failover_meta in Hf. cbn [store] in Hf.
  apply lookup_singleton_Some in Hf as [<- <-]. cbn [chunks] in Hr.
  assert (chunk_id r = 0 ∧ path r = lit "/d/x") as [-> ->].
  { repeat (apply elem_of_cons in Hr as [->|Hr]; [done|]). by apply elem_of_nil in Hr. }
  split; [by_decision|]. split; [|by apply text_ok_lit]. apply key_ok_short; by_decision.
Qed.

Lemma failover_cluster_wf : wf_cluster failover_cluster.
Proof.
  intros ep nd Hnd. unfold failover_cluster in Hnd. cbn [servers clock] in *.
  apply lookup_insert_Some in Hnd as [[_ <-]|[_ Hnd]]; [|by apply (held_cluster_wf ep)].
  apply (demo_node_wf "10.0.0.2" [] (lit "10.0.0.2", 8180)). by apply lookup_singleton_eq.
Qed.

Lemma failover_exact_witness :
  map server (chunks (query_metadata failover_run.2 (lit "f.txt"))) =
    [lit "10.0.0.1:8080"; lit "10.0.0.2:8080"] ∧
  ∃ new, failed_over dead_addr failover_run.2 (lit "f.txt")
           (query_metadata failover_meta (lit "f.txt")) new ∧
    Forall (fresh_replica dead_addr [lit "10.0.0.1:8080"; lit "10.0.0.2:8080"]
              (query_metadata failover_meta (lit "f.txt"))) new.
Proof.
  split; [by vm_compute|].
  exact (failover_exact failover_reg dead_addr ∅ failover_meta failover_cluster failover_run.1
    failover_run.2 (surjective_pairing _) (lit "f.txt")).
Defined.

Lemma failover_replicas_held_witness :
  ∃ new, failed_over dead_addr failover_run.2 (lit "f.txt")
           (query_metadata failover_meta (lit "f.txt")) new ∧
    Forall (copied failover_reg dead_addr failover_run.1 (lit "f.txt")
              (query_metadata failover_meta (lit "f.txt"))) new.
Proof.
  apply (failover_replicas_held failover_reg dead_addr ∅ failover_meta failover_cluster).
  - apply failover_meta_ok.
  - apply failover_cluster_wf.
  - by_decision.
  - apply surjective_pairing.
  - reflexivity.
Defined.

(** A server started with id 1 registers after another one; both are listed,
    the other one under id 1. *)
Definition silent_peers : OneShot Cluster := λ n _ _ _ _, (n, Silent).
Definition mismatch_head : Head := mkHead demo_reg (mkMonitor ∅ 60 3 true true).
Definition mismatch_process : HeadProcess Cluster :=
  mkProcess (handle_request up 5 mismatch_head
      (self_register_request local 1 (lit "10.0.0.9") 8080 8180 8280)).1
    failover_meta initial_store failover_cluster ∅.
Definition silent_health : ServerHealth :=
  mkHealth 1 dead_addr fzero fzero fzero [] [] 0 0 false 5 10.

Lemma failover_removes_wrong_entry_witness :
  map address (get_all (registry (hp_head mismatch_process))) = [lit "10.0.0.1:8080"; dead_addr] ∧
  let pr' := on_server_unhealthy (OneShot0 := silent_peers) [] 9670 100 mismatch_process 1
               silent_health in
  (∃ e, e ∈ get_all (registry (hp_head pr')) ∧ address e = dead_addr) ∧
  (dead_addr ∉ hp_recovering mismatch_process →
   (verify_consensus (OneShot0 := silent_peers) failover_cluster 100 initial_store [] 9670 1).2 = true →
   reg_servers (registry (hp_head pr')) !! 1 = None).
Proof.
  split; [by vm_compute|].
  apply (failover_removes_wrong_entry (OneShot0 := silent_peers) up 5 mismatch_head local
           (lit "10.0.0.9") 1 8080 8180 8280 [] 9670 100 mismatch_process silent_health);
    try by_decision; reflexivity.
Defined.
End demo.
