(* ===== verification/Survival.v ===== *)
(** * Survival: an uploaded file outlives the servers that stored it
    (src/src/head_server/head_server.cpp 795-1045 between
    src/src/head_server/file_upload.cpp and src/src/client/client.cpp)

    The life of a head server between an upload and a download, as far as one
    file is concerned: work that leaves the file alone, and servers that die
    with what they held and are failed over. *)
From Stdlib Require Import Lia.
From stdpp Require Import relations.
From S2P Require Import Prelude.
From S2P Require Import Text.
From S2P Require Import Ordered.
From S2P Require Import Sha256.
From S2P Require Import Net.
From S2P Require Import Metadata.
From S2P Require Import Registry.
From S2P Require Import Health.
From S2P Require Import ControlApi.
From S2P Require Import ControlClient.
From S2P Require Import Zk.
From S2P Require Import Wire.
From S2P Require Import WireCodec.
From S2P Require Import ChunkStore.
From S2P Require Import ChunkSpec.
From S2P Require Import HeadNet.
From S2P Require Import Cluster.
From S2P Require Import Upload.
From S2P Require Import UploadSpec.
From S2P Require Import Download.
From S2P Require Import DownloadSpec.
From S2P Require Import Failover.
From S2P Require Import Client.
From S2P Require Import ClientSpec.
From S2P Require Import RoundTrip.
From S2P Require Import FailoverSpec.
Local Open Scope Z_scope.

(** ** One failover *)
Section repair.
Context `{!HashOrder bytes FileRecord} `{!Protobuf} {N : Type} `{!Network N} `{!ChunkCluster N}.
Variables (CHUNK_SIZE : Z) (file content : bytes).
Hypothesis Hchunk : 0 < CHUNK_SIZE.

(** The server of [c] holds its part of the content. *)
Definition holds_part (reg : Registry) (net : N) (c : ChunkRecord) : Prop :=
  ∃ data, (chunk_id c, data) ∈ numbered CHUNK_SIZE content ∧
    held net (endpoint reg (server c)) !! chunk_key file (chunk_id c) = Some data.

(** Every chunk of the record has a replica away from [dead]. *)
Definition spread (dead : bytes) (rec : FileRecord) : Prop :=
  ∀ c, c ∈ chunks rec → ∃ c', c' ∈ chunks rec ∧ chunk_id c' = chunk_id c ∧ server c' ≠ dead.

Lemma part_unique i d d' :
  (i, d) ∈ numbered CHUNK_SIZE content → (i, d') ∈ numbered CHUNK_SIZE content → d = d'.
Proof.
  intros H1 H2. apply (target_lookup CHUNK_SIZE content i _ Hchunk) in H1, H2. congruence.
Qed.

Lemma core_parts c c' : core c = core c' → chunk_id c = chunk_id c' ∧ server c = server c'.
Proof. unfold core. by intros [= ? ? _ _]. Qed.

Lemma part_core reg net c c' : core c = core c' → holds_part reg net c → holds_part reg net c'.
Proof. intros [Hi Hs]%core_parts. unfold holds_part. by rewrite Hi, Hs. Qed.

Lemma numbered_int_ok :
  num_chunks CHUNK_SIZE (Z.of_nat (length content)) ≤ INT_MAX →
  ∀ c reg net, holds_part reg net c → int32_ok (chunk_id c).
Proof. intros Hn c reg net (d & Hd & _). by eapply numbered_range. Qed.

Section failover.
Variables (reg : Registry) (dead : bytes) (hm : gmap Z ServerHealth) (meta : MetaState)
  (rec : FileRecord).
Hypotheses (Hmeta : transferable meta) (Hrec : store meta !! file = Some rec).

(** What re-replication keeps true: the replicas that were not on the dead
    server hold their parts. *)
Definition parts_held (net : N) : Prop :=
  cluster_wf net ∧ ∀ c, c ∈ chunks rec → server c ≠ dead → holds_part reg net c.
Definition part_stored (net : N) (f : bytes) (c : ChunkRecord) : Prop :=
  server c ≠ dead ∧ (f = file → holds_part reg net c).

(** What is held under the key of a part is that part, so copying it between
    servers changes nothing. *)
Lemma parts_kept net net' source cid f path target ok np :
  parts_held net → key_ok f cid → text_ok path →
  (f = file → ∃ r, r ∈ chunks rec ∧ chunk_id r = cid ∧ server r = source ∧ server r ≠ dead) →
  replicate_chunk_to_server net reg source cid target f path = (net', (ok, np)) →
  parts_held net' ∧
  (∀ c, holds_part reg net c → holds_part reg net' c) ∧
  (ok = true → f = file → ∃ data, (cid, data) ∈ numbered CHUNK_SIZE content ∧
     held net' (endpoint reg target) !! chunk_key file cid = Some data).
Proof.
  intros [Hwf Hparts] Hk Hp Hsrc Hrep.
  destruct (replicate_copies reg net _ _ _ _ _ _ _ _ Hwf Hk Hp Hrep) as (Hwf' & Hok & Hkeep).
  assert (∀ c, holds_part reg net c → holds_part reg net' c) as Hstay.
  { intros c (d & Hd & Hh). exists d. split; [done|]. apply Hkeep; [|done].
    intros E. apply chunk_key_file_inj in E as [Ef Ec].
    destruct (Hsrc (eq_sym Ef)) as (r & Hr & Hid & <- & Hne).
    destruct (Hparts r Hr Hne) as (d' & Hd' & Hh'). rewrite Hid, <- Ec in Hd', Hh'.
    by rewrite Hh', (part_unique _ _ _ Hd Hd'). }
  split; [split; [done|auto]|]. split; [done|].
  intros Ho ->. destruct (Hok Ho) as (d & _ & Hs & Ht).
  destruct (Hsrc eq_refl) as (r & Hr & Hid & <- & Hne).
  destruct (Hstay r (Hparts r Hr Hne)) as (d' & Hd' & Hh'). rewrite Hid in Hd', Hh'.
  exists d'. split; [done|]. congruence.
Qed.

Lemma failover_recorded net net' meta' :
  file_hash rec = sha256 content → chunks rec ≠ [] → spread dead rec →
  parts_held net → healthy_servers reg hm dead ≠ [] →
  rereplicate reg dead net hm meta = (net', meta') →
  ∃ rec', store meta' !! file = Some rec' ∧ recorded CHUNK_SIZE reg net' file content rec' ∧
    ∀ i, i ∈ map chunk_id (chunks rec') ↔ i ∈ map chunk_id (chunks rec).
Proof.
  intros Hhash Hne Hspread Hheld Hh Hr.
  destruct (rereplicate_spec reg dead hm meta parts_held
    (λ n f c, part_stored n f c ∧ (f = file → chunk_id c ∈ map chunk_id (chunks rec)))
    net net' meta') as [Hheld' Hfiles]; [| |done|done|done|].
  - intros n f cid records n' ok np v target Hj Hn Hd Hs Ht Hrep.
    destruct (job_fresh dead meta (healthy_servers reg hm dead) _ _ _ _ Hj Hd Hs Ht)
      as (rec0 & Hrec0 & Hrs & Hf).
    destruct (proj2 (survey_spec dead records) Hs) as (src & Hin & Hnd & Hsrc & Hpath).
    fold v in Hsrc, Hpath. pose proof (proj1 (Hrs src) Hin) as [Hin' Hcid].
    destruct (Hmeta f rec0 src Hrec0 Hin') as (Hi & Hk & Hp). rewrite Hcid in Hi, Hk.
    rewrite Hpath in Hp. rewrite sint32_small in Hrep by done.
    destruct (parts_kept n n' (surviving_server v) cid f _ target ok np Hn Hk Hp) as (Hn' & Hstay & Hnew); [|done|].
    { intros ->. rewrite Hrec in Hrec0. injection Hrec0 as <-. by exists src. }
    split; [done|]. split.
    + intros Ho. split; [split|].
      * pose proof (fre_target _ _ _ _ (Hf np)) as Hg. apply list_elem_of_filter in Hg. tauto.
      * intros E. exact (Hnew Ho E).
      * intros ->. rewrite Hrec in Hrec0. injection Hrec0 as <-. cbn [replica_record chunk_id].
        rewrite <- Hcid. by apply (list_elem_of_fmap_2 chunk_id).
    + intros f0 c0 _ _ [[? Hc] ?]. split; [|done]. split; [done|]. intros E. by apply Hstay, Hc.
  - by intros _ f c [[? _] _].
  - specialize (Hfiles file). rewrite Hrec in Hfiles.
    destruct Hfiles as (new & (rec' & Hrec' & [Hh' Hc _] & Hdead & _) & Hnew).
    rewrite Forall_forall in Hnew.
    assert (∀ c, c ∈ chunks rec' → ∃ c', core c = core c' ∧ holds_part reg net' c' ∧
              chunk_id c' ∈ map chunk_id (chunks rec)) as Hparts.
    { intros c Hin. apply (list_elem_of_fmap_2 core) in Hin. change (core c ∈ map core (chunks rec')) in Hin.
      rewrite Hc in Hin. apply list_elem_of_fmap in Hin as (c' & E & Hin'). exists c'.
      split; [done|]. apply elem_of_app in Hin' as [Hin'|Hin'].
      - apply list_elem_of_filter in Hin' as [Hnd Hin']. split; [by apply Hheld'|].
        by apply (list_elem_of_fmap_2 chunk_id).
      - destruct (Hnew c' Hin') as [[_ Hp] Hid]. split; [by apply Hp|by apply Hid]. }
    assert (∀ c, c ∈ chunks rec → ∃ c', c' ∈ chunks rec' ∧ chunk_id c' = chunk_id c) as Hback.
    { intros c Hin. destruct (Hspread c Hin) as (c1 & Hin1 & <- & Hnd).
      assert (core c1 ∈ map core (chunks rec')) as Hin2.
      { rewrite Hc. apply (list_elem_of_fmap_2 core), elem_of_app. left.
        by apply list_elem_of_filter. }
      apply list_elem_of_fmap in Hin2 as (c2 & E & Hin2). exists c2. split; [done|].
      by apply core_parts in E as [-> _]. }
    exists rec'. split; [done|]. split.
    + constructor; [congruence| |].
      * intros E. destruct (chunks rec) as [|c cs] eqn:Ec; [done|].
        destruct (Hback c) as (c' & Hin & _); [by left|]. rewrite E in Hin. by apply elem_of_nil in Hin.
      * intros c Hin. destruct (Hparts c Hin) as (c' & E & Hp & _).
        by apply (part_core reg net' c' c (eq_sym E)).
    + intros i. split; intros (c & -> & Hin)%list_elem_of_fmap.
      * destruct (Hparts c Hin) as (c' & [-> _]%core_parts & _ & Hid). exact Hid.
      * destruct (Hback c Hin) as (c' & Hin' & <-). by apply (list_elem_of_fmap_2 chunk_id).
Qed.
End failover.

Lemma rereplicate_wf reg dead hm meta (net net' : N) meta' :
  transferable meta → healthy_servers reg hm dead ≠ [] → cluster_wf net →
  rereplicate reg dead net hm meta = (net', meta') → cluster_wf net'.
Proof.
  intros Hmeta Hh Hwf Hr.
  destruct (rereplicate_spec reg dead hm meta cluster_wf (λ _ _ c, server c ≠ dead) net net' meta')
    as [Hwf' _]; [|done|done|done|done|done].
  intros n f cid records n' ok np v target Hj Hn Hd Hs Ht Hrep.
  destruct (job_fresh dead meta (healthy_servers reg hm dead) _ _ _ _ Hj Hd Hs Ht)
    as (rec & Hrec & Hrs & Hf).
  destruct (proj2 (survey_spec dead records) Hs) as (src & Hin & _ & _ & Hpath). fold v in Hpath.
  pose proof (proj1 (Hrs src) Hin) as [Hin' Hcid].
  destruct (Hmeta f rec src Hrec Hin') as (Hi & Hk & Hp). rewrite Hcid in Hi, Hk.
  rewrite Hpath in Hp. rewrite sint32_small in Hrep by done.
  destruct (replicate_copies reg n _ _ _ _ _ _ _ _ Hn Hk Hp Hrep) as (Hn' & _ & _).
  split; [done|]. split; [|done]. intros _. pose proof (fre_target _ _ _ _ (Hf np)) as Hg.
  apply list_elem_of_filter in Hg. tauto.
Qed.
End repair.

(** ** The life of a head server *)
Section life.
Context `{!StdSort} `{!HashOrder bytes FileRecord} `{!Protobuf}.
Context {N : Type} `{!Network N} `{!OneShot N} `{!ChunkCluster N}.
Variables (CHUNK_SIZE : Z) (file content : bytes) (cfg_heads : list (bytes * Z)) (our_control_port : Z).

(** From [p] to [q] the record of the file stays, and its replicas that are not
    on a lost server are reached where they were and still hold what they held. *)
Definition keeps (lost : bytes → Prop) (p q : HeadProcess N) : Prop :=
  store (hp_meta q) !! file = store (hp_meta p) !! file ∧
  ∀ rec c, store (hp_meta p) !! file = Some rec → c ∈ chunks rec → ¬ lost (server c) →
    endpoint (registry (hp_head q)) (server c) = endpoint (registry (hp_head p)) (server c) ∧
    held (hp_net p) (endpoint (registry (hp_head p)) (server c)) ⊆
    held (hp_net q) (endpoint (registry (hp_head p)) (server c)).

(** [on_server_unhealthy] up to the call of [rereplicate]: the vote, the
    signal and the removal. *)
Definition before_repair (now_sec : Z) (p : HeadProcess N) (sid : Z) (h : ServerHealth)
  : HeadProcess N :=
  let reg := registry (hp_head p) in
  let net := (verify_consensus (hp_net p) now_sec (hp_zk p) cfg_heads our_control_port sid).1 in
  mkProcess (mkHead (remove_server reg sid).1.1 (monitor (hp_head p))) (hp_meta p) (hp_zk p)
    (send_dead_signal net reg (ip h)).1 (hp_recovering p).

Lemma on_server_unhealthy_repairs now_sec p sid h :
  ip h ∉ hp_recovering p →
  (verify_consensus (hp_net p) now_sec (hp_zk p) cfg_heads our_control_port sid).2 = true →
  let q := before_repair now_sec p sid h in
  let p' := on_server_unhealthy cfg_heads our_control_port now_sec p sid h in
  registry (hp_head p') = registry (hp_head q) ∧
  rereplicate (registry (hp_head q)) (ip h) (hp_net q) (get_all_health (monitor (hp_head q)))
    (hp_meta q) = (hp_net p', hp_meta p').
Proof.
  intros Hip Hc. unfold on_server_unhealthy, before_repair, begin_failover.
  rewrite decide_False by done.
  destruct (verify_consensus _ _ _ _ _ _) as [net c]. cbn [fst snd] in *. subst c.
  destruct (send_dead_signal _ _ _) as [net1 ?]. destruct (remove_server _ _) as [[reg ?] ?].
  cbn [fst snd hp_head registry monitor hp_net hp_meta].
  by destruct (rereplicate _ _ _ _ _) as [net2 meta2].
Qed.

Inductive life_step : HeadProcess N → HeadProcess N → Prop :=
  | Elsewhere p q : keeps (λ _, False) p q → life_step p q
  (** The server at [ip h] dies with all it held, and is failed over. *)
  | ServerLost p p1 sid h now_sec :
      ip h ∉ hp_recovering p1 →
      (verify_consensus (hp_net p1) now_sec (hp_zk p1) cfg_heads our_control_port sid).2 = true →
      let q := before_repair now_sec p1 sid h in
      keeps (λ a, a = ip h) p q →
      (∀ rec, store (hp_meta q) !! file = Some rec → spread (ip h) rec) →
      transferable (hp_meta q) → cluster_wf (hp_net q) →
      healthy_servers (registry (hp_head q)) (get_all_health (monitor (hp_head q))) (ip h) ≠ [] →
      life_step p (on_server_unhealthy cfg_heads our_control_port now_sec p1 sid h).

(** The records of the file are right, and all chunks have one. *)
Definition intact (p : HeadProcess N) : Prop :=
  ∃ rec, store (hp_meta p) !! file = Some rec ∧
    recorded CHUNK_SIZE (registry (hp_head p)) (hp_net p) file content rec ∧
    ∀ i, i ∈ (numbered CHUNK_SIZE content).*1 → i ∈ map chunk_id (chunks rec).

Lemma keeps_parts lost p q rec c :
  keeps lost p q → store (hp_meta p) !! file = Some rec →
  recorded CHUNK_SIZE (registry (hp_head p)) (hp_net p) file content rec →
  c ∈ chunks rec → ¬ lost (server c) →
  holds_part CHUNK_SIZE file content (registry (hp_head q)) (hp_net q) c.
Proof.
  intros [_ Hk] Hrec [_ _ Hheld] Hin Hl. destruct (Hk rec c Hrec Hin Hl) as [He Hsub].
  destruct (Hheld c Hin) as (d & Hd & Hh). exists d. split; [done|]. rewrite He.
  eapply lookup_weaken; [exact Hh|done].
Qed.

Lemma life_step_intact p p' : 0 < CHUNK_SIZE → life_step p p' → intact p → intact p'.
Proof.
  intros Hcs [p0 q Hk|p0 p1 sid h now_sec Hip Hvote q Hk Hspread Hmeta Hwf Hh] (rec & Hrec & Hok & Hall).
  - exists rec. split; [by rewrite (proj1 Hk)|]. split; [|done].
    pose proof Hok as [Hhash Hne _]. constructor; [done|done|]. intros c Hin.
    eapply (keeps_parts _ _ _ _ _ Hk); by eauto.
  - destruct (on_server_unhealthy_repairs now_sec p1 sid h Hip Hvote) as [Hreg Hrun].
    fold q in Hreg, Hrun. pose proof Hok as [Hhash Hne _].
    assert (store (hp_meta q) !! file = Some rec) as Hrec' by by rewrite (proj1 Hk).
    destruct (failover_recorded CHUNK_SIZE file content Hcs _ _ _ _ rec Hmeta Hrec' _ _ _
      Hhash Hne (Hspread rec Hrec') (conj Hwf (λ c Hin Hnd, keeps_parts _ _ _ _ c Hk Hrec Hok Hin Hnd))
      Hh Hrun) as (rec' & Hrec2 & Hok2 & Hids).
    exists rec'. rewrite Hreg. split; [done|]. split; [done|]. intros i Hi. by apply Hids, Hall.
Qed.

Lemma life_intact p p' : 0 < CHUNK_SIZE → rtc life_step p p' → intact p → intact p'.
Proof. intros Hcs Hr. induction Hr as [|? ? ? Hs _ IH]; [done|]. intros Hi. by eapply IH, life_step_intact. Qed.
End life.

(** ** From an upload to a download, across failures *)
Section survival.
Context `{!StdSort} `{!HashOrder bytes FileRecord} `{!Protobuf}.
Context {N : Type} `{!Network N} `{!OneShot N} `{!ChunkCluster N}.
Context {P : Type} `{!Network P} `{!PublicPorts P}.
Variables (CHUNK_SIZE max_alloc : Z) (cfg : UploadConfig)
  (view_at : nat → Registry * gmap Z ServerHealth)
  (cfg_heads : list (bytes * Z)) (our_control_port : Z).

(** C2: an uploaded file survives the failure of servers.  A client's upload
    was answered SUCCESS and every chunk got a record.  Since then any number
    of servers died one after the other, each with all it held, and was failed
    over by the head server, while every chunk had a replica on a server
    that still lived; whatever faults the network had meanwhile, a client that
    then gets a complete plan saves nothing but the uploaded bytes, and saves
    them if the servers answer. *)
Theorem upload_survives_failures (meta : MetaState) (net net2 net3 : N) (pnet : P)
    (p0 p : HeadProcess N) (schedule schedule2 : list nat) (file content sent : bytes)
    (order : list FetchInfo → list FetchInfo) (can_open : bool) :
  let reg0 := registry (hp_head p0) in
  let reg := registry (hp_head p) in
  let u := handle_client_upload cfg max_alloc view_at meta net (λ _, reg0) schedule true
             (upload_line CHUNK_SIZE file content) (upload_stream CHUNK_SIZE content) in
  let locs := (get_chunk_locations (hp_meta p) file).1 in
  let result := (file_download max_alloc pnet file sent order can_open).2 in
  (* the upload *)
  sendable CHUNK_SIZE max_alloc file content → up_sent u = ready_msg ++ success_msg →
  cluster_wf net → upload_env cfg max_alloc view_at file →
  Z.of_nat (length (rx_pending (up_received u))) ≤ INT_MAX →
  paths_ok (run_transfers net (λ _, reg0) file (rx_pending (up_received u)) schedule).2 →
  (∀ i, i ∈ (numbered CHUNK_SIZE content).*1 →
     i ∈ map loc_chunk_id (get_chunk_locations (up_meta u) file).1) →
  (* the failures *)
  hp_meta p0 = up_meta u → hp_net p0 = up_net u →
  rtc (life_step file cfg_heads our_control_port) p0 p →
  (* the download *)
  cluster_wf net2 → (∀ e, held (hp_net p) e ⊆ held net2 e) →
  Forall (loc_ok file) locs → Forall (loc_shown reg) locs →
  (∀ cid, int32_ok cid → (length (get_req cid file) < 255)%nat) →
  stream_file_to_client (hp_meta p) net2 (λ _, reg) reg schedule2 file = (net3, sent, true) →
  same_servers reg locs net3 pnet → (∀ l, order l ≡ₚ l) →
  (∀ out, result = Saved out → out = content) ∧
  (public_up pnet → can_open = true → result = Saved content).
Proof.
  cbv zeta. intros Hse Hsent Hwf He Hpend Hpaths Hcover Hmeta Hnet Hlife Hwf2 Hkept Hlocs Hshown
    Hget Hstream Hsame Hord.
  pose proof Hse as [[Hc Ha] Hf Hnul Hline [Hl0 Hl] Hn].
  destruct (upload_recorded CHUNK_SIZE max_alloc cfg view_at _ meta net schedule file content
    Hse Hsent Hwf He Hpend Hpaths) as (rec & Hrec & Hok).
  set (u := handle_client_upload _ _ _ _ _ _ _ _ _ _) in *.
  destruct (recorded_locations CHUNK_SIZE (registry (hp_head p0)) (up_meta u) (up_net u) file content rec Hc Hn (proj1 Hf) Hrec Hok)
    as (_ & _ & Hids & _). rewrite Hids in Hcover.
  destruct (life_intact CHUNK_SIZE file content cfg_heads our_control_port p0 p Hc Hlife)
    as (rec' & Hrec' & [Hh Hne Hheld] & Hall).
  { exists rec. by rewrite Hmeta, Hnet. }
  assert (recorded CHUNK_SIZE (registry (hp_head p)) net2 file content rec') as Hok2.
  { constructor; [done|done|]. intros c Hin. destruct (Hheld c Hin) as (d & ? & Hd).
    exists d. split; [done|]. eapply lookup_weaken; [exact Hd|apply Hkept]. }
  assert (max_alloc ≤ ULLONG_MAX) as Hmax.
  { pose proof (ue_alloc _ _ _ _ He). unfold ULLONG_MAX. lia. }
  by apply (download_recorded CHUNK_SIZE max_alloc (registry (hp_head p)) (hp_meta p) net2 net3 pnet schedule2 file
    content rec').
Qed.
End survival.

(** ** Two servers lost one after the other *)
Section demo.
Existing Instance net_protobuf.
Existing Instance cluster_network.
Existing Instance cluster_keeps_chunks.
Existing Instance silent_peers.

Definition sv_hosts : list bytes := [lit "10.0.0.1"; lit "10.0.0.2"; lit "10.0.0.3"].
Definition sv_reg : Registry :=
  fold_left (λ r h, (add_server 0 r h 8080 8180 8280).1.1) sv_hosts empty_registry.
Definition sv_cluster : Cluster :=
  mkCluster (list_to_map (map (λ h, ((h, 8180), demo_server)) sv_hosts)) [] 1000.
Definition sv_cfg : UploadConfig := mkUploadConfig 4 2 [].
Definition sv_view (_ : nat) : Registry * gmap Z ServerHealth := (sv_reg, ∅).
Definition sv_file : bytes := lit "f.txt".

#[local] Abbreviation sv_upload :=
  (handle_client_upload sv_cfg (2 ^ 30) sv_view demo_meta sv_cluster (λ _, sv_reg)
    [3%nat; 2%nat; 1%nat; 0%nat] true (upload_line 4 sv_file (lit "abcdef"))
    (upload_stream 4 (lit "abcdef"))).

Definition sv_health (sid : Z) (addr : bytes) : ServerHealth :=
  mkHealth sid addr fzero fzero fzero [] [] 0 0 false 5 10.
(** The server behind a transfer port is gone. *)
Definition crashed (ep : bytes * Z) (c : Cluster) : Cluster :=
  mkCluster (delete ep (servers c)) (faults c) (clock c).
Definition lose (sid : Z) (h : bytes) (p : HeadProcess Cluster) : HeadProcess Cluster :=
  on_server_unhealthy [] 9670 100
    (mkProcess (hp_head p) (hp_meta p) (hp_zk p) (crashed (h, 8180) (hp_net p)) ∅)
    sid (sv_health sid (h ++ lit ":8080")).

(** The upload went to the first two servers; they die one after the other. *)
Definition sv_start : HeadProcess Cluster :=
  mkProcess (mkHead sv_reg (mkMonitor ∅ 60 3 true true)) (up_meta sv_upload) initial_store
    (up_net sv_upload) ∅.
Definition sv_once : HeadProcess Cluster := lose 1 (lit "10.0.0.1") sv_start.
Definition sv_twice : HeadProcess Cluster := lose 2 (lit "10.0.0.2") sv_once.

Example sv_servers :
  map server (chunks (query_metadata (hp_meta sv_start) sv_file)) =
    [lit "10.0.0.1:8080"; lit "10.0.0.2:8080"; lit "10.0.0.1:8080"; lit "10.0.0.2:8080"] ∧
  map server (chunks (query_metadata (hp_meta sv_twice) sv_file)) =
    [lit "10.0.0.3:8080"; lit "10.0.0.3:8080"].
Proof. vm_compute. split; reflexivity. Qed.

Lemma crashed_wf ep c : wf_cluster c → wf_cluster (crashed ep c).
Proof. intros Hwf. by apply map_Forall_delete. Qed.

Lemma crashed_held ep e c : e ≠ ep → held c e ⊆ held (crashed ep c) e.
Proof.
  intros Hne. cbn [held cluster_keeps_chunks]. unfold cluster_held, crashed. cbn [servers].
  by rewrite lookup_delete_ne.
Qed.

(** What [transferable] asks, of the metadata as a list. *)
Definition listed_ok (fr : bytes * FileRecord) : Prop :=
  Forall (λ c, is_ascii c = true) fr.1 ∧ Z.of_nat (length fr.1) ≤ 1000 ∧
  Forall (λ r, int32_ok (chunk_id r) ∧ text_ok (path r)) (chunks fr.2).

Lemma transferable_listed meta : Forall listed_ok (map_to_list (store meta)) → transferable meta.
Proof.
  rewrite Forall_forall. intros Hl f rec r Hf Hr. apply elem_of_map_to_list in Hf.
  destruct (Hl _ Hf) as (Ha & Hs & Hc). rewrite Forall_forall in Hc. destruct (Hc r Hr) as [Hi Hp].
  split; [done|]. split; [|done]. by apply key_ok_short.
Qed.

(** Questions nobody answers leave the network alone. *)
Lemma silent_before_repair now_sec (p : HeadProcess Cluster) sid h :
  hp_net (before_repair [] 9670 now_sec p sid h) = hp_net p.
Proof.
  unfold before_repair, verify_consensus, send_dead_signal. cbn [hp_net].
  assert (∀ peers, (poll_peers (hp_net p) sid peers).1 = hp_net p) as Hp.
  { induction peers as [|[a b] peers IH]; [done|]. exact IH. }
  destruct (zk_alive _ _ _); cbn [fst]; [|rewrite Hp]; case_decide; try done;
    cbn [signal_attempts]; unfold signal_once; by destruct (parse_address _ _).
Qed.

(** The steps of this life, from what evaluation shows of each. *)
Lemma lose_step p sid h rec :
  let addr := h ++ lit ":8080" in
  let p1 := mkProcess (hp_head p) (hp_meta p) (hp_zk p) (crashed (h, 8180) (hp_net p)) ∅ in
  let q := before_repair [] 9670 100 p1 sid (sv_health sid addr) in
  let reg := registry (hp_head p) in
  hp_zk p = initial_store →
  (verify_consensus (hp_net p1) 100 initial_store [] 9670 sid).2 = true →
  store (hp_meta p) !! sv_file = Some rec → wf_cluster (hp_net p) →
  Forall listed_ok (map_to_list (store (hp_meta p))) →
  Forall (λ c, server c = addr ∨
    (endpoint (registry (hp_head q)) (server c) = endpoint reg (server c) ∧
     endpoint reg (server c) ≠ (h, 8180))) (chunks rec) →
  Forall (λ c, Exists (λ c', chunk_id c' = chunk_id c ∧ server c' ≠ addr) (chunks rec)) (chunks rec) →
  healthy_servers (registry (hp_head q)) (get_all_health (monitor (hp_head q))) addr ≠ [] →
  life_step sv_file [] 9670 p (lose sid h p) ∧ wf_cluster (hp_net (lose sid h p)).
Proof.
  cbv zeta. intros Hzk Hvote Hrec Hwf Hl Hmove Hspread Hh. unfold lose.
  set (addr := h ++ lit ":8080") in *. set (p1 := mkProcess _ _ _ _ _) in *.
  pose proof (silent_before_repair 100 p1 sid (sv_health sid addr)) as Hq.
  set (q := before_repair _ _ _ p1 sid _) in *.
  assert (ip (sv_health sid addr) ∉ hp_recovering p1) as Hip by apply not_elem_of_empty.
  assert (transferable (hp_meta q)) as Htr by by apply transferable_listed.
  assert (cluster_wf (hp_net q)) as Hwfq by (rewrite Hq; by apply crashed_wf).
  rewrite Forall_forall in Hmove, Hspread.
  assert ((verify_consensus (hp_net p1) 100 (hp_zk p1) [] 9670 sid).2 = true) as Hvote'
    by (unfold p1 at 2; cbn [hp_zk]; by rewrite Hzk).
  split.
  - apply (ServerLost sv_file [] 9670 p p1 sid (sv_health sid addr) 100); fold q; try done.
    + split; [done|]. intros rec' c Hrec' Hin Hl'. rewrite Hrec in Hrec'. injection Hrec' as <-.
      destruct (Hmove c Hin) as [?|[He Hne]]; [done|]. split; [done|]. rewrite Hq.
      by apply crashed_held.
    + intros rec' Hrec'. change (store (hp_meta q)) with (store (hp_meta p)) in Hrec'.
      rewrite Hrec in Hrec'. injection Hrec' as <-. intros c Hin.
      apply Hspread, Exists_exists in Hin as (c' & ? & ?). by exists c'.
  - destruct (on_server_unhealthy_repairs [] 9670 100 p1 sid _ Hip Hvote') as [_ Hrun].
    exact (rereplicate_wf _ _ _ _ _ _ _ Htr Hh Hwfq Hrun).
Qed.

#[local] Abbreviation sv_stream :=
  (stream_file_to_client (hp_meta sv_twice) (hp_net sv_twice) (λ _, registry (hp_head sv_twice))
    (registry (hp_head sv_twice)) [0%nat; 1%nat] sv_file).
Definition sv_public : PublicNet :=
  mkPublic (match servers sv_stream.1.1 !! (lit "10.0.0.3", 8180) with
            | Some nd => {[(lit "10.0.0.3", 8280) := server_store nd]}
            | None => ∅
            end) [].

Lemma sv_env : upload_env sv_cfg (2 ^ 30) sv_view sv_file.
Proof.
  constructor.
  - lit_word.
  - intros cid. apply key_ok_short; by_decision.
  - done.
  - by split.
  - intros k. apply demo_disks.
  - intros k. apply Forall_forall. by_decision.
Qed.

Lemma sv_cluster_wf : wf_cluster sv_cluster.
Proof.
  intros ep nd Hnd. unfold sv_cluster in Hnd. cbn [servers clock] in *.
  assert (nd = demo_server) as ->.
  { apply elem_of_list_to_map_2, list_elem_of_fmap in Hnd as (? & [= _ ->] & _). done. }
  apply (demo_node_wf "10.0.0.2" [] (lit "10.0.0.2", 8180)). by apply lookup_singleton_eq.
Qed.

Lemma sv_start_wf : wf_cluster (hp_net sv_start).
Proof.
  refine (upload_cluster_wf 4 (2 ^ 30) sv_cfg sv_view sv_reg demo_meta sv_cluster
    [3%nat; 2%nat; 1%nat; 0%nat] sv_file (lit "abcdef") _ _ _);
    [exact demo_sendable|exact sv_cluster_wf|exact sv_env].
Qed.

Lemma sv_first_loss : life_step sv_file [] 9670 sv_start sv_once ∧ wf_cluster (hp_net sv_once).
Proof.
  apply (lose_step sv_start 1 (lit "10.0.0.1") (query_metadata (hp_meta sv_start) sv_file)).
  - by vm_compute.
  - by vm_compute.
  - by vm_compute.
  - exact sv_start_wf.
  - by_decision.
  - by_decision.
  - by_decision.
  - by_decision.
Qed.

Lemma sv_second_loss : life_step sv_file [] 9670 sv_once sv_twice ∧ wf_cluster (hp_net sv_twice).
Proof.
  apply (lose_step sv_once 2 (lit "10.0.0.2") (query_metadata (hp_meta sv_once) sv_file)).
  - by vm_compute.
  - by vm_compute.
  - by vm_compute.
  - exact (proj2 sv_first_loss).
  - by_decision.
  - by_decision.
  - by_decision.
  - by_decision.
Qed.
Lemma sv_same_servers :
  same_servers (registry (hp_head sv_twice)) (get_chunk_locations (hp_meta sv_twice) sv_file).1
    sv_stream.1.1 sv_public.
Proof.
  assert (∀ net : Cluster, held net (lit "10.0.0.3", 8180) ⊆
    public_held (mkPublic (match servers net !! (lit "10.0.0.3", 8180) with
      | Some nd => {[(lit "10.0.0.3", 8280) := server_store nd]} | None => ∅ end) [])
      (lit "10.0.0.3", 8280)) as H.
  { intros net. cbn [held public_held cluster_keeps_chunks public_net_keeps].
    unfold cluster_held, public_contents. cbn [pub_servers].
    destruct (servers net !! _); [by rewrite lookup_singleton_eq|apply map_empty_subseteq]. }
  assert (Forall (λ l, endpoint (registry (hp_head sv_twice)) (loc_server l) = (lit "10.0.0.3", 8180) ∧
    ip_only (loc_server l) = lit "10.0.0.3" ∧
    public_port_of (registry (hp_head sv_twice)) (loc_server l) = 8280)
    (get_chunk_locations (hp_meta sv_twice) sv_file).1) as Hall by by_decision.
  refine (Forall_impl _ _ _ Hall _). intros l (He & Hi & Hp). rewrite He, Hi, Hp.
  exact (H sv_stream.1.1).
Qed.

(** Both servers of the upload are gone; the third one, to which the first
    failover copied the chunks, serves the download. *)
Lemma upload_survives_failures_witness :
  (file_download (2 ^ 30) sv_public sv_file sv_stream.1.2 (@rev _) true).2 = Saved (lit "abcdef").
Proof.
  destruct (upload_survives_failures 4 (2 ^ 30) sv_cfg sv_view [] 9670 demo_meta sv_cluster
    (hp_net sv_twice) sv_stream.1.1 sv_public sv_start sv_twice [3%nat; 2%nat; 1%nat; 0%nat]
    [0%nat; 1%nat] sv_file (lit "abcdef") sv_stream.1.2 (@rev _) true) as [_ Hsaved].
  - exact demo_sendable.
  - by vm_compute.
  - exact sv_cluster_wf.
  - exact sv_env.
  - by_decision.
  - by_decision.
  - apply Forall_forall. by_decision.
  - done.
  - done.
  - exact (rtc_l _ _ _ _ (proj1 sv_first_loss) (rtc_once _ _ (proj1 sv_second_loss))).
  - exact (proj2 sv_second_loss).
  - done.
  - by_decision.
  - by_decision.
  - intros cid Hcid. unfold get_req. rewrite length_app. cbn [length]. rewrite length_app.
    pose proof (length_show_Z cid) as Hs. unfold int32_ok, INT_MIN, INT_MAX in Hcid. simpl. lia.
  - apply triple_true. by vm_compute.
  - exact sv_same_servers.
  - intros l. symmetry. apply Permutation_rev.
  - by apply Hsaved.
Defined.
End demo.
