(* ===== verification/Config.v ===== *)
(** * Config: the configuration files and their environment overrides
    (src/src/common/include/dfg/config_loader.hpp)

    A position in the text is the text that is left from there.  The parser
    runs on fuel, because on some texts the program never returns: [None] is
    a parser that is still running. *)
From Stdlib Require Import Lia SpecFloat.
From S2P Require Import Prelude.
From S2P Require Import Text.
Local Open Scope Z_scope.

(** ** Characters *)
Definition json_ws (c : ascii) : bool := bool_decide (c = sp ∨ c = tab ∨ c = cr ∨ c = nl).
Definition dot : ascii := "."%char.
Definition skip_ws (s : bytes) : bytes := drop_while json_ws s.
Definition trim (s : bytes) : bytes := rtrim json_ws (skip_ws s).

Definition upper (c : ascii) : ascii :=
  if ("a" <=? c)%char && (c <=? "z")%char then ascii_of_N (N_of_ascii c - 32) else c.

(** "server.port" → "SERVER_PORT" *)
Definition to_env_name (key : bytes) : bytes :=
  map (λ c, if decide (c = dot) then "_"%char else upper c) key.

(** ** Tokens *)
(** After the opening quote: the characters up to the closing one; a backslash
    stands for the next character as it is. *)
Fixpoint string_chars (s : bytes) : bytes * bytes :=
  match s with
  | [] => ([], [])
  | c :: s' =>
      if decide (c = dq) then ([], s')
      else if decide (c = "\"%char) then
        match s' with
        | [] => ([c], [])
        | d :: s'' => let '(t, rest) := string_chars s'' in (d :: t, rest)
        end
      else let '(t, rest) := string_chars s' in (c :: t, rest)
  end.

Definition parse_string_token (s : bytes) : bytes * bytes :=
  match s with
  | c :: s' => if decide (c = dq) then string_chars s' else ([], s)
  | [] => ([], [])
  end.

Definition token_char (c : ascii) : bool :=
  negb (bool_decide (c = ","%char ∨ c = "}"%char ∨ c = "]"%char ∨ c = nl ∨ c = cr)).
Definition parse_value_token (s : bytes) : bytes * bytes :=
  (trim (take_while token_char s), drop_while token_char s).

Definition strip_comment (val : bytes) : bytes :=
  match find (lit "//") val with Some i => trim (take i val) | None => val end.

(** ** The parser *)
Definition dotted (prefix key : bytes) : bytes :=
  match prefix with [] => key | _ => prefix ++ dot :: key end.
Definition indexed (prefix : bytes) (i : Z) : bytes := prefix ++ dot :: show_Z i.

Abbreviation Values := (gmap bytes bytes).

(** [parse_object] and [parse_array] from inside the bracket; [parse_item] is
    the choice both make on a value (only [parse_object] strips comments). *)
Fixpoint parse_object (fuel : nat) (s prefix : bytes) (m : Values) : option (bytes * Values) :=
  match fuel with
  | O => None
  | S fuel =>
      let s := skip_ws s in
      match s with
      | [] => Some ([], m)
      | c :: s' =>
          if decide (c = "}"%char) then Some (s', m)
          else if decide (c = ","%char) then parse_object fuel s' prefix m
          else
            let '(key, s) := parse_string_token s in
            if decide (key = []) then parse_object fuel (drop 1 s) prefix m
            else
              let s := skip_ws s in
              let s := match s with c :: s' => if decide (c = colon) then s' else s | [] => [] end in
              let s := skip_ws s in
              match s with
              | [] => Some ([], m)
              | _ => '(s, m) ← parse_item fuel true s (dotted prefix key) m;
                     parse_object fuel s prefix m
              end
      end
  end
with parse_array (fuel : nat) (s prefix : bytes) (index : Z) (m : Values)
  : option (bytes * Values) :=
  match fuel with
  | O => None
  | S fuel =>
      let s := skip_ws s in
      match s with
      | [] => Some ([], m)
      | c :: s' =>
          if decide (c = "]"%char) then Some (s', m)
          else if decide (c = ","%char) then parse_array fuel s' prefix index m
          else '(s, m) ← parse_item fuel false s (indexed prefix index) m;
               parse_array fuel s prefix (index + 1) m
      end
  end
with parse_item (fuel : nat) (in_object : bool) (s key : bytes) (m : Values)
  : option (bytes * Values) :=
  match fuel with
  | O => None
  | S fuel =>
      match s with
      | [] => Some ([], m)
      | c :: s' =>
          if decide (c = "{"%char) then parse_object fuel s' key m
          else if decide (c = "["%char) then parse_array fuel s' key 0 m
          else if decide (c = dq) then
            let '(val, s) := parse_string_token s in Some (s, <[key := val]> m)
          else
            let '(val, s) := parse_value_token s in
            Some (s, <[key := if in_object then strip_comment val else val]> m)
      end
  end.

Definition parse_json (fuel : nat) (json prefix : bytes) (m : Values) : option Values :=
  match skip_ws json with
  | c :: s =>
      if decide (c = "{"%char) then snd <$> parse_object fuel s prefix m
      else if decide (c = "["%char) then snd <$> parse_array fuel s prefix 0 m
      else Some m
  | [] => Some m
  end.

(** ** Loading *)
Record ConfigLoader := mkConfig { values : Values; filepath : bytes; loaded : bool }.
Definition new_config : ConfigLoader := mkConfig ∅ [] false.

(** What the file system has at a path; [None]: it cannot be opened. *)
Definition Files : Type := bytes → option bytes.

Section loading.
Variable fuel : nat.

Definition load_impl (files : Files) (c : ConfigLoader) (path : bytes)
  : option (ConfigLoader * bool) :=
  match files path with
  | None => Some (c, false)
  | Some content =>
      match trim content with
      | x :: _ =>
          if decide (x = "{"%char) then
            m ← parse_json fuel content [] ∅;
            Some (if decide (m = ∅) then (mkConfig m (filepath c) (loaded c), false)
                  else (mkConfig m path true, true))
          else Some (c, false)
      | [] => Some (c, false)
      end
  end.

Definition load (files : Files) (c : ConfigLoader) (path : bytes) := load_impl files c path.

Definition reload (files : Files) (c : ConfigLoader) : option (ConfigLoader * bool) :=
  match filepath c with
  | [] => Some (c, false)
  | path => load_impl files new_config path
  end.

(** The first path that loads, as the singletons search. *)
Fixpoint load_first (files : Files) (c : ConfigLoader) (paths : list bytes) : option ConfigLoader :=
  match paths with
  | [] => Some c
  | p :: rest =>
      '(c, ok) ← load files c p;
      if ok : bool then Some c else load_first files c rest
  end.
End loading.

(** ** Reading the settings *)
Section getters.
Variables (getenv : bytes → option bytes) (cfg : ConfigLoader).

(** A variable that is set and not empty. *)
Definition env_value (name : bytes) : option bytes :=
  match getenv name with Some ((_ :: _) as v) => Some v | _ => None end.

(** The names used across the deployment files. *)
Definition env_alias (key : bytes) : option bytes :=
  if decide (key = lit "zookeeper.hosts") then env_value (lit "ZK_HOSTS")
  else if decide (key = lit "head_server.control_port") then env_value (lit "CONTROL_PORT")
  else if decide (key = lit "heartbeat.target_host") then env_value (lit "HEALTH_CHECKER_HOST")
  else if decide (key = lit "heartbeat.target_port") then env_value (lit "HEALTH_CHECKER_PORT")
  else None.

Definition env_override (key : bytes) : option bytes :=
  match env_value (lit "DFG_" ++ to_env_name key) with
  | Some v => Some v
  | None => match env_value (to_env_name key) with Some v => Some v | None => env_alias key end
  end.

Definition get_string (key default_val : bytes) : bytes :=
  match env_override key with
  | Some v => v
  | None => default default_val (values cfg !! key)
  end.

Definition get_int (key : bytes) (default_val : Z) : Z :=
  match get_string key [] with
  | [] => default_val
  | v => try_catch (stoi v) default_val
  end.

Definition get_long (key : bytes) (default_val : Z) : Z :=
  match get_string key [] with
  | [] => default_val
  | v => try_catch (stoll v) default_val
  end.

Definition get_bool (key : bytes) (default_val : bool) : bool :=
  match get_string key [] with
  | [] => default_val
  | v => bool_decide (v = lit "true" ∨ v = lit "1" ∨ v = lit "yes")
  end.

Record ClusterServerEntry := mkClusterServer { ce_id : Z; ce_host : bytes; ce_port : Z }.

(** [cluster_servers.0], [cluster_servers.1], … up to the first without a host;
    [n] probes from [i] on. *)
Fixpoint probe_cluster_servers (n : nat) (i : Z) : list ClusterServerEntry :=
  match n with
  | O => []
  | S n =>
      let prefix := lit "cluster_servers." ++ show_Z i in
      match get_string (prefix ++ lit ".host") [] with
      | [] => []
      | host =>
          mkClusterServer (get_int (prefix ++ lit ".id") (i + 1)) host
            (get_int (prefix ++ lit ".port") (8080 + i)) :: probe_cluster_servers n (i + 1)
      end
  end.
Definition get_cluster_servers : list ClusterServerEntry := probe_cluster_servers 100 0.

Record HeadServerEntry := mkHeadServer {
  he_id : bytes; he_host : bytes; he_port : Z; he_control_port : Z }.

Fixpoint probe_head_servers (n : nat) (i : Z) : list HeadServerEntry :=
  match n with
  | O => []
  | S n =>
      let prefix := lit "head_servers." ++ show_Z i in
      match get_string (prefix ++ lit ".host") [] with
      | [] => []
      | host =>
          mkHeadServer (get_string (prefix ++ lit ".id") (lit "head_server_" ++ show_Z (i + 1))) host
            (get_int (prefix ++ lit ".port") 9669)
            (get_int (prefix ++ lit ".control_port") (9670 + i)) :: probe_head_servers n (i + 1)
      end
  end.
Definition get_head_servers : list HeadServerEntry := probe_head_servers 100 0.
End getters.

(** ** The singletons and SIGHUP *)
Definition search_paths (name : bytes) : list bytes :=
  map (λ dir, dir ++ name) [lit "config/"; lit "../config/"; lit "../../config/"; lit "/etc/dfg/"].
Definition head_server_paths : list bytes := search_paths (lit "head_server.json").
Definition health_checker_paths : list bytes := search_paths (lit "health_checker.json").
Definition cluster_server_paths : list bytes := search_paths (lit "cluster_server.json").
Definition zookeeper_paths : list bytes := search_paths (lit "zookeeper.json").

(** [head_server_config()] and its three siblings: [None] before the first
    access; the generation counts the SIGHUPs received. *)
Record Singleton := mkSingleton { instance : option ConfigLoader; loaded_gen : Z }.
Definition no_instance : Singleton := mkSingleton None 0.

Definition config_access (fuel : nat) (paths : list bytes) (files : Files) (generation : Z)
    (s : Singleton) : option (Singleton * ConfigLoader) :=
  '(cfg, prev) ←
    match instance s with
    | Some cfg => Some (cfg, loaded_gen s)
    | None => cfg ← load_first fuel files new_config paths; Some (cfg, generation)
    end;
  if decide (generation = prev) then Some (mkSingleton (Some cfg) prev, cfg)
  else '(cfg, _) ← reload fuel files cfg; Some (mkSingleton (Some cfg) generation, cfg).
