(* ===== verification/ConfigSpec.v ===== *)
(** * ConfigSpec: the configuration parser on fuel
    (src/src/common/include/dfg/config_loader.hpp)

    More fuel does not change a result, the scanners only go forward, and a fuel
    linear in the text decides whether the parser returns. *)
From Stdlib Require Import Lia.
From S2P Require Import Prelude.
From S2P Require Import Text.
From S2P Require Import Config.
Local Open Scope Z_scope.

(** ** The scanners only go forward *)
Lemma length_drop_while f (s : bytes) : (length (drop_while f s) ≤ length s)%nat.
Proof. rewrite <- (take_drop_while f s) at 2. rewrite length_app. lia. Qed.

Lemma length_skip_ws s : (length (skip_ws s) ≤ length s)%nat.
Proof. apply length_drop_while. Qed.

Lemma string_chars_shorter s : (length (string_chars s).2 ≤ length s)%nat.
Proof.
  assert (∀ n s, (length s < n)%nat → (length (string_chars s).2 ≤ length s)%nat) as H;
    [|by apply (H (S (length s))); lia].
  clear s. induction n as [|n IH]; intros s Hs; [lia|]. destruct s as [|c s]; [done|].
  cbn [string_chars]. simpl in Hs. repeat case_decide; cbn [snd length]; [lia| |].
  - destruct s as [|d s]; [cbn; lia|]. pose proof (IH s) as H'. simpl in Hs.
    destruct (string_chars s). cbn [snd length] in *. lia.
  - pose proof (IH s) as H'. destruct (string_chars s). cbn [snd] in *. lia.
Qed.

Lemma string_token_shorter s : (length (parse_string_token s).2 ≤ length s)%nat.
Proof.
  destruct s as [|c s]; [done|]. cbn [parse_string_token]. case_decide; [|done].
  pose proof (string_chars_shorter s). simpl. lia.
Qed.

(** A key is at least two characters. *)
Lemma key_shorter s key s' :
  parse_string_token s = (key, s') → key ≠ [] → (length s' + 2 ≤ length s)%nat.
Proof.
  destruct s as [|c s]; cbn [parse_string_token]; [by intros [= <- <-]|].
  case_decide; [|by intros [= <- <-]]. destruct s as [|d s]; cbn [string_chars]; [by intros [= <- <-]|].
  repeat case_decide; [by intros [= <- <-]| |].
  - destruct s as [|e s]; [intros [= <- <-]; simpl; lia|].
    pose proof (string_chars_shorter s). destruct (string_chars s). intros [= <- <-]. simpl in *. lia.
  - pose proof (string_chars_shorter s). destruct (string_chars s). intros [= <- <-]. simpl in *. lia.
Qed.

(** ** Enough fuel *)
(** Each function on a text of length [n], started inside it. *)
Definition object_fuel (n : nat) : nat := 2 * n + 2.
Definition item_fuel (n : nat) : nat := 2 * n + 1.

(** A '}' where an array element is expected is never passed. *)
Lemma array_stuck fuel s prefix i m : parse_array fuel ("}"%char :: s) prefix i m = None.
Proof.
  revert i m. induction fuel as [|fuel IH]; intros i m; [done|]. cbn [parse_array].
  change (skip_ws ("}"%char :: s)) with ("}"%char :: s). cbv zeta iota.
  repeat rewrite decide_False by done. destruct fuel as [|fuel]; [done|].
  cbn [parse_item]. repeat rewrite decide_False by done.
  change (parse_value_token ("}"%char :: s)) with (@nil ascii, "}"%char :: s).
  cbn [mbind option_bind]. apply IH.
Qed.

(** The text after the colon of a field. *)
Definition after_colon (s : bytes) : bytes :=
  skip_ws (match skip_ws s with
           | c :: s' => if decide (c = colon) then s' else skip_ws s
           | [] => []
           end).
Lemma length_after_colon s : (length (after_colon s) ≤ length s)%nat.
Proof.
  unfold after_colon. etransitivity; [apply length_skip_ws|].
  pose proof (length_skip_ws s). destruct (skip_ws s) as [|c r]; [done|].
  case_decide; simpl in *; lia.
Qed.

(** One turn of the loop of [parse_object]. *)
Lemma parse_object_step fuel s prefix m :
  parse_object (S fuel) s prefix m =
  match skip_ws s with
  | [] => Some ([], m)
  | c :: s' =>
      if decide (c = "}"%char) then Some (s', m)
      else if decide (c = ","%char) then parse_object fuel s' prefix m
      else let '(key, r) := parse_string_token (c :: s') in
           if decide (key = []) then parse_object fuel (drop 1 r) prefix m
           else match after_colon r with
                | [] => Some ([], m)
                | _ => '(s, m) ← parse_item fuel true (after_colon r) (dotted prefix key) m;
                       parse_object fuel s prefix m
                end
  end.
Proof. cbn [parse_object]. by destruct (skip_ws s). Qed.

Lemma parse_array_step fuel s prefix i m :
  parse_array (S fuel) s prefix i m =
  match skip_ws s with
  | [] => Some ([], m)
  | c :: s' =>
      if decide (c = "]"%char) then Some (s', m)
      else if decide (c = ","%char) then parse_array fuel s' prefix i m
      else '(r, m) ← parse_item fuel false (c :: s') (indexed prefix i) m;
           parse_array fuel r prefix (i + 1) m
  end.
Proof. cbn [parse_array]. by destruct (skip_ws s). Qed.

(** With the fuel of a longer text or more, a function that returns at all
    returns the same, and what it leaves is no longer than the text. *)
Definition object_decided (n : nat) : Prop :=
  ∀ s f prefix m r, (length s ≤ n)%nat → parse_object f s prefix m = Some r →
  (length r.1 ≤ length s)%nat ∧
  ∀ N, (object_fuel (length s) ≤ N)%nat → parse_object N s prefix m = Some r.
Definition array_decided (n : nat) : Prop :=
  ∀ s f prefix i m r, (length s ≤ n)%nat → parse_array f s prefix i m = Some r →
  (length r.1 ≤ length s)%nat ∧
  ∀ N, (object_fuel (length s) ≤ N)%nat → parse_array N s prefix i m = Some r.
Definition item_decided (n : nat) : Prop :=
  ∀ b s f key m r, (length s ≤ n)%nat → parse_item f b s key m = Some r →
  ((length r.1 ≤ length s)%nat ∧
   ∀ N, (item_fuel (length s) ≤ N)%nat → parse_item N b s key m = Some r) ∧
  (length r.1 = length s → match s with [] => True | c :: _ => token_char c = false end).

Lemma item_decided_from n :
  object_decided n → array_decided n → item_decided (S n).
Proof.
  intros Ho Ha b s f key m r Hn. destruct f as [|f]; [done|]. cbn [parse_item].
  unfold item_fuel. destruct s as [|c s].
  { intros [= <-]. split; [|done]. split; [done|]. intros [|N]; [simpl; lia|done]. }
  simpl in Hn. case_decide as H1; [|case_decide as H2; [|case_decide as H3]].
  - intros Hr. destruct (Ho s f key m r ltac:(lia) Hr) as [Hl Hall].
    split; [split; [simpl; lia|]|simpl; lia]. intros [|N] HN; [simpl in HN; lia|]. cbn [parse_item].
    rewrite decide_True by done. apply Hall. unfold object_fuel. simpl in HN. lia.
  - intros Hr. destruct (Ha s f key 0 m r ltac:(lia) Hr) as [Hl Hall].
    split; [split; [simpl; lia|]|simpl; lia]. intros [|N] HN; [simpl in HN; lia|]. cbn [parse_item].
    rewrite decide_False, decide_True by done. apply Hall. unfold object_fuel. simpl in HN. lia.
  - subst c. cbn [parse_string_token]. rewrite decide_True by done.
    pose proof (string_chars_shorter s) as Hs. destruct (string_chars s) as [v rest] eqn:Es.
    cbn [snd] in Hs. intros [= <-]. cbn [fst].
    split; [split; [simpl; lia|]|simpl; lia]. intros [|N] HN; [simpl in HN; lia|].
    cbn [parse_item parse_string_token]. repeat rewrite decide_False by done.
    repeat rewrite decide_True by done. by rewrite Es.
  - destruct (parse_value_token (c :: s)) as [v rest] eqn:Et. intros [= <-]. cbn [fst].
    assert (rest = drop_while token_char (c :: s)) as Er by (by injection Et).
    split; [split|].
    + rewrite Er. apply length_drop_while.
    + intros [|N] HN; [simpl in HN; lia|]. cbn [parse_item].
      repeat rewrite decide_False by done. by rewrite Et.
    + rewrite Er. cbn [drop_while]. destruct (token_char c); [|done].
      pose proof (length_drop_while token_char s). simpl. lia.
Qed.

#[local] Ltac fuel := unfold object_fuel, item_fuel in *; cbn [length] in *; lia.

Lemma past_key_shorter c s key r :
  parse_string_token (c :: s) = (key, r) → (length (drop 1 r) ≤ length s)%nat.
Proof.
  cbn [parse_string_token]. case_decide; [|by intros [= <- <-]].
  pose proof (string_chars_shorter s) as Hs. intros E. rewrite E in Hs. cbn [snd] in Hs.
  rewrite length_drop. lia.
Qed.

Lemma object_decided_from n : object_decided n → item_decided n → object_decided (S n).
Proof.
  intros Ho Hi s f prefix m r Hn. destruct f as [|f]; [done|]. rewrite parse_object_step.
  pose proof (length_skip_ws s) as Hw. unfold object_fuel, item_fuel in *.
  assert (∀ N, (2 * length s + 2 ≤ N)%nat → ∃ N', N = S N' ∧ (2 * length s + 1 ≤ N')%nat) as HN.
  { intros [|N] ?; [lia|]. exists N. lia. }
  destruct (skip_ws s) as [|c s'] eqn:Es.
  { intros [= <-]. split; [cbn [fst length]; lia|]. intros N (N' & -> & _)%HN.
    by rewrite parse_object_step, Es. }
  cbn [length] in Hw. case_decide as H1; [|case_decide as H2].
  - intros [= <-]. split; [cbn [fst]; lia|]. intros N (N' & -> & _)%HN.
    by rewrite parse_object_step, Es, decide_True.
  - intros Hr. destruct (Ho s' f prefix m r) as [Hl Hall]; [lia|done|]. split; [lia|].
    intros N (N' & -> & ?)%HN. rewrite parse_object_step, Es, decide_False, decide_True by done.
    apply Hall. fuel.
  - destruct (parse_string_token (c :: s')) as [key r0] eqn:Ek.
    pose proof (past_key_shorter _ _ _ _ Ek) as Hr0.
    assert (∀ N', parse_object (S N') s prefix m =
      if decide (key = []) then parse_object N' (drop 1 r0) prefix m
      else match after_colon r0 with
           | [] => Some ([], m)
           | _ => '(s, m) ← parse_item N' true (after_colon r0) (dotted prefix key) m;
                  parse_object N' s prefix m
           end) as Hstep.
    { intros N'. rewrite parse_object_step, Es, !decide_False by done. by rewrite Ek. }
    case_decide as Hk.
    + intros Hr. destruct (Ho (drop 1 r0) f prefix m r) as [Hl Hall]; [lia|done|].
      split; [lia|]. intros N (N' & -> & ?)%HN. rewrite Hstep. apply Hall. fuel.
    + pose proof (key_shorter _ _ _ Ek Hk) as Hr1. pose proof (length_after_colon r0) as Hr2.
      cbn [length] in Hr1. destruct (after_colon r0) as [|x s2] eqn:Ea.
      { intros [= <-]. split; [cbn [fst length]; lia|]. intros N (N' & -> & _)%HN. by rewrite Hstep. }
      destruct (parse_item f true _ _ _) as [[s3 m3]|] eqn:Ei; [|done]. cbn [mbind option_bind].
      destruct (Hi true (x :: s2) f (dotted prefix key) m (s3, m3)) as [[Hl3 Hall3] _]; [lia|done|].
      cbn [fst length] in *.
      intros Hr. destruct (Ho s3 f prefix m3 r) as [Hl Hall]; [lia|done|]. split; [lia|].
      intros N (N' & -> & ?)%HN. rewrite Hstep, Hall3 by fuel. cbn [mbind option_bind].
      apply Hall. fuel.
Qed.

Lemma array_decided_from n : array_decided n → item_decided (S n) → array_decided (S n).
Proof.
  intros Ha Hi s f prefix i m r Hn. destruct f as [|f]; [done|]. rewrite parse_array_step.
  pose proof (length_skip_ws s) as Hw. unfold object_fuel, item_fuel in *.
  assert (∀ N, (2 * length s + 2 ≤ N)%nat → ∃ N', N = S N' ∧ (2 * length s + 1 ≤ N')%nat) as HN.
  { intros [|N] ?; [lia|]. exists N. lia. }
  destruct (skip_ws s) as [|c s'] eqn:Es.
  { intros [= <-]. split; [cbn [fst length]; lia|]. intros N (N' & -> & _)%HN.
    by rewrite parse_array_step, Es. }
  cbn [length] in Hw. case_decide as H1; [|case_decide as H2].
  - intros [= <-]. split; [cbn [fst]; lia|]. intros N (N' & -> & _)%HN.
    by rewrite parse_array_step, Es, decide_True.
  - intros Hr. destruct (Ha s' f prefix i m r) as [Hl Hall]; [lia|done|]. split; [lia|].
    intros N (N' & -> & ?)%HN. rewrite parse_array_step, Es, decide_False, decide_True by done.
    apply Hall. fuel.
  - destruct (parse_item f false _ _ _) as [[s3 m3]|] eqn:Ei; [|done]. cbn [mbind option_bind].
    destruct (Hi false (c :: s') f (indexed prefix i) m (s3, m3)) as [[Hl3 Hall3] Heq];
      [cbn; lia|done|]. cbn [fst length] in *.
    intros Hr. destruct (decide (length s3 = S (length s'))) as [E|Hlt].
    { exfalso. specialize (Heq E). unfold token_char in Heq.
      apply negb_false_iff, bool_decide_eq_true in Heq as [->|[->|[->|Heq]]]; [done| |done|].
      - assert (s3 = "}"%char :: s') as ->.
        { destruct f as [|f]; [done|]. cbn [parse_item] in Ei.
          repeat rewrite decide_False in Ei by done.
          change (parse_value_token ("}"%char :: s')) with (@nil ascii, "}"%char :: s') in Ei.
          by injection Ei. }
        by rewrite array_stuck in Hr.
      - assert (json_ws c = true) as Hc
          by (unfold json_ws; apply bool_decide_eq_true; destruct Heq; auto).
        assert (∀ t, skip_ws t = c :: s' → False) as Hno; [|by eapply Hno].
        clear -Hc. induction t as [|d t IH]; [done|]. unfold skip_ws in *. cbn [drop_while].
        destruct (json_ws d) eqn:Ed; [exact IH|]. intros [= -> ->]. congruence. }
    destruct (Ha s3 f prefix (i + 1) m3 r) as [Hl Hall]; [lia|done|]. split; [lia|].
    intros N (N' & -> & ?)%HN. rewrite parse_array_step, Es, !decide_False by done.
    rewrite Hall3 by fuel. cbn [mbind option_bind]. apply Hall. fuel.
Qed.

Lemma parser_decided n : object_decided n ∧ array_decided n ∧ item_decided n.
Proof.
  induction n as [|n (Ho & Ha & Hi)].
  - assert (∀ s : bytes, (length s ≤ 0)%nat → s = []) as Hnil
      by (intros [|] ?; [done|simpl in *; lia]).
    split; [|split].
    + intros s f prefix m r ->%Hnil. destruct f as [|f]; [done|]. cbn. intros [= <-].
      split; [done|]. intros [|N] ?; [fuel|done].
    + intros s f prefix i m r ->%Hnil. destruct f as [|f]; [done|]. cbn. intros [= <-].
      split; [done|]. intros [|N] ?; [fuel|done].
    + intros b s f key m r ->%Hnil. destruct f as [|f]; [done|]. cbn. intros [= <-].
      split; [|done]. split; [done|]. intros [|N] ?; [fuel|done].
  - assert (item_decided (S n)) by (by apply item_decided_from).
    split; [by apply object_decided_from|]. split; [by apply array_decided_from|done].
Qed.

Lemma fuel_decides (content : bytes) (fuel fuel' : nat) (m m' : Values) :
  parse_json fuel content [] m = Some m' →
  (object_fuel (length content) ≤ fuel')%nat → parse_json fuel' content [] m = Some m'.
Proof.
  unfold parse_json. pose proof (length_skip_ws content) as Hw.
  destruct (skip_ws content) as [|c s]; [done|]. cbn [length] in Hw.
  destruct (parser_decided (length s)) as (Ho & Ha & _).
  repeat case_decide; [| |done].
  - intros (r & Hr & ->)%fmap_Some Hf. destruct (Ho s fuel [] m r) as [_ Hall]; [done|done|].
    by rewrite Hall by fuel.
  - intros (r & Hr & ->)%fmap_Some Hf. destruct (Ha s fuel [] 0 m r) as [_ Hall]; [done|done|].
    by rewrite Hall by fuel.
Qed.

(** ** When the parser returns *)
Definition no_array (s : bytes) : Prop := "["%char ∉ s.

Lemma drop_while_suffix f (s : bytes) : ∃ a, s = a ++ drop_while f s.
Proof. exists (take_while f s). by rewrite take_drop_while. Qed.

Lemma string_chars_suffix s : ∃ a, s = a ++ (string_chars s).2.
Proof.
  assert (∀ n s, (length s < n)%nat → ∃ a, s = a ++ (string_chars s).2) as H;
    [|by apply (H (S (length s))); lia].
  clear s. induction n as [|n IH]; intros s Hs; [lia|]. destruct s as [|c s]; [by exists []|].
  cbn [string_chars]. simpl in Hs. repeat case_decide; cbn [snd]; [by exists [c]| |].
  - destruct s as [|d s]; [by exists [c]|]. destruct (IH s) as [a Ha]; [simpl in Hs; lia|].
    destruct (string_chars s). exists (c :: d :: a). cbn [snd] in *. by rewrite Ha at 1.
  - destruct (IH s) as [a Ha]; [lia|]. destruct (string_chars s). exists (c :: a). cbn [snd] in *.
    by rewrite Ha at 1.
Qed.

Lemma no_array_suffix a s : no_array (a ++ s) → no_array s.
Proof. unfold no_array. rewrite not_elem_of_app. tauto. Qed.
Lemma no_array_skip s : no_array s → no_array (skip_ws s).
Proof. destruct (drop_while_suffix json_ws s) as [a E]. rewrite E at 1. apply no_array_suffix. Qed.
Lemma no_array_token s : no_array s → no_array (parse_string_token s).2.
Proof.
  destruct s as [|c s]; [done|]. cbn [parse_string_token]. case_decide; [|done].
  destruct (string_chars_suffix s) as [a E]. rewrite E at 1. intros Hn.
  by apply (no_array_suffix (c :: a)).
Qed.
Lemma no_array_colon s : no_array s → no_array (after_colon s).
Proof.
  intros Hs%no_array_skip. unfold after_colon. apply no_array_skip.
  destruct (skip_ws s) as [|c r]; [done|]. case_decide; [|done]. by apply (no_array_suffix [c]).
Qed.

(** Without arrays it returns, and what is left has no array either. *)
Lemma object_returns n : ∀ s f prefix m, (length s < n)%nat → (object_fuel (length s) ≤ f)%nat →
  no_array s → ∃ r, parse_object f s prefix m = Some r ∧ no_array r.1 ∧ (length r.1 ≤ length s)%nat.
Proof.
  induction n as [|n IH]; intros s f prefix m Hn Hf Hs; [lia|].
  destruct f as [|f]; [fuel|]. rewrite parse_object_step.
  pose proof (length_skip_ws s) as Hw. apply no_array_skip in Hs.
  destruct (skip_ws s) as [|c s']; cbn [length] in Hw.
  { eexists. split; [done|]. split; [done|]. cbn. lia. }
  case_decide; [eexists; split; [done|]; split; [by apply (no_array_suffix [c])|cbn; lia]|].
  case_decide.
  { destruct (IH s' f prefix m) as (r & -> & ? & ?); [lia|fuel|by apply (no_array_suffix [c])|].
    exists r. split; [done|]. split; [done|lia]. }
  destruct (parse_string_token (c :: s')) as [key r0] eqn:Ek.
  pose proof (past_key_shorter _ _ _ _ Ek) as Hr0. pose proof (no_array_token _ Hs) as Hk.
  rewrite Ek in Hk. cbn [snd] in Hk. case_decide as Hne.
  { destruct (IH (drop 1 r0) f prefix m) as (r & -> & ? & ?); [lia|fuel| |].
    - by destruct r0; [|apply (no_array_suffix [a])].
    - exists r. split; [done|]. split; [done|lia]. }
  pose proof (key_shorter _ _ _ Ek Hne) as Hr1. pose proof (length_after_colon r0) as Hr2.
  apply no_array_colon in Hk. cbn [length] in Hr1. destruct (after_colon r0) as [|x s2].
  { eexists. split; [done|]. split; [done|]. cbn. lia. }
  cbn [length] in Hr2.
  assert (∃ r, parse_item f true (x :: s2) (dotted prefix key) m = Some r ∧ no_array r.1 ∧
               (length r.1 ≤ S (length s2))%nat) as ([s3 m3] & -> & Hs3 & Hl3).
  { destruct f as [|f]; [fuel|]. cbn [parse_item]. case_decide.
    { destruct (IH s2 f (dotted prefix key) m) as (r & -> & ? & ?);
        [lia|fuel|by apply (no_array_suffix [x])|]. exists r. split; [done|]. split; [done|lia]. }
    case_decide; [subst x; destruct Hk; by left|]. case_decide as Hx.
    - pose proof (no_array_token _ Hk) as Ht. pose proof (string_token_shorter (x :: s2)) as Hl.
      destruct (parse_string_token (x :: s2)) as [v rest]. by eexists.
    - unfold parse_value_token. eexists. split; [done|]. cbn [fst]. split.
      + destruct (drop_while_suffix token_char (x :: s2)) as [a E]. rewrite E in Hk.
        by apply no_array_suffix in Hk.
      + apply (length_drop_while token_char (x :: s2)). }
  cbn [mbind option_bind fst] in *.
  destruct (IH s3 f prefix m3) as (r & -> & ? & ?); [lia|fuel|done|].
  exists r. split; [done|]. split; [done|lia].
Qed.
