(* ===== verification/ConfigText.v ===== *)
(** * ConfigText: what is written in a configuration file is what is read

    JSON values as the deployment files have them, printed with any white
    space, and the settings they stand for. *)
From Stdlib Require Import Lia.
From S2P Require Import Prelude.
From S2P Require Import Text.
From S2P Require Import Config.
From S2P Require Import ConfigSpec.
Local Open Scope Z_scope.

(** ** JSON values *)
#[local] Unset Elimination Schemes.
Inductive json :=
  | JStr (s : bytes)
  | JTok (t : bytes)                       (* a number, a boolean or null *)
  | JObj (fields : list (bytes * json))
  | JArr (items : list json).
#[local] Set Elimination Schemes.

Section json_ind.
Variable P : json → Prop.
Hypothesis Hstr : ∀ s, P (JStr s).
Hypothesis Htok : ∀ t, P (JTok t).
Hypothesis Hobj : ∀ fs, Forall (λ f, P f.2) fs → P (JObj fs).
Hypothesis Harr : ∀ js, Forall P js → P (JArr js).

Fixpoint json_nested_ind (j : json) : P j :=
  match j with
  | JStr s => Hstr s
  | JTok t => Htok t
  | JObj fs =>
      Hobj fs ((fix go fs : Forall (λ f, P f.2) fs :=
                  match fs with
                  | [] => Forall_nil_2 _
                  | f :: fs => Forall_cons_2 _ _ _ (json_nested_ind f.2) (go fs)
                  end) fs)
  | JArr js =>
      Harr js ((fix go js : Forall P js :=
                  match js with
                  | [] => Forall_nil_2 _
                  | j :: js => Forall_cons_2 _ _ _ (json_nested_ind j) (go js)
                  end) js)
  end.
End json_ind.

(** ** The settings of a value *)
Fixpoint flatten (key : bytes) (j : json) (m : Values) : Values :=
  match j with
  | JStr s => <[key := s]> m
  | JTok t => <[key := t]> m
  | JObj fs =>
      (fix go fs m := match fs with
                      | [] => m
                      | (k, j) :: fs => go fs (flatten (dotted key k) j m)
                      end) fs m
  | JArr js =>
      (fix go i js m := match js with
                        | [] => m
                        | j :: js => go (i + 1) js (flatten (indexed key i) j m)
                        end) 0 js m
  end.

Fixpoint flatten_fields (key : bytes) (fs : list (bytes * json)) (m : Values) : Values :=
  match fs with
  | [] => m
  | (k, j) :: fs => flatten_fields key fs (flatten (dotted key k) j m)
  end.
Fixpoint flatten_items (key : bytes) (i : Z) (js : list json) (m : Values) : Values :=
  match js with
  | [] => m
  | j :: js => flatten_items key (i + 1) js (flatten (indexed key i) j m)
  end.

Lemma flatten_obj key fs m : flatten key (JObj fs) m = flatten_fields key fs m.
Proof. revert m. induction fs as [|[k j] fs IH]; intros m; [done|]. exact (IH _). Qed.
Lemma flatten_arr key js m : flatten key (JArr js) m = flatten_items key 0 js m.
Proof.
  cbn [flatten]. generalize 0 as i. revert m.
  induction js as [|j js IH]; intros m i; [done|]. exact (IH _ _).
Qed.

(** ** Printing *)
Fixpoint escape (s : bytes) : bytes :=
  match s with
  | [] => []
  | c :: s => if decide (c = dq ∨ c = "\"%char) then "\"%char :: c :: escape s else c :: escape s
  end.
Definition quoted (s : bytes) : bytes := dq :: escape s ++ [dq].

Section printing.
(** The white space printed between any two tokens. *)
Variable w : bytes.

Fixpoint render (j : json) : bytes :=
  match j with
  | JStr s => quoted s
  | JTok t => t
  | JObj fs =>
      "{"%char :: w ++
      (fix go (first : bool) fs :=
         match fs with
         | [] => lit "}"
         | (k, j) :: fs =>
             (if first then [] else ","%char :: w) ++
             quoted k ++ w ++ colon :: w ++ render j ++ w ++ go false fs
         end) true fs
  | JArr js =>
      "["%char :: w ++
      (fix go (first : bool) js :=
         match js with
         | [] => lit "]"
         | j :: js => (if first then [] else ","%char :: w) ++ render j ++ w ++ go false js
         end) true js
  end.

Fixpoint render_fields (first : bool) (fs : list (bytes * json)) : bytes :=
  match fs with
  | [] => lit "}"
  | (k, j) :: fs =>
      (if first then [] else ","%char :: w) ++
      quoted k ++ w ++ colon :: w ++ render j ++ w ++ render_fields false fs
  end.
Fixpoint render_items (first : bool) (js : list json) : bytes :=
  match js with
  | [] => lit "]"
  | j :: js => (if first then [] else ","%char :: w) ++ render j ++ w ++ render_items false js
  end.

Lemma render_obj fs : render (JObj fs) = "{"%char :: w ++ render_fields true fs.
Proof. reflexivity. Qed.
Lemma render_arr js : render (JArr js) = "["%char :: w ++ render_items true js.
Proof. reflexivity. Qed.
End printing.

(** ** Values that can be written *)
(** A number, a boolean or null: no brackets, commas, quotes or comments. *)
Record token (t : bytes) : Prop := {
  tk_chars : Forall (λ c, token_char c = true ∧ json_ws c = false) t;
  tk_first : match t with c :: _ => c ≠ "{"%char ∧ c ≠ "["%char ∧ c ≠ dq | [] => False end;
  tk_comment : find (lit "//") t = None
}.

#[local] Unset Elimination Schemes.
Inductive wf_json : json → Prop :=
  | wf_str s : wf_json (JStr s)
  | wf_tok t : token t → wf_json (JTok t)
  | wf_obj fs : Forall (λ f, f.1 ≠ [] ∧ wf_json f.2) fs → wf_json (JObj fs)
  | wf_arr js : Forall wf_json js → wf_json (JArr js).
#[local] Set Elimination Schemes.

(** ** Tokens are read back *)
Lemma string_chars_escape s rest : string_chars (escape s ++ dq :: rest) = (s, rest).
Proof.
  induction s as [|c s IH]; [done|]. cbn [escape]. case_decide as Hc.
  - cbn [app string_chars]. rewrite decide_False, decide_True by done. by rewrite IH.
  - cbn [app string_chars]. rewrite !decide_False by tauto. by rewrite IH.
Qed.

Lemma quoted_token s rest : parse_string_token (quoted s ++ rest) = (s, rest).
Proof.
  unfold quoted. cbn [app parse_string_token]. rewrite decide_True by done.
  rewrite <- app_assoc. apply string_chars_escape.
Qed.

Section reading.
Variable w : bytes.
Hypothesis Hw : Forall (λ c, json_ws c = true) w.


Lemma skip_ws_w s : skip_ws (w ++ s) = skip_ws s.
Proof. unfold skip_ws. by apply drop_while_app. Qed.
Lemma skip_ws_here c s : json_ws c = false → skip_ws (c :: s) = c :: s.
Proof. intros Hc. unfold skip_ws. cbn [drop_while]. by rewrite Hc. Qed.

Lemma trim_word t a :
  match t with c :: _ => json_ws c = false | [] => False end →
  match last t with Some c => json_ws c = false | None => False end →
  Forall (λ c, json_ws c = true) a → trim (t ++ a) = t.
Proof.
  intros Ht Hl Ha. unfold trim. destruct t as [|c t]; [done|]. cbn [app].
  rewrite skip_ws_here by done. rewrite app_comm_cons.
  destruct (c :: t) as [|d l] using rev_ind; [done|]. rewrite last_snoc in Hl.
  unfold rtrim. rewrite rev_app_distr, drop_while_app.
  - rewrite rev_app_distr. cbn [rev app drop_while]. rewrite Hl. cbn [rev].
    by rewrite rev_involutive.
  - apply Forall_rev in Ha. exact Ha.
Qed.

(** What can follow a value: a comma or a closing bracket. *)
Definition closes (x : bytes) : Prop :=
  match x with c :: _ => c = ","%char ∨ c = "}"%char ∨ c = "]"%char | [] => False end.

Lemma closes_skip x : closes x → skip_ws x = x.
Proof. destruct x as [|c x]; [done|]. intros Hc. apply skip_ws_here. by destruct Hc as [->|[->| ->]]. Qed.

Lemma token_here t x :
  token t → closes x →
  ∃ rest, parse_value_token (t ++ w ++ x) = (t, rest) ∧ skip_ws rest = x.
Proof.
  intros [Hc Hf _] Hx. unfold parse_value_token.
  assert (Forall (λ c, token_char c = true) t) as Ht by (by eapply Forall_impl; [exact Hc|intros ? []]).
  rewrite take_while_app, drop_while_app by done.
  exists (drop_while token_char (w ++ x)). split.
  - f_equal. apply trim_word.
    + destruct t; [done|]. by apply Forall_cons in Hc as [[_ ?] _].
    + destruct t as [|c t] using rev_ind; [done|]. rewrite last_snoc.
      apply Forall_app in Hc as [_ Hc]. by apply Forall_cons in Hc as [[_ ?] _].
    + clear -Hw Hx. induction Hw as [|c w' Hcw Hw' IH].
      * destruct x as [|c x]; [done|]. cbn. unfold token_char. rewrite bool_decide_true; [done|].
        destruct Hx as [->|[->| ->]]; auto.
      * cbn [app take_while]. destruct (token_char c); [constructor; [exact Hcw|by apply IH]|done].
  - clear -Hw Hx. induction Hw as [|c w' Hcw Hw' IH].
    + cbn [app]. destruct x as [|c x]; [done|]. cbn [drop_while].
      replace (token_char c) with false; [by apply closes_skip|].
      unfold token_char. symmetry. apply negb_false_iff, bool_decide_eq_true.
      destruct Hx as [->|[->| ->]]; auto.
    + cbn [app drop_while]. destruct (token_char c); [by apply IH|].
      rewrite app_comm_cons. unfold skip_ws. rewrite drop_while_app by (by constructor).
      by apply closes_skip.
Qed.

Lemma parse_object_skip f s x p m :
  skip_ws s = x → skip_ws x = x → parse_object f s p m = parse_object f x p m.
Proof. intros Hs Hx. destruct f; [done|]. by rewrite !parse_object_step, Hs, Hx. Qed.
Lemma parse_array_skip f s x p i m :
  skip_ws s = x → skip_ws x = x → parse_array f s p i m = parse_array f x p i m.
Proof. intros Hs Hx. destruct f; [done|]. by rewrite !parse_array_step, Hs, Hx. Qed.
End reading.

(** ** Values are read back *)
Section parsing.
Variable w : bytes.
Hypothesis Hw : Forall (λ c, json_ws c = true) w.

Lemma render_first j :
  wf_json j → ∃ c s, render w j = c :: s ∧ json_ws c = false ∧ token_char c = true.
Proof.
  destruct j as [s|t|fs|js]; intros Hj; [by do 2 eexists| |by do 2 eexists|by do 2 eexists].
  inversion_clear Hj as [|? [Hc Hf _]| |]. destruct t as [|c t]; [done|].
  apply Forall_cons in Hc as [[? ?] _]. by exists c, t.
Qed.

Definition read_back (j : json) : Prop :=
  ∀ b key m x, closes x → ∃ f0 rest, skip_ws rest = x ∧
    ∀ f, (f0 ≤ f)%nat →
      parse_item f b (render w j ++ w ++ x) key m = Some (rest, flatten key j m).

(** Reading one field, or one element, leads to what follows it. *)
Lemma field_read k j x prefix m :
  k ≠ [] → wf_json j → read_back j → closes x →
  ∃ f0, ∀ f, (f0 ≤ f)%nat →
    parse_object (S f) (w ++ quoted k ++ w ++ colon :: w ++ render w j ++ w ++ x) prefix m =
    parse_object f x prefix (flatten (dotted prefix k) j m).
Proof.
  intros Hk Hj Hr Hx. destruct (Hr true (dotted prefix k) m x Hx) as (f0 & rest & Hrest & Hitem).
  destruct (render_first j Hj) as (c & s & Ec & Hc & _).
  exists f0. intros f Hf. rewrite parse_object_step, skip_ws_w by done.
  set (r := w ++ colon :: w ++ render w j ++ w ++ x) in *.
  assert (skip_ws (quoted k ++ r) = dq :: escape k ++ [dq] ++ r) as ->.
  { unfold quoted. cbn [app]. rewrite <- app_assoc. by apply skip_ws_here. }
  repeat rewrite decide_False by done.
  pose proof (quoted_token k r) as Hq. unfold quoted in Hq. cbn [app] in Hq.
  rewrite <- app_assoc in Hq. cbn [app] in Hq |- *. rewrite Hq.
  rewrite decide_False by done.
  assert (after_colon r = render w j ++ w ++ x) as ->.
  { unfold after_colon, r. rewrite skip_ws_w, skip_ws_here, decide_True by done.
    rewrite skip_ws_w by done. rewrite Ec. by apply skip_ws_here. }
  rewrite Hitem by done. rewrite Ec. cbn [app mbind option_bind].
  apply parse_object_skip; [done|by apply closes_skip].
Qed.

Lemma element_read j x prefix i m :
  wf_json j → read_back j → closes x →
  ∃ f0, ∀ f, (f0 ≤ f)%nat →
    parse_array (S f) (w ++ render w j ++ w ++ x) prefix i m =
    parse_array f x prefix (i + 1) (flatten (indexed prefix i) j m).
Proof.
  intros Hj Hr Hx. destruct (Hr false (indexed prefix i) m x Hx) as (f0 & rest & Hrest & Hitem).
  destruct (render_first j Hj) as (c & s & Ec & Hc & Ht).
  exists f0. intros f Hf. rewrite parse_array_step, skip_ws_w by done.
  specialize (Hitem f Hf). rewrite Ec in Hitem |- *. cbn [app] in *.
  rewrite skip_ws_here by done.
  unfold token_char in Ht. apply negb_true_iff, bool_decide_eq_false in Ht.
  rewrite !decide_False by tauto. rewrite Hitem. cbn [mbind option_bind].
  apply parse_array_skip; [done|by apply closes_skip].
Qed.

Lemma closes_fields fs y : closes (render_fields w false fs ++ y).
Proof. destruct fs as [|[k j] fs]; [by right; left|by left]. Qed.
Lemma closes_items js y : closes (render_items w false js ++ y).
Proof. destruct js as [|j js]; [by right; right|by left]. Qed.

Lemma fields_read fs :
  Forall (λ f, f.1 ≠ [] ∧ wf_json f.2 ∧ read_back f.2) fs →
  ∀ first y prefix m, ∃ f0, ∀ f, (f0 ≤ f)%nat →
    parse_object f (w ++ render_fields w first fs ++ y) prefix m =
    Some (y, flatten_fields prefix fs m).
Proof.
  induction 1 as [|[k j] fs (Hk & Hj & Hr) _ IH]; intros first y prefix m; cbn [fst snd] in *.
  { exists 1%nat. intros [|f] Hf; [lia|]. rewrite parse_object_step, skip_ws_w by done.
    cbn [render_fields app lit list_ascii_of_string]. rewrite skip_ws_here by done. done. }
  set (x := render_fields w false fs ++ y). assert (closes x) as Hx by apply closes_fields.
  destruct (IH false y prefix (flatten (dotted prefix k) j m)) as (f1 & H1).
  destruct (field_read k j x prefix m Hk Hj Hr Hx) as (f2 & H2).
  assert (∀ f, (S (Nat.max f1 f2) ≤ f)%nat →
    parse_object f (w ++ quoted k ++ w ++ colon :: w ++ render w j ++ w ++ x) prefix m =
    Some (y, flatten_fields prefix ((k, j) :: fs) m)) as Hone.
  { intros [|f] Hf; [lia|]. rewrite H2 by lia. cbn [flatten_fields]. rewrite <- (H1 f) by lia.
    symmetry. apply parse_object_skip; [|by apply closes_skip].
    rewrite skip_ws_w by done. by apply closes_skip. }
  exists (S (S (Nat.max f1 f2))). intros f Hf. cbn [render_fields].
  assert (∀ a, (a ++ quoted k ++ w ++ colon :: w ++ render w j ++ w ++ render_fields w false fs) ++ y =
               a ++ quoted k ++ w ++ colon :: w ++ render w j ++ w ++ x) as Happ.
  { intros a. unfold x. repeat (rewrite <- !app_assoc; cbn [app]). done. }
  rewrite Happ. destruct first; [by apply Hone; lia|]. destruct f as [|f]; [lia|].
  rewrite parse_object_step, skip_ws_w by done. cbn [app]. rewrite skip_ws_here by done.
  rewrite decide_False, decide_True by done. apply Hone. lia.
Qed.

Lemma items_read js :
  Forall (λ j, wf_json j ∧ read_back j) js →
  ∀ first y prefix i m, ∃ f0, ∀ f, (f0 ≤ f)%nat →
    parse_array f (w ++ render_items w first js ++ y) prefix i m =
    Some (y, flatten_items prefix i js m).
Proof.
  induction 1 as [|j js (Hj & Hr) _ IH]; intros first y prefix i m.
  { exists 1%nat. intros [|f] Hf; [lia|]. rewrite parse_array_step, skip_ws_w by done.
    cbn [render_items app lit list_ascii_of_string]. rewrite skip_ws_here by done. done. }
  set (x := render_items w false js ++ y). assert (closes x) as Hx by apply closes_items.
  destruct (IH false y prefix (i + 1) (flatten (indexed prefix i) j m)) as (f1 & H1).
  destruct (element_read j x prefix i m Hj Hr Hx) as (f2 & H2).
  assert (∀ f, (S (Nat.max f1 f2) ≤ f)%nat →
    parse_array f (w ++ render w j ++ w ++ x) prefix i m =
    Some (y, flatten_items prefix i (j :: js) m)) as Hone.
  { intros [|f] Hf; [lia|]. rewrite H2 by lia. cbn [flatten_items]. rewrite <- (H1 f) by lia.
    symmetry. apply parse_array_skip; [|by apply closes_skip].
    rewrite skip_ws_w by done. by apply closes_skip. }
  exists (S (S (Nat.max f1 f2))). intros f Hf. cbn [render_items].
  assert (∀ a, (a ++ render w j ++ w ++ render_items w false js) ++ y =
               a ++ render w j ++ w ++ x) as Happ.
  { intros a. unfold x. repeat (rewrite <- !app_assoc; cbn [app]). done. }
  rewrite Happ. destruct first; [by apply Hone; lia|]. destruct f as [|f]; [lia|].
  rewrite parse_array_step, skip_ws_w by done. cbn [app]. rewrite skip_ws_here by done.
  rewrite decide_False, decide_True by done. apply Hone. lia.
Qed.

Lemma strip_nothing t : find (lit "//") t = None → strip_comment t = t.
Proof. intros E. unfold strip_comment. by rewrite E. Qed.

Lemma value_read j : wf_json j → read_back j.
Proof.
  induction j as [s|t|fs IH|js IH] using json_nested_ind; intros Hj b key m x Hx.
  - exists 1%nat, (w ++ x). split; [rewrite skip_ws_w by done; by apply closes_skip|].
    intros [|f] Hf; [lia|]. cbn [render].
    transitivity (let '(val, r) := parse_string_token (quoted s ++ w ++ x) in
                  Some (r, <[key := val]> m)); [done|by rewrite quoted_token].
  - inversion_clear Hj as [|? Ht| |]. destruct (token_here w Hw t x Ht Hx) as (rest & Hv & Hrest).
    exists 1%nat, rest. split; [done|]. intros [|f] Hf; [lia|]. cbn [parse_item render].
    pose proof Ht as [_ Hfst Hc]. destruct t as [|c t]; [done|]. cbn [app] in Hv |- *.
    rewrite !decide_False by tauto. rewrite Hv, strip_nothing by done. by destruct b.
  - inversion_clear Hj as [| |? Hfs|].
    destruct (fields_read fs) with true (w ++ x) key m as (f0 & H0).
    { clear -IH Hfs. induction IH as [|f fs Hf _ IH]; [constructor|].
      apply Forall_cons in Hfs as [[??] Hfs]. constructor; [auto|by apply IH]. }
    exists (S f0), (w ++ x). split; [rewrite skip_ws_w by done; by apply closes_skip|].
    intros [|f] Hf; [lia|]. rewrite render_obj, flatten_obj. cbn [app parse_item].
    rewrite decide_True by done. rewrite <- app_assoc. apply H0. lia.
  - inversion_clear Hj as [| | |? Hjs].
    destruct (items_read js) with true (w ++ x) key 0 m as (f0 & H0).
    { clear -IH Hjs. induction IH as [|j js Hj _ IH]; [constructor|].
      apply Forall_cons in Hjs as [? Hjs]. constructor; [auto|by apply IH]. }
    exists (S f0), (w ++ x). split; [rewrite skip_ws_w by done; by apply closes_skip|].
    intros [|f] Hf; [lia|]. rewrite render_arr, flatten_arr. cbn [app parse_item].
    rewrite decide_False, decide_True by done. rewrite <- app_assoc. apply H0. lia.
Qed.
End parsing.

(** ** Loading a file *)
Lemma rtrim_head f c (s : bytes) : f c = false → ∃ t, rtrim f (c :: s) = c :: t.
Proof.
  intros Hc. unfold rtrim. cbn [rev].
  assert (∀ a, ∃ u, drop_while f (a ++ [c]) = u ++ [c]) as Hd.
  { induction a as [|d a IH]; cbn [app drop_while]; [exists []; by rewrite Hc|].
    destruct (f d); [exact IH|]. by exists (d :: a). }
  destruct (Hd (rev s)) as [u ->]. exists (rev u). by rewrite rev_app_distr.
Qed.

(** What a file with the fields [fs] holds, white space [w] between tokens. *)
Definition config_text (w : bytes) (fs : list (bytes * json)) : bytes :=
  w ++ render w (JObj fs) ++ w.

Lemma text_parsed (w : bytes) (fs : list (bytes * json)) (fuel : nat) :
  Forall (λ c, json_ws c = true) w → wf_json (JObj fs) →
  (object_fuel (length (config_text w fs)) ≤ fuel)%nat →
  parse_json fuel (config_text w fs) [] ∅ = Some (flatten_fields [] fs ∅).
Proof.
  intros Hw Hj Hf. inversion_clear Hj as [| |? Hfs|].
  destruct (fields_read w Hw fs) with true w ([] : bytes) (∅ : Values) as (f0 & H0).
  { eapply Forall_impl; [exact Hfs|]. intros f [? ?]. split; [done|]. split; [done|].
    by apply value_read. }
  assert (∀ f, (f0 ≤ f)%nat → parse_json f (config_text w fs) [] ∅ =
            Some (flatten_fields [] fs ∅)) as Hall.
  { intros f Hle. unfold parse_json, config_text. rewrite skip_ws_w by done.
    rewrite render_obj. cbn [app]. rewrite skip_ws_here by done.
    rewrite decide_True by done. rewrite <- app_assoc, H0 by done. done. }
  eapply (fuel_decides _ (Nat.max f0 fuel)); [|exact Hf]. apply Hall. lia.
Qed.

Section load.
Variables (w : bytes) (fs : list (bytes * json)) (files : Files) (path : bytes).
Hypothesis Hw : Forall (λ c, json_ws c = true) w.
Hypothesis Hj : wf_json (JObj fs).
Hypothesis Hfile : files path = Some (config_text w fs).

Lemma text_loaded (c : ConfigLoader) (fuel : nat) :
  (object_fuel (length (config_text w fs)) ≤ fuel)%nat →
  load fuel files c path =
    Some (if decide (flatten_fields [] fs ∅ = ∅) then (mkConfig ∅ (filepath c) (loaded c), false)
          else (mkConfig (flatten_fields [] fs ∅) path true, true)).
Proof.
  intros Hf. unfold load, load_impl. rewrite Hfile.
  assert (∃ t, trim (config_text w fs) = "{"%char :: t) as [t ->].
  { unfold trim, config_text. rewrite skip_ws_w, render_obj by done. cbn [app].
    rewrite skip_ws_here by done. by apply rtrim_head. }
  rewrite decide_True by done. rewrite text_parsed by done. cbn [mbind option_bind].
  case_decide as E; [by rewrite E|done].
Qed.
End load.

(** ** The settings of a field *)

(** The keys a value writes: its own, and its own followed by a dot. *)
Definition below (key k : bytes) : Prop := ∃ t, k = key ++ t ∧ (t = [] ∨ ∃ u, t = dot :: u).

Lemma below_app key t k : below (key ++ dot :: t) k → below key k.
Proof.
  intros (u & -> & Hu). exists (dot :: t ++ u). rewrite <- app_assoc. split; [done|]. right. by eexists.
Qed.

Lemma flatten_other j : ∀ key m k, key ≠ [] → ¬ below key k → flatten key j m !! k = m !! k.
Proof.
  induction j as [s|t|fs IH|js IH] using json_nested_ind; intros key m k Hkey Hk.
  - cbn [flatten]. apply lookup_insert_ne. intros <-. apply Hk. exists []. rewrite app_nil_r. auto.
  - cbn [flatten]. apply lookup_insert_ne. intros <-. apply Hk. exists []. rewrite app_nil_r. auto.
  - rewrite flatten_obj. revert m. induction IH as [|[k' j] fs Hj _ IHfs]; intros m; [done|].
    cbn [flatten_fields]. rewrite IHfs.
    assert (dotted key k' = key ++ dot :: k') as -> by (by destruct key).
    apply Hj; [by destruct key|]. intros Hb. apply Hk. by eapply below_app.
  - rewrite flatten_arr. generalize 0 as i. revert m.
    induction IH as [|j js Hj _ IHjs]; intros m i; [done|].
    cbn [flatten_items]. rewrite IHjs. apply Hj; [unfold indexed; by destruct key|].
    intros Hb. apply Hk. by eapply below_app.
Qed.

Lemma below_first_dot key a u : no_char dot key → no_char dot a → below key (a ++ dot :: u) → key = a.
Proof.
  intros Hk Ha (t & E & [->|[v ->]]).
  - rewrite app_nil_r in E. exfalso. apply Hk. rewrite <- E. apply elem_of_app. right. by left.
  - symmetry. by apply app_char_inj in E as [? _].
Qed.

(** The settings under the name of one top-level field. *)
Lemma flatten_fields_app p fs1 fs2 m :
  flatten_fields p (fs1 ++ fs2) m = flatten_fields p fs2 (flatten_fields p fs1 m).
Proof. revert m. induction fs1 as [|[k j] fs IH]; intros m; cbn; [done|apply IH]. Qed.

Lemma other_fields fs name u m :
  no_char dot name → Forall (λ f, f.1 ≠ [] ∧ f.1 ≠ name ∧ no_char dot f.1) fs →
  flatten_fields [] fs m !! (name ++ dot :: u) = m !! (name ++ dot :: u).
Proof.
  intros Hn Hfs. revert m. induction Hfs as [|[k j] fs (Hk & Hne & Hd) _ IH]; intros m; [done|].
  cbn [flatten_fields dotted fst] in *. rewrite IH. apply flatten_other; [done|].
  intros Hb. apply Hne. by eapply below_first_dot.
Qed.

(** ** The list of cluster servers *)
Definition server_json (e : ClusterServerEntry) : json :=
  JObj [(lit "id", JTok (show_Z (ce_id e))); (lit "host", JStr (ce_host e));
        (lit "port", JTok (show_Z (ce_port e)))].

Definition servers_key : bytes := lit "cluster_servers".

(** A setting of the [i]-th server. *)
Definition setting (i : Z) (name : bytes) : bytes := indexed servers_key i ++ dot :: name.

Lemma setting_below i i' name : below (indexed servers_key i) (setting i' name) → i = i'.
Proof.
  intros (t & E & Ht). unfold setting, indexed in E. rewrite <- app_assoc, <- app_assoc in E.
  apply app_inv_head in E. injection E as E. apply show_Z_inj.
  assert (∀ z, dot ∉ show_Z z) as Hz.
  { intros z Hin. destruct (word_show_Z z) as [_ _]. revert Hin. unfold show_Z.
    pose proof (show_N_digits (Z.to_N (- z))) as H1. pose proof (show_N_digits (Z.to_N z)) as H2.
    rewrite Forall_forall in H1. rewrite Forall_forall in H2.
    destruct (z <? 0); [intros [?|Hin]%elem_of_cons; [done|]|intros Hin];
      [by specialize (H1 _ Hin)|by specialize (H2 _ Hin)]. }
  destruct Ht as [->|[u ->]].
  - exfalso. apply (Hz i). rewrite <- (app_nil_r (show_Z i)), <- E. apply elem_of_app. right. by left.
  - apply app_char_inj in E as [E _]; [done|apply Hz|apply Hz].
Qed.

Lemma flatten_server i e m name :
  flatten (indexed servers_key i) (server_json e) m !! setting i name =
    if decide (name = lit "port") then Some (show_Z (ce_port e))
    else if decide (name = lit "host") then Some (ce_host e)
    else if decide (name = lit "id") then Some (show_Z (ce_id e))
    else m !! setting i name.
Proof.
  unfold server_json. rewrite flatten_obj. cbn [flatten_fields flatten].
  assert (∀ k, dotted (indexed servers_key i) k = setting i k) as Hd by done.
  rewrite !Hd, !lookup_insert.
  assert (∀ a b, setting i a = setting i b → a = b) as Hinj.
  { intros a b E. unfold setting in E. apply app_inv_head in E. by injection E. }
  repeat case_decide; subst; try done; try (by exfalso; eauto); try naive_solver.
Qed.

Lemma flatten_servers es : ∀ i m j name,
  flatten_items servers_key i (map server_json es) m !! setting j name =
    match (if decide (j < i) then None else es !! Z.to_nat (j - i)) with
    | None => m !! setting j name
    | Some e => flatten (indexed servers_key j) (server_json e) m !! setting j name
    end.
Proof.
  induction es as [|e es IH]; intros i m j name; cbn [map flatten_items]; [by case_decide|].
  rewrite IH. destruct (decide (i = j)) as [->|Hne].
  - rewrite decide_True by lia. rewrite decide_False by lia. by rewrite Z.sub_diag.
  - assert (flatten (indexed servers_key i) (server_json e) m !! setting j name = m !! setting j name)
      as Hm.
    { apply flatten_other; [done|]. by intros Hb%setting_below. }
    destruct (decide (j < i + 1)) as [Hlt|Hge].
    + rewrite decide_True by lia. exact Hm.
    + rewrite (decide_False (P := j < i)) by lia.
      replace (Z.to_nat (j - i)) with (S (Z.to_nat (j - (i + 1)))) by lia. cbn [lookup list_lookup].
      destruct (es !! Z.to_nat (j - (i + 1))) as [e'|]; [|exact Hm].
      rewrite !flatten_server. by rewrite Hm.
Qed.

Lemma find_None_char p c (s : bytes) : c ∈ p → c ∉ s → find p s = None.
Proof.
  intros Hp Hs. destruct (find p s) as [i|] eqn:E; [|done]. exfalso. apply Hs.
  assert (contains p s = true) as Hc by (unfold contains; rewrite E; done).
  apply contains_spec in Hc as (a & b & ->). rewrite !elem_of_app. auto.
Qed.

Lemma token_show_Z z : token (show_Z z).
Proof.
  assert (∀ c, is_digit c = true ∨ c = "-"%char →
    token_char c = true ∧ json_ws c = false ∧ c ≠ "{"%char ∧ c ≠ "["%char ∧ c ≠ dq ∧ c ≠ "/"%char) as Hc.
  { intros [[] [] [] [] [] [] [] []] [H|H]; done. }
  pose proof (show_Z_chars z) as Hz. constructor.
  - apply Forall_forall. intros c Hin. destruct (Hc c (Hz c Hin)) as (? & ? & _). done.
  - destruct (show_Z z) as [|c t] eqn:E; [by destruct (word_show_Z z)|].
    destruct (Hc c) as (_ & _ & ? & ? & ? & _); [apply Hz; by left|done].
  - apply (find_None_char _ "/"%char); [by left|]. intros Hin.
    by destruct (Hc _ (Hz _ Hin)) as (_ & _ & _ & _ & _ & ?).
Qed.

(** ** Theorems *)
Section servers.
Variable getenv : bytes → option bytes.
Hypothesis Henv : ∀ key, env_override getenv key = None.

(** An entry the deployment files can have. *)
Record entry_ok (e : ClusterServerEntry) : Prop := {
  eo_host : ce_host e ≠ [];
  eo_id : INT_MIN ≤ ce_id e ≤ INT_MAX;
  eo_port : INT_MIN ≤ ce_port e ≤ INT_MAX
}.

Lemma get_int_shown c key z d :
  INT_MIN ≤ z ≤ INT_MAX → values c !! key = Some (show_Z z) → get_int getenv c key d = z.
Proof.
  intros Hz Hv. unfold get_int, get_string. rewrite Henv, Hv. cbn [default from_option id].
  destruct (show_Z z) as [|x t] eqn:E; [by destruct (word_show_Z z)|]. rewrite <- E.
  by rewrite stoi_show.
Qed.

Lemma probe_configured c es n i :
  Forall entry_ok es → 0 ≤ i →
  (∀ j name, 0 ≤ j → name ∈ [lit "id"; lit "host"; lit "port"] →
     values c !! setting j name = match es !! Z.to_nat j with
       | Some e => flatten (indexed servers_key j) (server_json e) ∅ !! setting j name
       | None => None
       end) →
  probe_cluster_servers getenv c n i = take n (drop (Z.to_nat i) es).
Proof.
  intros Hes Hi Hv. revert i Hi. induction n as [|n IH]; intros i Hi; [done|].
  cbn [probe_cluster_servers].
  change (lit "cluster_servers." ++ show_Z i) with (indexed servers_key i).
  change (indexed servers_key i ++ lit ".host") with (setting i (lit "host")).
  change (indexed servers_key i ++ lit ".id") with (setting i (lit "id")).
  change (indexed servers_key i ++ lit ".port") with (setting i (lit "port")).
  pose proof (Hv i (lit "host") Hi ltac:(by right; left)) as Hhost.
  pose proof (Hv i (lit "id") Hi ltac:(by left)) as Hid.
  pose proof (Hv i (lit "port") Hi ltac:(by right; right; left)) as Hport.
  unfold get_string at 1. rewrite Henv, Hhost.
  destruct (es !! Z.to_nat i) as [e|] eqn:Ee.
  - rewrite Forall_forall in Hes. destruct (Hes e) as [Hne Hi1 Hi2]; [by eapply list_elem_of_lookup_2|].
    rewrite flatten_server in Hhost. rewrite flatten_server in Hid. rewrite flatten_server in Hport.
    rewrite decide_False, decide_True in Hhost by done.
    rewrite !decide_False, decide_True in Hid by done. rewrite decide_True in Hport by done.
    rewrite flatten_server. rewrite decide_False, decide_True by done. cbn [default from_option id].
    destruct (ce_host e) as [|x h] eqn:Eh; [done|].
    rewrite (get_int_shown c _ (ce_id e)), (get_int_shown c _ (ce_port e)) by done.
    rewrite <- Eh, IH, (drop_S _ _ _ Ee) by lia. cbn [take].
    replace (Z.to_nat (i + 1)) with (S (Z.to_nat i)) by lia. by destruct e.
  - cbn [default from_option id]. rewrite drop_ge; [done|]. by apply lookup_ge_None.
Qed.

Lemma setting_dotted j name : setting j name = servers_key ++ dot :: (show_Z j ++ dot :: name).
Proof. unfold setting, indexed. by rewrite <- app_assoc. Qed.

Lemma configured_settings fs1 es fs2 j name :
  Forall (λ f, f.1 ≠ [] ∧ f.1 ≠ servers_key ∧ no_char dot f.1) (fs1 ++ fs2) →
  0 ≤ j → name ∈ [lit "id"; lit "host"; lit "port"] →
  flatten_fields [] (fs1 ++ (servers_key, JArr (map server_json es)) :: fs2) ∅ !! setting j name =
    match es !! Z.to_nat j with
    | Some e => flatten (indexed servers_key j) (server_json e) ∅ !! setting j name
    | None => None
    end.
Proof.
  intros [H1 H2]%Forall_app Hj Hname. assert (no_char dot servers_key) as Hdot by lit_no_char.
  rewrite flatten_fields_app. cbn [flatten_fields dotted].
  rewrite (setting_dotted j name). rewrite other_fields by done. rewrite <- setting_dotted.
  rewrite flatten_arr, flatten_servers, decide_False, Z.sub_0_r by lia.
  assert (flatten_fields [] fs1 ∅ !! setting j name = None) as Hm.
  { rewrite setting_dotted, other_fields by done. apply lookup_empty. }
  destruct (es !! Z.to_nat j) as [e|]; [|exact Hm].
  rewrite !flatten_server, Hm, lookup_empty. done.
Qed.

(** C39: the cluster servers written in a configuration file are the ones the
    head server uses.  For any file with a list of servers among other fields,
    printed with any white space, loading returns and [get_cluster_servers]
    gives the first hundred of the list, with their ids, hosts and ports; no
    environment variable is set that overrides them. *)
Theorem cluster_servers_configured (w : bytes) (fs1 fs2 : list (bytes * json))
    (es : list ClusterServerEntry) (files : Files) (path : bytes) (c : ConfigLoader) (fuel : nat) :
  let fs := fs1 ++ (servers_key, JArr (map server_json es)) :: fs2 in
  Forall (λ x, json_ws x = true) w →
  Forall (λ f, f.1 ≠ [] ∧ f.1 ≠ servers_key ∧ no_char dot f.1) (fs1 ++ fs2) →
  Forall (λ f, wf_json f.2) (fs1 ++ fs2) → Forall entry_ok es →
  files path = Some (config_text w fs) →
  (object_fuel (length (config_text w fs)) ≤ fuel)%nat →
  ∃ c' ok, load fuel files c path = Some (c', ok) ∧ get_cluster_servers getenv c' = take 100 es.
Proof.
  cbv zeta. set (fs := fs1 ++ _ :: fs2). intros Hw Hothers Hwf Hes Hfile Hf.
  assert (wf_json (JObj fs)) as Hj.
  { constructor. unfold fs. apply Forall_app in Hothers as [Ho1 Ho2], Hwf as [Hw1 Hw2].
    assert (∀ l, Forall (λ f : bytes * json, f.1 ≠ [] ∧ f.1 ≠ servers_key ∧ no_char dot f.1) l →
      Forall (λ f : bytes * json, wf_json f.2) l → Forall (λ f, f.1 ≠ [] ∧ wf_json f.2) l) as Hb.
    { intros l Hl1 Hl2.
      eapply Forall_impl; [apply Forall_and; split; [exact Hl1|exact Hl2]|].
      by intros f [(? & _ & _) ?]. }
    apply Forall_app. split; [by apply Hb|]. constructor; [|by apply Hb]. split; [done|].
    constructor. apply Forall_fmap, Forall_forall. intros e _. constructor.
    repeat constructor; try done; apply token_show_Z. }
  pose proof (text_loaded w fs files path Hw Hj Hfile c fuel Hf) as Hload.
  assert (∀ c', values c' = flatten_fields [] fs ∅ → get_cluster_servers getenv c' = take 100 es) as Hget.
  { intros c' Hv. unfold get_cluster_servers.
    rewrite (probe_configured c' es 100 0); [done|done|lia|]. intros j name Hj' Hn.
    rewrite Hv. by apply configured_settings. }
  case_decide as He; eexists _, _; (split; [exact Hload|]); apply Hget; [by rewrite He|done].
Qed.
End servers.

(** A reload that fails loses the configuration for good.  Whatever was
    loaded, when the file cannot be read, is not an object or has no entry at
    the time of a reload, every setting is gone, and so is the path: all later
    reloads do nothing, with whatever files. *)
Theorem failed_reload_forgets (fuel fuel' : nat) (files files' : Files) (c c' : ConfigLoader) :
  filepath c ≠ [] → reload fuel files c = Some (c', false) →
  c' = new_config ∧ reload fuel' files' c' = Some (c', false).
Proof.
  intros Hp. unfold reload. destruct (filepath c) as [|x p] eqn:E; [done|]. clear Hp.
  unfold load_impl. intros Hr. assert (c' = new_config) as ->; [|done].
  destruct (files (x :: p)) as [content|]; [|by injection Hr as <-].
  destruct (trim content) as [|y t]; [by injection Hr as <-|].
  case_decide; [|by injection Hr as <-].
  destruct (parse_json fuel content [] ∅) as [m|]; [|done]. cbn [mbind option_bind] in Hr.
  case_decide as Hm; [|done]. injection Hr as <-. by rewrite Hm.
Qed.

(** C40: the loader returns, except on some malformed files.  When it returns on
    a text at all, it does within a fuel linear in the text's length; it returns
    on every text without arrays; and on a text whose first field is an array
    closed by '}' it adds empty elements for ever. *)
Theorem config_parser_returns (content : bytes) (m : Values) :
  ((∃ fuel, is_Some (parse_json fuel content [] m)) ↔
   is_Some (parse_json (object_fuel (length content)) content [] m)) ∧
  (no_array content → is_Some (parse_json (object_fuel (length content)) content [] m)) ∧
  (∀ k rest fuel, k ≠ [] →
     parse_json fuel (lit "{" ++ quoted k ++ lit ":[}" ++ rest) [] m = None).
Proof.
  split; [|split].
  - split; [|by eauto]. intros (fuel & m' & Hp). exists m'. by eapply fuel_decides.
  - intros Hn%no_array_skip. unfold parse_json. pose proof (length_skip_ws content) as Hl.
    destruct (skip_ws content) as [|c s]; [by eexists|]. cbn [length] in Hl.
    case_decide; [|case_decide; [subst c; destruct Hn; by left|by eexists]].
    destruct (object_returns (S (length s)) s (object_fuel (length content)) [] m)
      as (r & -> & _); [lia|unfold object_fuel; lia|by apply (no_array_suffix [c])|by eexists].
  - intros k rest fuel Hk. set (s := quoted k ++ lit ":[}" ++ rest).
    change (parse_json fuel (lit "{" ++ s) [] m) with (snd <$> parse_object fuel s [] m).
    destruct fuel as [|fuel]; [done|]. rewrite parse_object_step.
    change (skip_ws s) with s. unfold s at 1. unfold quoted at 1. cbn [app].
    repeat rewrite decide_False by done.
    pose proof (quoted_token k (lit ":[}" ++ rest)) as Hq. unfold quoted in Hq. cbn [app] in Hq.
    rewrite Hq, decide_False by done.
    change (after_colon (lit ":[}" ++ rest)) with ("["%char :: "}"%char :: rest).
    destruct fuel as [|fuel]; [done|]. cbn [parse_item].
    rewrite decide_False, decide_True by done. by rewrite array_stuck.
Qed.

(** ** Concrete files *)
Definition demo_others : list (bytes * json) :=
  [(lit "server", JObj [(lit "port", JTok (lit "9669"))]); (lit "note", JStr [dq; "\"%char])].
Definition demo_entries : list ClusterServerEntry :=
  [mkClusterServer 7 (lit "10.0.0.1") 8081; mkClusterServer 9 (lit "10.0.0.2") 8082].
Definition demo_fields : list (bytes * json) :=
  (servers_key, JArr (map server_json demo_entries)) :: demo_others.
Definition demo_space : bytes := [nl; sp; sp].
Definition demo_files (path : bytes) : option bytes :=
  if decide (path = lit "c.json") then Some (config_text demo_space demo_fields) else None.

Example demo_loaded :
  (λ r : ConfigLoader * bool, (get_cluster_servers (λ _, None) r.1, get_int (λ _, None) r.1 (lit "server.port") 0))
    <$> load 1000 demo_files new_config (lit "c.json") = Some (demo_entries, 9669).
Proof. vm_compute. reflexivity. Qed.

Lemma cluster_servers_configured_witness :
  ∃ c' ok, load (object_fuel (length (config_text demo_space demo_fields))) demo_files new_config
             (lit "c.json") = Some (c', ok) ∧ get_cluster_servers (λ _, None) c' = demo_entries.
Proof.
  apply (cluster_servers_configured (λ _, None)) with (w := demo_space) (fs1 := []) (fs2 := demo_others)
    (es := demo_entries).
  - intros key. unfold env_override, env_alias, env_value. by repeat case_decide.
  - by_decision.
  - by_decision.
  - by repeat constructor.
  - by repeat constructor.
  - by vm_compute.
  - done.
Defined.

Lemma failed_reload_forgets_witness :
  reload 9 (λ _, None) (mkConfig {[lit "server.port" := lit "9669"]} (lit "c.json") true) =
    Some (new_config, false) ∧
  reload 9 demo_files new_config = Some (new_config, false).
Proof.
  split; [done|].
  apply (failed_reload_forgets 9 9 (λ _, None) demo_files
    (mkConfig {[lit "server.port" := lit "9669"]} (lit "c.json") true) new_config); done.
Defined.
