(* ===== verification/ZkMonitor.v ===== *)
(** * ZkMonitor: the ZooKeeper monitor and its leader election
    (src/src/zk_monitor/zk_monitor.cpp)

    The monitor is the coordination store it works on ([Zk]) and its own
    fields; the clock, the result of every connection attempt, the random
    numbers and the contents of an [int] that is never written are arguments. *)
From Stdlib Require Import Lia SpecFloat.
From S2P Require Import Prelude.
From S2P Require Import Text.
From S2P Require Import Ordered.
From S2P Require Import Float.
From S2P Require Import Zk.
From S2P Require Import JsonText.
From S2P Require Import Http.
Local Open Scope Z_scope.

(** ** The client wrapper *)
Record ZkWrapper := mkWrapper { zk : ZkClient; w_connected : bool }.

(** [connect()]: it installs the watch first; connecting always succeeds. *)
Definition wrapper_connect (w : ZkWrapper) : ZkWrapper :=
  if w_connected w then w
  else let '(c, _) := connect (mkClient (hosts (zk w)) (connected (zk w)) true) in mkWrapper c true.

Definition ZOO_AUTH_FAILED_STATE : Z := -113.

Definition handle_watch_event (w : ZkWrapper) (e : watch_event) : ZkWrapper :=
  let '(_, state, _) := e in
  if decide (state = ZOO_CONNECTED_STATE) then mkWrapper (zk w) true
  else if decide (state = ZOO_EXPIRED_SESSION_STATE) then wrapper_connect (mkWrapper (zk w) false)
  else if decide (state = ZOO_AUTH_FAILED_STATE) then mkWrapper (zk w) false
  else w.

Definition new_wrapper (connection_string : bytes) : ZkWrapper :=
  wrapper_connect (mkWrapper (mkClient connection_string false false) false).

Definition is_ok (rc : zcode) : bool := bool_decide (rc = ZOK).

(** [create_node]: missing parents first; recursion on the parent's path. *)
Fixpoint wrapper_create (fuel : nat) (w : ZkWrapper) (s : ZkStore) (path data : bytes) (eph : bool)
  : ZkWrapper * ZkStore * bool :=
  match fuel with
  | O => (w, s, false)
  | S fuel =>
      let w := wrapper_connect w in
      let '(w, s) :=
        match find_last_of "/"%char path with
        | Some ((S _) as pos) =>
            let parent := take pos path in
            if node_exists s parent then (w, s)
            else let '(w, s, _) := wrapper_create fuel w s parent [] false in (w, s)
        | _ => (w, s)
        end in
      let '(s, rc, ev) := create_node (zk w) s path data eph false in
      (fold_left handle_watch_event ev w, s, bool_decide (rc = ZOK ∨ rc = ZNODEEXISTS))
  end.
Definition create_path (w : ZkWrapper) (s : ZkStore) (path data : bytes) (eph : bool)
  : ZkWrapper * ZkStore * bool := wrapper_create (S (length path)) w s path data eph.

Definition update_node (w : ZkWrapper) (s : ZkStore) (path data : bytes) : ZkWrapper * ZkStore * bool :=
  let w := wrapper_connect w in
  let '(s, rc, ev) := set_node_data (zk w) s path data in
  (fold_left handle_watch_event ev w, s, is_ok rc).

Definition remove_node (w : ZkWrapper) (s : ZkStore) (path : bytes) : ZkWrapper * ZkStore * bool :=
  let w := wrapper_connect w in
  let '(s, rc, ev) := delete_node (zk w) s path in
  (fold_left handle_watch_event ev w, s, is_ok rc).

(** The reading calls connect first too, which always succeeds; below they are
    written as reads of the store, since a monitor is connected from its
    start ([wrapper_read_connected]). *)
Definition wrapper_read {A} (read : ZkStore → A) (w : ZkWrapper) (s : ZkStore) : ZkWrapper * A :=
  (wrapper_connect w, read s).
Definition wrapper_get (path : bytes) := wrapper_read (λ s, get_node_data s path).
Definition wrapper_exists (path : bytes) := wrapper_read (λ s, node_exists s path).
Definition wrapper_children (path : bytes) := wrapper_read (λ s, get_children s path).
Lemma wrapper_read_connected {A} (read : ZkStore → A) w s :
  w_connected w = true → wrapper_read read w s = (w, read s).
Proof. intros E. unfold wrapper_read, wrapper_connect. by rewrite E. Qed.

(** Written if it is there, created otherwise. *)
Definition put_node (w : ZkWrapper) (s : ZkStore) (path data : bytes) (eph : bool)
  : ZkWrapper * ZkStore * bool :=
  if node_exists s path then update_node w s path data else create_path w s path data eph.

(** ** The monitor's state *)
Record HeadServerInfo := mkInfo {
  server_id : bytes;
  ip_address : bytes;
  port : Z;
  last_heartbeat : Z;
  last_health_check : Z;
  is_leader : bool;
  status : bytes;
  cpu_usage : spec_float;
  memory_usage : spec_float;
  active_connections : Z;
  consecutive_failures : Z
}.

Record Monitor := mkMon {
  mon_zk : ZkWrapper;
  mon_store : ZkStore;
  head_servers : gmap bytes HeadServerInfo;
  monitor_id : bytes;
  leader_server_id : bytes;
  failure_counts : gmap bytes Z;
  leader_elections : Z;
  health_checks : Z;
  health_check_failures : Z;
  healthy_head_servers : Z          (* the gauge *)
}.

Definition ZK_ROOT_PATH : bytes := lit "/distributed_file_grid".
Definition HEAD_SERVERS_PATH : bytes := ZK_ROOT_PATH ++ lit "/head_servers".
Definition MONITORS_PATH : bytes := ZK_ROOT_PATH ++ lit "/monitors".
Definition REPORTS_PATH : bytes := ZK_ROOT_PATH ++ lit "/health_reports".
Definition LEADER_PATH : bytes := ZK_ROOT_PATH ++ lit "/leader".
Definition server_path (id : bytes) : bytes := HEAD_SERVERS_PATH ++ slash ++ id.

Definition healthy : bytes := lit "healthy".
Definition unhealthy : bytes := lit "unhealthy".

(** [HeadServerInfo()]: the port is not initialised. *)
Definition new_info (garbage now : Z) : HeadServerInfo :=
  mkInfo [] [] garbage 0 now false (lit "unknown") (S754_zero false) (S754_zero false) 0 0.

(** ** Reading a server's node *)
Definition set_field (info : HeadServerInfo) (key value : bytes) : exc HeadServerInfo :=
  let '(mkInfo id ip p hb hc ld st cpu mem act cf) := info in
  if decide (key = lit "ip") then Val (mkInfo id value p hb hc ld st cpu mem act cf)
  else if decide (key = lit "port") then
    p ← stoi value; Val (mkInfo id ip p hb hc ld st cpu mem act cf)
  else if decide (key = lit "status") then Val (mkInfo id ip p hb hc ld value cpu mem act cf)
  else if decide (key = lit "cpu_usage") then
    cpu ← stod value; Val (mkInfo id ip p hb hc ld st cpu mem act cf)
  else if decide (key = lit "memory_usage") then
    mem ← stod value; Val (mkInfo id ip p hb hc ld st cpu mem act cf)
  else if decide (key = lit "active_connections") then
    act ← stoi value; Val (mkInfo id ip p hb hc ld st cpu mem act cf)
  else if decide (key = lit "last_update") then
    hb ← stoll value; Val (mkInfo id ip p hb hc ld st cpu mem act cf)
  else Val info.

Fixpoint set_fields (info : HeadServerInfo) (tokens : list bytes) : exc HeadServerInfo :=
  match tokens with
  | [] => Val info
  | token :: rest =>
      match find_char "="%char token with
      | None => set_fields info rest
      | Some eq_pos =>
          info ← set_field info (take eq_pos token) (drop (eq_pos + 1) token);
          set_fields info rest
      end
  end.
Definition parse_server_data (garbage now : Z) (data : bytes) : exc HeadServerInfo :=
  set_fields (new_info garbage now) (getlines ","%char data).

Definition with_id (info : HeadServerInfo) (id : bytes) : HeadServerInfo :=
  mkInfo id (ip_address info) (port info) (last_heartbeat info) (last_health_check info)
    (is_leader info) (status info) (cpu_usage info) (memory_usage info) (active_connections info)
    (consecutive_failures info).
Definition with_status (info : HeadServerInfo) (st : bytes) (leader : bool) : HeadServerInfo :=
  mkInfo (server_id info) (ip_address info) (port info) (last_heartbeat info)
    (last_health_check info) leader st (cpu_usage info) (memory_usage info)
    (active_connections info) (consecutive_failures info).
Definition with_check (info : HeadServerInfo) (now : Z) : HeadServerInfo :=
  mkInfo (server_id info) (ip_address info) (port info) (last_heartbeat info) now
    (is_leader info) (status info) (cpu_usage info) (memory_usage info) (active_connections info)
    (consecutive_failures info).

(** ** Health checks *)

(** "id:ip:port", the key of [failure_counts]. *)
Definition server_key (info : HeadServerInfo) : bytes :=
  server_id info ++ colon :: ip_address info ++ colon :: show_Z (port info).

(** [attempt k ip port]: whether the [k]-th connection attempt succeeds. *)
Definition Attempts : Type := nat → bytes → Z → bool.
Definition MAX_RETRIES : nat := 3.
Definition reachable (attempt : Attempts) (info : HeadServerInfo) : bool :=
  existsb (λ k, attempt k (ip_address info) (wrap 16 (port info))) (seq 0 MAX_RETRIES).

Definition five_seconds : Z := 5 * 1000000000.

(** The server's record and the failure counts afterwards, and the answer. *)
Definition check_head_server_health (now : Z) (attempt : Attempts) (counts : gmap bytes Z)
    (info : HeadServerInfo) : gmap bytes Z * HeadServerInfo * bool :=
  if bool_decide (now - last_health_check info < five_seconds)
     && bool_decide (status info = healthy)
  then (counts, info, true)
  else
    let key := server_key info in
    if reachable attempt info then (<[key := 0]> counts, with_check info now, true)
    else
      let failures := default 0 (counts !! key) + 1 in
      (<[key := failures]> counts,
       if decide (3 ≤ failures) then with_status info unhealthy (is_leader info) else info,
       false).

(** ** Discovery *)
Definition add_server (garbage now : Z) (s : ZkStore) (m : gmap bytes HeadServerInfo) (name : bytes)
  : exc (gmap bytes HeadServerInfo) :=
  match get_node_data s (server_path name) with
  | [] => Val m
  | data => info ← parse_server_data garbage now data; Val (<[name := with_id info name]> m)
  end.

(** The servers found, and whether the end was reached: a field that is not a
    number throws. *)
Fixpoint discover (garbage now : Z) (s : ZkStore) (m : gmap bytes HeadServerInfo) (names : list bytes)
  : gmap bytes HeadServerInfo * bool :=
  match names with
  | [] => (m, true)
  | name :: rest =>
      match add_server garbage now s m name with
      | Throw _ => (m, false)
      | Val m => discover garbage now s m rest
      end
  end.

Definition with_servers (mon : Monitor) (m : gmap bytes HeadServerInfo) : Monitor :=
  mkMon (mon_zk mon) (mon_store mon) m (monitor_id mon) (leader_server_id mon) (failure_counts mon)
    (leader_elections mon) (health_checks mon) (health_check_failures mon) (healthy_head_servers mon).

Definition discover_head_servers (garbage now : Z) (mon : Monitor) : Monitor * bool :=
  let names := get_children (mon_store mon) HEAD_SERVERS_PATH in
  let '(m, ok) := discover garbage now (mon_store mon) ∅ names in
  (with_servers mon m, ok).

(** ** The leader election *)

(** [<] and [==] on doubles. *)
Definition better (a b : HeadServerInfo) : bool :=
  SFltb (cpu_usage a) (cpu_usage b) && SFltb (memory_usage a) (memory_usage b).
Definition same_load (a b : HeadServerInfo) : bool :=
  SFeqb (cpu_usage a) (cpu_usage b) && SFeqb (memory_usage a) (memory_usage b).

Definition prefer (id : bytes) (info : HeadServerInfo) (best : option (bytes * HeadServerInfo))
  : option (bytes * HeadServerInfo) :=
  match best with
  | None => Some (id, info)
  | Some (bid, b) =>
      if better info b then Some (id, info)
      else if same_load info b && str_ltb id (server_id b) then Some (id, info)
      else best
  end.

(** One step of the search for the best candidate. *)
Definition consider (now : bytes → Z) (attempt : bytes → Attempts)
    (st : gmap bytes HeadServerInfo * gmap bytes Z * option (bytes * HeadServerInfo))
    (entry : bytes * HeadServerInfo)
  : gmap bytes HeadServerInfo * gmap bytes Z * option (bytes * HeadServerInfo) :=
  let '(m, counts, best) := st in
  let '(id, info) := entry in
  if decide (status info = healthy) then (m, counts, prefer id info best)
  else
    let '(counts, info, ok) := check_head_server_health (now id) (attempt id) counts info in
    (<[id := info]> m, counts, if ok : bool then prefer id info best else best).

Definition least_failures (m : gmap bytes HeadServerInfo) : option (bytes * HeadServerInfo) :=
  fold_left (λ best e,
      match best with
      | Some b => if decide (consecutive_failures e.2 < consecutive_failures b.2) then Some e else best
      | None => Some e
      end) (smap_list m) None.

Definition field (name value : bytes) : bytes := lit "," ++ name ++ "="%char :: value.
Definition address_fields (info : HeadServerInfo) : bytes :=
  lit "ip=" ++ ip_address info ++ field (lit "port") (show_Z (port info)).

Definition demoted_data (now : Z) (info : HeadServerInfo) : bytes :=
  address_fields info ++ field (lit "status") unhealthy ++ field (lit "last_update") (show_Z now).
Definition leader_data (now : Z) (info : HeadServerInfo) : bytes :=
  lit "server_id=" ++ server_id info ++ field (lit "elected_at") (show_Z now)
  ++ field (lit "ip") (ip_address info) ++ field (lit "port") (show_Z (port info)).
Definition degraded_data (now : Z) (info : HeadServerInfo) : bytes :=
  lit "server_id=" ++ server_id info ++ field (lit "status") (lit "degraded")
  ++ field (lit "elected_at") (show_Z now)
  ++ field (lit "ip") (ip_address info) ++ field (lit "port") (show_Z (port info)).
Definition promoted_data (now : Z) (info : HeadServerInfo) : bytes :=
  address_fields info ++ field (lit "status") (lit "leader")
  ++ field (lit "cpu_usage") (show_f6 (cpu_usage info))
  ++ field (lit "memory_usage") (show_f6 (memory_usage info))
  ++ field (lit "active_connections") (show_Z (active_connections info))
  ++ field (lit "last_update") (show_Z now).

Definition with_zk (mon : Monitor) (r : ZkWrapper * ZkStore * bool) : Monitor :=
  mkMon r.1.1 r.1.2 (head_servers mon) (monitor_id mon) (leader_server_id mon) (failure_counts mon)
    (leader_elections mon) (health_checks mon) (health_check_failures mon) (healthy_head_servers mon).
Definition with_election (mon : Monitor) (m : gmap bytes HeadServerInfo) (counts : gmap bytes Z)
    (leader : bytes) (elected : Z) : Monitor :=
  mkMon (mon_zk mon) (mon_store mon) m (monitor_id mon) leader counts
    (leader_elections mon + elected) (health_checks mon) (health_check_failures mon)
    (healthy_head_servers mon).

(** The result of looking at the current leader: it stays, or there is an
    election, with the id of a leader that was demoted. *)
Definition review_leader (now : Z) (check_at : bytes → Z) (attempt : bytes → Attempts) (mon : Monitor)
  : Monitor * option bytes :=
  match list_find (λ e, is_leader e.2 = true) (smap_list (head_servers mon)) with
  | None => (mon, Some [])
  | Some (_, (id, info)) =>
      let '(counts, info, ok) :=
        check_head_server_health (check_at id) (attempt id) (failure_counts mon) info in
      if ok : bool
      then (with_election mon (<[id := info]> (head_servers mon)) counts (leader_server_id mon) 0, None)
      else
        let info := with_status info unhealthy false in
        let mon := with_election mon (<[id := info]> (head_servers mon)) counts (leader_server_id mon) 0 in
        let path := server_path (server_id info) in
        (if node_exists (mon_store mon) path
         then with_zk mon (update_node (mon_zk mon) (mon_store mon) path (demoted_data now info))
         else mon,
         Some id)
  end.

Definition clear_leader (m : gmap bytes HeadServerInfo) (id : bytes) : gmap bytes HeadServerInfo :=
  match m !! id with
  | Some info => if decide (id = []) then m else <[id := with_status info (status info) false]> m
  | None => m
  end.

(** [recheck_at], [reattempt]: the checks made while looking for a candidate. *)
Definition perform_leader_election (now : Z) (check_at recheck_at : bytes → Z)
    (attempt reattempt : bytes → Attempts) (mon : Monitor) : Monitor :=
  match review_leader now check_at attempt mon with
  | (mon, None) => mon
  | (mon, Some current_leader) =>
      let '(m, counts, best) :=
        fold_left (consider recheck_at reattempt) (smap_list (head_servers mon))
          (head_servers mon, failure_counts mon, None) in
      match best with
      | Some (id, _) =>
          match clear_leader m current_leader !! id with
          | None => mon                              (* not reached *)
          | Some info =>
              let info := with_status info healthy true in
              let mon := with_election mon (<[id := info]> (clear_leader m current_leader)) counts
                           (server_id info) 1 in
              let mon := with_zk mon
                (put_node (mon_zk mon) (mon_store mon) LEADER_PATH (leader_data now info) false) in
              with_zk mon
                (put_node (mon_zk mon) (mon_store mon) (server_path (server_id info))
                   (promoted_data now info) true)
          end
      | None =>
          match least_failures m with
          | Some (id, info) =>
              let info := with_status info (lit "degraded") true in
              let mon := with_election mon (<[id := info]> m) counts (server_id info) 0 in
              with_zk mon
                (put_node (mon_zk mon) (mon_store mon) LEADER_PATH (degraded_data now info) false)
          | None => with_election mon m counts (leader_server_id mon) 0
          end
      end
  end.

(** ** The report *)
Definition endl : bytes := [nl].
Definition report_line (id : bytes) (info : HeadServerInfo) : bytes :=
  lit "  Server: " ++ id ++ lit " | Status: " ++ status info
  ++ lit " | Address: " ++ ip_address info ++ colon :: show_Z (port info)
  ++ lit " | Leader: " ++ (if is_leader info then lit "Yes" else lit "No")
  ++ lit " | CPU: " ++ show_g (cpu_usage info) ++ lit "%"
  ++ lit " | Memory: " ++ show_g (memory_usage info) ++ lit "%"
  ++ lit " | Connections: " ++ show_Z (active_connections info) ++ endl.

Definition health_report (mon : Monitor) : bytes :=
  let servers := smap_list (head_servers mon) in
  let total := show_nat (length servers) in
  lit "=== Head Server Health Report ===" ++ endl
  ++ lit "Monitor ID: " ++ monitor_id mon ++ endl
  ++ lit "Current Leader: "
  ++ (match leader_server_id mon with [] => lit "None" | l => l end) ++ endl
  ++ lit "Total Head Servers: " ++ total ++ endl
  ++ concat (map (λ e, report_line e.1 e.2) servers)
  ++ lit "Healthy Servers: "
  ++ show_nat (length (filter (λ e, status e.2 = healthy) servers)) ++ lit "/" ++ total ++ endl.

Definition generate_health_report (mon : Monitor) : Monitor :=
  let report := health_report mon in
  let path := REPORTS_PATH ++ slash ++ monitor_id mon in
  let mon := with_zk mon (create_path (mon_zk mon) (mon_store mon) REPORTS_PATH [] false) in
  with_zk mon (put_node (mon_zk mon) (mon_store mon) path report false).

(** ** One turn of [monitor_loop] *)
Definition check_one (now : bytes → Z) (attempt : bytes → Attempts)
    (st : gmap bytes HeadServerInfo * gmap bytes Z * Z) (entry : bytes * HeadServerInfo)
  : gmap bytes HeadServerInfo * gmap bytes Z * Z :=
  let '(m, counts, up) := st in
  let '(id, info) := entry in
  let '(counts, info, ok) := check_head_server_health (now id) (attempt id) counts info in
  (<[id := with_status info (if ok : bool then healthy else unhealthy) (is_leader info)]> m, counts,
   if ok : bool then up + 1 else up).

(** What the environment answers during one turn. *)
Record Turn := mkTurn {
  t_garbage : Z;                     (* the uninitialised port *)
  t_discovered : Z;                  (* the clock, then at each check *)
  t_check_at : bytes → Z;
  t_attempt : bytes → Attempts;
  t_election : Z;
  t_leader_at : bytes → Z;
  t_leader_attempt : bytes → Attempts;
  t_recheck_at : bytes → Z;
  t_reattempt : bytes → Attempts
}.

Definition check_servers (t : Turn) (mon : Monitor) : Monitor :=
  let '(m, counts, up) :=
    fold_left (check_one (t_check_at t) (t_attempt t)) (smap_list (head_servers mon))
      (head_servers mon, failure_counts mon, 0) in
  mkMon (mon_zk mon) (mon_store mon) m (monitor_id mon) (leader_server_id mon) counts
    (leader_elections mon) (health_checks mon + Z.of_nat (size (head_servers mon)))
    (health_check_failures mon + (Z.of_nat (size (head_servers mon)) - up)) up.

Definition monitor_turn (t : Turn) (mon : Monitor) : Monitor :=
  match discover_head_servers (t_garbage t) (t_discovered t) mon with
  | (mon, false) => mon                              (* "Error in monitor loop" *)
  | (mon, true) =>
      generate_health_report
        (perform_leader_election (t_election t) (t_leader_at t) (t_recheck_at t) (t_leader_attempt t)
           (t_reattempt t) (check_servers t mon))
  end.

(** ** Starting *)
Definition new_monitor (zk_connection_string id : bytes) (s : ZkStore) : Monitor :=
  let create r path data := create_path r.1.1 r.1.2 path data false in
  let r := (new_wrapper zk_connection_string, s, true) in
  let r := create r ZK_ROOT_PATH (lit "Distributed File Grid Root") in
  let r := create r HEAD_SERVERS_PATH (lit "Head Servers Registry") in
  let r := create r MONITORS_PATH (lit "Monitors Registry") in
  let r := create r REPORTS_PATH (lit "Health Reports") in
  mkMon r.1.1 r.1.2 ∅ id [] ∅ 0 0 0 0.

Definition register_monitor (now : Z) (host : bytes) (mon : Monitor) : Monitor :=
  with_zk mon (create_path (mon_zk mon) (mon_store mon) (MONITORS_PATH ++ slash ++ monitor_id mon)
    (lit "monitor_id=" ++ monitor_id mon ++ field (lit "start_time") (show_Z now)
     ++ field (lit "host") host) true).

(** [rand() % 30], [rand() % 50] and [rand() % 100]. *)
Definition whole (z : Z) : spec_float := binary_normalize f64_prec f64_emax z 0 false.
Definition registration_data (now r_cpu r_mem r_conn : Z) (ip : bytes) (p : Z) : bytes :=
  lit "ip=" ++ ip ++ field (lit "port") (show_Z p) ++ field (lit "status") healthy
  ++ field (lit "cpu_usage") (show_f6 (SFadd f64_prec f64_emax (whole 10) (whole r_cpu)))
  ++ field (lit "memory_usage") (show_f6 (SFadd f64_prec f64_emax (whole 40) (whole r_mem)))
  ++ field (lit "active_connections") (show_Z r_conn)
  ++ field (lit "last_update") (show_Z now).

Definition simulate_head_server_registration (now r_cpu r_mem r_conn : Z) (id ip : bytes) (p : Z)
    (mon : Monitor) : Monitor * bool :=
  let r := create_path (mon_zk mon) (mon_store mon) (server_path id)
             (registration_data now r_cpu r_mem r_conn ip p) true in
  (with_zk mon r, r.2).

(** ** The interactive mode: one line; [None]: quit *)
Definition interactive_line (now r_cpu r_mem r_conn : Z) (line : bytes) (mon : Monitor)
  : option Monitor :=
  match read_word line with
  | Some (cmd, rest) =>
      if decide (cmd = lit "register") then
        match ('(id, rest) ← read_word rest; '(ip, rest) ← read_word rest;
               '(p, _) ← read_int rest; Some (id, ip, p)) with
        | Some (id, ip, p) =>
            Some (simulate_head_server_registration now r_cpu r_mem r_conn id ip p mon).1
        | None => Some mon
        end
      else if decide (cmd = lit "status") then Some (generate_health_report mon)
      else if decide (cmd = lit "quit") then None
      else Some mon
  | None => Some mon
  end.

(** ** The master API *)
Definition member (name : string) (value : bytes) : bytes := quoted (lit name) ++ colon :: value.
Definition bool_text (b : bool) : bytes := if b then lit "true" else lit "false".

Definition ok_head : bytes :=
  lit "HTTP/1.1 200 OK" ++ crlf ++ lit "Content-Type: application/json" ++ crlf
  ++ lit "Connection: close" ++ crlf ++ crlf.
Definition error_response (line : string) (msg : string) : bytes :=
  lit line ++ crlf ++ crlf ++ lit "{" ++ member "error" (quoted (lit msg)) ++ lit "}".

Definition server_object (e : bytes * HeadServerInfo) : bytes :=
  lit "{" ++ member "id" (quoted e.1) ++ lit "," ++ member "ip" (quoted (ip_address e.2)) ++ lit ","
  ++ member "port" (show_Z (port e.2)) ++ lit "," ++ member "status" (quoted (status e.2)) ++ lit ","
  ++ member "is_leader" (bool_text (is_leader e.2)) ++ lit "}".

(** The data of a body with a data member, up to the next quote. *)
Definition body_data (req : bytes) : bytes :=
  let body := default [] (http_body req) in
  match find (dq :: lit "data" ++ dq :: colon :: [dq]) body with
  | None => []
  | Some data_pos =>
      match find_from [dq] body (data_pos + 8) with
      | Some end_pos => take (end_pos - (data_pos + 8)) (drop (data_pos + 8) body)
      | None => []
      end
  end.

(** [received]: what one [recv] of at most 4095 bytes returned. *)
Definition master_api (received : bytes) (mon : Monitor) : Monitor * bytes :=
  let req := take_while (λ c, negb (bool_decide (c = "000"%char))) received in
  let '(method, rest) := default ([], []) (read_word req) in
  let '(path, _) := default ([], []) (read_word rest) in
  if decide (path = lit "/api/v1/master/head_servers") then
    (mon, ok_head ++ lit "{" ++ quoted (lit "head_servers") ++ lit ":["
          ++ comma_separated (map server_object (smap_list (head_servers mon))) ++ lit "]}")
  else if starts_with (lit "/api/v1/master/znode") path then
    let query := match find_char "?"%char path with Some q => drop (q + 1) path | None => [] end in
    let zpath := if starts_with (lit "path=") query then drop 5 query else [] in
    let answer (r : ZkWrapper * ZkStore * bool) :=
      (with_zk mon r, ok_head ++ lit "{" ++ member "success" (bool_text r.2) ++ lit "}") in
    if decide (zpath = []) then
      (mon, error_response "HTTP/1.1 400 Bad Request" "Missing path parameter")
    else if decide (method = lit "GET") then
      (mon, ok_head ++ lit "{" ++ member "path" (quoted zpath) ++ lit ","
            ++ member "data" (quoted (get_node_data (mon_store mon) zpath)) ++ lit "}")
    else if decide (method = lit "DELETE") then answer (remove_node (mon_zk mon) (mon_store mon) zpath)
    else if decide (method = lit "POST") then
      answer (put_node (mon_zk mon) (mon_store mon) zpath (body_data req) false)
    else (mon, ok_head)
  else (mon, error_response "HTTP/1.1 404 Not Found" "Not Found").
