(* ===== verification/ZkMonitorSpec.v ===== *)
(** * ZkMonitorSpec: what the ZooKeeper monitor guarantees
    (src/src/zk_monitor/zk_monitor.cpp)

    Creating a node creates the way to it; a turn of the monitor elects a
    leader whenever a server answers. *)
From Stdlib Require Import Lia SpecFloat.
From S2P Require Import Prelude.
From S2P Require Import Text.
From S2P Require Import Ordered.
From S2P Require Import Float.
From S2P Require Import Zk.
From S2P Require Import ZkPaths.
From S2P Require Import JsonText.
From S2P Require Import Http.
From S2P Require Import ZkMonitor.
Local Open Scope Z_scope.

(** ** Creating nodes *)

(** Every node stays, with its data and at least its children. *)
Definition kept (s s' : ZkStore) : Prop :=
  ∀ q n, nodes s !! q = Some n →
    ∃ n', nodes s' !! q = Some n' ∧ node_data n' = node_data n ∧ children n ⊆ children n'.
#[export] Instance kept_preorder : PreOrder kept.
Proof.
  split.
  - intros s q n Hn. by exists n.
  - intros s1 s2 s3 H12 H23 q n Hn. destruct (H12 q n Hn) as (n2 & Hn2 & Hd & Hc).
    destruct (H23 q n2 Hn2) as (n3 & Hn3 & Hd3 & Hc3). exists n3.
    split_and!; [done|congruence|by etrans].
Qed.

Lemma kept_some s s' q : kept s s' → is_Some (nodes s !! q) → is_Some (nodes s' !! q).
Proof. intros Hk [n Hn]. destruct (Hk q n Hn) as (n' & ? & _). eauto. Qed.

Lemma kept_data s s' q :
  kept s s' → is_Some (nodes s !! normalize_path q) → get_node_data s' q = get_node_data s q.
Proof.
  intros Hk [n Hn]. destruct (Hk _ n Hn) as (n' & Hn' & Hd & _).
  unfold get_node_data. by rewrite Hn, Hn'.
Qed.

(** [w_connected] is never ahead of the client. *)
Definition wrapper_ok (w : ZkWrapper) : Prop := w_connected w = true → connected (zk w) = true.

Lemma wrapper_connect_ok w :
  wrapper_ok w → wrapper_ok (wrapper_connect w) ∧ connected (zk (wrapper_connect w)) = true.
Proof.
  unfold wrapper_ok, wrapper_connect, connect. intros Hw. destruct (w_connected w) eqn:E; [auto|].
  simpl. by destruct (connected (zk w)) eqn:Ec.
Qed.

(** The events of an operation, and the wrapper after them. *)
Definition live_events (ev : list watch_event) : Prop := Forall (λ e, e.1.2 = ZOO_CONNECTED_STATE) ev.

Lemma watch_live ev w :
  live_events ev → connected (zk w) = true →
  connected (zk (fold_left handle_watch_event ev w)) = true.
Proof.
  intros Hev. revert w. induction Hev as [|[[ty st] p] ev Hst _ IH]; intros w Hc; [done|].
  cbn in Hst. subst st. apply IH. unfold handle_watch_event. by rewrite decide_True.
Qed.

Lemma invoke_live c ty p : live_events (invoke_watch c ty ZOO_CONNECTED_STATE p).
Proof. unfold invoke_watch, live_events. destruct (has_watch c); repeat constructor. Qed.

Lemma create_node_events c s p data eph : live_events (create_node c s p data eph false).2.
Proof.
  unfold create_node. destruct (negb (connected c)); [by constructor|].
  repeat case_decide; try by constructor. apply invoke_live.
Qed.

Lemma create_node_abs c s p data eph :
  connected c = true → abs_path p → is_Some (nodes s !! parent_path p) →
  let r := create_node c s p data eph false in
  (r.1.2 = ZOK ∨ r.1.2 = ZNODEEXISTS) ∧ kept s r.1.1 ∧
  ∃ n, nodes r.1.1 !! p = Some n ∧ (nodes s !! p = None → node_data n = data).
Proof.
  intros Hc Hp Hpar. cbv zeta. destruct (abs_path_parts p Hp) as (Hs & Hcan & _).
  unfold create_node. rewrite Hc, (abs_path_normal p Hp). cbn [negb].
  destruct (decide (is_Some (nodes s !! p))) as [[n Hn]|Hno]; cbn [fst snd].
  { split_and!; [by right|done|]. exists n. split; [done|congruence]. }
  rewrite decide_False by (intros [_ E]; rewrite E in Hpar; by destruct Hpar).
  cbn [fst snd]. apply eq_None_not_Some in Hno.
  pose proof (link_node_at (nodes s) p data eph Hcan Hs Hno Hpar) as Hat.
  split_and!; [by left| |].
  - intros q n Hn. cbn [nodes]. rewrite Hat.
    rewrite decide_False by congruence. case_decide; rewrite Hn; simpl; [|by exists n].
    eexists. split_and!; [done|done|]. simpl. set_solver.
  - exists (mkNode data eph 0 ∅). cbn [nodes]. by rewrite Hat, decide_True.
Qed.

Lemma create_node_new c s p data eph q :
  abs_path p → is_Some (nodes s !! parent_path p) → q ≠ p → nodes s !! q = None →
  nodes (create_node c s p data eph false).1.1 !! q = None.
Proof.
  intros Hp Hpar Hq Hn. destruct (abs_path_parts p Hp) as (Hs & Hcan & _).
  unfold create_node. destruct (negb (connected c)); [done|]. rewrite (abs_path_normal p Hp).
  destruct (decide (is_Some (nodes s !! p))) as [|Hno]; [done|].
  rewrite decide_False by (intros [_ E]; rewrite E in Hpar; by destruct Hpar).
  cbn [fst nodes]. apply eq_None_not_Some in Hno. rewrite link_node_at by done.
  rewrite decide_False by done. by case_decide; rewrite Hn.
Qed.

(** [create_path] answers true: the node and all its ancestors exist, what
    was there is kept, and nothing longer than the path is created. *)
Definition created (w : ZkWrapper) (s : ZkStore) (p data : bytes) (r : ZkWrapper * ZkStore * bool)
  : Prop :=
  connected (zk r.1.1) = true ∧ kept s r.1.2 ∧ r.2 = true ∧
  (∃ n, nodes r.1.2 !! p = Some n ∧ (nodes s !! p = None → node_data n = data)) ∧
  (∀ q, (length p < length q)%nat → nodes s !! q = None → nodes r.1.2 !! q = None).

Lemma wrapper_create_spec fuel w s p data eph :
  wrapper_ok w → abs_path p → is_Some (nodes s !! slash) → (length p < fuel)%nat →
  created w s p data (wrapper_create fuel w s p data eph).
Proof.
  revert w s p data eph. induction fuel as [|fuel IH]; intros w s p data eph Hw Hp Hroot Hf; [lia|].
  cbn [wrapper_create].
  destruct (wrapper_connect_ok w Hw) as [Hw1 Hc1]. set (w1 := wrapper_connect w) in *. clearbody w1.
  pose proof (abs_path_cut p Hp) as Hcut. destruct (abs_path_parts p Hp) as (Hs & Hcan & _).
  pose proof (parent_path_shorter p Hcan Hs) as Hshort.
  match goal with |- created _ _ _ _ (let '(_, _) := ?x in _) => set (way := x) end.
  assert (connected (zk way.1) = true ∧ kept s way.2 ∧ is_Some (nodes way.2 !! parent_path p) ∧
     (∀ q, (length p ≤ length q)%nat → nodes s !! q = None → nodes way.2 !! q = None))
    as (Hc2 & Hk & Hpar & Hnone).
  { subst way. destruct (find_last_of "/"%char p) as [[|pos]|] eqn:E; [| |done].
    - rewrite Hcut. by split_and!.
    - destruct Hcut as [-> Hpa]. unfold node_exists. rewrite (abs_path_normal _ Hpa).
      case_bool_decide as Hex; [by split_and!|].
      destruct (IH w1 s (parent_path p) [] false Hw1 Hpa Hroot ltac:(lia))
        as (Hc & Hk & _ & (n & Hn & _) & Hnew).
      destruct (wrapper_create fuel w1 s (parent_path p) [] false) as [[w2 s2] b]. simpl in *.
      split_and!; [done|done|by eexists|]. intros q Hq. apply Hnew. lia. }
  destruct way as [w2 s2]. simpl in *.
  destruct (create_node_abs (zk w2) s2 p data eph Hc2 Hp Hpar) as (Hrc & Hk2 & n & Hn & Hnd).
  pose proof (create_node_events (zk w2) s2 p data eph) as Hev.
  pose proof (λ q, create_node_new (zk w2) s2 p data eph q Hp Hpar) as Hnew.
  destruct (create_node (zk w2) s2 p data eph false) as [[s3 rc] ev]. simpl in *.
  unfold created. simpl. split_and!.
  - by apply watch_live.
  - by etrans.
  - by apply bool_decide_true.
  - exists n. split; [done|]. intros Hp0. apply Hnd. by apply Hnone.
  - intros q Hq Hq0. apply Hnew; [intros ->; lia|]. apply Hnone; [lia|done].
Qed.

(** ** Writing nodes *)

(** As [kept], but the data of [p] may change. *)
Definition kept_except (p : bytes) (s s' : ZkStore) : Prop :=
  ∀ q n, nodes s !! q = Some n → ∃ n', nodes s' !! q = Some n' ∧ (q ≠ p → node_data n' = node_data n).

Lemma kept_except_data p s s' q :
  kept_except p s s' → normalize_path q ≠ p → is_Some (nodes s !! normalize_path q) →
  get_node_data s' q = get_node_data s q.
Proof.
  intros Hk Hq [n Hn]. destruct (Hk _ n Hn) as (n' & Hn' & Hd). unfold get_node_data.
  rewrite Hn, Hn'. auto.
Qed.

Lemma kept_weaken p s s' : kept s s' → kept_except p s s'.
Proof. intros Hk q n Hn. destruct (Hk q n Hn) as (n' & ? & ? & _). eauto. Qed.

Lemma kept_except_some p s s' q :
  kept_except p s s' → is_Some (nodes s !! q) → is_Some (nodes s' !! q).
Proof. intros Hk [n Hn]. destruct (Hk q n Hn) as (n' & ? & _). eauto. Qed.

Lemma update_children_kept m (p : bytes) f q n :
  (∀ cs, cs ⊆ f cs) → m !! q = Some n →
  ∃ n', update_children m p f !! q = Some n' ∧ node_data n' = node_data n ∧ children n ⊆ children n'.
Proof.
  intros Hf Hn. unfold update_children. rewrite lookup_insert.
  case_decide as E; [|by exists n]. subst q. rewrite Hn. simpl. eexists. split_and!; [done|done|apply Hf].
Qed.

Lemma create_node_kept c s p data eph : kept s (create_node c s p data eph false).1.1.
Proof.
  unfold create_node. destruct (negb (connected c)); [done|].
  case_decide as Hex; [done|]. case_decide; [done|]. intros q n Hn. cbn [fst nodes].
  assert (<[normalize_path p := mkNode data eph 0 ∅]> (nodes s) !! q = Some n) as Hn1.
  { rewrite lookup_insert_ne; [done|]. intros E. apply Hex. rewrite E. by eexists. }
  unfold link_node. destruct (parent_path (normalize_path p)); [by exists n|].
  apply update_children_kept; [|done]. intros cs. set_solver.
Qed.

Lemma wrapper_create_kept fuel w s p data eph : kept s (wrapper_create fuel w s p data eph).1.2.
Proof.
  revert w s p data eph. induction fuel as [|fuel IH]; intros w s p data eph; [done|].
  cbn [wrapper_create].
  match goal with |- context [let '(_, _) := ?x in _] => set (way := x) end.
  assert (kept s way.2) as Hk.
  { subst way. destruct (find_last_of "/"%char p) as [[|pos]|]; [done| |done].
    destruct (node_exists s (take (S pos) p)); [done|].
    pose proof (IH (wrapper_connect w) s (take (S pos) p) [] false) as Hk.
    by destruct (wrapper_create fuel _ s _ [] false) as [[? ?] ?]. }
  destruct way as [w2 s2]. pose proof (create_node_kept (zk w2) s2 p data eph) as Hk2.
  destruct (create_node (zk w2) s2 p data eph false) as [[s3 rc] ev]. simpl in *. by etrans.
Qed.

Lemma put_node_kept w s p data eph : kept_except (normalize_path p) s (put_node w s p data eph).1.2.
Proof.
  unfold put_node. destruct (node_exists s p); [|apply kept_weaken, wrapper_create_kept].
  unfold update_node, set_node_data. destruct (negb _); [by apply kept_weaken|].
  destruct (nodes s !! normalize_path p) as [n0|] eqn:E; [|by apply kept_weaken].
  intros q n Hn. simpl. rewrite lookup_insert. case_decide; [subst q|by exists n]. by eexists.
Qed.

Lemma put_node_written w s p data eph :
  wrapper_ok w → abs_path p → is_Some (nodes s !! slash) →
  let r := put_node w s p data eph in
  r.2 = true ∧ connected (zk r.1.1) = true ∧ is_Some (nodes r.1.2 !! p) ∧
  get_node_data r.1.2 p = data.
Proof.
  intros Hw Hp Hroot. cbv zeta. unfold put_node, node_exists, get_node_data.
  rewrite (abs_path_normal p Hp). case_bool_decide as Hex.
  - destruct Hex as [n Hn]. destruct (wrapper_connect_ok w Hw) as [_ Hc].
    unfold update_node, set_node_data. rewrite Hc, (abs_path_normal p Hp), Hn.
    cbn [negb fst snd nodes is_ok]. rewrite lookup_insert_eq. split_and!; try done.
    by apply watch_live, Hc; apply invoke_live.
  - destruct (wrapper_create_spec (S (length p)) w s p data eph Hw Hp Hroot ltac:(lia))
      as (Hc & _ & Hb & (n & Hn & Hd) & _).
    unfold create_path. rewrite Hn. split_and!; [done|done|done|].
    apply Hd. by apply eq_None_not_Some.
Qed.

(** [update_node] as [put_node] runs it on a node that is there. *)
Lemma update_is_put w s p data :
  node_exists s p = true → update_node w s p data = put_node w s p data false.
Proof. intros He. unfold put_node. by rewrite He. Qed.

(** ** Health checks *)

(** What no check changes. *)
Definition identity (info : HeadServerInfo) :=
  (server_id info, ip_address info, port info, is_leader info,
   (cpu_usage info, memory_usage info, active_connections info)).

(** The answer of a check, whatever the failure counts. *)
Definition answers (now : Z) (attempt : Attempts) (info : HeadServerInfo) : bool :=
  (bool_decide (now - last_health_check info < five_seconds) && bool_decide (status info = healthy))
  || reachable attempt info.

Lemma check_answers now attempt counts info :
  (check_head_server_health now attempt counts info).2 = answers now attempt info.
Proof.
  unfold check_head_server_health, answers. destruct (_ && _); [done|]. simpl.
  by destruct (reachable attempt info).
Qed.

Lemma check_identity now attempt counts info :
  identity (check_head_server_health now attempt counts info).1.2 = identity info.
Proof.
  unfold check_head_server_health. destruct (_ && _); [done|].
  destruct (reachable attempt info); [done|]. simpl. by case_decide.
Qed.

Lemma reachable_identity attempt info info' :
  identity info = identity info' → reachable attempt info = reachable attempt info'.
Proof. unfold identity, reachable. by intros [= _ -> -> _ _ _]. Qed.

Lemma with_status_identity info st :
  identity (with_status info st (is_leader info)) = identity info.
Proof. done. Qed.

(** ** Loads *)
Lemma better_irrefl a : better a a = false.
Proof. unfold better. by rewrite SFltb_irrefl. Qed.

Lemma better_trans a b c : better a b = true → better b c = true → better a c = true.
Proof.
  unfold better. rewrite !andb_true_iff. intros [A1 A2] [B1 B2].
  destruct (SFltb_numbers _ _ A1), (SFltb_numbers _ _ A2), (SFltb_numbers _ _ B1),
    (SFltb_numbers _ _ B2). split; [apply (SFltb_trans _ (cpu_usage b))|apply (SFltb_trans _ (memory_usage b))]; done.
Qed.

Lemma same_load_better a b c : same_load a b = true → better b c = true → better a c = true.
Proof.
  unfold same_load, better. rewrite !andb_true_iff. intros [E1 E2] [L1 L2].
  split; [by apply (SFeqb_ltb _ _ _ E1)|by apply (SFeqb_ltb _ _ _ E2)].
Qed.

Lemma load_identity a b c :
  identity a = identity b →
  better c a = better c b ∧ better a c = better b c ∧ same_load a c = same_load b c ∧
  same_load c a = same_load c b.
Proof. unfold identity, better, same_load. by intros [= _ _ _ _ -> -> _]. Qed.

(** ** The search for a leader *)

(** Trusted because of its status, or reached when it is probed again. *)
Definition candidate (attempt : bytes → Attempts) (e : bytes * HeadServerInfo) : Prop :=
  status e.2 = healthy ∨ reachable (attempt e.1) e.2 = true.

(** No candidate has less load than [b]; among equals [b] has the lowest id. *)
Definition unbeaten (attempt : bytes → Attempts) (l : list (bytes * HeadServerInfo)) (b : HeadServerInfo)
  : Prop :=
  ∀ c, c ∈ l → candidate attempt c →
    better c.2 b = false ∧ (same_load c.2 b = true → str_le (server_id b) c.1).

Definition best_of (attempt : bytes → Attempts) (l : list (bytes * HeadServerInfo))
    (m : gmap bytes HeadServerInfo) (best : option (bytes * HeadServerInfo)) : Prop :=
  match best with
  | None => ∀ c, c ∈ l → ¬ candidate attempt c
  | Some (id, b) =>
      m !! id = Some b ∧ server_id b = id ∧ unbeaten attempt l b ∧
      ∃ c, c ∈ l ∧ candidate attempt c ∧ c.1 = id ∧ identity c.2 = identity b
  end.

Lemma unbeaten_identity attempt l b b' :
  identity b = identity b' → unbeaten attempt l b → unbeaten attempt l b'.
Proof.
  intros E Hu c Hc Hcand. destruct (Hu c Hc Hcand) as [H1 H2].
  destruct (load_identity b b' c.2 E) as (<- & _ & _ & <-).
  split; [done|]. assert (server_id b' = server_id b) as -> by (by injection E). done.
Qed.

Lemma unbeaten_snoc attempt l c b :
  unbeaten attempt l b →
  (candidate attempt c → better c.2 b = false ∧ (same_load c.2 b = true → str_le (server_id b) c.1)) →
  unbeaten attempt (l ++ [c]) b.
Proof. intros Hu Hc x [Hx| ->%list_elem_of_singleton]%elem_of_app; [by apply Hu|exact Hc]. Qed.

(** A candidate with less load than an unbeaten one is unbeaten. *)
Lemma unbeaten_better attempt l b b' :
  unbeaten attempt l b → better b' b = true → unbeaten attempt l b'.
Proof.
  intros Hu Hb c Hc Hcand. destruct (Hu c Hc Hcand) as [H1 _]. split.
  - destruct (better c.2 b') eqn:E; [|done]. by rewrite (better_trans _ _ _ E Hb) in H1.
  - intros E. by rewrite (same_load_better _ _ _ E Hb) in H1.
Qed.

Lemma unbeaten_self attempt l c info :
  unbeaten attempt l info → identity c.2 = identity info → server_id info = c.1 →
  unbeaten attempt (l ++ [c]) info.
Proof.
  intros Hu Hid Hsid. apply unbeaten_snoc; [done|]. intros _.
  destruct (load_identity c.2 info info Hid) as (_ & -> & _). rewrite better_irrefl.
  split; [done|]. intros _. rewrite Hsid. apply str_le_refl.
Qed.

Lemma unbeaten_none attempt l info : (∀ c, c ∈ l → ¬ candidate attempt c) → unbeaten attempt l info.
Proof. intros Hn c Hc Hcand. by destruct (Hn c Hc). Qed.

Lemma prefer_step attempt l c info best m :
  (∀ x, x ∈ l → key_lt str_le x c) → candidate attempt c → identity c.2 = identity info →
  server_id info = c.1 → m !! c.1 = Some info → best_of attempt l m best →
  best_of attempt (l ++ [c]) m (prefer c.1 info best).
Proof.
  intros Hlt Hc Hid Hsid Hm Hbest.
  assert (∀ x : bytes * HeadServerInfo, x ∈ l → x ∈ l ++ [c]) as Hin
    by (intros; apply elem_of_app; by left).
  assert (unbeaten attempt l info → best_of attempt (l ++ [c]) m (Some (c.1, info))) as Hnew.
  { intros Hu. simpl. split_and!; [done|done|by apply unbeaten_self|].
    exists c. split_and!; [apply elem_of_app; right; by left|done..]. }
  destruct best as [[bid b]|]; cbn [prefer]; [|by apply Hnew, unbeaten_none].
  destruct Hbest as (Hmb & Hsb & Hu & x & Hx & Hxc & Hx1 & Hxid).
  destruct (Hlt x Hx) as [Hle Hne]. rewrite Hx1 in Hle, Hne.
  destruct (better info b) eqn:Eb; [by apply Hnew, (unbeaten_better _ _ b)|].
  assert (str_ltb c.1 (server_id b) = false) as ->.
  { rewrite Hsb. apply not_true_iff_false. rewrite str_ltb_lt. intros [Hge _].
    by apply Hne, (anti_symm str_le). }
  rewrite andb_false_r. simpl. split_and!; [done|done| |by exists x; auto].
  apply unbeaten_snoc; [done|]. intros _.
  destruct (load_identity c.2 info b Hid) as (_ & -> & _). split; [done|]. by rewrite Hsb.
Qed.

Lemma skip_step attempt l c best m :
  ¬ candidate attempt c → best_of attempt l m best → best_of attempt (l ++ [c]) m best.
Proof.
  intros Hc Hb. destruct best as [[id b]|]; simpl in *.
  - destruct Hb as (? & ? & Hu & x & ? & ?). split_and!; [done|done| |].
    + by apply unbeaten_snoc.
    + exists x. split; [apply elem_of_app; by left|done].
  - intros x [Hx| ->%list_elem_of_singleton]%elem_of_app; [by apply Hb|done].
Qed.

Lemma best_of_insert (attempt : bytes → Attempts) (l : list (bytes * HeadServerInfo)) (m : gmap bytes HeadServerInfo) best id info :
  id ∉ l.*1 → best_of attempt l m best → best_of attempt l (<[id := info]> m) best.
Proof.
  intros Hid. destruct best as [[bid b]|]; [|done]. simpl. intros (Hm & Hs & Hu & c & Hc & Hcand & Hc1 & Hci).
  split_and!; [|done|done|by exists c].
  rewrite lookup_insert_ne; [done|]. intros ->. apply Hid.
  apply list_elem_of_fmap. exists c. by split.
Qed.

(** The fold over the servers, for any part of the list already seen. *)
Lemma consider_spec (now : bytes → Z) (attempt : bytes → Attempts) (m0 : gmap bytes HeadServerInfo)
    (counts : gmap bytes Z) (l : list (bytes * HeadServerInfo)) :
  StronglySorted (key_lt str_le) l →
  (∀ e, e ∈ l → m0 !! e.1 = Some e.2 ∧ server_id e.2 = e.1) →
  let r := fold_left (consider now attempt) l (m0, counts, None) in
  identity <$> r.1.1 = identity <$> m0 ∧ best_of attempt l r.1.1 r.2 ∧
  (∀ id, id ∉ l.*1 → r.1.1 !! id = m0 !! id).
Proof.
  cbv zeta. induction l as [|c l IH] using rev_ind; intros Hs Hl.
  { split_and!; [done| |done]. intros ? []%not_elem_of_nil. }
  apply StronglySorted_app in Hs as (Hlt & Hs & _).
  destruct (IH Hs) as (Hid & Hbest & Hother). { intros e He. apply Hl, elem_of_app. by left. }
  clear IH. assert (∀ x, x ∈ l → key_lt str_le x c) as Hltc by (intros; apply Hlt; [done|by left]).
  destruct (Hl c) as [Hm Hsid]. { apply elem_of_app. right. by left. }
  assert (c.1 ∉ l.*1) as Hnin.
  { intros (x & E & Hx)%list_elem_of_fmap. by destruct (Hltc x Hx). }
  rewrite fold_left_app. cbn [fold_left].
  destruct (fold_left _ l _) as [[m cs] best]. cbn [fst snd] in *.
  specialize (Hother c.1 Hnin) as Hmc. rewrite Hm in Hmc.
  destruct c as [id info]. cbn [consider fst snd] in *.
  destruct (decide (status info = healthy)) as [Hst|Hst].
  - cbn [fst snd]. split_and!; [done| |].
    + apply (prefer_step attempt l (id, info)); try done. by left.
    + intros k Hk. apply Hother. intros Hk'. apply Hk. rewrite fmap_app. apply elem_of_app. by left.
  - pose proof (check_answers (now id) (attempt id) cs info) as Ha.
    pose proof (check_identity (now id) (attempt id) cs info) as Hi.
    destruct (check_head_server_health _ _ cs info) as [[cs' info'] ok]. cbn [fst snd] in *.
    split_and!.
    + rewrite fmap_insert, Hid. apply insert_id. by rewrite lookup_fmap, Hm, Hi.
    + unfold answers in Ha. rewrite (bool_decide_false _ Hst), andb_false_r in Ha. cbn [orb] in Ha.
      apply (best_of_insert _ _ _ _ id info' Hnin) in Hbest. destruct ok.
      * apply (prefer_step attempt l (id, info)); try done; [by right| |by rewrite lookup_insert_eq].
        by injection Hi as ->.
      * apply skip_step; [|done]. intros [|Hr]; [done|]. simpl in Hr. congruence.
    + intros k Hk. rewrite fmap_app in Hk. apply not_elem_of_app in Hk as [Hk Hkid].
      rewrite lookup_insert_ne; [by apply Hother|]. intros ->. apply Hkid. by left.
Qed.

(** ** What a turn discovers *)
Definition fresh (now : Z) (m : gmap bytes HeadServerInfo) : Prop :=
  ∀ id info, m !! id = Some info →
    server_id info = id ∧ is_leader info = false ∧ last_health_check info = now.

Lemma set_field_fresh info key value info' :
  set_field info key value = Val info' →
  is_leader info' = is_leader info ∧ last_health_check info' = last_health_check info.
Proof.
  unfold set_field. destruct info. repeat case_decide; try (intros [= <-]; done);
    [destruct (stoi value)|destruct (stod value)|destruct (stod value)|destruct (stoi value)
    |destruct (stoll value)]; intros E; try done; by injection E as <-.
Qed.

Lemma set_fields_fresh tokens info info' :
  set_fields info tokens = Val info' →
  is_leader info' = is_leader info ∧ last_health_check info' = last_health_check info.
Proof.
  revert info. induction tokens as [|tok tokens IH]; intros info; simpl; [by intros [= <-]|].
  destruct (find_char _ tok) as [i|]; [|apply IH].
  destruct (set_field info _ _) as [info1|] eqn:E; [|done]. simpl. intros H.
  destruct (IH _ H) as [-> ->]. by eapply set_field_fresh.
Qed.

Lemma discover_fresh garbage now s names m :
  fresh now m → fresh now (discover garbage now s m names).1.
Proof.
  revert m. induction names as [|name names IH]; intros m Hm; [done|]. cbn [discover].
  destruct (add_server garbage now s m name) as [m'|] eqn:E; [|done]. apply IH.
  unfold add_server in E. destruct (get_node_data s (server_path name)) as [|c data].
  { by injection E as <-. }
  destruct (parse_server_data garbage now (c :: data)) as [info|] eqn:Ep; [|done].
  injection E as <-. intros id i. rewrite lookup_insert. case_decide; [|apply Hm].
  intros [= <-]. subst. unfold parse_server_data in Ep. by apply set_fields_fresh in Ep as [? ?].
Qed.

Lemma discovered_fresh garbage now mon :
  fresh now (head_servers (discover_head_servers garbage now mon).1).
Proof.
  unfold discover_head_servers.
  pose proof (discover_fresh garbage now (mon_store mon)
                (get_children (mon_store mon) HEAD_SERVERS_PATH) ∅) as H.
  destruct (discover _ _ _ ∅ _) as [m ok]. apply H. intros id info. by rewrite lookup_empty.
Qed.

(** ** The health checks of a turn *)
Lemma check_fold (now : bytes → Z) (attempt : bytes → Attempts) (m0 : gmap bytes HeadServerInfo)
    (counts : gmap bytes Z) (l : list (bytes * HeadServerInfo)) :
  NoDup l.*1 → (∀ e, e ∈ l → m0 !! e.1 = Some e.2) →
  let m := (fold_left (check_one now attempt) l (m0, counts, 0)).1.1 in
  identity <$> m = identity <$> m0 ∧
  (∀ e, e ∈ l → ∃ info, m !! e.1 = Some info ∧
     status info = if answers (now e.1) (attempt e.1) e.2 then healthy else unhealthy).
Proof.
  cbv zeta. induction l as [|c l IH] using rev_ind; intros Hnd Hl.
  { split; [done|]. intros e He. by apply not_elem_of_nil in He. }
  rewrite fmap_app in Hnd. apply NoDup_app in Hnd as (Hnd & Hnin & _).
  destruct (IH Hnd) as [Hid Hst]. { intros e He. apply Hl, elem_of_app. by left. }
  assert (m0 !! c.1 = Some c.2) as Hc by (apply Hl, elem_of_app; right; by left).
  rewrite fold_left_app. cbn [fold_left]. destruct (fold_left _ l _) as [[m cs] up].
  destruct c as [id info]. cbn [check_one fst snd] in *.
  pose proof (check_answers (now id) (attempt id) cs info) as Ha.
  pose proof (check_identity (now id) (attempt id) cs info) as Hi.
  destruct (check_head_server_health _ _ cs info) as [[cs' info'] ok]. cbn [fst snd] in *.
  subst ok. split.
  - rewrite fmap_insert, with_status_identity, Hi, Hid.
    apply insert_id. by rewrite lookup_fmap, Hc.
  - intros e [He| ->%list_elem_of_singleton]%elem_of_app.
    + rewrite lookup_insert_ne; [by apply Hst|]. intros ->. apply (Hnin e.1); [|by left].
      by apply list_elem_of_fmap_2.
    + exists (with_status info' (if answers (now id) (attempt id) info then healthy else unhealthy)
                (is_leader info')). by rewrite lookup_insert_eq.
Qed.

Lemma check_servers_spec t mon :
  let mon' := check_servers t mon in
  identity <$> head_servers mon' = identity <$> head_servers mon ∧
  (∀ id info, head_servers mon !! id = Some info → ∃ info', head_servers mon' !! id = Some info' ∧
     status info' = if answers (t_check_at t id) (t_attempt t id) info then healthy else unhealthy) ∧
  mon_zk mon' = mon_zk mon ∧ mon_store mon' = mon_store mon ∧
  leader_elections mon' = leader_elections mon.
Proof.
  cbv zeta. unfold check_servers.
  destruct (check_fold (t_check_at t) (t_attempt t) (head_servers mon) (failure_counts mon)
              (smap_list (head_servers mon))) as [Hid Hst].
  { apply ordered_NoDup. }
  { intros [id info] He. by apply elem_of_ordered in He. }
  destruct (fold_left _ _ _) as [[m cs] up]. cbn in *. split_and!; try done.
  intros id info Hm. apply (Hst (id, info)). by apply elem_of_ordered.
Qed.

(** ** The election *)
Definition keyed (m : gmap bytes HeadServerInfo) : Prop := ∀ id info, m !! id = Some info → server_id info = id.
Definition leaderless (m : gmap bytes HeadServerInfo) : Prop :=
  ∀ id info, m !! id = Some info → is_leader info = false.

Lemma identity_lookup (m m' : gmap bytes HeadServerInfo) id info :
  identity <$> m = identity <$> m' → m !! id = Some info →
  ∃ info', m' !! id = Some info' ∧ identity info = identity info'.
Proof.
  intros E Hm. apply (f_equal (lookup id)) in E. rewrite !lookup_fmap, Hm in E. simpl in E.
  destruct (m' !! id) as [info'|]; [|done]. exists info'. split; [done|]. by apply (inj Some).
Qed.

Lemma keyed_identity m m' : identity <$> m = identity <$> m' → keyed m' → keyed m.
Proof.
  intros E Hk id info Hm. destruct (identity_lookup _ _ _ _ E Hm) as (info' & Hm' & Hi).
  rewrite <- (Hk id info' Hm'). by injection Hi.
Qed.

Lemma leaderless_identity m m' : identity <$> m = identity <$> m' → leaderless m' → leaderless m.
Proof.
  intros E Hk id info Hm. destruct (identity_lookup _ _ _ _ E Hm) as (info' & Hm' & Hi).
  rewrite <- (Hk id info' Hm'). by injection Hi.
Qed.

(** Without a leader the election starts at once. *)
Lemma review_leaderless now check_at attempt mon :
  leaderless (head_servers mon) → review_leader now check_at attempt mon = (mon, Some []).
Proof.
  intros Hl. unfold review_leader.
  destruct (list_find _ _) as [[i [id info]]|] eqn:E; [|done].
  apply list_find_Some in E as (He & Hlead & _). apply list_elem_of_lookup_2, elem_of_ordered in He.
  simpl in Hlead. by rewrite (Hl id info He) in Hlead.
Qed.

Lemma clear_no_leader m : clear_leader m [] = m.
Proof. unfold clear_leader. by destruct (m !! []). Qed.

(** The server whose record is the only one with the leader's flag. *)
Definition sole_leader (m : gmap bytes HeadServerInfo) (id : bytes) : Prop :=
  ∀ k, (∃ info, m !! k = Some info ∧ is_leader info = true) ↔ k = id.

Lemma sole_leader_insert m id info :
  leaderless m → is_leader info = true → sole_leader (<[id := info]> m) id.
Proof.
  intros Hl Hi k. split.
  - intros (i & Hk & Hlead). rewrite lookup_insert in Hk. case_decide; [done|].
    by rewrite (Hl k i Hk) in Hlead.
  - intros ->. exists info. by rewrite lookup_insert_eq.
Qed.

Lemma best_of_some attempt (l : list (bytes * HeadServerInfo)) m best c :
  best_of attempt l m best → c ∈ l → candidate attempt c → is_Some best.
Proof. destruct best as [p|]; [by eexists|]. intros Hb Hc Hcand. by destruct (Hb c Hc). Qed.

Lemma leader_path_abs : abs_path LEADER_PATH.
Proof.
  change LEADER_PATH with ((slash ++ lit "distributed_file_grid") ++ slash ++ lit "leader").
  apply abs_sub; [apply abs_top|]; (split; [done|by_decision]).
Qed.

(** Paths that part from the leader's after the root keep their own node. *)
Lemma not_leader_path (c : ascii) (p : bytes) :
  c ≠ "l"%char → c ≠ "/"%char → normalize_path (ZK_ROOT_PATH ++ "/"%char :: c :: p) ≠ LEADER_PATH.
Proof.
  intros Hl Hc E. apply Hl.
  assert (normalize_path (ZK_ROOT_PATH ++ "/"%char :: c :: p) !! 23%nat = Some c) as H.
  { by apply normalize_keeps. }
  rewrite E in H. by injection H.
Qed.

Lemma server_path_not_leader id : normalize_path (server_path id) ≠ LEADER_PATH.
Proof. by apply (not_leader_path "h"%char). Qed.

(** [mon']: what the election of a leader among the candidates of [m] makes of
    [mon]. *)
Record elected (now : Z) (attempt : bytes → Attempts) (mon mon' : Monitor) (c : bytes * HeadServerInfo)
  : Prop := {
  el_in : head_servers mon !! c.1 = Some c.2;
  el_candidate : candidate attempt c;
  el_best : unbeaten attempt (smap_list (head_servers mon)) c.2;
  el_sole : sole_leader (head_servers mon') c.1;
  el_healthy : status <$> head_servers mon' !! c.1 = Some healthy;
  el_id : leader_server_id mon' = c.1;
  el_node : get_node_data (mon_store mon') LEADER_PATH = leader_data now c.2;
  el_exists : is_Some (nodes (mon_store mon') !! LEADER_PATH);
  el_count : leader_elections mon' = leader_elections mon + 1
}.

Lemma leader_data_identity now a b : identity a = identity b → leader_data now a = leader_data now b.
Proof. unfold identity, leader_data. by intros [= -> -> -> _ _ _ _]. Qed.

Lemma election_elects now check_at recheck_at attempt reattempt mon :
  leaderless (head_servers mon) → keyed (head_servers mon) →
  wrapper_ok (mon_zk mon) → is_Some (nodes (mon_store mon) !! slash) →
  (∃ c, head_servers mon !! c.1 = Some c.2 ∧ candidate reattempt c) →
  ∃ c, elected now reattempt mon
         (perform_leader_election now check_at recheck_at attempt reattempt mon) c.
Proof.
  intros Hll Hkey Hw Hroot (c0 & Hc0 & Hcand0). unfold perform_leader_election.
  rewrite (review_leaderless now check_at attempt mon Hll).
  set (l := smap_list (head_servers mon)).
  assert (∀ e, e ∈ l ↔ head_servers mon !! e.1 = Some e.2) as Hin
    by (intros [id info]; apply elem_of_ordered).
  destruct (consider_spec recheck_at reattempt (head_servers mon) (failure_counts mon) l)
    as (Hid & Hbest & _).
  { apply ordered_strict; apply _. }
  { intros e He%Hin. auto. }
  destruct (fold_left _ l _) as [[m cs] best]. cbn [fst snd] in *.
  destruct (best_of_some _ _ _ _ _ Hbest (proj2 (Hin c0) Hc0) Hcand0) as [[id b] ->].
  destruct Hbest as (Hm & Hsb & Hu & c & Hc%Hin & Hcand & Hc1 & Hci).
  rewrite clear_no_leader, Hm. exists c.
  set (info := with_status b healthy true).
  set (mon1 := with_election mon (<[id := info]> m) cs (server_id info) 1).
  destruct (put_node_written (mon_zk mon1) (mon_store mon1) LEADER_PATH (leader_data now info) false
              Hw leader_path_abs Hroot) as (_ & _ & Hex & Hdata).
  set (mon2 := with_zk mon1 (put_node (mon_zk mon1) (mon_store mon1) LEADER_PATH
                               (leader_data now info) false)) in *.
  pose proof (put_node_kept (mon_zk mon2) (mon_store mon2) (server_path (server_id info))
                (promoted_data now info) true) as Hk.
  constructor; cbn [head_servers with_zk leader_server_id mon_store leader_elections].
  - done.
  - done.
  - by apply (unbeaten_identity _ _ b).
  - rewrite Hc1. apply sole_leader_insert; [|done]. by apply (leaderless_identity _ _ Hid).
  - rewrite Hc1. change (head_servers mon2) with (<[id := info]> m). by rewrite lookup_insert_eq.
  - rewrite Hc1. exact Hsb.
  - rewrite (kept_except_data _ _ _ LEADER_PATH Hk).
    + rewrite (leader_data_identity now c.2 b Hci). exact Hdata.
    + rewrite (abs_path_normal _ leader_path_abs). apply not_eq_sym, server_path_not_leader.
    + by rewrite (abs_path_normal _ leader_path_abs).
  - by apply (kept_except_some _ _ _ _ Hk).
  - done.
Qed.

(** The report touches neither the servers nor the leader's node. *)
Lemma report_keeps mon :
  let mon' := generate_health_report mon in
  head_servers mon' = head_servers mon ∧ leader_server_id mon' = leader_server_id mon ∧
  leader_elections mon' = leader_elections mon ∧
  (is_Some (nodes (mon_store mon) !! LEADER_PATH) →
   get_node_data (mon_store mon') LEADER_PATH = get_node_data (mon_store mon) LEADER_PATH).
Proof.
  cbv zeta. split_and!; [done..|]. intros Hex. unfold generate_health_report.
  set (mon1 := with_zk mon (create_path _ _ REPORTS_PATH [] false)).
  assert (kept (mon_store mon) (mon_store mon1)) as Hk1 by apply wrapper_create_kept.
  pose proof (put_node_kept (mon_zk mon1) (mon_store mon1) (REPORTS_PATH ++ slash ++ monitor_id mon)
                (health_report mon) false) as Hk2.
  cbn [mon_store with_zk]. pose proof (abs_path_normal _ leader_path_abs) as Hn.
  rewrite (kept_except_data _ _ _ _ Hk2).
  - apply (kept_data _ _ _ Hk1). by rewrite Hn.
  - rewrite Hn. apply not_eq_sym. by apply (not_leader_path "h"%char).
  - rewrite Hn. by apply (kept_some _ _ _ Hk1).
Qed.

(** ** A turn of the monitor *)
Definition discovered (t : Turn) (mon : Monitor) : gmap bytes HeadServerInfo :=
  head_servers (discover_head_servers (t_garbage t) (t_discovered t) mon).1.

(** Trusted or reached when it is checked, or reached during the election. *)
Definition up (t : Turn) (c : bytes * HeadServerInfo) : Prop :=
  answers (t_check_at t c.1) (t_attempt t c.1) c.2 = true ∨ reachable (t_reattempt t c.1) c.2 = true.

Lemma checked_candidate t id info info' :
  identity info' = identity info →
  status info' = (if answers (t_check_at t id) (t_attempt t id) info then healthy else unhealthy) →
  candidate (t_reattempt t) (id, info') ↔ up t (id, info).
Proof.
  intros Hi Hs. unfold candidate, up. cbn [fst snd]. rewrite (reachable_identity _ _ _ Hi), Hs.
  destruct (answers _ _ info); split; intros [H|H]; try (by left); try (by right);
    by vm_compute in H.
Qed.

(** The leader [c] of a turn, among the servers it discovered. *)
Record turn_leader (t : Turn) (mon : Monitor) (c : bytes * HeadServerInfo) : Prop := {
  tl_found : discovered t mon !! c.1 = Some c.2;
  tl_up : up t c;
  tl_best : ∀ d, discovered t mon !! d.1 = Some d.2 → up t d →
    better d.2 c.2 = false ∧ (same_load d.2 c.2 = true → str_le c.1 d.1);
  tl_id : leader_server_id (monitor_turn t mon) = c.1;
  tl_sole : sole_leader (head_servers (monitor_turn t mon)) c.1;
  tl_healthy : status <$> head_servers (monitor_turn t mon) !! c.1 = Some healthy;
  tl_node : get_node_data (mon_store (monitor_turn t mon)) LEADER_PATH =
            leader_data (t_election t) c.2;
  tl_count : leader_elections (monitor_turn t mon) = leader_elections mon + 1
}.

Lemma turn_elects t mon :
  wrapper_ok (mon_zk mon) → is_Some (nodes (mon_store mon) !! slash) →
  (discover_head_servers (t_garbage t) (t_discovered t) mon).2 = true →
  (∃ c, discovered t mon !! c.1 = Some c.2 ∧ up t c) →
  ∃ c, turn_leader t mon c.
Proof.
  intros Hw Hroot Hok (c0 & Hc0 & Hup0). pose proof (discovered_fresh (t_garbage t) (t_discovered t) mon)
    as Hfresh. unfold discovered in *.
  assert (∃ m1 b, discover_head_servers (t_garbage t) (t_discovered t) mon = (with_servers mon m1, b))
    as (m1 & b & Ed).
  { unfold discover_head_servers. destruct (discover _ _ _ _ _) as [m1 b]. by exists m1, b. }
  rewrite Ed in *. cbn [fst snd head_servers with_servers] in *. subst b.
  destruct (check_servers_spec t (with_servers mon m1)) as (Hid & Hst & Hz & Hs & Hcnt).
  cbn [head_servers with_servers] in *.
  set (mon2 := check_servers t (with_servers mon m1)) in *.
  assert (∀ id info, m1 !! id = Some info → ∃ info', head_servers mon2 !! id = Some info' ∧
            identity info' = identity info ∧ (candidate (t_reattempt t) (id, info') ↔ up t (id, info)))
    as Hcand.
  { intros id info Hm. destruct (Hst id info Hm) as (info' & Hm' & Hs').
    destruct (identity_lookup _ _ _ _ Hid Hm') as (i & Hi & Hii). exists info'.
    rewrite Hm in Hi. injection Hi as <-. split_and!; [done|done|by apply checked_candidate]. }
  assert (keyed (head_servers mon2)) as Hkey.
  { apply (keyed_identity _ _ Hid). intros id info Hm. by apply (Hfresh id info Hm). }
  destruct (election_elects (t_election t) (t_leader_at t) (t_recheck_at t) (t_leader_attempt t)
              (t_reattempt t) mon2) as [c [Hin Hc Hbest Hsole Hhealthy Hlid Hnode Hex Hcount]].
  { apply (leaderless_identity _ _ Hid). intros id info Hm. by apply (Hfresh id info Hm). }
  { done. }
  { by rewrite Hz. }
  { by rewrite Hs. }
  { destruct (Hcand c0.1 c0.2 Hc0) as (info' & Hm' & _ & Hiff). exists (c0.1, info').
    split; [done|]. apply Hiff. by destruct c0. }
  destruct (identity_lookup _ _ _ _ Hid Hin) as (info & Hm & Hi).
  exists (c.1, info).
  assert (monitor_turn t mon = generate_health_report
    (perform_leader_election (t_election t) (t_leader_at t) (t_recheck_at t) (t_leader_attempt t)
       (t_reattempt t) mon2)) as Eturn by (unfold monitor_turn; by rewrite Ed).
  set (mon3 := perform_leader_election _ _ _ _ _ mon2) in *.
  destruct (report_keeps mon3) as (R1 & R2 & R3 & R4).
  assert (discovered t mon = m1) as Edisc by (unfold discovered; by rewrite Ed).
  constructor; rewrite ?Eturn, ?R1, ?R2, ?R3, ?R4, ?Edisc; cbn [fst snd]; try done.
  - destruct (Hcand c.1 info Hm) as (info' & Hm' & _ & Hiff). apply Hiff.
    rewrite Hin in Hm'. injection Hm' as <-. by destruct c.
  - intros d Hd Hdup. destruct (Hcand d.1 d.2 Hd) as (info' & Hm' & Hi' & Hiff).
    destruct (Hbest (d.1, info')) as [H1 H2].
    { by apply elem_of_ordered. }
    { apply Hiff. by destruct d. }
    cbn [fst snd] in *. destruct (load_identity c.2 info info' Hi) as (E1 & _ & _ & E2).
    destruct (load_identity info' d.2 info Hi') as (_ & E3 & E4 & _).
    rewrite <- E3, <- E4, <- E1, <- E2. split; [done|]. intros Hsame.
    rewrite <- (Hkey c.1 c.2 Hin). auto.
  - by rewrite Hnode, (leader_data_identity _ _ _ Hi).
  - by rewrite Hcount, Hcnt.
Qed.

(** C17: every turn whose discovery succeeds and that finds a server it trusts or
    reaches ends with exactly one leader, marked healthy and named by
    [leader_server_id] and by the node "/distributed_file_grid/leader".  The
    leader is itself trusted or reached; no such server has both less CPU and
    less memory in use, and none with the same load has a smaller id.  The turn
    counts one more election whoever led before: the monitor re-elects at every
    turn. *)
Theorem monitor_turn_elects (t : Turn) (mon : Monitor) :
  wrapper_ok (mon_zk mon) → is_Some (nodes (mon_store mon) !! slash) →
  (discover_head_servers (t_garbage t) (t_discovered t) mon).2 = true →
  (∃ c, discovered t mon !! c.1 = Some c.2 ∧ up t c) →
  ∃ c, turn_leader t mon c.
Proof. apply turn_elects. Qed.

(** A started monitor with two registered head servers, neither of which can
    be reached. *)
Definition started : Monitor := new_monitor (lit "localhost:2181") (lit "monitor_1") initial_store.
Definition demo_monitor : Monitor :=
  let register id cpu mon :=
    (simulate_head_server_registration 5 cpu 7 3 (lit id) (lit "10.0.0.1") 9670 mon).1 in
  register "head_server_1" 20 (register "head_server_2" 4 started).
Definition demo_turn : Turn :=
  mkTurn 0 1000 (λ _, 1001) (λ _ _ _ _, false) 1002 (λ _, 1003) (λ _ _ _ _, false)
    (λ _, 1004) (λ _ _ _ _, false).

Lemma monitor_turn_elects_witness :
  let mon := monitor_turn demo_turn demo_monitor in
  leader_server_id mon = lit "head_server_1" ∧ (∃ c, turn_leader demo_turn demo_monitor c).
Proof.
  split; [by vm_compute|].
  apply (monitor_turn_elects demo_turn demo_monitor).
  - intros _. by vm_compute.
  - by_decision.
  - by vm_compute.
  - exists (lit "head_server_2",
            default (new_info 0 0) (discovered demo_turn demo_monitor !! lit "head_server_2")).
    split; [by vm_compute|]. left. by vm_compute.
Defined.

(** A server whose node says healthy is trusted without being probed: the
    discovery of the same turn has just set its last check to now.  Whatever the
    connection attempts would give, it is healthy after the checks. *)
Theorem healthy_node_trusted (t : Turn) (mon : Monitor) (id : bytes) (info : HeadServerInfo) :
  discovered t mon !! id = Some info → status info = healthy →
  t_check_at t id - t_discovered t < five_seconds →
  ∃ info', head_servers (check_servers t (discover_head_servers (t_garbage t) (t_discovered t) mon).1)
             !! id = Some info' ∧ status info' = healthy.
Proof.
  intros Hd Hst Hnow.
  destruct (check_servers_spec t (discover_head_servers (t_garbage t) (t_discovered t) mon).1)
    as (_ & Hcheck & _).
  destruct (Hcheck id info Hd) as (info' & Hm & Hs). exists info'. split; [done|].
  rewrite Hs. destruct (discovered_fresh (t_garbage t) (t_discovered t) mon id info Hd) as (_ & _ & Hc).
  unfold answers. rewrite Hc, Hst. by rewrite !bool_decide_true.
Qed.

(** [create_node] of the client wrapper answers true for every absolute
    path without empty components: the node and all its ancestors exist
    afterwards, a new node has the given data, every node that was there keeps
    its data and children, nothing longer than the path appears, and the
    session is connected. *)
Theorem create_path_creates (w : ZkWrapper) (s : ZkStore) (p data : bytes) (eph : bool) :
  wrapper_ok w → abs_path p → is_Some (nodes s !! slash) →
  created w s p data (create_path w s p data eph).
Proof. intros. apply wrapper_create_spec; [done..|lia]. Qed.

Lemma create_path_creates_witness :
  created (new_wrapper (lit "zk:2181")) initial_store LEADER_PATH (lit "x")
    (create_path (new_wrapper (lit "zk:2181")) initial_store LEADER_PATH (lit "x") false).
Proof.
  apply (create_path_creates (new_wrapper (lit "zk:2181")) initial_store LEADER_PATH (lit "x") false).
  - intros _. by vm_compute.
  - apply leader_path_abs.
  - by_decision.
Defined.
