(* ===== verification/ZkMonitorApi.v ===== *)
(** * ZkMonitorApi: what one request to the master API does to the monitor
    (src/src/zk_monitor/zk_monitor.cpp 381-437, 590-643, 769-866)

    A node of head_servers whose port is not a number makes every later
    discovery throw, and a POST to the master API is enough to write one. *)
From Stdlib Require Import Lia SpecFloat.
From S2P Require Import Prelude.
From S2P Require Import Text.
From S2P Require Import Ordered.
From S2P Require Import Zk.
From S2P Require Import ZkPaths.
From S2P Require Import JsonText.
From S2P Require Import Http.
From S2P Require Import ZkMonitor.
From S2P Require Import ZkMonitorSpec.
Local Open Scope Z_scope.

(** ** The store stays a tree *)
Lemma create_node_abs_tree c s p data eph :
  abs_path p → tree (nodes s) → tree (nodes (create_node c s p data eph false).1.1).
Proof.
  intros Hp Ht. apply create_node_tree; [done|]. unfold stored_path.
  rewrite (abs_path_normal p Hp). by apply abs_path_parts.
Qed.

Lemma wrapper_create_tree fuel w s p data eph :
  abs_path p → tree (nodes s) → tree (nodes (wrapper_create fuel w s p data eph).1.2).
Proof.
  revert w s p data eph. induction fuel as [|fuel IH]; intros w s p data eph Hp Ht; [done|].
  cbn [wrapper_create].
  match goal with |- context [let '(_, _) := ?x in _] => set (way := x) end.
  assert (tree (nodes way.2)) as Ht2.
  { subst way. pose proof (abs_path_cut p Hp) as Hcut.
    destruct (find_last_of "/"%char p) as [[|pos]|]; [done| |done]. destruct Hcut as [-> Hpa].
    destruct (node_exists s (parent_path p)); [done|].
    pose proof (IH (wrapper_connect w) s (parent_path p) [] false Hpa Ht) as Ht2.
    by destruct (wrapper_create fuel _ s _ [] false) as [[? ?] ?]. }
  destruct way as [w2 s2]. pose proof (create_node_abs_tree (zk w2) s2 p data eph Hp Ht2) as Ht3.
  by destruct (create_node (zk w2) s2 p data eph false) as [[s3 rc] ev].
Qed.

Lemma put_node_tree w s p data eph :
  abs_path p → tree (nodes s) → tree (nodes (put_node w s p data eph).1.2).
Proof.
  intros Hp Ht. unfold put_node. destruct (node_exists s p); [|by apply wrapper_create_tree].
  unfold update_node, set_node_data. destruct (negb _); [done|].
  destruct (nodes s !! normalize_path p) as [n|] eqn:E; [|done]. by eapply update_node_tree.
Qed.

(** In a tree, a node that exists is among its parent's children. *)
Lemma tree_listed s p :
  tree (nodes s) → abs_path p → is_Some (nodes s !! p) →
  child_name p ∈ get_children s (parent_path p).
Proof.
  intros Ht Hp [n Hn]. destruct (abs_path_parts p Hp) as (Hs & _ & Hpa).
  destruct (tree_up _ Ht p n Hn Hs) as (_ & par & Hpar & Hin).
  assert (normalize_path (parent_path p) = parent_path p) as E.
  { destruct Hpa as [->|Hpa]; [done|by apply abs_path_normal]. }
  unfold get_children. rewrite E, Hpar.
  eapply elem_of_Permutation_proper; [apply sorted_strings_perm|]. by apply elem_of_elements.
Qed.

(** ** A node that cannot be read *)
Definition unreadable (data : bytes) : Prop :=
  data ≠ [] ∧ ∀ garbage now, match parse_server_data garbage now data with Throw _ => True | Val _ => False end.

Lemma discover_stops garbage now s m names name :
  name ∈ names → unreadable (get_node_data s (server_path name)) →
  (discover garbage now s m names).2 = false.
Proof.
  intros Hin [Hne Hbad]. revert m. induction names as [|x names IH]; intros m.
  { by apply not_elem_of_nil in Hin. }
  cbn [discover]. destruct (decide (x = name)) as [->|Hx].
  - unfold add_server. destruct (get_node_data s (server_path name)) as [|c data]; [done|].
    specialize (Hbad garbage now). by destruct (parse_server_data garbage now (c :: data)).
  - destruct (add_server garbage now s m x); [|done]. apply IH.
    apply elem_of_cons in Hin as [?|?]; congruence.
Qed.

Definition stuck (mon : Monitor) : Prop :=
  ∃ name, name ∈ get_children (mon_store mon) HEAD_SERVERS_PATH ∧
          unreadable (get_node_data (mon_store mon) (server_path name)).

Lemma stuck_turn t mon :
  stuck mon → ∃ m, monitor_turn t mon = with_servers mon m.
Proof.
  intros (name & Hin & Hbad). unfold monitor_turn, discover_head_servers.
  pose proof (discover_stops (t_garbage t) (t_discovered t) (mon_store mon) ∅ _ name Hin Hbad) as H.
  destruct (discover _ _ _ ∅ _) as [m ok]. simpl in H. subst. by exists m.
Qed.

Lemma stuck_turns ts mon :
  stuck mon → ∃ m, fold_left (λ mon t, monitor_turn t mon) ts mon = with_servers mon m.
Proof.
  revert mon. induction ts as [|t ts IH]; intros mon Hs.
  { exists (head_servers mon). by destruct mon. }
  simpl. destruct (stuck_turn t mon Hs) as [m ->].
  destruct (IH (with_servers mon m) Hs) as [m' ->]. by exists m'.
Qed.

(** ** The request *)
Definition request_line (method path : bytes) : bytes :=
  method ++ sp :: lit "/api/v1/master/znode?path=" ++ path ++ lit " HTTP/1.1".
Definition post_request (path data : bytes) : bytes :=
  header_text [request_line (lit "POST") path] ++ crlf
  ++ lit "{" ++ quoted (lit "data") ++ colon :: quoted data ++ lit "}".

(** A path that can stand in a request line. *)
Definition url_path (p : bytes) : Prop := word p ∧ no_char "000"%char p.

Lemma take_whole f (s : bytes) : Forall (λ c, f c = true) s → take_while f s = s.
Proof. intros H. rewrite <- (app_nil_r s) at 1. rewrite take_while_app by done. apply app_nil_r. Qed.

Definition not_nul (c : ascii) : bool := negb (bool_decide (c = "000"%char)).

Lemma no_nul_Forall p : no_char "000"%char p → Forall (λ c, not_nul c = true) p.
Proof.
  intros H. apply Forall_forall. intros c Hc. unfold not_nul.
  rewrite bool_decide_false; [done|]. by intros ->.
Qed.

Lemma word_no_cr p : word p → no_char cr p.
Proof. intros [_ Hw] Hc. pose proof (proj1 (Forall_forall _ _) Hw _ Hc). done. Qed.

Lemma request_words method path rest :
  word method → word path →
  ∃ s1 s2, read_word (request_line method path ++ rest) = Some (method, s1) ∧
           read_word s1 = Some (lit "/api/v1/master/znode?path=" ++ path, s2).
Proof.
  intros Hm Hp. unfold request_line. rewrite <- (assoc_L (++)). cbn [app].
  rewrite <- !(assoc_L (++)). eexists _, _. split; [by apply read_word_sep|].
  rewrite read_word_skip by done.
  rewrite (assoc_L (++) (lit "/api/v1/master/znode?path=") path).
  change (lit " HTTP/1.1" ++ rest) with (sp :: lit "HTTP/1.1" ++ rest).
  apply read_word_sep; [|done]. apply word_app; [by_decision|by apply Hp].
Qed.

(** The path of a request for a node, and the node's own path in it. *)
Lemma znode_url path :
  path ≠ [] →
  let url := lit "/api/v1/master/znode?path=" ++ path in
  let query := match find_char "?"%char url with Some q => drop (q + 1) url | None => [] end in
  starts_with (lit "path=") query = true ∧ starts_with (lit "/api/v1/master/znode") url = true ∧
  url ≠ lit "/api/v1/master/head_servers" ∧ drop 5 query = path.
Proof.
  intros Hne. cbv zeta.
  change (lit "/api/v1/master/znode?path=" ++ path)
    with (lit "/api/v1/master/znode" ++ "?"%char :: lit "path=" ++ path).
  rewrite find_char_app by by_decision. rewrite drop_past_char. split_and!; done.
Qed.

(** The data is read up to the closing quote. *)
Lemma post_body path data : no_char cr path → no_char dq data → body_data (post_request path data) = data.
Proof.
  intros Hp Hq. unfold body_data, post_request. rewrite http_body_header.
  - cbn [default from_option id].
    set (key := dq :: lit "data" ++ dq :: colon :: [dq]).
    change (lit "{" ++ quoted (lit "data") ++ colon :: quoted data ++ lit "}")
      with ("{"%char :: key ++ (data ++ [dq]) ++ lit "}").
    rewrite find_cons_no, find_here by done. cbn [fmap option_fmap option_map].
    unfold find_from. cbn [Nat.add]. change (drop 9 ("{"%char :: key ++ (data ++ [dq]) ++ lit "}"))
      with ((data ++ [dq]) ++ lit "}").
    rewrite <- (assoc_L (++)), find_skip by done.
    replace (find [dq] ([dq] ++ lit "}")) with (Some 0%nat) by by vm_compute.
    destruct (Nat.ltb_spec (length ("{"%char :: key ++ data ++ [dq] ++ lit "}")) 9) as [Hl|_].
    { simpl in Hl. lia. }
    cbn [fmap option_fmap option_map].
    match goal with |- take ?n _ = _ => replace n with (length data) by lia end.
    apply take_app_length.
  - constructor; [|done]. split; [done|]. unfold request_line, no_char in *.
    rewrite !not_elem_of_app, not_elem_of_cons, !not_elem_of_app. split_and!; try done; by_decision.
Qed.

(** What POST writes. *)
Lemma post_spec path data mon :
  url_path path → no_char dq data → no_char "000"%char data →
  master_api (post_request path data) mon =
    (let r := put_node (mon_zk mon) (mon_store mon) path data false in
     (with_zk mon r, ok_head ++ lit "{" ++ member "success" (bool_text r.2) ++ lit "}")).
Proof.
  intros [Hp Hn] Hq Hd. unfold master_api.
  set (req := post_request path data).
  assert (take_while (λ c, negb (bool_decide (c = "000"%char))) req = req) as ->.
  { apply (take_whole not_nul). subst req. unfold post_request, header_text, request_line, quoted.
    cbn [map concat]. rewrite app_nil_r.
    repeat first [apply Forall_app; split | apply Forall_cons; split];
      first [by apply no_nul_Forall|by_decision]. }
  destruct (request_words (lit "POST") path (crlf ++ crlf ++ lit "{" ++ quoted (lit "data") ++ colon
              :: quoted data ++ lit "}")) as (s1 & s2 & E1 & E2); [by_decision|done|].
  assert (req = request_line (lit "POST") path ++ crlf ++ crlf ++ lit "{" ++ quoted (lit "data")
                ++ colon :: quoted data ++ lit "}") as Ereq.
  { subst req. unfold post_request, header_text. cbn [map concat].
    by rewrite app_nil_r, <- !(assoc_L (++)). }
  rewrite <- Ereq in E1. rewrite E1. cbn [default from_option id]. rewrite E2.
  cbn [default from_option id]. destruct (znode_url path (proj1 Hp)) as (-> & -> & Hu3 & ->).
  rewrite (decide_False _ _ Hu3). rewrite (decide_False _ _ (proj1 Hp)).
  rewrite !decide_False by done. rewrite decide_True by done.
  subst req. by rewrite (post_body path data (word_no_cr path Hp) Hq).
Qed.

(** ** The effect on the monitor *)
Lemma server_path_abs id : name_ok id → abs_path (server_path id).
Proof.
  intros Hn. unfold server_path.
  change HEAD_SERVERS_PATH with ((slash ++ lit "distributed_file_grid") ++ slash ++ lit "head_servers").
  repeat apply abs_sub; try done; [apply abs_top|]; (split; [done|by_decision]).
Qed.

Lemma server_path_parts id :
  name_ok id → parent_path (server_path id) = HEAD_SERVERS_PATH ∧ child_name (server_path id) = id.
Proof.
  intros Hn. change (server_path id) with (child_path HEAD_SERVERS_PATH id).
  by apply child_path_parts.
Qed.

Lemma server_url_path id : name_ok id → url_path id → url_path (server_path id).
Proof.
  intros Hn [Hw Hz]. split.
  - change (server_path id) with ((HEAD_SERVERS_PATH ++ slash) ++ id).
    apply word_app; [by_decision|by apply Hw].
  - unfold server_path, no_char in *. rewrite !not_elem_of_app. split_and!; try done; by_decision.
Qed.

Lemma written_stuck mon id data :
  name_ok id → wrapper_ok (mon_zk mon) → is_Some (nodes (mon_store mon) !! slash) →
  tree (nodes (mon_store mon)) → unreadable data →
  stuck (with_zk mon (put_node (mon_zk mon) (mon_store mon) (server_path id) data false)).
Proof.
  intros Hn Hw Hroot Ht Hbad. pose proof (server_path_abs id Hn) as Hp.
  destruct (put_node_written (mon_zk mon) (mon_store mon) (server_path id) data false Hw Hp Hroot)
    as (_ & _ & Hex & Hdata).
  exists id. cbn [mon_store with_zk]. split; [|by rewrite Hdata].
  destruct (server_path_parts id Hn) as [<- Hc]. rewrite <- Hc at 1.
  apply tree_listed; [by apply put_node_tree|done|done].
Qed.

Definition bad_port : bytes := lit "port=none".
Lemma bad_port_unreadable : unreadable bad_port.
Proof. split; [done|]. intros garbage now. exact I. Qed.

(** Starting the monitor keeps the tree. *)
Lemma new_monitor_tree hosts id s : tree (nodes s) → tree (nodes (mon_store (new_monitor hosts id s))).
Proof.
  intros Ht. assert (abs_path ZK_ROOT_PATH) as Hroot.
  { apply (abs_top (lit "distributed_file_grid")). split; [done|by_decision]. }
  unfold new_monitor, create_path. cbn [mon_store].
  repeat apply wrapper_create_tree; try done; (apply abs_sub; [done|split; [done|by_decision]]).
Qed.

(** C19: one request to the master API stops the monitor.  After a POST that
    writes "port=none" to the node of any head server, existing or not, the
    answer is a success, and however many turns follow, with whatever answers
    from the network, no election is held, no report or leader is written and
    no counter moves: only the list of discovered servers is rewritten. *)
Theorem posted_node_stops_monitor (mon : Monitor) (id : bytes) (ts : list Turn) :
  name_ok id → url_path id → wrapper_ok (mon_zk mon) → tree (nodes (mon_store mon)) →
  is_Some (nodes (mon_store mon) !! slash) →
  let r := master_api (post_request (server_path id) bad_port) mon in
  r.2 = ok_head ++ lit "{" ++ member "success" (lit "true") ++ lit "}" ∧
  get_node_data (mon_store r.1) (server_path id) = bad_port ∧
  ∃ m, fold_left (λ mon t, monitor_turn t mon) ts r.1 = with_servers r.1 m.
Proof.
  intros Hn Hu Hw Ht Hroot. cbv zeta.
  rewrite (post_spec (server_path id) bad_port mon (server_url_path id Hn Hu)) by by_decision.
  cbn [fst snd]. pose proof (server_path_abs id Hn) as Hp.
  destruct (put_node_written (mon_zk mon) (mon_store mon) (server_path id) bad_port false Hw Hp Hroot)
    as (-> & _ & _ & Hdata).
  split_and!; [done|exact Hdata|].
  apply stuck_turns. by apply written_stuck, bad_port_unreadable.
Qed.

Lemma posted_node_stops_monitor_witness :
  let r := master_api (post_request (server_path (lit "head_server_2")) bad_port) started in
  leader_elections (fold_left (λ mon t, monitor_turn t mon) [demo_turn; demo_turn] r.1) = 0.
Proof.
  cbv zeta.
  destruct (posted_node_stops_monitor started (lit "head_server_2") [demo_turn; demo_turn])
    as (_ & _ & m & ->).
  - split; [done|by_decision].
  - split; by_decision.
  - intros _. by vm_compute.
  - apply new_monitor_tree, initial_tree.
  - by_decision.
  - by vm_compute.
Defined.
