(* ===== verification/HealthChecker.v ===== *)
(** * HealthChecker: the stand-alone health checker
    (src/src/health_checker/health_checker.cpp)

    Its own table of servers, the datagrams it receives, the periodic check
    with its ZooKeeper question and its scan of the metadata, and the pages it
    serves.  Times are in nanoseconds; the two containers it iterates
    are unordered maps. *)
From Stdlib Require Import Lia SpecFloat.
From S2P Require Import Prelude.
From S2P Require Import Text.
From S2P Require Import Ordered.
From S2P Require Import Float.
From S2P Require Import Metadata.
From S2P Require Import Zk.
From S2P Require Import JsonText.
From S2P Require Import Http.
From S2P Require Import Wire.
Local Open Scope Z_scope.

(** ** State *)
Record ServerHealth := mkServerHealth {
  server_id : Z;
  ip : bytes;
  last_heartbeat : Z;
  cpu_usage : spec_float;
  total_storage_used : spec_float;
  ram_usage : spec_float;
  disk_usage : spec_float;
  network_in : bytes;
  network_out : bytes;
  network_in_bps : Z;
  network_out_bps : Z;
  is_healthy : bool;
  missed_heartbeats : Z
}.

Record HealthChecker := mkChecker {
  servers : gmap Z ServerHealth;
  max_missed_heartbeats : Z;
  heartbeat_timeout : Z;
  zk_client : ZkClient;
  zk_store : ZkStore;
  heartbeats_received : Z;
  servers_marked_unhealthy : Z;
  servers_recovered : Z;
  replications_triggered : Z;
  healthy_server_count : Z          (* the gauge *)
}.

(** [monitoring.max_missed_heartbeats], [monitoring.heartbeat_timeout] in
    seconds, as the configuration has them. *)
Definition new_checker (max_missed timeout_seconds : Z) (s : ZkStore) : HealthChecker :=
  mkChecker ∅ max_missed (timeout_seconds * 1000000000) (mkClient (lit "127.0.0.1:2181") false false)
    s 0 0 0 0 0.

Definition with_table (hc : HealthChecker) (m : gmap Z ServerHealth) : HealthChecker :=
  mkChecker m (max_missed_heartbeats hc) (heartbeat_timeout hc) (zk_client hc) (zk_store hc)
    (heartbeats_received hc) (servers_marked_unhealthy hc) (servers_recovered hc)
    (replications_triggered hc) (healthy_server_count hc).

Definition with_state (h : ServerHealth) (healthy : bool) (missed : Z) : ServerHealth :=
  mkServerHealth (server_id h) (ip h) (last_heartbeat h) (cpu_usage h) (total_storage_used h)
    (ram_usage h) (disk_usage h) (network_in h) (network_out h) (network_in_bps h)
    (network_out_bps h) healthy missed.

(** ** Heartbeats *)
Definition health_of (now : Z) (hb : HeartBeat) : ServerHealth :=
  mkServerHealth (hb_server_id hb) (hb_ip hb) now (hb_cpu_usage hb) (hb_total_storage_used hb)
    (hb_ram_usage hb) (hb_disk_usage hb) (hb_network_in hb) (hb_network_out hb)
    (hb_network_in_bytes_per_sec hb) (hb_network_out_bytes_per_sec hb) true 0.

Definition process_heartbeat (now : Z) (hb : HeartBeat) (hc : HealthChecker) : HealthChecker :=
  mkChecker (<[hb_server_id hb := health_of now hb]> (servers hc)) (max_missed_heartbeats hc)
    (heartbeat_timeout hc) (zk_client hc) (zk_store hc) (heartbeats_received hc + 1)
    (servers_marked_unhealthy hc) (servers_recovered hc) (replications_triggered hc)
    (healthy_server_count hc).

(** [char buffer[1024]]; the length word is skipped, not read. *)
Definition buffer_size : nat := 1024.
Definition receive_datagram `{!Protobuf} (now : Z) (datagram : bytes) (hc : HealthChecker)
  : HealthChecker :=
  let buffer := take buffer_size datagram in
  if decide (4 < length buffer)%nat then
    match parse (drop 4 buffer) with
    | Some hb => process_heartbeat now hb hc
    | None => hc
    end
  else hc.

(** ** The scan for chunks of a failed server *)
Definition failed_prefix (failed_server_id : Z) : bytes :=
  lit "127.0.0.1:" ++ show_Z (8079 + failed_server_id).

Definition healthy_targets `{!HashOrder Z ServerHealth} (m : gmap Z ServerHealth) (failed : Z)
  : list bytes :=
  map (λ e, ip e.2) (filter (λ e, is_healthy e.2 = true ∧ e.1 ≠ failed) (hash_order m)).

Definition chunks_queued (meta : MetaState) (failed : Z) : nat :=
  fold_left (λ n filename,
      (n + length (filter (λ c, contains (failed_prefix failed) (server c) = true)
                     (chunks (query_metadata meta filename))))%nat)
    (list_all_files meta) 0%nat.

(** What it prints at the end: [None] when there is no healthy server, else
    the chunks counted and the number of targets. *)
Definition trigger_replication `{!HashOrder Z ServerHealth} (meta : MetaState) (m : gmap Z ServerHealth)
    (failed : Z) : option (nat * nat) :=
  match healthy_targets m failed with
  | [] => None
  | targets => Some (chunks_queued meta failed, length targets)
  end.

(** ** The periodic check *)
Definition znode (server_id : Z) : bytes := lit "/dfg/cluster_servers/server_" ++ show_Z server_id.

(** What the check of one server does to its record and to the counters. *)
Definition with_counts (hc : HealthChecker) (c : ZkClient) (marked recovered triggered : Z)
  : HealthChecker :=
  mkChecker (servers hc) (max_missed_heartbeats hc) (heartbeat_timeout hc) c (zk_store hc)
    (heartbeats_received hc) (servers_marked_unhealthy hc + marked) (servers_recovered hc + recovered)
    (replications_triggered hc + triggered) (healthy_server_count hc).

(** A scan, as it is reported: the failed server and what was counted. *)
Definition scan_report : Type := Z * option (nat * nat).

Section check.
Context `{!HashOrder Z ServerHealth}.

Definition check_server (now : Z) (meta : MetaState) (st : HealthChecker * list scan_report) (id : Z)
  : HealthChecker * list scan_report :=
  let '(hc, scans) := st in
  match servers hc !! id with
  | None => (hc, scans)
  | Some health =>
      let put hc h := with_table hc (<[id := h]> (servers hc)) in
      if decide (heartbeat_timeout hc < now - last_heartbeat health) then
        let health := with_state health (is_healthy health) (missed_heartbeats health + 1) in
        if bool_decide (max_missed_heartbeats hc ≤ missed_heartbeats health) && is_healthy health then
          let client := (connect (zk_client hc)).1 in
          if node_exists (zk_store hc) (znode id) then (put (with_counts hc client 0 0 0) health, scans)
          else
            let hc := put (with_counts hc client 1 0 1) (with_state health false (missed_heartbeats health)) in
            (hc, scans ++ [(id, trigger_replication meta (servers hc) id)])
        else (put hc health, scans)
      else if negb (is_healthy health) && bool_decide (0 < missed_heartbeats health)
      then (put (with_counts hc (zk_client hc) 0 1 0) (with_state health true 0), scans)
      else (hc, scans)
  end.

Definition count_healthy (m : gmap Z ServerHealth) : Z :=
  Z.of_nat (length (filter (λ e, is_healthy e.2 = true) (map_to_list m))).

Definition check_server_health (now : Z) (meta : MetaState) (hc : HealthChecker)
  : HealthChecker * list scan_report :=
  let '(hc, scans) := fold_left (check_server now meta) (hash_order (servers hc)).*1 (hc, []) in
  (mkChecker (servers hc) (max_missed_heartbeats hc) (heartbeat_timeout hc) (zk_client hc) (zk_store hc)
     (heartbeats_received hc) (servers_marked_unhealthy hc) (servers_recovered hc)
     (replications_triggered hc) (count_healthy (servers hc)), scans).
End check.

(** ** Queries *)
Definition get_server_status `{!HashOrder Z ServerHealth} (hc : HealthChecker) : list ServerHealth :=
  (hash_order (servers hc)).*2.
Definition get_healthy_servers `{!HashOrder Z ServerHealth} (hc : HealthChecker) : list Z :=
  (filter (λ e, is_healthy e.2 = true) (hash_order (servers hc))).*1.
Definition is_server_healthy (hc : HealthChecker) (id : Z) : bool :=
  match servers hc !! id with Some h => is_healthy h | None => false end.

(** The page *)
Definition page_head : bytes :=
  lit "HTTP/1.1 200 OK" ++ crlf ++ lit "Content-Type: text/html" ++ crlf ++ lit "Connection: close"
  ++ crlf ++ crlf
  ++ jlit "<html><head><title>Health Checker UI</title><meta http-equiv='refresh' content='5'>"
  ++ lit "<style>body{font-family:sans-serif;} table{border-collapse:collapse;width:100%;} "
  ++ lit "th,td{border:1px solid #ddd;padding:8px;text-align:left;} "
  ++ lit "th{background-color:#f2f2f2;}</style></head><body>"
  ++ lit "<h1>Cluster Server Health Status</h1>"
  ++ lit "<table><tr><th>Server ID</th><th>IP</th><th>CPU (%)</th><th>RAM (%)</th><th>Disk (%)</th>"
  ++ lit "<th>Net In</th><th>Net Out</th><th>Status</th></tr>".
Definition cell (s : bytes) : bytes := lit "<td>" ++ s ++ lit "</td>".
Definition page_row (s : ServerHealth) : bytes :=
  let '(color, text) :=
    if is_healthy s then (lit "green", lit "Healthy") else (lit "red", lit "Unhealthy") in
  lit "<tr>" ++ cell (show_Z (server_id s)) ++ cell (ip s) ++ cell (show_f6 (cpu_usage s))
  ++ cell (show_f6 (ram_usage s)) ++ cell (show_f6 (disk_usage s)) ++ cell (network_in s)
  ++ cell (network_out s) ++ jlit "<td style='color:" ++ color ++ jlit ";font-weight:bold;'>"
  ++ text ++ lit "</td></tr>".
Definition ui_page `{!HashOrder Z ServerHealth} (hc : HealthChecker) : bytes :=
  page_head ++ concat (map page_row (get_server_status hc)) ++ lit "</table></body></html>".
