(* ===== verification/HealthCheckerSpec.v ===== *)
(** * HealthCheckerSpec: what the stand-alone health checker detects
    (src/src/health_checker/health_checker.cpp)

    A check acts on each server by itself; histories of datagrams and checks
    keep an invariant in which the "recovered" branch never runs. *)
From Stdlib Require Import Lia SpecFloat.
From S2P Require Import Prelude.
From S2P Require Import Text.
From S2P Require Import Ordered.
From S2P Require Import Metadata.
From S2P Require Import Zk.
From S2P Require Import Wire.
From S2P Require Import WireCodec.
From S2P Require Import HealthChecker.
Local Open Scope Z_scope.

(** ** One server in one check *)
Definition silent (hc : HealthChecker) (now : Z) (h : ServerHealth) : bool :=
  bool_decide (heartbeat_timeout hc < now - last_heartbeat h).

(** Marked dead by this check, brought back by this check. *)
Definition marks (hc : HealthChecker) (now id : Z) (h : ServerHealth) : bool :=
  silent hc now h && bool_decide (max_missed_heartbeats hc ≤ missed_heartbeats h + 1)
  && is_healthy h && negb (node_exists (zk_store hc) (znode id)).
Definition revives (hc : HealthChecker) (now : Z) (h : ServerHealth) : bool :=
  negb (silent hc now h) && negb (is_healthy h) && bool_decide (0 < missed_heartbeats h).

Definition checked (hc : HealthChecker) (now id : Z) (h : ServerHealth) : ServerHealth :=
  if silent hc now h
  then with_state h (is_healthy h && negb (marks hc now id h)) (missed_heartbeats h + 1)
  else if revives hc now h then with_state h true 0 else h.

(** The parts of the checker that no check changes. *)
Definition config (hc : HealthChecker) :=
  (max_missed_heartbeats hc, heartbeat_timeout hc, zk_store hc, heartbeats_received hc).
Definition counts (hc : HealthChecker) :=
  (servers_marked_unhealthy hc, servers_recovered hc, replications_triggered hc).

Definition tally (b : bool) : Z := if b then 1 else 0.

Lemma config_marks hc hc' now id h : config hc = config hc' → marks hc now id h = marks hc' now id h.
Proof. unfold config, marks, silent. by intros [= -> -> -> _]. Qed.
Lemma config_revives hc hc' now h : config hc = config hc' → revives hc now h = revives hc' now h.
Proof. unfold config, revives, silent. by intros [= _ -> _ _]. Qed.
Lemma config_checked hc hc' now id h : config hc = config hc' → checked hc now id h = checked hc' now id h.
Proof.
  intros E. unfold checked. rewrite (config_marks _ _ now id h E), (config_revives _ _ now h E).
  unfold silent. by injection E as _ -> _ _.
Qed.

Section check.
Context `{!HashOrder Z ServerHealth}.

Definition listed_if (b : bool) (id : Z) : list Z := if b then [id] else [].

Lemma check_server_spec now meta hc scans id h :
  servers hc !! id = Some h →
  let r := check_server now meta (hc, scans) id in
  config r.1 = config hc ∧ servers r.1 = <[id := checked hc now id h]> (servers hc) ∧
  r.2.*1 = scans.*1 ++ listed_if (marks hc now id h) id ∧
  counts r.1 = (servers_marked_unhealthy hc + tally (marks hc now id h),
                servers_recovered hc + tally (revives hc now h),
                replications_triggered hc + tally (marks hc now id h)).
Proof.
  intros Hh. cbv zeta. unfold check_server, checked, marks, revives. rewrite Hh.
  unfold silent.
  destruct (decide (heartbeat_timeout hc < now - last_heartbeat h)) as [Hs|Hs].
  - rewrite !(bool_decide_true _ Hs). cbn [andb negb]. cbn [missed_heartbeats with_state is_healthy].
    destruct (bool_decide (max_missed_heartbeats hc ≤ missed_heartbeats h + 1)) eqn:Em; cbn [andb].
    + destruct (is_healthy h) eqn:Eh; cbn [andb negb].
      * destruct (node_exists (zk_store hc) (znode id)); cbn [negb andb listed_if tally];
          split_and!; try done; cbn [snd fst]; rewrite ?fmap_app, ?app_nil_r; done.
      * cbn [listed_if tally]. rewrite app_nil_r. split_and!; try done.
        unfold counts. cbn. by rewrite !Z.add_0_r.
    + cbn [listed_if tally andb]. rewrite app_nil_r, andb_true_r. split_and!; try done.
      unfold counts. cbn. by rewrite !Z.add_0_r.
  - rewrite !(bool_decide_false _ Hs). cbn [andb negb listed_if tally]. rewrite app_nil_r, !Z.add_0_r.
    destruct (negb (is_healthy h) && bool_decide (0 < missed_heartbeats h)) eqn:E; cbn [tally];
      split_and!; try done.
    + unfold counts. cbn. by rewrite !Z.add_0_r.
    + cbn [fst]. symmetry. by apply insert_id.
    + unfold counts. cbn. by rewrite !Z.add_0_r.
Qed.

(** Whether the server with this id is marked, or brought back. *)
Definition marked (hc : HealthChecker) (now id : Z) : bool :=
  match servers hc !! id with Some h => marks hc now id h | None => false end.
Definition revived (hc : HealthChecker) (now id : Z) : bool :=
  match servers hc !! id with Some h => revives hc now h | None => false end.

Definition number (f : Z → bool) (ids : list Z) : Z :=
  Z.of_nat (length (filter (λ id, f id = true) ids)).

Lemma number_cons f id ids : number f (id :: ids) = tally (f id) + number f ids.
Proof. unfold number. rewrite filter_cons. destruct (f id); simpl; lia. Qed.

Lemma check_all now meta hc0 ids hc scans :
  NoDup ids → config hc = config hc0 →
  (∀ id, id ∈ ids → is_Some (servers hc0 !! id) ∧ servers hc !! id = servers hc0 !! id) →
  let r := fold_left (check_server now meta) ids (hc, scans) in
  config r.1 = config hc0 ∧
  (∀ k, servers r.1 !! k =
     if decide (k ∈ ids) then checked hc0 now k <$> servers hc0 !! k else servers hc !! k) ∧
  r.2.*1 = scans.*1 ++ filter (λ id, marked hc0 now id = true) ids ∧
  counts r.1 = (servers_marked_unhealthy hc + number (marked hc0 now) ids,
                servers_recovered hc + number (revived hc0 now) ids,
                replications_triggered hc + number (marked hc0 now) ids).
Proof.
  cbv zeta. revert hc scans. induction ids as [|id ids IH]; intros hc scans Hnd Hcfg Hids.
  { cbn [fold_left filter list_filter]. split_and!; [done|done|by rewrite app_nil_r|].
    unfold number, counts. simpl. by rewrite !Z.add_0_r. }
  apply NoDup_cons in Hnd as [Hnin Hnd]. cbn [fold_left].
  destruct (Hids id) as [[h Hh] Heq]; [by left|]. rewrite Hh in Heq.
  destruct (check_server_spec now meta hc scans id h Heq) as (H1 & H2 & H3 & H4).
  destruct (check_server now meta (hc, scans) id) as [hc1 scans1]. cbn [fst snd] in *.
  destruct (IH hc1 scans1 Hnd) as (K1 & K2 & K3 & K4); [congruence| |].
  { intros k Hk. destruct (Hids k) as [Hk0 Hke]; [by right|]. split; [done|].
    rewrite H2, lookup_insert_ne; [done|]. by intros ->. }
  assert (marked hc0 now id = marks hc now id h) as Em
    by (unfold marked; rewrite Hh; by apply config_marks).
  assert (revived hc0 now id = revives hc now h) as Er
    by (unfold revived; rewrite Hh; by apply config_revives).
  split_and!.
  - done.
  - intros k. rewrite K2, H2. destruct (decide (k ∈ ids)) as [Hin|Hout].
    + by rewrite decide_True by by right.
    + destruct (decide (k = id)) as [->|Hk].
      * rewrite decide_True by by left. rewrite lookup_insert_eq, Hh. simpl.
        by rewrite (config_checked hc hc0 now id h Hcfg).
      * rewrite decide_False by (intros [?|?]%elem_of_cons; done). by rewrite lookup_insert_ne.
  - rewrite K3, H3, filter_cons, <- Em, <- (assoc_L (++)). f_equal. unfold listed_if.
    by destruct (marked hc0 now id).
  - rewrite K4, !number_cons, Em, Er. unfold counts in H4. injection H4 as -> -> ->.
    f_equal; [f_equal|]; lia.
Qed.

Lemma check_health_spec now meta hc :
  let r := check_server_health now meta hc in
  let ids := (hash_order (servers hc)).*1 in
  config r.1 = config hc ∧
  (∀ id, servers r.1 !! id = checked hc now id <$> servers hc !! id) ∧
  r.2.*1 = filter (λ id, marked hc now id = true) ids ∧
  counts r.1 = (servers_marked_unhealthy hc + number (marked hc now) ids,
                servers_recovered hc + number (revived hc now) ids,
                replications_triggered hc + number (marked hc now) ids).
Proof.
  cbv zeta. unfold check_server_health. set (ids := (hash_order (servers hc)).*1).
  assert (∀ id, id ∈ ids ↔ is_Some (servers hc !! id)) as Hin.
  { intros id. unfold ids. rewrite list_elem_of_fmap. split.
    - intros ([k h] & -> & He). apply elem_of_hash_order in He. by eexists.
    - intros [h Hh]. exists (id, h). split; [done|by apply elem_of_hash_order]. }
  destruct (check_all now meta hc ids hc []) as (H1 & H2 & H3 & H4).
  { apply hash_order_NoDup. }
  { done. }
  { intros id Hid. by split; [apply Hin|]. }
  destruct (fold_left _ ids _) as [hc' scans]. cbn [fst snd] in *. split_and!; try done.
  intros id. simpl. rewrite H2. case_decide as Hd; [done|].
  destruct (servers hc !! id) as [h|] eqn:E; [|done]. destruct Hd. apply Hin. by eexists.
Qed.
End check.

(** The process has a store of its own, in which nothing creates the node it
    asks about. *)
Lemma znode_absent id : node_exists initial_store (znode id) = false.
Proof.
  apply bool_decide_eq_false. intros [n Hn].
  unfold initial_store in Hn. cbn [nodes] in Hn. apply lookup_singleton_Some in Hn as [E _].
  assert (normalize_path (znode id) !! 1%nat = Some "d"%char) as H by (by apply normalize_keeps).
  by rewrite <- E in H.
Qed.

Section history.
Context `{!Protobuf} `{!HashOrder Z ServerHealth}.

(** ** Histories: datagrams and checks, at times that never go back *)
Inductive hc_step : Z * HealthChecker → Z * HealthChecker → Prop :=
  | hc_datagram t now d hc : t ≤ now → hc_step (t, hc) (now, receive_datagram now d hc)
  | hc_check t now meta hc : t ≤ now → hc_step (t, hc) (now, (check_server_health now meta hc).1).

Record server_inv (hc : HealthChecker) (t id : Z) (h : ServerHealth) : Prop := {
  si_id : server_id h = id;
  si_past : last_heartbeat h ≤ t;
  si_missed : 0 ≤ missed_heartbeats h;
  si_silent : 0 < missed_heartbeats h → silent hc t h = true;
  si_dead : is_healthy h = false ↔ max_missed_heartbeats hc ≤ missed_heartbeats h
}.

Record hc_inv (p : Z * HealthChecker) : Prop := {
  inv_servers : ∀ id h, servers p.2 !! id = Some h → server_inv p.2 p.1 id h;
  inv_store : zk_store p.2 = initial_store;
  inv_max : 1 ≤ max_missed_heartbeats p.2;
  inv_recovered : servers_recovered p.2 = 0;
  inv_triggered : replications_triggered p.2 = servers_marked_unhealthy p.2
}.

Lemma silent_later hc t now h : t ≤ now → silent hc t h = true → silent hc now h = true.
Proof. unfold silent. rewrite !bool_decide_eq_true. lia. Qed.

Lemma server_later hc t now id h : t ≤ now → server_inv hc t id h → server_inv hc now id h.
Proof.
  intros Ht [? ? ? Hsil ?]. constructor; try done; [lia|].
  intros Hpos. by apply (silent_later _ t now h Ht), Hsil.
Qed.

Lemma marks_initial hc now id h :
  zk_store hc = initial_store → 1 ≤ max_missed_heartbeats hc →
  marks hc now id h =
    silent hc now h && bool_decide (max_missed_heartbeats hc ≤ missed_heartbeats h + 1) && is_healthy h.
Proof. intros Hs _. unfold marks. by rewrite Hs, znode_absent, andb_true_r. Qed.

Lemma checked_inv hc t now id h :
  zk_store hc = initial_store → 1 ≤ max_missed_heartbeats hc → t ≤ now →
  server_inv hc t id h → server_inv hc now id (checked hc now id h) ∧ revives hc now h = false.
Proof.
  intros Hs Hmax Ht [Hid Hpast Hm Hsil Hdead].
  assert (revives hc now h = false) as Hr.
  { unfold revives. destruct (silent hc now h) eqn:E; [done|]. cbn [negb andb].
    apply andb_false_iff. right. apply bool_decide_eq_false. intros Hpos.
    rewrite (silent_later hc t now h Ht (Hsil Hpos)) in E. done. }
  split; [|done]. unfold checked. rewrite Hr. destruct (silent hc now h) eqn:E.
  - rewrite marks_initial, E by done. cbn [andb]. constructor; simpl; try done; try lia.
    destruct (is_healthy h) eqn:Eh; cbn [andb negb].
    + rewrite andb_true_r, negb_false_iff, bool_decide_eq_true. done.
    + split; [intros _|done]. assert (max_missed_heartbeats hc ≤ missed_heartbeats h) by by apply Hdead.
      lia.
  - constructor; try done; [lia|]. intros Hpos. by apply (silent_later hc t now h Ht), Hsil.
Qed.

Lemma hc_step_inv p q : hc_step p q → hc_inv p → hc_inv q.
Proof.
  intros [t now d hc Ht|t now meta hc Ht] [Hsrv Hstore Hmax Hrec Htrig]; cbn [fst snd] in *.
  - unfold receive_datagram. destruct (decide _).
    1: destruct (parse _) as [hb|].
    all: constructor; cbn [fst snd]; try done.
    + intros id h. cbn [servers process_heartbeat]. rewrite lookup_insert. case_decide as E.
      * intros [= <-]. constructor; simpl; try done; lia.
      * intros Hh. destruct (server_later hc t now id h Ht (Hsrv id h Hh)). by constructor.
    + intros id h Hh. by apply (server_later hc t now), Hsrv.
    + intros id h Hh. by apply (server_later hc t now), Hsrv.
  - destruct (check_health_spec now meta hc) as (H1 & H2 & _ & H4).
    destruct (check_server_health now meta hc) as [hc' scans]. cbn [fst snd] in *.
    unfold config in H1. injection H1 as Emax Eto Est _. unfold counts in H4. injection H4 as Em Er Etr.
    assert (number (revived hc now) (hash_order (servers hc)).*1 = 0) as Hzero.
    { unfold number. rewrite filter_none; [done|]. intros id _.
      unfold revived. destruct (servers hc !! id) as [h|] eqn:E; [|done]. apply not_true_iff_false.
      destruct (checked_inv hc t now id h) as [_ ->]; auto. }
    constructor; cbn [fst snd]; try congruence; [|lia].
    intros id h Hh. rewrite H2 in Hh. apply fmap_Some in Hh as (h0 & Hh0 & ->).
    destruct (checked_inv hc t now id h0) as [[? ? ? ? ?] _]; auto.
    constructor; try done; [|by rewrite Emax]. unfold silent in *. by rewrite Eto.
Qed.

(** In every history of datagrams and checks of a started checker (times
    never going back), a server is recorded unhealthy exactly when it has
    missed the allowed number of checks, its last heartbeat is past and, once it
    has missed any, older than the timeout; every server marked dead triggers
    one replication scan; and the "recovered" counter never moves: a heartbeat
    has always revived the server before a check could see it recovered. *)
Theorem checker_invariant (max_missed timeout t0 : Z) (p : Z * HealthChecker) :
  1 ≤ max_missed →
  rtc hc_step (t0, new_checker max_missed timeout initial_store) p → hc_inv p.
Proof.
  intros Hmax Hr. assert (hc_inv (t0, new_checker max_missed timeout initial_store)) as Hi.
  { by constructor. }
  induction Hr as [|? ? ? Hs _ IH]; [done|]. apply IH. by eapply hc_step_inv.
Qed.

(** ** A server that stays silent *)
Definition run_checks (cs : list (Z * MetaState)) (hc : HealthChecker)
  : HealthChecker * list scan_report :=
  fold_left (λ st c, let r := check_server_health c.1 c.2 st.1 in (r.1, st.2 ++ r.2)) cs (hc, []).

Definition reports (id : Z) (scans : list scan_report) : nat :=
  length (filter (λ k, k = id) scans.*1).

Lemma run_checks_from cs hc scans :
  fold_left (λ st c, let r := check_server_health c.1 c.2 st.1 in (r.1, st.2 ++ r.2)) cs (hc, scans) =
  ((run_checks cs hc).1, scans ++ (run_checks cs hc).2).
Proof.
  unfold run_checks. revert hc scans. induction cs as [|c cs IH]; intros hc scans; simpl.
  { by rewrite app_nil_r. }
  rewrite IH, (IH _ (check_server_health c.1 c.2 hc).2). simpl. by rewrite (assoc_L (++)).
Qed.

Lemma reports_one id now meta hc :
  reports id (check_server_health now meta hc).2 = if marked hc now id then 1%nat else 0%nat.
Proof.
  destruct (check_health_spec now meta hc) as (_ & _ & E & _).
  unfold reports. rewrite E. clear E. set (ids := (hash_order (servers hc)).*1).
  assert (id ∈ ids ∨ marked hc now id = false) as Hid.
  { unfold marked. destruct (servers hc !! id) as [h|] eqn:E; [left|by right].
    unfold ids. apply list_elem_of_fmap. exists (id, h). split; [done|by apply elem_of_hash_order]. }
  assert (NoDup ids) as Hnd by apply hash_order_NoDup. clearbody ids.
  rewrite list_filter_filter.
  destruct (marked hc now id) eqn:Em.
  - destruct Hid as [Hid|]; [|done]. clear -Hid Hnd Em.
    induction ids as [|k ids IH]; [by apply not_elem_of_nil in Hid|].
    apply NoDup_cons in Hnd as [Hni Hnd]. rewrite filter_cons.
    destruct (decide (k = id)) as [->|Hk].
    + rewrite decide_True by by split. simpl. f_equal.
      rewrite filter_none; [done|]. by intros x Hx [-> _].
    + rewrite decide_False by (by intros [? _]). apply IH; [|done].
      apply elem_of_cons in Hid as [?|?]; [congruence|done].
  - rewrite filter_none; [done|]. intros x _ [-> ?]. congruence.
Qed.

Lemma silent_run id cs hc h :
  zk_store hc = initial_store → 1 ≤ max_missed_heartbeats hc →
  servers hc !! id = Some h → (is_healthy h = true ↔ missed_heartbeats h < max_missed_heartbeats hc) →
  Forall (λ c, silent hc c.1 h = true) cs →
  let r := run_checks cs hc in
  let missed := missed_heartbeats h + Z.of_nat (length cs) in
  ∃ h', servers r.1 !! id = Some h' ∧ missed_heartbeats h' = missed ∧
    (is_healthy h' = true ↔ missed < max_missed_heartbeats hc) ∧
    reports id r.2 = if decide (missed_heartbeats h < max_missed_heartbeats hc ≤ missed) then 1%nat else 0%nat.
Proof.
  intros Hst Hmax Hh Hheal Hs. revert hc h Hst Hmax Hh Hheal Hs.
  induction cs as [|[now meta] cs IH]; intros hc h Hst Hmax Hh Hheal Hs; cbv zeta.
  { exists h. simpl. rewrite Z.add_0_r, decide_False by lia. done. }
  apply Forall_cons in Hs as [Hnow Hs]. simpl in Hnow. cbn [length].
  pose proof (reports_one id now meta hc) as Hrep.
  unfold run_checks. cbn [fold_left fst snd]. rewrite app_nil_l, run_checks_from. cbn [fst snd].
  destruct (check_health_spec now meta hc) as (H1 & H2 & _ & _).
  destruct (check_server_health now meta hc) as [hc1 scans1]. cbn [fst snd] in *.
  unfold config in H1. injection H1 as Emax Eto Est _.
  specialize (H2 id). rewrite Hh in H2. cbn [fmap option_fmap option_map] in H2.
  set (h1 := checked hc now id h) in *.
  unfold marked in Hrep. rewrite Hh, marks_initial, Hnow in Hrep by done. cbn [andb] in Hrep.
  assert (missed_heartbeats h1 = missed_heartbeats h + 1 ∧ last_heartbeat h1 = last_heartbeat h ∧
          (is_healthy h1 = true ↔ missed_heartbeats h1 < max_missed_heartbeats hc)) as (E1 & E2 & E3).
  { unfold h1, checked. rewrite marks_initial, Hnow by done. cbn [andb]. simpl. split_and!; try done.
    rewrite andb_true_iff, negb_true_iff, andb_false_iff, bool_decide_eq_false, Hheal.
    split; [intros [Hlt [?|E]]; [lia|apply Hheal in Hlt; congruence]|].
    intros ?. split; [lia|left; lia]. }
  destruct (IH hc1 h1) as (h' & K1 & K2 & K3 & K4); [congruence|lia|done|by rewrite Emax| |].
  { eapply Forall_impl; [exact Hs|]. intros c. simpl. unfold silent. by rewrite Eto, E2. }
  exists h'. split_and!; [done|lia|rewrite Emax in K3; rewrite K3; lia|].
  assert (is_healthy h = bool_decide (missed_heartbeats h < max_missed_heartbeats hc)) as Eh.
  { apply eq_bool_prop_intro. by rewrite Is_true_true, bool_decide_spec. }
  unfold reports in *. rewrite fmap_app, filter_app, length_app, K4, Hrep, Emax, E1, Eh.
  repeat case_bool_decide; cbn [andb]; repeat case_decide; lia.
Qed.

(** C21: a silent server is found, once.  In the checker's own process, a server
    recorded healthy with no missed check, none of whose next checks comes
    within the timeout of its last heartbeat, is still recorded after any
    number of them, healthy as long as they are fewer than the allowed number,
    and it is reported for re-replication exactly once from then on, never
    before. *)
Theorem silent_server_reported_once (id : Z) (cs : list (Z * MetaState)) (hc : HealthChecker)
    (h : ServerHealth) :
  zk_store hc = initial_store → 1 ≤ max_missed_heartbeats hc →
  servers hc !! id = Some h → is_healthy h = true → missed_heartbeats h = 0 →
  Forall (λ c, heartbeat_timeout hc < c.1 - last_heartbeat h) cs →
  let r := run_checks cs hc in
  let n := Z.of_nat (length cs) in
  ∃ h', servers r.1 !! id = Some h' ∧ missed_heartbeats h' = n ∧
    (is_healthy h' = true ↔ n < max_missed_heartbeats hc) ∧
    reports id r.2 = if decide (max_missed_heartbeats hc ≤ n) then 1%nat else 0%nat.
Proof.
  intros Hst Hmax Hh Hheal Hm Hs. cbv zeta.
  destruct (silent_run id cs hc h Hst Hmax Hh) as (h' & K1 & K2 & K3 & K4).
  { rewrite Hm. split; [lia|done]. }
  { eapply Forall_impl; [exact Hs|]. intros c. unfold silent. by rewrite bool_decide_eq_true. }
  rewrite Hm, Z.add_0_l in *. exists h'. split_and!; try done. rewrite K4.
  repeat case_decide; lia.
Qed.
End history.

(** A server at 10.0.0.7 heard once, then nothing. *)
Definition heard : HeartBeat :=
  mkHeartBeat 4 (lit "10.0.0.7:8083") no_float no_float 0 no_float no_float [] [] 0 0.
Definition watching : HealthChecker :=
  process_heartbeat 100 heard (new_checker 3 60 initial_store).
Definition empty_meta : MetaState := mkMeta ∅ [] true.
Definition minute : Z := 60 * 1000000000.

Lemma silent_server_reported_once_witness :
  ∃ h', servers (run_checks [(minute + 200, empty_meta); (2 * minute, empty_meta);
                             (3 * minute, empty_meta); (4 * minute, empty_meta)] watching).1 !! 4 = Some h' ∧
        missed_heartbeats h' = 4 ∧ is_healthy h' = false.
Proof.
  destruct (silent_server_reported_once 4
    [(minute + 200, empty_meta); (2 * minute, empty_meta); (3 * minute, empty_meta);
     (4 * minute, empty_meta)] watching (health_of 100 heard)) as (h' & H1 & H2 & H3 & _);
    try done; [by_decision|].
  exists h'. split_and!; [done|done|]. apply not_true_iff_false. rewrite H3. by vm_compute.
Defined.

#[local] Instance demo_protobuf : Protobuf := net_protobuf.

Lemma checker_invariant_witness :
  hc_inv (4 * minute,
    (check_server_health (4 * minute) empty_meta
       (receive_datagram 100 (frame (serialize heard)) (new_checker 3 60 initial_store))).1).
Proof.
  apply (checker_invariant 3 60 0); [done|].
  eapply rtc_l; [by apply (hc_datagram 0 100 (frame (serialize heard)))|].
  apply rtc_once. by apply (hc_check 100).
Defined.

(** ** The scan *)

(** Only servers of the local machine are ever matched: when no chunk record
    names an address with "127.0.0.1:" in it, no chunk is found for any failed
    server, whatever server failed. *)
Theorem remote_failures_queue_nothing (meta : MetaState) (failed : Z) :
  (∀ file c, c ∈ chunks (query_metadata meta file) →
     contains (lit "127.0.0.1:") (server c) = false) →
  chunks_queued meta failed = 0%nat.
Proof.
  intros Hremote. unfold chunks_queued.
  induction (list_all_files meta) as [|f files IH]; [done|]. simpl.
  rewrite filter_none; [done|]. intros c Hc Hin. apply contains_spec in Hin as (a & b & E).
  specialize (Hremote f c Hc). apply not_true_iff_false in Hremote. apply Hremote.
  apply contains_spec. exists a, (show_Z (8079 + failed) ++ b).
  rewrite E. unfold failed_prefix. by rewrite <- (assoc_L (++)).
Qed.

(** A heartbeat that fits in the buffer is recorded as it was sent; its length
    word does not matter. *)
Lemma heartbeat_recorded `{!Protobuf} now hb word hc :
  wire_ok hb → length word = 4%nat → serialize hb ≠ [] →
  (length (word ++ serialize hb) ≤ buffer_size)%nat →
  receive_datagram now (word ++ serialize hb) hc = process_heartbeat now hb hc.
Proof.
  intros Hw Hl Hne Hs. unfold receive_datagram. rewrite take_ge by done.
  rewrite decide_True.
  - by rewrite drop_app_length', parse_serialize by done.
  - rewrite length_app, Hl. destruct (serialize hb); [done|]. simpl. lia.
Qed.
