(* ===== verification/Reactor.v ===== *)
(** * Reactor: the coroutine reactor's table of waiters
    (src/src/common/include/dfg/async_net.hpp 88-286)

    A coroutine is named by its handle.  The table says who waits for which
    descriptor; [interest] is the kernel's interest set of the reactor's epoll
    descriptor, from which closing a descriptor removes it. *)
From Stdlib Require Import Lia.
From stdpp Require Import relations.
From S2P Require Import Prelude.
Local Open Scope Z_scope.

Inductive edge := EPOLLIN | EPOLLOUT.
#[export] Instance edge_eq_dec : EqDecision edge.
Proof. solve_decision. Defined.
Definition edge_bit (e : edge) : Z := match e with EPOLLIN => 1 | EPOLLOUT => 4 end.

Record Waiters := mkWaiters { rd : list nat; wr : list nat; mask : Z; is_timer : bool }.
Definition no_waiters : Waiters := mkWaiters [] [] 0 false.

Record Reactor := mkReactor { fds : gmap Z Waiters; interest : gmap Z Z; active_tasks : Z }.
Definition new_reactor : Reactor := mkReactor ∅ ∅ 0.

(** [epoll_ctl]: adding what is there, or changing what is not, fails. *)
Definition epoll_add (s : gmap Z Z) (fd ev : Z) : option (gmap Z Z) :=
  match s !! fd with Some _ => None | None => Some (<[fd := ev]> s) end.
Definition epoll_mod (s : gmap Z Z) (fd ev : Z) : option (gmap Z Z) :=
  match s !! fd with Some _ => Some (<[fd := ev]> s) | None => None end.

Definition with_mask (w : Waiters) (m : Z) : Waiters := mkWaiters (rd w) (wr w) m (is_timer w).

(** The reactor afterwards, and whether it returned ([false]: it threw). *)
Definition ctl_add_or_mod (r : Reactor) (fd newmask : Z) : Reactor * bool :=
  let w := default no_waiters (fds r !! fd) in
  let r := mkReactor (<[fd := w]> (fds r)) (interest r) (active_tasks r) in
  match (if decide (mask w = 0) then epoll_add (interest r) fd newmask
         else epoll_mod (interest r) fd newmask) with
  | Some s => (mkReactor (<[fd := with_mask w newmask]> (fds r)) s (active_tasks r), true)
  | None => (r, false)
  end.

Definition add_waiter (r : Reactor) (fd : Z) (e : edge) (h : nat) (timer : bool) : Reactor * bool :=
  let w := default no_waiters (fds r !! fd) in
  let w := mkWaiters (match e with EPOLLIN => rd w ++ [h] | EPOLLOUT => rd w end)
             (match e with EPOLLIN => wr w | EPOLLOUT => wr w ++ [h] end)
             (mask w) (is_timer w || timer) in
  ctl_add_or_mod (mkReactor (<[fd := w]> (fds r)) (interest r) (active_tasks r)) fd
    (Z.lor (mask w) (edge_bit e)).

(** [edges]: which of the two bits are asked for. *)
Definition waiting_mask (w : Waiters) : Z :=
  Z.lor (match rd w with [] => 0 | _ => edge_bit EPOLLIN end)
        (match wr w with [] => 0 | _ => edge_bit EPOLLOUT end).

Definition take_waiters (r : Reactor) (fd : Z) (rd_too wr_too : bool) : Reactor * list nat * bool :=
  match fds r !! fd with
  | None => (r, [], true)
  | Some w =>
      let out := (if rd_too then rd w else []) ++ (if wr_too then wr w else []) in
      let w' := mkWaiters (if rd_too then [] else rd w) (if wr_too then [] else wr w) (mask w) (is_timer w) in
      let newmask := waiting_mask w' in
      let r := mkReactor (<[fd := w']> (fds r)) (interest r) (active_tasks r) in
      if decide (newmask = mask w') then (r, out, true)
      else if decide (newmask = 0)
      then (mkReactor (delete fd (fds r)) (delete fd (interest r)) (active_tasks r), out, true)
      else let '(r, ok) := ctl_add_or_mod r fd newmask in (r, out, ok)
  end.

(** One event of [run]: the flags, and who is resumed. *)
Record ep_event := mkEvent { ev_fd : Z; ev_error : bool; ev_in : bool; ev_out : bool }.

(** What the handlers of one event take when nothing else happens meanwhile. *)
Definition dispatch (r : Reactor) (ev : ep_event) : Reactor * list nat * bool :=
  if ev_error ev then take_waiters r (ev_fd ev) true true
  else
    let '(r, readers, ok1) :=
      if ev_in ev then take_waiters r (ev_fd ev) true false else (r, [], true) in
    let '(r, writers, ok2) :=
      if ev_out ev then take_waiters r (ev_fd ev) false true else (r, [], true) in
    (r, readers ++ writers, ok1 && ok2).

(** [spawn] of a task that is there, and the end of a spawned one. *)
Definition spawned (r : Reactor) : Reactor := mkReactor (fds r) (interest r) (active_tasks r + 1).
Definition finished (r : Reactor) : Reactor := mkReactor (fds r) (interest r) (active_tasks r - 1).

(** [close(fd)] by a coroutine: the kernel forgets the descriptor. *)
Definition close_fd (r : Reactor) (fd : Z) : Reactor :=
  mkReactor (fds r) (delete fd (interest r)) (active_tasks r).

(** ** The table and the kernel agree *)
Record synced (r : Reactor) : Prop := {
  sy_interest : ∀ fd, interest r !! fd = mask <$> fds r !! fd;
  sy_mask : ∀ fd w, fds r !! fd = Some w → mask w = waiting_mask w ∧ mask w ≠ 0
}.

Lemma waiting_mask_zero w : waiting_mask w = 0 ↔ rd w = [] ∧ wr w = [].
Proof.
  unfold waiting_mask. destruct (rd w), (wr w); (split; [|by intros [? ?]]); try done; by split.
Qed.

Lemma ctl_synced r fd w newmask :
  (∀ k, k ≠ fd → interest r !! k = mask <$> fds r !! k) →
  (∀ k x, k ≠ fd → fds r !! k = Some x → mask x = waiting_mask x ∧ mask x ≠ 0) →
  fds r !! fd = Some w → interest r !! fd = (if decide (mask w = 0) then None else Some (mask w)) →
  newmask = waiting_mask w → newmask ≠ 0 →
  let '(r', ok) := ctl_add_or_mod r fd newmask in
  ok = true ∧ synced r' ∧ fds r' = <[fd := with_mask w newmask]> (fds r) ∧
  active_tasks r' = active_tasks r.
Proof.
  intros Hint Hmask Hw Hfd Hnew Hne. unfold ctl_add_or_mod. rewrite Hw. cbn [default from_option id].
  assert (∃ s, (if decide (mask w = 0) then epoll_add (interest r) fd newmask
                else epoll_mod (interest r) fd newmask) = Some s ∧ s = <[fd := newmask]> (interest r))
    as (s & E & ->).
  { unfold epoll_add, epoll_mod. rewrite Hfd. case_decide; eauto. }
  cbn [interest fds active_tasks]. rewrite E, insert_insert_eq. split_and!; [done| |done|done].
  constructor; cbn [fds interest].
  - intros k. rewrite !lookup_insert. clear E Hfd. case_decide; [done|by apply Hint, not_eq_sym].
  - intros k x. rewrite !lookup_insert. clear E Hfd. case_decide as Ek.
    + intros [= <-]. split; [exact Hnew|exact Hne].
    + intros Hx. by apply (Hmask k x (not_eq_sym Ek)).
Qed.

Lemma synced_default r fd :
  synced r → interest r !! fd = (if decide (mask (default no_waiters (fds r !! fd)) = 0) then None
                                 else Some (mask (default no_waiters (fds r !! fd)))).
Proof.
  intros [Hint Hmask]. rewrite Hint. destruct (fds r !! fd) as [w|] eqn:E; [|done].
  simpl. by rewrite decide_False by by apply (Hmask fd w E).
Qed.

(** The lists of one descriptor. *)
Definition waiting (r : Reactor) (fd : Z) (e : edge) : list nat :=
  let w := default no_waiters (fds r !! fd) in
  match e with EPOLLIN => rd w | EPOLLOUT => wr w end.

Lemma default_mask r fd :
  synced r → mask (default no_waiters (fds r !! fd)) = waiting_mask (default no_waiters (fds r !! fd)).
Proof.
  intros [_ Hmask]. destruct (fds r !! fd) as [w|] eqn:E; [|done]. by apply (Hmask fd w E).
Qed.

Lemma add_waiter_spec r fd e h timer :
  synced r →
  let '(r', ok) := add_waiter r fd e h timer in
  ok = true ∧ synced r' ∧ active_tasks r' = active_tasks r ∧
  ∀ k e', waiting r' k e' = waiting r k e' ++ (if decide (k = fd ∧ e' = e) then [h] else []).
Proof.
  intros Hs. pose proof (synced_default r fd Hs) as Hd. pose proof (default_mask r fd Hs) as Hm.
  destruct Hs as [Hint Hmask]. unfold add_waiter.
  set (w0 := default no_waiters (fds r !! fd)) in *. set (w := mkWaiters _ _ _ _).
  set (r1 := mkReactor (<[fd := w]> (fds r)) (interest r) (active_tasks r)).
  pose proof (ctl_synced r1 fd w (Z.lor (mask w0) (edge_bit e))) as Hctl.
  destruct (ctl_add_or_mod r1 fd _) as [r' ok].
  destruct Hctl as (-> & Hs' & Hf & Ha).
  - intros k Hk. cbn [r1 fds interest]. by rewrite lookup_insert_ne.
  - intros k x Hk. cbn [r1 fds]. rewrite lookup_insert_ne by done. apply Hmask.
  - apply lookup_insert_eq.
  - exact Hd.
  - rewrite Hm. unfold w, waiting_mask. cbn [rd wr].
    destruct e; destruct (rd w0), (wr w0); reflexivity.
  - rewrite Hm. unfold waiting_mask. destruct e; destruct (rd w0), (wr w0); done.
  - split_and!; try done. intros k e'. unfold waiting. rewrite Hf. cbn [r1 fds].
    rewrite insert_insert_eq, lookup_insert. destruct (decide (fd = k)) as [<-|Hk].
    + fold w0. unfold w. destruct e, e';
        first [rewrite decide_True by done|rewrite decide_False by (by intros [_ ?])];
        simpl; by rewrite ?app_nil_r.
    + rewrite decide_False by (by intros [-> _]). by rewrite app_nil_r.
Qed.

Lemma take_waiters_spec r fd rd_too wr_too :
  synced r →
  let '(r', out, ok) := take_waiters r fd rd_too wr_too in
  ok = true ∧ synced r' ∧ active_tasks r' = active_tasks r ∧
  out = (if rd_too then waiting r fd EPOLLIN else []) ++ (if wr_too then waiting r fd EPOLLOUT else []) ∧
  ∀ k e, waiting r' k e =
    if decide (k = fd ∧ (match e with EPOLLIN => rd_too | EPOLLOUT => wr_too end) = true) then []
    else waiting r k e.
Proof.
  intros Hs. pose proof (synced_default r fd Hs) as Hd. destruct Hs as [Hint Hmask].
  unfold take_waiters, waiting at 1 2. destruct (fds r !! fd) as [w|] eqn:Hw.
  2:{ clear Hd. split_and!; try done; [by destruct rd_too, wr_too|].
      intros k e. case_decide as Hk; [|done]. destruct Hk as [-> _]. unfold waiting.
      rewrite Hw. by destruct e. }
  simpl in Hd. destruct (Hmask fd w Hw) as [Hwm Hne]. cbn [default from_option id].
  set (w' := mkWaiters _ _ _ _). set (out := _ ++ _).
  set (r1 := mkReactor (<[fd := w']> (fds r)) (interest r) (active_tasks r)).
  assert (∀ k e, waiting r1 k e =
    if decide (k = fd ∧ (match e with EPOLLIN => rd_too | EPOLLOUT => wr_too end) = true) then []
    else waiting r k e) as Hwait.
  { intros k e. unfold waiting. cbn [r1 fds]. rewrite lookup_insert.
    destruct (decide (fd = k)) as [<-|Hk].
    - rewrite Hw. simpl. destruct e, rd_too, wr_too; simpl;
        first [rewrite decide_True by done|rewrite decide_False by (by intros [_ ?])]; done.
    - by rewrite decide_False by (by intros [-> _]). }
  cbn [mask w']. destruct (decide (waiting_mask w' = mask w)) as [Em|Em].
  { split_and!; try done. constructor; cbn [r1 fds interest].
    - intros k. rewrite lookup_insert, Hint. clear Hd. case_decide as Hk; [|done].
      by rewrite <- Hk, Hw.
    - intros k x. rewrite lookup_insert. clear Hd. case_decide; [|apply Hmask].
      intros [= <-]. done. }
  destruct (decide (waiting_mask w' = 0)) as [Ez|Ez].
  { split_and!; try done.
    - constructor; cbn [r1 fds interest].
      + intros k. rewrite delete_insert_eq, !lookup_delete, Hint. clear Hd. by case_decide.
      + intros k x. rewrite delete_insert_eq, lookup_delete. clear Hd. case_decide; [done|apply Hmask].
    - intros k e. rewrite <- Hwait. unfold waiting. cbn [r1 fds].
      rewrite delete_insert_eq, lookup_delete, lookup_insert. clear Hd.
      case_decide; [|done]. simpl. apply waiting_mask_zero in Ez as [E1 E2].
      destruct e; simpl; by rewrite ?E1, ?E2. }
  pose proof (ctl_synced r1 fd w' (waiting_mask w')) as Hctl.
  destruct (ctl_add_or_mod r1 fd (waiting_mask w')) as [r' ok].
  destruct Hctl as (-> & Hs' & Hf & Ha); try done.
  - intros k Hk. cbn [r1 fds interest]. by rewrite lookup_insert_ne.
  - intros k x Hk. cbn [r1 fds]. rewrite lookup_insert_ne by done. apply Hmask.
  - apply lookup_insert_eq.
  - split_and!; try done. intros k e. rewrite <- Hwait. unfold waiting. rewrite Hf. cbn [r1 fds].
    rewrite insert_insert_eq, !lookup_insert. clear Hd. case_decide; [|done]. by destruct e.
Qed.

(** ** Histories *)

(** Who is resumed by taking the waiters of [fd], and for which edge. *)
Definition waiter : Type := Z * edge * nat.
Definition tagged (fd : Z) (e : edge) (hs : list nat) : list waiter := map (pair (fd, e)) hs.
Definition taken (r : Reactor) (fd : Z) (rd_too wr_too : bool) : list waiter :=
  tagged fd EPOLLIN (if rd_too then waiting r fd EPOLLIN else [])
  ++ tagged fd EPOLLOUT (if wr_too then waiting r fd EPOLLOUT else []).

(** A reactor, everyone who ever waited, everyone who was resumed. *)
Record History := mkHistory { reactor : Reactor; waited : list waiter; resumed : list waiter }.

(** Coroutines wait, spawn, end and close descriptors nobody waits for; events
    of any descriptor, stale ones included, resume their waiters.  Between two
    takes of one event other coroutines may have run. *)
Inductive reactor_step : History → History → Prop :=
  | step_wait r ws rs fd e h timer :
      reactor_step (mkHistory r ws rs)
        (mkHistory (add_waiter r fd e h timer).1 (ws ++ [(fd, e, h)]) rs)
  | step_take r ws rs fd a b :
      reactor_step (mkHistory r ws rs)
        (mkHistory (take_waiters r fd a b).1.1 ws (rs ++ taken r fd a b))
  | step_close r ws rs fd :
      (∀ e, waiting r fd e = []) → reactor_step (mkHistory r ws rs) (mkHistory (close_fd r fd) ws rs)
  | step_spawn r ws rs : reactor_step (mkHistory r ws rs) (mkHistory (spawned r) ws rs)
  | step_finish r ws rs : reactor_step (mkHistory r ws rs) (mkHistory (finished r) ws rs).

(** The handles of [l] for one descriptor and edge, in order. *)
Definition for_fd (fd : Z) (e : edge) (l : list waiter) : list nat :=
  map snd (filter (λ w, w.1 = (fd, e)) l).

Lemma for_fd_app fd e l l' : for_fd fd e (l ++ l') = for_fd fd e l ++ for_fd fd e l'.
Proof. unfold for_fd. by rewrite filter_app, map_app. Qed.

Lemma for_fd_tagged fd e k e' hs :
  for_fd fd e (tagged k e' hs) = if decide (fd = k ∧ e = e') then hs else [].
Proof.
  unfold for_fd, tagged. case_decide as H.
  - destruct H as [-> ->]. rewrite filter_all; [|by apply Forall_map, Forall_true].
    rewrite map_map. apply map_id.
  - rewrite filter_none; [done|]. intros w Hw. apply list_elem_of_fmap in Hw as (h & -> & _).
    simpl. intros [= -> ->]. by apply H.
Qed.

Record history_ok (s : History) : Prop := {
  hi_synced : synced (reactor s);
  hi_conserved : ∀ fd e, for_fd fd e (waited s) = for_fd fd e (resumed s) ++ waiting (reactor s) fd e
}.

Lemma not_waiting r fd : synced r → (∀ e, waiting r fd e = []) → fds r !! fd = None.
Proof.
  intros [_ Hmask] Hw. destruct (fds r !! fd) as [w|] eqn:E; [|done].
  destruct (Hmask fd w E) as [Em Hne]. destruct Hne. rewrite Em. apply waiting_mask_zero.
  pose proof (Hw EPOLLIN) as H1. pose proof (Hw EPOLLOUT) as H2. unfold waiting in *.
  by rewrite E in H1, H2.
Qed.

(** Closing a descriptor nobody waits for keeps table and kernel together. *)
Lemma close_synced r fd : synced r → (∀ e, waiting r fd e = []) → synced (close_fd r fd).
Proof.
  intros Hs Hw. pose proof Hs as [Hint Hmask]. constructor; [|done]. intros k.
  cbn [close_fd interest fds]. rewrite lookup_delete. case_decide as Hk; [|by apply Hint].
  subst k. by rewrite (not_waiting r fd).
Qed.

Lemma reactor_step_ok s s' : reactor_step s s' → history_ok s → history_ok s'.
Proof.
  intros [r ws rs fd e h timer|r ws rs fd a b|r ws rs fd Hc|r ws rs|r ws rs] [Hs Hc'];
    cbn [reactor waited resumed] in *.
  - pose proof (add_waiter_spec r fd e h timer Hs) as Ha.
    destruct (add_waiter r fd e h timer) as [r' ok]. destruct Ha as (_ & Hs' & _ & Hw).
    constructor; [done|]. intros k e'. cbn [reactor waited resumed fst].
    rewrite for_fd_app, Hc', Hw, <- (assoc_L (++)). f_equal. f_equal.
    apply (for_fd_tagged k e' fd e [h]).
  - pose proof (take_waiters_spec r fd a b Hs) as Ht.
    destruct (take_waiters r fd a b) as [[r' out] ok]. destruct Ht as (_ & Hs' & _ & _ & Hw).
    constructor; [done|]. intros k e'. cbn [reactor waited resumed fst].
    rewrite Hc', for_fd_app, <- (assoc_L (++)). f_equal. unfold taken.
    rewrite for_fd_app, !for_fd_tagged, Hw.
    destruct (decide (k = fd)) as [->|Hk].
    + destruct e', a, b; repeat first [rewrite decide_True by done|rewrite decide_False by (by intros [? ?])];
        by rewrite ?app_nil_r.
    + by rewrite !decide_False by (by intros [? ?]).
  - constructor; [by apply close_synced|done].
  - constructor; [|done]. by destruct Hs.
  - constructor; [|done]. by destruct Hs.
Qed.

(** No wake-up is lost or duplicated.  In every history in which
    coroutines close only descriptors nobody waits for, the handles that ever
    waited for an edge of a descriptor are, in order, those that were resumed
    for it and those still in the table; the kernel watches exactly the
    descriptors and edges of the table, registering a waiter never throws, and
    an event resumes exactly the waiters of its descriptor and edges. *)
Theorem reactor_conserves_waiters (s : History) :
  rtc reactor_step (mkHistory new_reactor [] []) s →
  (∀ fd e, for_fd fd e (waited s) = for_fd fd e (resumed s) ++ waiting (reactor s) fd e) ∧
  synced (reactor s) ∧
  (∀ fd e h timer, (add_waiter (reactor s) fd e h timer).2 = true) ∧
  (∀ fd a b, (take_waiters (reactor s) fd a b).2 = true ∧
             (take_waiters (reactor s) fd a b).1.2 = map snd (taken (reactor s) fd a b)).
Proof.
  intros Hr. assert (history_ok s) as [Hs Hc].
  { assert (history_ok (mkHistory new_reactor [] [])) as Hi
      by (constructor; [by constructor|by intros fd []]).
    induction Hr as [|? ? ? Hs _ IH]; [done|]. apply IH. by eapply reactor_step_ok. }
  split_and!; [done|done| |].
  - intros fd e h timer. pose proof (add_waiter_spec (reactor s) fd e h timer Hs) as Ha.
    destruct (add_waiter _ fd e h timer) as [r' ok]. by destruct Ha.
  - intros fd a b. pose proof (take_waiters_spec (reactor s) fd a b Hs) as Ht.
    destruct (take_waiters _ fd a b) as [[r' out] ok]. destruct Ht as (-> & _ & _ & -> & _).
    split; [done|]. unfold taken, tagged. rewrite map_app, !map_map. simpl. by rewrite !map_id.
Qed.

(** Without that care the reactor throws: when a descriptor is closed under a
    waiter and its number is used again, the next wait on it fails. *)
Theorem close_under_waiter_throws (r : Reactor) (fd : Z) (e e' : edge) (h : nat) (timer : bool) :
  synced r → waiting r fd e ≠ [] → (add_waiter (close_fd r fd) fd e' h timer).2 = false.
Proof.
  intros [Hint Hmask] Hw. unfold waiting in Hw. destruct (fds r !! fd) as [w|] eqn:E; [|by destruct e].
  destruct (Hmask fd w E) as [_ Hne]. unfold add_waiter, ctl_add_or_mod, close_fd.
  cbn [fds interest]. rewrite E. cbn [default from_option id]. rewrite lookup_insert_eq.
  cbn [default from_option id mask]. rewrite decide_False by done. unfold epoll_mod.
  by rewrite lookup_delete_eq.
Qed.

(** Two coroutines wait for a socket, a third for a timer; the timer fires. *)
#[local] Abbreviation r1 := (add_waiter new_reactor 5 EPOLLIN 1 false).1.
#[local] Abbreviation r2 := (add_waiter r1 5 EPOLLOUT 2 false).1.
#[local] Abbreviation r3 := (add_waiter r2 7 EPOLLIN 3 true).1.
#[local] Abbreviation w1 := ([] ++ [(5, EPOLLIN, 1%nat)]).
#[local] Abbreviation w2 := (w1 ++ [(5, EPOLLOUT, 2%nat)]).
#[local] Abbreviation w3 := (w2 ++ [(7, EPOLLIN, 3%nat)]).

Lemma reactor_conserves_waiters_witness :
  for_fd 5 EPOLLOUT w3 =
    for_fd 5 EPOLLOUT ([] ++ taken r3 7 true false) ++
    waiting (take_waiters r3 7 true false).1.1 5 EPOLLOUT.
Proof.
  pose proof (reactor_conserves_waiters
    (mkHistory (take_waiters r3 7 true false).1.1 w3 ([] ++ taken r3 7 true false))) as H.
  cbn [reactor waited resumed] in H. apply H.
  exact (rtc_l _ _ _ _ (step_wait new_reactor [] [] 5 EPOLLIN 1 false)
          (rtc_l _ _ _ _ (step_wait r1 w1 [] 5 EPOLLOUT 2 false)
            (rtc_l _ _ _ _ (step_wait r2 w2 [] 7 EPOLLIN 3 true)
              (rtc_once _ _ (step_take r3 w3 [] 7 true false))))).
Defined.
