(* ===== verification/Coroutines.v ===== *)
(** * Coroutines: the tasks of the reactor, from spawn to destruction
    (src/src/common/include/dfg/async_net.hpp 34-285, 541-552 and
    src/src/cluster_server/chunk_service.cpp 31-68)

    Coroutine frames, who resumes whom, and the loop of [Reactor::run].  What a
    coroutine computes between two suspensions is an argument ([code]): its
    local state decides what it does next. *)
From Stdlib Require Import Lia.
From stdpp Require Import relations.
From S2P Require Import Prelude.
From S2P Require Import Reactor.
Local Open Scope Z_scope.

Section machine.
Context {S : Type}.

(** What a coroutine does next; [k] is where it goes on. *)
Inductive effect :=
  | Wait (fd : Z) (e : edge) (k : S)          (* co_await wait_readable / wait_writable *)
  | Sleep (k : S)                             (* co_await sleep_for(..) *)
  | Close (fd : Z) (k : S)                    (* ::close(fd) *)
  | Call (child : S) (k : bool → S)           (* co_await child(): whether it threw *)
  | Spawn (child : S) (k : S)                 (* spawn(child()) *)
  | AwaitFuture (fut : Z) (k : S)             (* co_await await_future(..) *)
  | Return | Throw.

(** Where a frame goes on: its code, [poll_future_awaiter] before and after its
    loop, or the end of a [SleepAwaiter] whose timer it owns. *)
Inductive body :=
  | User (s : S)
  | Poll (fut : Z) (target : nat)
  | PollEnd
  | Woken (tfd : Z) (b : body).

(** Where a frame is: being run, waiting in the reactor, for the task it
    awaits, or for the poller of its future. *)
Inductive status :=
  | Running
  | AtFd (fd : Z) (e : edge)
  | AtChild (c : nat) (k : bool → S)
  | AtFuture (p : nat).

(** [spawned]: the promise's [reactor] is set. *)
Record Frame := mkFrame {
  frame_body : body; frame_status : status; spawned_task : bool; continuation : option nat }.

(** [stack]: the frames whose [resume()] has not returned control yet,
    innermost first; [batch]: the handles of the event being handled that
    [run] has still to resume; [fault]: a frame was resumed that is destroyed
    or not suspended there, or the reactor threw. *)
Record Machine := mkMachine {
  reactor : Reactor; frames : gmap nat Frame; stack : list nat; batch : list nat;
  ready : gset Z; next_handle : nat; fault : bool }.
Definition new_machine : Machine := mkMachine new_reactor ∅ [] [] ∅ 0 false.

Definition with_frames (fr : gmap nat Frame) (st : list nat) (m : Machine) : Machine :=
  mkMachine (reactor m) fr st (batch m) (ready m) (next_handle m) (fault m).
Definition with_reactor (r : Reactor) (m : Machine) : Machine :=
  mkMachine r (frames m) (stack m) (batch m) (ready m) (next_handle m) (fault m).
Definition faulty (m : Machine) : Machine :=
  mkMachine (reactor m) (frames m) (stack m) (batch m) (ready m) (next_handle m) true.
Definition set_frame (h : nat) (f : Frame) (m : Machine) : Machine :=
  with_frames (<[h := f]> (frames m)) (stack m) m.
Definition with_body (b : body) (f : Frame) : Frame :=
  mkFrame b (frame_status f) (spawned_task f) (continuation f).
Definition at_status (s : status) (f : Frame) : Frame :=
  mkFrame (frame_body f) s (spawned_task f) (continuation f).

(** A coroutine is called: its frame, at once suspended, is resumed by [spawn]
    or by the [co_await] of its caller [cont]. *)
Definition start (b : body) (spawn : bool) (cont : option nat) (m : Machine) : Machine :=
  mkMachine (if spawn then spawned (reactor m) else reactor m)
    (<[next_handle m := mkFrame b Running spawn cont]> (frames m)) (next_handle m :: stack m)
    (batch m) (ready m) (Datatypes.S (next_handle m)) (fault m).

(** [add_waiter] by the running frame, which goes on with [b]; control returns
    to whoever resumed it. *)
Definition suspend (h : nat) (f : Frame) (b : body) (fd : Z) (e : edge) (timer : bool) (m : Machine)
  : Machine :=
  let '(r, ok) := add_waiter (reactor m) fd e h timer in
  let m := with_reactor r (with_frames (<[h := at_status (AtFd fd e) (with_body b f)]> (frames m))
                             (tail (stack m)) m) in
  if ok then m else faulty m.

(** [handle.resume()] of a suspended frame. *)
Definition push (h : nat) (f : Frame) (b : body) (m : Machine) : Machine :=
  with_frames (<[h := at_status Running (with_body b f)]> (frames m)) (h :: stack m) m.

(** By [run], of a handle taken from the table. *)
Definition resume_waiter (h : nat) (m : Machine) : Machine :=
  match frames m !! h with
  | Some f => match frame_status f with AtFd _ _ => push h f (frame_body f) m | _ => faulty m end
  | None => faulty m
  end.

(** By the [final_awaitable] of the awaited task [c], which its caller's
    [await_resume] destroys. *)
Definition resume_caller (c h : nat) (threw : bool) (m : Machine) : Machine :=
  match frames m !! h with
  | Some f => match frame_status f with
              | AtChild c' k => if decide (c' = c) then push h f (User (k threw)) m else faulty m
              | _ => faulty m
              end
  | None => faulty m
  end.

(** By the poller [p] of its future. *)
Definition resume_target (p h : nat) (m : Machine) : Machine :=
  match frames m !! h with
  | Some f => match frame_status f with
              | AtFuture p' => if decide (p' = p) then push h f (frame_body f) m else faulty m
              | _ => faulty m
              end
  | None => faulty m
  end.

(** [final_suspend] of the running frame: the exception of a spawned task is
    dropped with its frame. *)
Definition finish (h : nat) (f : Frame) (threw : bool) (m : Machine) : Machine :=
  let r := if spawned_task f then finished (reactor m) else reactor m in
  let m := with_reactor r (with_frames (delete h (frames m)) (tail (stack m)) m) in
  match continuation f with
  | Some p => resume_caller h p threw m
  | None => m
  end.

(** One effect of the running frame; [tfd]: the timer [timerfd_create] gives. *)
Definition exec (h : nat) (f : Frame) (eff : effect) (tfd : Z) (m : Machine) : Machine :=
  match eff with
  | Wait fd e k => suspend h f (User k) fd e false m
  | Sleep k => suspend h f (Woken tfd (User k)) tfd EPOLLIN true m
  | Close fd k => with_reactor (close_fd (reactor m) fd) (set_frame h (with_body (User k) f) m)
  | Call child k =>
      let c := next_handle m in
      start (User child) false (Some h)
        (with_frames (<[h := at_status (AtChild c k) f]> (frames m)) (tail (stack m)) m)
  | Spawn child k => start (User child) true None (set_frame h (with_body (User k) f) m)
  | AwaitFuture fut k =>
      if decide (fut ∈ ready m) then set_frame h (with_body (User k) f) m
      else
        let p := next_handle m in
        start (Poll fut h) true None
          (with_frames (<[h := at_status (AtFuture p) (with_body (User k) f)]> (frames m))
             (tail (stack m)) m)
  | Return => finish h f false m
  | Throw => finish h f true m
  end.

(** [poll_future_awaiter], once around its loop. *)
Definition poll (h : nat) (f : Frame) (fut : Z) (target : nat) (tfd : Z) (m : Machine) : Machine :=
  if decide (fut ∈ ready m) then resume_target h target (set_frame h (with_body PollEnd f) m)
  else suspend h f (Woken tfd (Poll fut target)) tfd EPOLLIN true m.

(** [take_waiters] for an event of [run]. *)
Definition take (fd : Z) (rd_too wr_too : bool) (m : Machine) : Machine :=
  let '(r, out, ok) := take_waiters (reactor m) fd rd_too wr_too in
  let m := mkMachine r (frames m) (stack m) out (ready m) (next_handle m) (fault m) in
  if ok then m else faulty m.

(** Nobody waits for the descriptor: true of a timer just made and of a
    descriptor about to be closed. *)
Definition unwatched (fd : Z) (m : Machine) : Prop := ∀ e, waiting (reactor m) fd e = [].
Definition proper (eff : effect) (tfd : Z) (m : Machine) : Prop :=
  match eff with Sleep _ => unwatched tfd m | Close fd _ => unwatched fd m | _ => True end.

Variable code : S → effect → Prop.

(** [run] between two resumptions: [idle]. *)
Definition idle (m : Machine) : Prop := stack m = [] ∧ batch m = [].

Inductive step : Machine → Machine → Prop :=
  (** [spawn] by the program that owns the reactor *)
  | step_start m s : idle m → step m (start (User s) true None m)
  (** an event [epoll_wait] reported, stale ones included *)
  | step_event m fd a b : idle m → step m (take fd a b m)
  | step_next m h hs :
      stack m = [] → batch m = h :: hs →
      step m (resume_waiter h
                (mkMachine (reactor m) (frames m) [] hs (ready m) (next_handle m) (fault m)))
  (** a thread of the pool completes a future *)
  | step_ready m fut :
      step m (mkMachine (reactor m) (frames m) (stack m) (batch m) ({[fut]} ∪ ready m)
                (next_handle m) (fault m))
  | step_code m h st f s eff tfd :
      stack m = h :: st → frames m !! h = Some f → frame_body f = User s → code s eff →
      proper eff tfd m → step m (exec h f eff tfd m)
  | step_poll m h st f fut target tfd :
      stack m = h :: st → frames m !! h = Some f → frame_body f = Poll fut target →
      unwatched tfd m → step m (poll h f fut target tfd m)
  | step_poll_end m h st f :
      stack m = h :: st → frames m !! h = Some f → frame_body f = PollEnd →
      step m (finish h f false m)
  (** [SleepAwaiter::await_resume] *)
  | step_woken m h st f tfd b :
      stack m = h :: st → frames m !! h = Some f → frame_body f = Woken tfd b → unwatched tfd m →
      step m (with_reactor (close_fd (reactor m) tfd) (set_frame h (with_body b f) m)).

(** [run] returns: no task is left, as it counts them. *)
Definition run_returns (m : Machine) : Prop := idle m ∧ active_tasks (reactor m) = 0.

(** ** What holds of every reachable machine *)

(** The task or poller a frame waits for, and whom a task or poller will
    resume; the flag tells pollers from awaited tasks. *)
Fixpoint target_of (b : body) : option nat :=
  match b with Poll _ t => Some t | Woken _ b => target_of b | _ => None end.
Definition waits_on (f : Frame) : option (nat * bool) :=
  match frame_status f with
  | AtChild c _ => Some (c, false)
  | AtFuture p => Some (p, true)
  | _ => None
  end.
Definition wakes (f : Frame) : option (nat * bool) :=
  match continuation f with
  | Some h => Some (h, false)
  | None => (λ t, (t, true)) <$> target_of (frame_body f)
  end.

Definition frame_ok (f : Frame) : Prop :=
  (spawned_task f = true ↔ continuation f = None) ∧
  (target_of (frame_body f) ≠ None → continuation f = None) ∧
  match frame_status f with AtChild _ _ => target_of (frame_body f) = None | _ => True end.
Definition tasks (fr : gmap nat Frame) : Z :=
  Z.of_nat (size (filter (λ x, spawned_task x.2 = true) fr)).
Definition linked (w v : nat → option (nat * bool)) : Prop :=
  ∀ h c k, w h = Some (c, k) ↔ v c = Some (h, k).
Definition where_ (fr : gmap nat Frame) (h : nat) : option status := frame_status <$> fr !! h.
Definition awaits (fr : gmap nat Frame) (h : nat) : option (nat * bool) := fr !! h ≫= waits_on.
Definition resumes (fr : gmap nat Frame) (h : nat) : option (nat * bool) := fr !! h ≫= wakes.

Record machine_ok (m : Machine) : Prop := {
  ok_synced : synced (reactor m);
  ok_fault : fault m = false;
  ok_next : ∀ h, is_Some (frames m !! h) → (h < next_handle m)%nat;
  ok_stack : NoDup (stack m);
  ok_running : ∀ h, h ∈ stack m ↔ where_ (frames m) h = Some Running;
  ok_parked : ∀ h fd e, where_ (frames m) h = Some (AtFd fd e) → h ∈ waiting (reactor m) fd e ++ batch m;
  ok_table : ∀ h fd e, h ∈ waiting (reactor m) fd e → where_ (frames m) h = Some (AtFd fd e);
  ok_batch : ∀ h, h ∈ batch m → ∃ fd e, where_ (frames m) h = Some (AtFd fd e);
  ok_once : ∀ fd e, NoDup (waiting (reactor m) fd e ++ batch m);
  ok_links : linked (awaits (frames m)) (resumes (frames m));
  ok_order : ∀ h c k, awaits (frames m) h = Some (c, k) → (h < c)%nat;
  ok_frames : map_Forall (λ _, frame_ok) (frames m);
  ok_active : active_tasks (reactor m) = tasks (frames m)
}.

Lemma linked_same w v w' v' :
  linked w v → (∀ x, w' x = w x) → (∀ x, v' x = v x) → linked w' v'.
Proof. intros Hl Hw Hv h c k. by rewrite Hw, Hv. Qed.

Lemma linked_add w v w' v' h c k :
  linked w v → w h = None → v c = None →
  (∀ x, w' x = if decide (x = h) then Some (c, k) else w x) →
  (∀ x, v' x = if decide (x = c) then Some (h, k) else v x) → linked w' v'.
Proof.
  intros Hl Hh Hc Hw Hv x y k'. rewrite Hw, Hv.
  destruct (decide (x = h)) as [->|Hx], (decide (y = c)) as [->|Hy].
  - split; by intros [= ->].
  - split; [by intros [= <- _]|]. rewrite <- (Hl h y k'), Hh. done.
  - split; [|by intros [= <- _]]. rewrite (Hl x c k'), Hc. done.
  - apply Hl.
Qed.

Lemma linked_del w v w' v' h c k :
  linked w v → w h = Some (c, k) →
  (∀ x, w' x = if decide (x = h) then None else w x) →
  (∀ x, v' x = if decide (x = c) then None else v x) → linked w' v'.
Proof.
  intros Hl Hh Hw Hv x y k'. rewrite Hw, Hv. pose proof (proj1 (Hl h c k) Hh) as Hc.
  destruct (decide (x = h)) as [->|Hx], (decide (y = c)) as [->|Hy]; [done| | |apply Hl].
  - rewrite <- (Hl h y k'), Hh. split; [done|]. by intros [= <- _].
  - rewrite (Hl x c k'), Hc. split; [|done]. by intros [= <- _].
Qed.

Lemma tasks_new fr h f :
  fr !! h = None → tasks (<[h := f]> fr) = tasks fr + (if spawned_task f then 1 else 0).
Proof.
  intros Hh. unfold tasks. destruct (spawned_task f) eqn:Es.
  - rewrite map_filter_insert_True by done. rewrite map_size_insert_None; [lia|].
    apply map_lookup_filter_None_2. by left.
  - rewrite map_filter_insert_not' by (simpl; congruence). lia.
Qed.

Lemma tasks_delete fr h f :
  fr !! h = Some f → tasks fr = tasks (delete h fr) + (if spawned_task f then 1 else 0).
Proof. intros Hh. rewrite <- (tasks_new _ h) by apply lookup_delete_eq. by rewrite insert_delete_id. Qed.

Lemma tasks_set fr h f f' :
  fr !! h = Some f → spawned_task f' = spawned_task f → tasks (<[h := f']> fr) = tasks fr.
Proof.
  intros Hh Hs. rewrite <- (insert_delete_eq fr h f'), (tasks_new _ h) by apply lookup_delete_eq.
  by rewrite (tasks_delete fr h f Hh), Hs.
Qed.

Lemma where_set fr h f x : where_ (<[h := f]> fr) x = if decide (x = h) then Some (frame_status f) else where_ fr x.
Proof. unfold where_. case_decide as E; [subst; by rewrite lookup_insert_eq|by rewrite lookup_insert_ne]. Qed.
Lemma awaits_set fr h f x : awaits (<[h := f]> fr) x = if decide (x = h) then waits_on f else awaits fr x.
Proof. unfold awaits. case_decide as E; [subst; by rewrite lookup_insert_eq|by rewrite lookup_insert_ne]. Qed.
Lemma resumes_set fr h f x : resumes (<[h := f]> fr) x = if decide (x = h) then wakes f else resumes fr x.
Proof. unfold resumes. case_decide as E; [subst; by rewrite lookup_insert_eq|by rewrite lookup_insert_ne]. Qed.
Lemma where_delete fr h x : where_ (delete h fr) x = if decide (x = h) then None else where_ fr x.
Proof. unfold where_. case_decide as E; [subst; by rewrite lookup_delete_eq|by rewrite lookup_delete_ne]. Qed.
Lemma awaits_delete fr h x : awaits (delete h fr) x = if decide (x = h) then None else awaits fr x.
Proof. unfold awaits. case_decide as E; [subst; by rewrite lookup_delete_eq|by rewrite lookup_delete_ne]. Qed.
Lemma resumes_delete fr h x : resumes (delete h fr) x = if decide (x = h) then None else resumes fr x.
Proof. unfold resumes. case_decide as E; [subst; by rewrite lookup_delete_eq|by rewrite lookup_delete_ne]. Qed.

Lemma frame_awaits fr h f : fr !! h = Some f → awaits fr h = waits_on f.
Proof. unfold awaits. by intros ->. Qed.
Lemma frame_resumes fr h f : fr !! h = Some f → resumes fr h = wakes f.
Proof. unfold resumes. by intros ->. Qed.
Lemma frame_where fr h f : fr !! h = Some f → where_ fr h = Some (frame_status f).
Proof. unfold where_. by intros ->. Qed.

(** ** The operations keep it *)

(** The running frame is on top of the stack and waits for nothing. *)
Lemma top_running m h st f :
  machine_ok m → stack m = h :: st → frames m !! h = Some f →
  frame_status f = Running ∧ NoDup (h :: st) ∧ awaits (frames m) h = None ∧
  (∀ fd e, h ∉ waiting (reactor m) fd e) ∧ h ∉ batch m.
Proof.
  intros Hok Hst Hf. assert (where_ (frames m) h = Some Running) as Hr.
  { apply (ok_running m Hok). rewrite Hst. by left. }
  pose proof (ok_stack m Hok) as Hnd. rewrite Hst in Hnd.
  assert (frame_status f = Running) as Hs by (rewrite (frame_where _ _ _ Hf) in Hr; congruence).
  split_and!; [done|done| | |].
  - rewrite (frame_awaits _ _ _ Hf). unfold waits_on. by rewrite Hs.
  - intros fd e Hin. apply (ok_table m Hok) in Hin. congruence.
  - intros Hin. apply (ok_batch m Hok) in Hin as (fd & e & Hin). congruence.
Qed.

Lemma set_ok h f f' m :
  machine_ok m → frames m !! h = Some f → frame_status f' = frame_status f →
  spawned_task f' = spawned_task f → continuation f' = continuation f →
  target_of (frame_body f') = target_of (frame_body f) → machine_ok (set_frame h f' m).
Proof.
  intros Hok Hf Hs Hsp Hc Ht.
  assert (∀ x, where_ (<[h := f']> (frames m)) x = where_ (frames m) x) as Hw.
  { intros x. rewrite where_set. case_decide; [|done]. subst. by rewrite (frame_where _ _ _ Hf), Hs. }
  assert (∀ x, awaits (<[h := f']> (frames m)) x = awaits (frames m) x) as Ha.
  { intros x. rewrite awaits_set. case_decide; [|done]. subst. rewrite (frame_awaits _ _ _ Hf).
    unfold waits_on. by rewrite Hs. }
  destruct Hok as [H1 H2 H3 H4 H5 H6 H7 H8 H9 H10 H11 H12 H13].
  constructor; cbn [set_frame with_frames reactor frames stack batch next_handle fault]; try done.
  - intros x Hx. apply H3. destruct (decide (x = h)) as [->|Hne]; [by rewrite Hf|].
    by rewrite lookup_insert_ne in Hx.
  - intros x. rewrite Hw. apply H5.
  - intros x fd e. rewrite Hw. apply H6.
  - intros x fd e. rewrite Hw. apply H7.
  - intros x Hx. destruct (H8 x Hx) as (fd & e & E). exists fd, e. by rewrite Hw.
  - apply (linked_same _ _ _ _ H10 Ha). intros x. rewrite resumes_set. case_decide; [|done].
    subst. rewrite (frame_resumes _ _ _ Hf). unfold wakes. by rewrite Hc, Ht.
  - intros x c k. rewrite Ha. apply H11.
  - apply map_Forall_insert_2; [|done]. specialize (H12 h f Hf). unfold frame_ok in *.
    by rewrite Hsp, Hc, Ht, Hs.
  - by rewrite (tasks_set _ _ f).
Qed.

Lemma close_ok fd m :
  machine_ok m → unwatched fd m → machine_ok (with_reactor (close_fd (reactor m) fd) m).
Proof. intros [] Hu. constructor; try done. by apply close_synced. Qed.

Lemma suspend_ok h st f b fd e timer m :
  machine_ok m → stack m = h :: st → frames m !! h = Some f →
  target_of b = target_of (frame_body f) → machine_ok (suspend h f b fd e timer m).
Proof.
  intros Hok Hst Hf Ht. destruct (top_running m h st f Hok Hst Hf) as (Hs & Hnd & Haw & Hnw & Hnb).
  destruct Hok as [H1 H2 H3 H4 H5 H6 H7 H8 H9 H10 H11 H12 H13].
  unfold suspend. pose proof (add_waiter_spec (reactor m) fd e h timer H1) as Ha.
  destruct (add_waiter _ _ _ _ _) as [r ok]. destruct Ha as (-> & Hsync & Hact & Hw).
  rewrite Hst. apply NoDup_cons in Hnd as [Hni Hnd].
  set (f' := at_status _ _).
  assert (∀ x, where_ (<[h := f']> (frames m)) x =
    if decide (x = h) then Some (AtFd fd e) else where_ (frames m) x) as Hwh by (intros x; apply where_set).
  constructor; cbn [with_reactor with_frames reactor frames stack batch next_handle fault tail]; try done.
  - intros x Hx. apply H3. destruct (decide (x = h)) as [->|Hne]; [by rewrite Hf|].
    by rewrite lookup_insert_ne in Hx.
  - intros x. rewrite Hwh. case_decide as E; [subst; split; [done|by intros [=]]|].
    rewrite <- H5, Hst, elem_of_cons. tauto.
  - intros x fd' e'. rewrite Hwh, Hw. case_decide as E.
    + intros [= <- <-]. subst. rewrite decide_True by done. rewrite !elem_of_app. left. right. by left.
    + intros Hx. apply H6 in Hx. rewrite !elem_of_app in *. tauto.
  - intros x fd' e'. rewrite Hwh, Hw, elem_of_app. intros [Hx|Hx].
    + rewrite decide_False by (intros ->; by apply (Hnw fd' e')). by apply H7.
    + case_decide as E; [|by apply elem_of_nil in Hx]. destruct E as [-> ->].
      apply list_elem_of_singleton in Hx as ->. by rewrite decide_True.
  - intros x Hx. destruct (H8 x Hx) as (fd' & e' & E). exists fd', e'. rewrite Hwh.
    rewrite decide_False; [done|]. by intros ->.
  - intros fd' e'. rewrite Hw. case_decide; [|by rewrite app_nil_r].
    rewrite <- app_assoc. cbn [app]. rewrite <- Permutation_middle. apply NoDup_cons.
    split; [|apply H9]. rewrite elem_of_app. intros [?|?]; [by apply (Hnw fd' e')|done].
  - apply (linked_same _ _ _ _ H10); intros x; [rewrite awaits_set|rewrite resumes_set];
      case_decide; try done; subst; [done|].
    rewrite (frame_resumes _ _ _ Hf). unfold wakes, f'. cbn [at_status with_body continuation frame_body].
    by rewrite Ht.
  - intros x c k. rewrite awaits_set. case_decide; [done|apply H11].
  - apply map_Forall_insert_2; [|done]. specialize (H12 h f Hf). unfold frame_ok, f' in *.
    cbn [at_status with_body continuation frame_body spawned_task frame_status]. rewrite Ht. tauto.
  - by rewrite (tasks_set _ _ f), Hact.
Qed.

Lemma fresh_handle m : machine_ok m → frames m !! next_handle m = None.
Proof.
  intros Hok. apply eq_None_not_Some. intros Hx. apply (ok_next m Hok) in Hx. lia.
Qed.

(** A new frame that nobody awaits. *)
Lemma start_free_ok b m :
  machine_ok m → target_of b = None → machine_ok (start b true None m).
Proof.
  intros Hok Ht. pose proof (fresh_handle m Hok) as Hc.
  destruct Hok as [H1 H2 H3 H4 H5 H6 H7 H8 H9 H10 H11 H12 H13]. set (c := next_handle m) in *.
  assert (where_ (frames m) c = None) as Hwc by (unfold where_; by rewrite Hc).
  constructor; cbn [start reactor frames stack batch next_handle fault]; fold c; try done.
  - by constructor; destruct H1.
  - intros x Hx. destruct (decide (x = c)) as [->|Hne]; [lia|].
    rewrite lookup_insert_ne in Hx by done. apply H3 in Hx. lia.
  - apply NoDup_cons. split; [|done]. rewrite H5. congruence.
  - intros x. rewrite where_set, elem_of_cons. case_decide as E; [by split; [|left]|].
    rewrite H5. tauto.
  - intros x fd e. rewrite where_set. case_decide; [by intros [=]|apply H6].
  - intros x fd e Hx. apply H7 in Hx. rewrite where_set. case_decide as E; [congruence|done].
  - intros x Hx. destruct (H8 x Hx) as (fd & e & E). exists fd, e. rewrite where_set.
    case_decide; [congruence|done].
  - apply (linked_same _ _ _ _ H10); intros x; [rewrite awaits_set|rewrite resumes_set];
      case_decide; try done; subst x; [unfold awaits|unfold resumes]; rewrite Hc; [done|].
    unfold wakes. cbn. by rewrite Ht.
  - intros x c' k. rewrite awaits_set. case_decide; [done|apply H11].
  - apply map_Forall_insert_2; [|done]. unfold frame_ok. cbn. by rewrite Ht.
  - rewrite tasks_new by done. cbn. by rewrite <- H13.
Qed.

(** A new frame that will resume the running one. *)
Lemma start_linked_ok h st f f' b sp cont k m :
  machine_ok m → stack m = h :: st → frames m !! h = Some f →
  waits_on f' = Some (next_handle m, k) → spawned_task f' = spawned_task f →
  continuation f' = continuation f → target_of (frame_body f') = target_of (frame_body f) →
  wakes (mkFrame b Running sp cont) = Some (h, k) → frame_ok (mkFrame b Running sp cont) →
  frame_ok f' → machine_ok (start b sp cont (with_frames (<[h := f']> (frames m)) (tail (stack m)) m)).
Proof.
  intros Hok Hst Hf Hwait Hsp Hcont Ht Hwakes Hfr Hfr'.
  destruct (top_running m h st f Hok Hst Hf) as (Hs & Hnd & Haw & Hnw & Hnb).
  pose proof (fresh_handle m Hok) as Hc.
  destruct Hok as [H1 H2 H3 H4 H5 H6 H7 H8 H9 H10 H11 H12 H13].
  set (c := next_handle m) in *. set (g := mkFrame b Running sp cont) in *.
  assert (h < c)%nat as Hlt by (apply H3; by rewrite Hf).
  assert (where_ (frames m) c = None) as Hwc by (unfold where_; by rewrite Hc).
  rewrite Hst. apply NoDup_cons in Hnd as [Hni Hnd].
  assert (frame_status f' ≠ Running ∧ ∀ fd e, frame_status f' ≠ AtFd fd e) as [Hnr Hnf].
  { unfold waits_on in Hwait. by destruct (frame_status f'). }
  assert (∀ x, where_ (<[c := g]> (<[h := f']> (frames m))) x =
    if decide (x = c) then Some Running else if decide (x = h) then Some (frame_status f')
    else where_ (frames m) x) as Hwh.
  { intros x. by rewrite !where_set. }
  assert (∀ fd e, waiting (if sp then spawned (reactor m) else reactor m) fd e
                  = waiting (reactor m) fd e) as Hwr by (intros; by destruct sp).
  constructor; cbn [start with_frames reactor frames stack batch next_handle fault tail]; fold c; fold g;
    try done.
  - destruct sp; [by constructor; destruct H1|done].
  - intros x Hx. destruct (decide (x = c)) as [->|Hne]; [lia|].
    rewrite lookup_insert_ne in Hx by done. destruct (decide (x = h)) as [->|Hne']; [lia|].
    rewrite lookup_insert_ne in Hx by done. apply H3 in Hx. lia.
  - apply NoDup_cons. split; [|done]. intros Hin.
    assert (c ∈ stack m) as Hin' by (rewrite Hst; by right). apply H5 in Hin'. congruence.
  - intros x. rewrite Hwh, elem_of_cons. case_decide as E; [by split; [|left]|].
    case_decide as E'; [subst; split; [by intros [?|?]|by intros [= ?]]|].
    rewrite <- H5, Hst, elem_of_cons. tauto.
  - intros x fd e. rewrite Hwh, Hwr. case_decide; [by intros [=]|]. case_decide; [|apply H6].
    intros [= E]. by apply Hnf in E.
  - intros x fd e Hx. rewrite Hwr in Hx. rewrite Hwh.
    destruct (decide (x = h)) as [->|]; [by apply Hnw in Hx|].
    apply H7 in Hx. case_decide as E; [congruence|done].
  - intros x Hx. rewrite Hwh. destruct (decide (x = h)) as [->|]; [done|].
    destruct (H8 x Hx) as (fd & e & E). exists fd, e. case_decide; [congruence|done].
  - intros fd e. rewrite Hwr. apply H9.
  - apply (linked_add _ _ _ _ h c k H10 Haw); [unfold resumes; by rewrite Hc| |].
    + intros x. rewrite !awaits_set. destruct (decide (x = c)) as [->|]; [|by rewrite Hwait].
      rewrite decide_False by lia. unfold awaits. by rewrite Hc.
    + intros x. rewrite !resumes_set, Hwakes. repeat case_decide; try done. subst x.
      rewrite (frame_resumes _ _ _ Hf). unfold wakes. by rewrite Hcont, Ht.
  - intros x c' k'. rewrite !awaits_set, Hwait. case_decide; [done|]. case_decide; [|apply H11].
    intros [= <- _]. by subst.
  - apply map_Forall_insert_2; [done|]. by apply map_Forall_insert_2.
  - rewrite (tasks_new _ c) by (by rewrite lookup_insert_ne by lia). rewrite (tasks_set _ _ f) by done.
    cbn [g spawned_task]. destruct sp; cbn; lia.
Qed.

(** The frame [c] is destroyed; nobody awaits it, or its caller goes on. *)
Lemma finish_ok h st f threw m :
  machine_ok m → stack m = h :: st → frames m !! h = Some f → target_of (frame_body f) = None →
  machine_ok (finish h f threw m).
Proof.
  intros Hok Hst Hf Ht.
  destruct (top_running m h st f Hok Hst Hf) as (Hs & Hnd & Haw & Hnw & Hnb).
  pose proof (ok_frames m Hok h f Hf) as (Hsp & _).
  pose proof (tasks_delete _ _ _ Hf) as Htasks.
  destruct Hok as [H1 H2 H3 H4 H5 H6 H7 H8 H9 H10 H11 H12 H13].
  rewrite Hst in *. apply NoDup_cons in Hnd as [Hni Hnd].
  assert (∀ x, x ∈ st ↔ where_ (delete h (frames m)) x = Some Running) as Hrun.
  { intros x. rewrite where_delete. case_decide as E; [by subst|].
    rewrite <- H5, elem_of_cons. tauto. }
  unfold finish. rewrite Hst. cbn [tail with_frames with_reactor reactor frames stack batch ready
    next_handle fault].
  destruct (continuation f) as [p|] eqn:Hc.
  - destruct (spawned_task f) eqn:Es; [by destruct Hsp as [Hsp _]; specialize (Hsp eq_refl)|].
    assert (resumes (frames m) h = Some (p, false)) as Hre.
    { rewrite (frame_resumes _ _ _ Hf). unfold wakes. by rewrite Hc. }
    pose proof (proj2 (H10 p h false) Hre) as Hpa. pose proof (H11 _ _ _ Hpa) as Hlt.
    assert (p ≠ h) as Hph by lia. clear Hre Hlt.
    destruct (frames m !! p) as [fp|] eqn:Hfp; [|unfold awaits in Hpa; by rewrite Hfp in Hpa].
    pose proof Hpa as Hw. rewrite (frame_awaits _ _ _ Hfp) in Hw. unfold waits_on in Hw.
    destruct (frame_status fp) as [| |c k|] eqn:Ep; try done. injection Hw as ->.
    unfold resume_caller. cbn [frames with_reactor with_frames].
    rewrite lookup_delete_ne, Hfp, Ep by done. rewrite decide_True by done. unfold push.
    cbn [with_frames with_reactor reactor frames stack batch].
    set (g := at_status Running _).
    assert (∀ x, where_ (<[p := g]> (delete h (frames m))) x =
      if decide (x = p) then Some Running else if decide (x = h) then None else where_ (frames m) x)
      as Hwh by (intros x; by rewrite where_set, where_delete).
    assert (where_ (frames m) p = Some (AtChild h k)) as Hwp by by rewrite (frame_where _ _ _ Hfp), Ep.
    constructor; cbn [with_frames reactor frames stack batch ready next_handle fault]; try done.
    + intros x Hx. apply H3. destruct (decide (x = p)) as [->|]; [by rewrite Hfp|].
      rewrite lookup_insert_ne in Hx by done. rewrite lookup_delete in Hx. case_decide; [|done]. by destruct Hx.
    + apply NoDup_cons. split; [|done]. rewrite Hrun, where_delete, decide_False by done. congruence.
    + intros x. rewrite elem_of_cons, Hrun, where_set. case_decide as E; [by split; [|left]|]. tauto.
    + intros x fd e. rewrite Hwh. case_decide; [by intros [=]|]. case_decide; [done|]. by apply H6.
    + intros x fd e Hx. rewrite Hwh. destruct (decide (x = h)) as [->|]; [by apply Hnw in Hx|].
      apply H7 in Hx. case_decide; [congruence|done].
    + intros x Hx. rewrite Hwh. destruct (decide (x = h)) as [->|]; [done|].
      destruct (H8 x Hx) as (fd & e & E). exists fd, e. case_decide; [congruence|done].
    + apply (linked_del _ _ _ _ p h false H10 Hpa); intros x.
      * rewrite awaits_set, awaits_delete. repeat case_decide; by subst.
      * rewrite resumes_set, resumes_delete. repeat case_decide; try done; [by subst|].
        subst x. rewrite (frame_resumes _ _ _ Hfp).
        destruct (H12 p fp Hfp) as (_ & _ & Htp). rewrite Ep in Htp. unfold wakes.
        cbn [g at_status with_body continuation frame_body target_of]. by rewrite Htp.
    + intros x c' k'. rewrite awaits_set, awaits_delete. repeat case_decide; try done. apply H11.
    + apply map_Forall_insert_2; [|by apply map_Forall_delete].
      by destruct (H12 p fp Hfp).
    + rewrite (tasks_set _ _ fp); [cbn; lia|by rewrite lookup_delete_ne|done].
  - assert (∀ x, where_ (delete h (frames m)) x = if decide (x = h) then None else where_ (frames m) x)
      as Hwh by (intros x; apply where_delete).
    assert (spawned_task f = true) as Es by by apply Hsp. rewrite Es in *.
    constructor; cbn [with_frames with_reactor reactor frames stack batch ready next_handle fault]; try done.
    + by destruct H1.
    + intros x Hx. apply H3. rewrite lookup_delete in Hx. case_decide; [|done]. by destruct Hx.
    + intros x fd e. rewrite Hwh. case_decide; [done|]. apply H6.
    + intros x fd e Hx. rewrite Hwh. rewrite decide_False; [by apply H7|]. intros ->. by apply Hnw in Hx.
    + intros x Hx. destruct (H8 x Hx) as (fd & e & E). exists fd, e. rewrite Hwh.
      rewrite decide_False; [done|]. by intros ->.
    + apply (linked_same _ _ _ _ H10); intros x; [rewrite awaits_delete|rewrite resumes_delete];
        case_decide; try done; subst x; [done|].
      rewrite (frame_resumes _ _ _ Hf). unfold wakes. by rewrite Hc, Ht.
    + intros x c' k'. rewrite awaits_delete. case_decide; [done|apply H11].
    + by apply map_Forall_delete.
    + cbn [finished active_tasks]. lia.
Qed.

(** The poller of a future that is ready resumes its target. *)
Lemma resume_target_ok h st f fut target m :
  machine_ok m → stack m = h :: st → frames m !! h = Some f → frame_body f = Poll fut target →
  machine_ok (resume_target h target (set_frame h (with_body PollEnd f) m)).
Proof.
  intros Hok Hst Hf Hb.
  destruct (top_running m h st f Hok Hst Hf) as (Hs & Hnd & Haw & Hnw & Hnb).
  destruct (ok_frames m Hok h f Hf) as (Hsp & Hpoll & _).
  assert (continuation f = None) as Hc by (apply Hpoll; by rewrite Hb).
  destruct Hok as [H1 H2 H3 H4 H5 H6 H7 H8 H9 H10 H11 H12 H13].
  assert (resumes (frames m) h = Some (target, true)) as Hre.
  { rewrite (frame_resumes _ _ _ Hf). unfold wakes. by rewrite Hc, Hb. }
  pose proof (proj2 (H10 target h true) Hre) as Ha. pose proof (H11 _ _ _ Ha) as Hlt.
  assert (target ≠ h) as Hne by lia. clear Hre Hlt.
  destruct (frames m !! target) as [g|] eqn:Hg; [|unfold awaits in Ha; by rewrite Hg in Ha].
  pose proof Ha as Hw. rewrite (frame_awaits _ _ _ Hg) in Hw. unfold waits_on in Hw.
  destruct (frame_status g) as [| | |p] eqn:Ep; try done. injection Hw as ->.
  unfold resume_target. cbn [set_frame with_frames frames].
  rewrite lookup_insert_ne, Hg, Ep by done. rewrite decide_True by done.
  unfold push. cbn [set_frame with_frames reactor frames stack batch].
  set (f' := with_body PollEnd f). set (g' := at_status Running _).
  assert (where_ (frames m) target = Some (AtFuture h)) as Hwt by by rewrite (frame_where _ _ _ Hg), Ep.
  assert (∀ x, where_ (<[target := g']> (<[h := f']> (frames m))) x =
    if decide (x = target) then Some Running else where_ (frames m) x) as Hwh.
  { intros x. rewrite !where_set. case_decide; [done|]. case_decide; [|done]. subst x.
    rewrite (frame_where _ _ _ Hf). done. }
  constructor; cbn [with_frames reactor frames stack batch ready next_handle fault]; try done.
  - intros x Hx. apply H3. destruct (decide (x = target)) as [->|]; [by rewrite Hg|].
    rewrite lookup_insert_ne in Hx by done. destruct (decide (x = h)) as [->|]; [by rewrite Hf|].
    by rewrite lookup_insert_ne in Hx.
  - apply NoDup_cons. split; [|done]. rewrite H5. congruence.
  - intros x. rewrite elem_of_cons, H5, Hwh. case_decide as E; [by split; [|left]|]. tauto.
  - intros x fd e. rewrite Hwh. case_decide; [by intros [=]|]. apply H6.
  - intros x fd e Hx. rewrite Hwh. apply H7 in Hx. case_decide; [congruence|done].
  - intros x Hx. destruct (H8 x Hx) as (fd & e & E). exists fd, e. rewrite Hwh.
    case_decide; [congruence|done].
  - apply (linked_del _ _ _ _ target h true H10 Ha); intros x.
    + rewrite !awaits_set. repeat case_decide; try done. subst x.
      rewrite (frame_awaits _ _ _ Hf). unfold waits_on, f'. cbn. by rewrite Hs.
    + rewrite !resumes_set. destruct (decide (x = target)) as [->|]; [|case_decide; [|done]].
      * rewrite decide_False by done. rewrite (frame_resumes _ _ _ Hg). done.
      * unfold wakes, f'. cbn. by rewrite Hc.
  - intros x c k. rewrite !awaits_set. case_decide; [done|]. case_decide as E; [|apply H11].
    unfold waits_on, f'. cbn. by rewrite Hs.
  - apply map_Forall_insert_2; [|apply map_Forall_insert_2; [|done]].
    + destruct (H12 target g Hg) as (? & ? & _). unfold frame_ok, g'. cbn. tauto.
    + unfold frame_ok, f'. cbn. by rewrite Hs.
  - rewrite (tasks_set _ _ g); [|by rewrite lookup_insert_ne|done]. by rewrite (tasks_set _ _ f).
Qed.

Lemma resume_waiter_ok h hs m :
  machine_ok m → stack m = [] → batch m = h :: hs →
  machine_ok (resume_waiter h
    (mkMachine (reactor m) (frames m) [] hs (ready m) (next_handle m) (fault m))).
Proof.
  intros Hok Hst Hb. destruct Hok as [H1 H2 H3 H4 H5 H6 H7 H8 H9 H10 H11 H12 H13].
  rewrite Hst, Hb in *. destruct (H8 h) as (fd & e & Hw); [by left|].
  unfold resume_waiter. cbn [frames]. pose proof Hw as Hw'. unfold where_ in Hw'.
  destruct (frames m !! h) as [f|] eqn:Hf; [|done]. injection Hw' as Hs. rewrite Hs.
  unfold push. cbn [with_frames reactor frames stack batch]. set (f' := at_status Running _).
  assert (∀ x, where_ (<[h := f']> (frames m)) x = if decide (x = h) then Some Running
    else where_ (frames m) x) as Hwh by (intros x; apply where_set).
  assert (∀ fd e, h ∉ waiting (reactor m) fd e ++ hs) as Hnh.
  { intros fd' e' Hin. pose proof (H9 fd' e') as Hnd. rewrite <- Permutation_middle in Hnd.
    by apply NoDup_cons in Hnd as [? _]. }
  assert (∀ x, x ∈ hs → x ≠ h) as Hhs.
  { intros x Hx ->. apply (Hnh fd e), elem_of_app. by right. }
  constructor; cbn [with_frames reactor frames stack batch ready next_handle fault]; try done.
  - intros x Hx. apply H3. destruct (decide (x = h)) as [->|]; [by rewrite Hf|].
    by rewrite lookup_insert_ne in Hx.
  - apply NoDup_singleton.
  - intros x. rewrite list_elem_of_singleton, Hwh. case_decide; [done|]. rewrite <- H5.
    split; [done|]. by intros ?%elem_of_nil.
  - intros x fd' e'. rewrite Hwh. case_decide as E; [by intros [=]|]. intros Hx. apply H6 in Hx.
    rewrite !elem_of_app, elem_of_cons in *. tauto.
  - intros x fd' e' Hx. rewrite Hwh. rewrite decide_False; [by apply H7|]. intros ->.
    apply (Hnh fd' e'), elem_of_app. by left.
  - intros x Hx. destruct (H8 x) as (fd' & e' & E); [by right|]. exists fd', e'.
    by rewrite Hwh, decide_False by by apply Hhs.
  - intros fd' e'. pose proof (H9 fd' e') as Hnd. rewrite <- Permutation_middle in Hnd.
    by apply NoDup_cons in Hnd as [_ ?].
  - apply (linked_same _ _ _ _ H10); intros x; [rewrite awaits_set|rewrite resumes_set];
      case_decide; try done; subst x; [|by rewrite (frame_resumes _ _ _ Hf)].
    rewrite (frame_awaits _ _ _ Hf). unfold waits_on. by rewrite Hs.
  - intros x c k. rewrite awaits_set. case_decide; [done|apply H11].
  - apply map_Forall_insert_2; [|done]. destruct (H12 h f Hf) as (? & ? & _).
    unfold frame_ok, f'. cbn. tauto.
  - by rewrite (tasks_set _ _ f).
Qed.

Lemma take_ok fd a b m : machine_ok m → idle m → machine_ok (take fd a b m).
Proof.
  intros Hok [Hst Hb]. destruct Hok as [H1 H2 H3 H4 H5 H6 H7 H8 H9 H10 H11 H12 H13].
  rewrite Hst, Hb in *. unfold take. pose proof (take_waiters_spec (reactor m) fd a b H1) as Ht.
  destruct (take_waiters _ _ _ _) as [[r out] ok]. destruct Ht as (-> & Hsync & Hact & Hout & Hw).
  rewrite Hst. assert (∀ x, x ∈ out ↔ ∃ e, x ∈ waiting (reactor m) fd e ∧
    (match e with EPOLLIN => a | EPOLLOUT => b end) = true) as Hin.
  { intros x. rewrite Hout, elem_of_app. split.
    - destruct a, b; (intros [Hx|Hx]); try by apply elem_of_nil in Hx.
      all: first [by exists EPOLLIN|by exists EPOLLOUT].
    - intros ([] & Hx & ->); [by left|by right]. }
  assert (∀ fd' e', NoDup (waiting (reactor m) fd' e')) as Hnd.
  { intros fd' e'. specialize (H9 fd' e'). by rewrite app_nil_r in H9. }
  constructor; cbn [reactor frames stack batch ready next_handle fault]; try done.
  - intros x fd' e' Hx. apply H6 in Hx. rewrite app_nil_r in Hx. rewrite elem_of_app, Hw, Hin.
    case_decide as E; [|by left]. destruct E as [-> E]. right. by exists e'.
  - intros x fd' e' Hx. rewrite Hw in Hx. case_decide; [by apply elem_of_nil in Hx|by apply H7].
  - intros x (e & Hx & _)%Hin. apply H7 in Hx. by exists fd, e.
  - intros fd' e'. rewrite Hw. apply NoDup_app. split; [case_decide; [by apply NoDup_nil|done]|]. split.
    + intros x Hx (e & Hx' & Ht)%Hin. case_decide as E; [by apply elem_of_nil in Hx|].
      apply H7 in Hx, Hx'. rewrite Hx' in Hx. injection Hx as -> ->. by apply E.
    + rewrite Hout. apply NoDup_app. split; [destruct a; [done|by apply NoDup_nil]|].
      split; [|destruct b; [done|by apply NoDup_nil]]. intros x Hx Hx'.
      destruct a; [|by apply elem_of_nil in Hx]. destruct b; [|by apply elem_of_nil in Hx'].
      apply H7 in Hx, Hx'. congruence.
  - congruence.
Qed.

Lemma exec_ok h st f s eff tfd m :
  machine_ok m → stack m = h :: st → frames m !! h = Some f → frame_body f = User s →
  proper eff tfd m → machine_ok (exec h f eff tfd m).
Proof.
  intros Hok Hst Hf Hb Hp.
  destruct (top_running m h st f Hok Hst Hf) as (Hs & _).
  pose proof (ok_frames m Hok h f Hf) as (Hsp & _ & _).
  assert (target_of (frame_body f) = None) as Ht by by rewrite Hb.
  assert (∀ k, machine_ok (set_frame h (with_body (User k) f) m)) as Hset.
  { intros k. by apply (set_ok h f). }
  destruct eff as [fd e k|k|fd k|child k|child k|fut k| |]; cbn [exec proper] in *.
  - by apply (suspend_ok h st f).
  - by apply (suspend_ok h st f).
  - by apply (close_ok fd (set_frame h (with_body (User k) f) m)).
  - apply (start_linked_ok h st f _ _ _ _ false); try done; unfold frame_ok; cbn; tauto.
  - by apply start_free_ok.
  - case_decide; [done|]. apply (start_linked_ok h st f _ _ _ _ true); try done; unfold frame_ok; cbn;
      rewrite ?Ht; tauto.
  - by apply (finish_ok h st f).
  - by apply (finish_ok h st f).
Qed.

Lemma step_machine_ok m m' : step m m' → machine_ok m → machine_ok m'.
Proof.
  intros Hstep Hok. destruct Hstep as
    [m s Hi|m fd a b Hi|m h hs Hst Hb|m fut|m h st f s eff tfd Hst Hf Hb _ Hp
    |m h st f fut target tfd Hst Hf Hb Hu|m h st f Hst Hf Hb|m h st f tfd b Hst Hf Hb Hu].
  - by apply start_free_ok.
  - by apply take_ok.
  - by apply resume_waiter_ok.
  - by destruct Hok; constructor.
  - by apply (exec_ok h st f s).
  - unfold poll. case_decide; [by apply (resume_target_ok h st f fut)|].
    apply (suspend_ok h st f); try done. by rewrite Hb.
  - apply (finish_ok h st f); try done. by rewrite Hb.
  - apply (close_ok tfd (set_frame h (with_body b f) m)); [|done].
    apply (set_ok h f); try done. by rewrite Hb.
Qed.

Lemma new_machine_ok : machine_ok new_machine.
Proof.
  constructor; cbn [new_machine reactor frames stack batch next_handle fault]; try done.
  - by intros h [? ?].
  - by apply NoDup_nil.
  - intros h. split; [by intros ?%elem_of_nil|done].
  - intros h fd [] Hin; by apply elem_of_nil in Hin.
  - intros h Hin. by apply elem_of_nil in Hin.
  - intros fd []; by apply NoDup_nil.
Qed.

Lemma reachable_ok m : rtc step new_machine m → machine_ok m.
Proof.
  intros Hr. pose proof new_machine_ok as Hok. revert Hok.
  induction Hr as [|? ? ? Hs _ IH]; [done|]. intros Hok. by apply IH, (step_machine_ok _ _ Hs).
Qed.

(** The oldest frame was spawned; the youngest waits for no other frame. *)
Lemma least_spawned m :
  machine_ok m → frames m ≠ ∅ → ∃ h f, frames m !! h = Some f ∧ spawned_task f = true.
Proof.
  intros Hok Hne. destruct (map_choose _ Hne) as (h & f & Hf). revert f Hf.
  induction (lt_wf h) as [h _ IH]. intros f Hf.
  pose proof (ok_frames m Hok h f Hf) as (Hsp & _). destruct (continuation f) as [p|] eqn:Hc.
  - assert (resumes (frames m) h = Some (p, false)) as Hr.
    { rewrite (frame_resumes _ _ _ Hf). unfold wakes. by rewrite Hc. }
    apply (ok_links m Hok) in Hr. pose proof (ok_order m Hok _ _ _ Hr) as Hlt.
    unfold awaits in Hr. destruct (frames m !! p) as [g|] eqn:Hg; [|done]. by apply (IH p Hlt g).
  - exists h, f. split; [done|]. by apply Hsp.
Qed.

Lemma greatest_waits m :
  machine_ok m → idle m → frames m ≠ ∅ → ∃ h fd e, h ∈ waiting (reactor m) fd e.
Proof.
  intros Hok [Hst Hb] Hne. destruct (map_choose _ Hne) as (h & f & Hf). revert f Hf.
  assert (∀ n h, (next_handle m - h < n)%nat → ∀ f, frames m !! h = Some f →
            ∃ h' fd e, h' ∈ waiting (reactor m) fd e) as Hn.
  { induction n as [|n IH]; intros x Hx f Hf; [lia|].
    pose proof (frame_where _ _ _ Hf) as Hw. pose proof (frame_awaits _ _ _ Hf) as Ha.
    assert (∀ c k, awaits (frames m) x = Some (c, k) →
              ∃ h' fd e, h' ∈ waiting (reactor m) fd e) as Hnext.
    { intros c k Hc. pose proof (ok_order m Hok _ _ _ Hc) as Hlt.
      apply (ok_links m Hok) in Hc. unfold resumes in Hc.
      destruct (frames m !! c) as [g|] eqn:Hg; [|done].
      pose proof (ok_next m Hok c ltac:(by rewrite Hg)) as Hlt'. apply (IH c ltac:(lia) g Hg). }
    unfold waits_on in Ha. destruct (frame_status f) as [|fd e|c k|p].
    - apply (ok_running m Hok) in Hw. rewrite Hst in Hw. by apply elem_of_nil in Hw.
    - exists x, fd, e. apply (ok_parked m Hok) in Hw. by rewrite Hb, app_nil_r in Hw.
    - by apply (Hnext c false).
    - by apply (Hnext p true). }
  intros f Hf. by apply (Hn (Datatypes.S (next_handle m - h)) h ltac:(lia) f Hf).
Qed.

(** What the theorem below says. *)
Lemma machine_safe (m : Machine) :
  rtc step new_machine m →
  fault m = false ∧
  (∀ h fd e, h ∈ waiting (reactor m) fd e → where_ (frames m) h = Some (AtFd fd e)) ∧
  active_tasks (reactor m) = tasks (frames m) ∧
  (run_returns m → frames m = ∅) ∧
  (idle m → active_tasks (reactor m) ≠ 0 →
   ∃ h fd e, h ∈ waiting (reactor m) fd e ∧ is_Some (interest (reactor m) !! fd)).
Proof.
  intros Hr. pose proof (reachable_ok m Hr) as Hok.
  split; [apply (ok_fault m Hok)|]. split; [apply (ok_table m Hok)|].
  split; [apply (ok_active m Hok)|]. split.
  - intros [_ Ha]. destruct (decide (frames m = ∅)) as [|Hne]; [done|].
    destruct (least_spawned m Hok Hne) as (h & f & Hf & Hs).
    rewrite (ok_active m Hok), (tasks_delete _ _ _ Hf), Hs in Ha. unfold tasks in Ha. lia.
  - intros Hi Ha. assert (frames m ≠ ∅) as Hne.
    { intros E. rewrite (ok_active m Hok), E in Ha. by apply Ha. }
    destruct (greatest_waits m Hok Hi Hne) as (h & fd & e & Hin). exists h, fd, e. split; [done|].
    rewrite (sy_interest _ (ok_synced m Hok)). unfold waiting in Hin.
    destruct (fds (reactor m) !! fd); [by eexists|]. by destruct e; apply elem_of_nil in Hin.
Qed.

(** C25: the reactor runs its tasks safely and to their end.  However coroutines
    behave (suspending, awaiting and spawning others, awaiting futures of the
    pool, throwing), as long as they close only descriptors nobody waits
    for, in every reachable state: no frame is resumed that is running or
    destroyed and the reactor never throws; every waiting handle is a frame
    suspended on that very descriptor; the count of tasks is that of the
    spawned frames; when the loop returns every frame is destroyed; and when it
    blocks instead, the kernel watches a descriptor some frame waits for. *)
Theorem tasks_run_safely (m : Machine) :
  rtc step new_machine m →
  fault m = false ∧
  (∀ h fd e, h ∈ waiting (reactor m) fd e → where_ (frames m) h = Some (AtFd fd e)) ∧
  active_tasks (reactor m) = tasks (frames m) ∧
  (run_returns m → frames m = ∅) ∧
  (idle m → active_tasks (reactor m) ≠ 0 →
   ∃ h fd e, h ∈ waiting (reactor m) fd e ∧ is_Some (interest (reactor m) !! fd)).
Proof. exact (machine_safe m). Qed.

(** A frame waiting for a descriptor stays until an event of that descriptor. *)
Definition quiet (fd : Z) (m m' : Machine) : Prop :=
  step m m' ∧ ¬ ∃ a b, idle m ∧ m' = take fd a b m.
Definition parked (h : nat) (fd : Z) (e : edge) (m : Machine) : Prop :=
  h ∈ waiting (reactor m) fd e.

Lemma suspend_waiting h f b fd e timer (m : Machine) x fd' e' :
  machine_ok m → x ∈ waiting (reactor m) fd' e' →
  x ∈ waiting (reactor (suspend h f b fd e timer m)) fd' e'.
Proof.
  intros Hok Hx. unfold suspend.
  pose proof (add_waiter_spec (reactor m) fd e h timer (ok_synced m Hok)) as Ha.
  destruct (add_waiter _ _ _ _ _) as [r ok]. destruct Ha as (-> & _ & _ & Hw).
  cbn [with_reactor reactor]. rewrite Hw, elem_of_app. by left.
Qed.

(** These leave the table alone. *)
Lemma finish_waiting h f threw (m : Machine) fd e :
  waiting (reactor (finish h f threw m)) fd e = waiting (reactor m) fd e.
Proof.
  unfold finish, resume_caller, push. repeat case_match; by destruct (spawned_task f).
Qed.
Lemma resume_target_waiting p h (m : Machine) fd e :
  waiting (reactor (resume_target p h m)) fd e = waiting (reactor m) fd e.
Proof. unfold resume_target, push. repeat case_match; done. Qed.
Lemma resume_waiter_waiting h (m : Machine) fd e :
  waiting (reactor (resume_waiter h m)) fd e = waiting (reactor m) fd e.
Proof. unfold resume_waiter, push. repeat case_match; done. Qed.

Lemma parked_step h fd e (m m' : Machine) :
  machine_ok m → quiet fd m m' → parked h fd e m → parked h fd e m'.
Proof.
  intros Hok [Hstep Hq] Hp. unfold parked in *. destruct Hstep as
    [m s Hi|m fd' a b Hi|m x hs Hst Hb|m fut|m x st f s eff tfd Hst Hf Hb _ Hpr
    |m x st f fut target tfd Hst Hf Hb Hu|m x st f Hst Hf Hb|m x st f tfd b Hst Hf Hb Hu]; try done.
  - unfold take in *. pose proof (take_waiters_spec (reactor m) fd' a b (ok_synced m Hok)) as Ht.
    destruct (take_waiters _ _ _ _) as [[r out] ok] eqn:E. destruct Ht as (-> & _ & _ & _ & Hw).
    cbn [reactor]. rewrite Hw, decide_False; [done|]. intros [-> _]. apply Hq. exists a, b.
    split; [done|]. unfold take. by rewrite E.
  - by rewrite resume_waiter_waiting.
  - destruct eff as [fd' e' k|k|fd' k|child k|child k|fut k| |]; cbn [exec];
      try (by apply suspend_waiting); try done; try (by rewrite finish_waiting).
    by case_decide.
  - unfold poll. case_decide; [by rewrite resume_target_waiting|by apply suspend_waiting].
  - by rewrite finish_waiting.
Qed.

(** Clearing a flag does not stop a service: while a coroutine waits for a
    descriptor, and however the others behave, [run] does not return before an
    event of that descriptor. *)
Theorem loop_needs_event (m m' : Machine) (h : nat) (fd : Z) (e : edge) :
  rtc step new_machine m → parked h fd e m → rtc (quiet fd) m m' →
  parked h fd e m' ∧ ¬ run_returns m'.
Proof.
  intros Hr Hp Hq. pose proof (reachable_ok m Hr) as Hok. clear Hr.
  assert (machine_ok m' ∧ parked h fd e m') as [Hok' Hp'].
  { induction Hq as [|x y z Hxy _ IH]; [done|]. apply IH; [by eapply parked_step|].
    exact (step_machine_ok _ _ (proj1 Hxy) Hok). }
  split; [done|]. intros [_ Ha]. apply (ok_table m' Hok') in Hp'. unfold where_ in Hp'.
  destruct (frames m' !! h) as [f|] eqn:Hf; [|done].
  destruct (least_spawned m' Hok') as (x & g & Hg & Hs); [by intros E; rewrite E in Hf|].
  rewrite (ok_active m' Hok'), (tasks_delete _ _ _ Hg), Hs in Ha. unfold tasks in Ha. lia.
Qed.

(** ** Coroutines that never end *)
Variable undying : S → Prop.
Hypothesis Hundying : ∀ s eff, undying s → code s eff →
  match eff with
  | Wait _ _ k | Sleep k | Close _ k | Spawn _ k | AwaitFuture _ k => undying k
  | Call _ k => ∀ threw, undying (k threw)
  | Return | Throw => False
  end.

Fixpoint user_state (b : body) : option S :=
  match b with User s => Some s | Woken _ b => user_state b | _ => None end.
Definition lives (f : Frame) : Prop :=
  match frame_status f with
  | AtChild _ k => ∀ threw, undying (k threw)
  | _ => ∃ s, user_state (frame_body f) = Some s ∧ undying s
  end.
Definition has_living (fr : gmap nat Frame) (x : nat) : Prop := ∃ f, fr !! x = Some f ∧ lives f.

Lemma living_set fr h f x :
  has_living fr x → (x = h → lives f) → has_living (<[h := f]> fr) x.
Proof.
  intros (g & Hg & Hl) Hf. destruct (decide (x = h)) as [->|Hne].
  - exists f. rewrite lookup_insert_eq. split; [done|by apply Hf].
  - exists g. by rewrite lookup_insert_ne.
Qed.

(** Being resumed, a living frame lives on; nothing else happens to frames. *)
Lemma resume_waiter_living h m x :
  has_living (frames m) x → has_living (frames (resume_waiter h m)) x.
Proof.
  intros Hx. unfold resume_waiter. destruct (frames m !! h) as [f|] eqn:Hf; [|done].
  destruct (frame_status f) eqn:Hs; try done. apply living_set; [done|]. intros ->.
  destruct Hx as (g & Hg & Hl). rewrite Hf in Hg. injection Hg as <-. unfold lives in *.
  by rewrite Hs in Hl.
Qed.
Lemma resume_target_living p h m x :
  has_living (frames m) x → has_living (frames (resume_target p h m)) x.
Proof.
  intros Hx. unfold resume_target. destruct (frames m !! h) as [f|] eqn:Hf; [|done].
  destruct (frame_status f) eqn:Hs; try done. case_decide; [|done]. apply living_set; [done|].
  intros ->. destruct Hx as (g & Hg & Hl). rewrite Hf in Hg. injection Hg as <-. unfold lives in *.
  by rewrite Hs in Hl.
Qed.
Lemma resume_caller_living c h threw m x :
  has_living (frames m) x → has_living (frames (resume_caller c h threw m)) x.
Proof.
  intros Hx. unfold resume_caller. destruct (frames m !! h) as [f|] eqn:Hf; [|done].
  destruct (frame_status f) as [| |c' k|] eqn:Hs; try done. case_decide; [|done].
  apply living_set; [done|]. intros ->. destruct Hx as (g & Hg & Hl). rewrite Hf in Hg.
  injection Hg as <-. unfold lives in *. rewrite Hs in Hl. cbn. by exists (k threw).
Qed.
Lemma finish_living h f threw m x :
  has_living (frames m) x → x ≠ h → has_living (frames (finish h f threw m)) x.
Proof.
  intros (g & Hg & Hl) Hne. unfold finish.
  assert (has_living (delete h (frames m)) x) as Hd by (exists g; by rewrite lookup_delete_ne).
  destruct (continuation f) as [p|]; [|exact Hd]. by apply resume_caller_living.
Qed.
Lemma suspend_living h f b fd e timer m x :
  has_living (frames m) x → (x = h → ∃ s, user_state b = Some s ∧ undying s) →
  has_living (frames (suspend h f b fd e timer m)) x.
Proof.
  intros Hx Hb. unfold suspend. destruct (add_waiter _ _ _ _ _) as [r []];
    by apply (living_set (frames m)).
Qed.
Lemma start_living b sp cont m x :
  has_living (frames m) x → frames m !! next_handle m = None →
  has_living (frames (start b sp cont m)) x.
Proof.
  intros Hx Hn. apply living_set; [done|]. intros ->. destruct Hx as (g & Hg & _). congruence.
Qed.

Lemma step_living m m' x :
  machine_ok m → step m m' → has_living (frames m) x → has_living (frames m') x.
Proof.
  intros Hok Hstep Hx. pose proof (fresh_handle m Hok) as Hn. destruct Hstep as
    [m s Hi|m fd a b Hi|m h hs Hst Hb|m fut|m h st f s eff tfd Hst Hf Hb Hc Hp
    |m h st f fut target tfd Hst Hf Hb Hu|m h st f Hst Hf Hb|m h st f tfd b Hst Hf Hb Hu].
  - by apply start_living.
  - unfold take. destruct (take_waiters _ _ _ _) as [[r out] []]; exact Hx.
  - by apply resume_waiter_living.
  - exact Hx.
  - destruct (top_running m h st f Hok Hst Hf) as (Hs & _).
    assert (x = h → undying s) as Hd.
    { intros ->. destruct Hx as (g & Hg & Hl). rewrite Hf in Hg. injection Hg as <-.
      unfold lives in Hl. rewrite Hs, Hb in Hl. by destruct Hl as (? & [= <-] & ?). }
    pose proof (λ E, Hundying s eff (Hd E) Hc) as He.
    assert (∀ k, (x = h → undying k) → has_living (<[h := with_body (User k) f]> (frames m)) x) as Hset.
    { intros k Hk. apply living_set; [done|]. intros ->. unfold lives. cbn. rewrite Hs. by exists k; auto. }
    assert (∀ fr, frames m !! next_handle m = None → <[h := fr]> (frames m) !! next_handle m = None) as Hn'.
    { intros fr _. rewrite lookup_insert_ne; [done|]. intros ->. congruence. }
    destruct eff as [fd e k|k|fd k|child k|child k|fut k| |]; cbn [exec] in *.
    + apply suspend_living; [done|]. intros E. exists k. auto.
    + apply suspend_living; [done|]. intros E. exists k. auto.
    + by apply Hset.
    + apply (start_living _ _ _ (with_frames _ _ m)); [|by apply Hn'].
      apply living_set; [done|]. intros E. exact (He E).
    + apply (start_living _ _ _ (set_frame h _ m)); [by apply Hset|by apply Hn'].
    + case_decide; [by apply Hset|]. apply (start_living _ _ _ (with_frames _ _ m)); [|by apply Hn'].
      apply living_set; [done|]. intros E. exists k. auto.
    + apply finish_living; [done|]. intros E. exact (He E).
    + apply finish_living; [done|]. intros E. exact (He E).
  - destruct (top_running m h st f Hok Hst Hf) as (Hs & _).
    assert (x ≠ h) as Hne.
    { intros ->. destruct Hx as (g & Hg & Hl). rewrite Hf in Hg. injection Hg as <-.
      unfold lives in Hl. rewrite Hs, Hb in Hl. by destruct Hl as (? & ? & _). }
    unfold poll. case_decide.
    + apply resume_target_living. by apply living_set.
    + by apply suspend_living.
  - destruct (top_running m h st f Hok Hst Hf) as (Hs & _). apply finish_living; [done|]. intros ->.
    destruct Hx as (g & Hg & Hl). rewrite Hf in Hg. injection Hg as <-.
    unfold lives in Hl. rewrite Hs, Hb in Hl. by destruct Hl as (? & ? & _).
  - destruct (top_running m h st f Hok Hst Hf) as (Hs & _). apply (living_set (frames m)); [done|]. intros ->.
    destruct Hx as (g & Hg & Hl). rewrite Hf in Hg. injection Hg as <-.
    unfold lives in *. cbn. rewrite Hs, Hb in *. exact Hl.
Qed.

(** A program with such a coroutine stays in [run]. *)
Lemma living_never_returns m m' x :
  machine_ok m → has_living (frames m) x → rtc step m m' → ¬ run_returns m'.
Proof.
  intros Hok Hx Hr.
  assert (machine_ok m' ∧ has_living (frames m') x) as [Hok' (f & Hf & _)].
  { induction Hr as [|a b c Hab _ IH]; [done|]. apply IH; [by eapply step_machine_ok|by eapply step_living]. }
  intros [_ Ha]. destruct (least_spawned m' Hok') as (y & g & Hg & Hs); [by intros E; rewrite E in Hf|].
  rewrite (ok_active m' Hok'), (tasks_delete _ _ _ Hg), Hs in Ha. unfold tasks in Ha. lia.
Qed.
End machine.

Arguments effect S : clear implicits.
Arguments body S : clear implicits.
Arguments status S : clear implicits.
Arguments Frame S : clear implicits.
Arguments Machine S : clear implicits.

(** A task awaits another, which throws; it goes on and ends. *)
Inductive demo_code : nat → effect nat → Prop :=
  | demo_call : demo_code 0 (Call 1%nat (λ threw, if threw then 2%nat else 3%nat))
  | demo_throw : demo_code 1 Throw
  | demo_return : demo_code 2 Return.

Ltac run_code eff :=
  eapply rtc_l; [eapply (step_code _ _ _ _ _ _ eff 0);
                 [reflexivity|reflexivity|reflexivity|by constructor|done]|].

Lemma tasks_run_safely_witness : ∃ m : Machine nat,
  rtc (step demo_code) new_machine m ∧ run_returns m ∧ frames m = ∅ ∧ fault m = false.
Proof.
  assert (∃ m, rtc (step demo_code) new_machine m ∧ run_returns m) as (m & Hr & Hd).
  { eexists. split.
    - eapply rtc_l; [by apply (step_start demo_code new_machine 0%nat)|].
      run_code (Call 1%nat (λ threw, if threw then 2%nat else 3%nat)).
      run_code (Throw (S := nat)). run_code (Return (S := nat)). apply rtc_refl.
    - by split. }
  destruct (tasks_run_safely demo_code m Hr) as (H1 & _ & _ & H4 & _). exists m. auto.
Defined.
