(* ===== verification/HeartbeatTcp.v ===== *)
(** * HeartbeatTcp: heartbeats over a TCP stream, on the reactor
    (src/src/common/include/dfg/async_net.hpp 296-534)

    A coroutine is run against what the kernel answers it, in order; a
    coroutine whose answers run out is suspended in the reactor.  A call that
    would block costs one turn of the reactor, which [Reactor] is about. *)
From Stdlib Require Import Lia SpecFloat.
From S2P Require Import Prelude.
From S2P Require Import Text.
From S2P Require Import Net.
From S2P Require Import Wire.
From S2P Require Import WireCodec.
From S2P Require Import Heartbeat.
Local Open Scope Z_scope.

(** How a coroutine stands when its answers are used up. *)
Inductive io (A : Type) := Returned (a : A) | Threw | Suspended.
Arguments Returned {A} a.
Arguments Threw {A}.
Arguments Suspended {A}.
#[export] Instance io_bind : MBind io := λ A B f m,
  match m with Returned a => f a | Threw => Threw | Suspended => Suspended end.

(** ** Sending *)

(** One [send]: at most [S n] bytes are taken, or it would block, or it fails. *)
Inductive send_answer := Took (n : nat) | SendBlocks | SendError.

(** What reached the wire, how the coroutine stands, the answers left. *)
Fixpoint async_send_all (answers : list send_answer) (data : bytes)
  : bytes * io (list send_answer) :=
  match data with
  | [] => ([], Returned answers)
  | _ =>
      match answers with
      | [] => ([], Suspended)
      | Took n :: answers =>
          let '(wire, r) := async_send_all answers (drop (S n) data) in (take (S n) data ++ wire, r)
      | SendBlocks :: answers => async_send_all answers data
      | SendError :: _ => ([], Threw)
      end
  end.

(** ** Receiving *)

(** One [recv]: bytes that are there, or it would block; after the last
    arrival the peer is silent, or closed, or the call fails. *)
Inductive arrival := Bytes (b : bytes) | RecvBlocks.
Inductive tail := Silent | Closed.

Fixpoint async_read_exact (t : tail) (s : list arrival) (total : nat) : io (bytes * list arrival) :=
  match total with
  | O => Returned ([], s)
  | _ =>
      match s with
      | [] => match t with Silent => Suspended | Closed => Threw end
      | RecvBlocks :: s | Bytes [] :: s => async_read_exact t s total
      | Bytes b :: s =>
          if decide (length b ≤ total)%nat
          then '(x, s) ← async_read_exact t s (total - length b); Returned (b ++ x, s)
          else Returned (take total b, Bytes (drop total b) :: s)
      end
  end.

(** The bytes in flight. *)
Definition in_flight (s : list arrival) : bytes :=
  concat (map (λ a, match a with Bytes b => b | RecvBlocks => [] end) s).

Section messages.
Context `{!Protobuf}.

(** ** [send_heartbeats] *)

(** One message object serves all heartbeats: a field that is not set keeps
    its value. *)
Definition first_message (server_id : Z) (local_ip_port : bytes) : HeartBeat :=
  mkHeartBeat server_id local_ip_port no_float no_float 0 no_float no_float [] [] 0 0.
Definition sample_message (now : Z) (sample : SystemUsage + spec_float * spec_float) (hb : HeartBeat)
  : HeartBeat :=
  match sample with
  | inl u => mkHeartBeat (hb_server_id hb) (hb_ip hb) (su_cpu u) (su_disk u) now (su_ram u) (su_disk u)
               (su_in u) (su_out u) (su_in_bps u) (su_out_bps u)
  | inr (disk, ram) =>
      mkHeartBeat (hb_server_id hb) (hb_ip hb) (hb_cpu_usage hb) disk now ram disk
        (hb_network_in hb) (hb_network_out hb) (hb_network_in_bytes_per_sec hb)
        (hb_network_out_bytes_per_sec hb)
  end.

(** [env]: the clock and the system at each turn; when it runs out the
    coroutine sleeps. *)
Definition turn_env : Type := Z * (SystemUsage + spec_float * spec_float).

Fixpoint send_heartbeats (count sent : Z) (hb : HeartBeat) (env : list turn_env)
    (answers : list send_answer) : bytes * io unit :=
  if decide (count < 0 ∨ sent < count) then
    match env with
    | [] => ([], Suspended)
    | (now, sample) :: env =>
        let hb := sample_message now sample hb in
        let '(wire, r) := async_send_all answers (build_frame hb) in
        match r with
        | Threw => (wire, Threw)
        | Suspended => (wire, Suspended)
        | Returned answers =>
            let sent := sent + 1 in
            if decide (0 < count ∧ count ≤ sent) then (wire, Returned tt)
            else let '(wire', r) := send_heartbeats count sent hb env answers in (wire ++ wire', r)
        end
    end
  else ([], Returned tt).

(** ** A session *)

(** [connect]: done at once, or in progress and then [SO_ERROR], or failed. *)
Inductive connect_answer := Connected | InProgress (clean : bool) | ConnectFailed.
Definition async_connect (a : connect_answer) : io unit :=
  match a with Connected | InProgress true => Returned tt | _ => Threw end.

(** What reached the wire and [success]; [None] while it is suspended. *)
Definition send_heartbeat_session (a : connect_answer) (server_id : Z) (local_ip_port : bytes)
    (count : Z) (env : list turn_env) (answers : list send_answer) : bytes * option bool :=
  match async_connect a with
  | Returned _ =>
      let '(wire, r) := send_heartbeats count 0 (first_message server_id local_ip_port) env answers in
      (wire, match r with Returned _ => Some true | Threw => Some false | Suspended => None end)
  | Threw => ([], Some false)
  | Suspended => ([], None)
  end.

(** [prepared]: the host resolved and the socket could be made. *)
Definition send_signal (prepared : bool) (a : connect_answer) (server_id : Z) (local_ip_port : bytes)
    (count : Z) (env : list turn_env) (answers : list send_answer) : bytes * option Z :=
  if prepared then
    let '(wire, success) := send_heartbeat_session a server_id local_ip_port count env answers in
    (wire, (λ b, if b : bool then 0 else 1) <$> success)
  else ([], Some 1).

(** ** [recv_heartbeats] *)

(** [max_alloc]: the largest buffer [resize] can give; [Broken]: the parser is
    given a length that is negative as an [int]. *)
Inductive reception := Receiving | Failed | Broken.

Fixpoint recv_heartbeats (fuel : nat) (max_alloc : Z) (t : tail) (s : list arrival)
  : option (list HeartBeat * reception) :=
  match fuel with
  | O => None
  | S fuel =>
      let body :=
        '(sz, s) ← async_read_exact t s 4;
        let body_len := of_be32 sz in
        if decide (max_alloc < body_len) then Threw
        else '(b, s) ← async_read_exact t s (Z.to_nat body_len); Returned (body_len, b, s) in
      match body with
      | Threw => Some ([], Failed)
      | Suspended => Some ([], Receiving)
      | Returned (body_len, b, s) =>
          if decide (INT_MAX < body_len) then Some ([], Broken)
          else match parse b with
               | None => Some ([], Failed)
               | Some hb => '(hbs, r) ← recv_heartbeats fuel max_alloc t s; Some (hb :: hbs, r)
               end
      end
  end.
End messages.

(** ** Laws of the two loops *)

(** Bytes reach the wire in order, all of them when the coroutine returns. *)
Lemma send_all_wire answers data :
  let '(wire, r) := async_send_all answers data in
  ∃ rest, data = wire ++ rest ∧ match r with Returned _ => rest = [] | _ => True end.
Proof.
  revert data. induction answers as [|a answers IH]; intros data; simpl.
  { destruct data as [|c data]; [by exists []|by exists (c :: data)]. }
  destruct data as [|c data]; [by exists []|]. destruct a as [n| |].
  - specialize (IH (drop (S n) (c :: data))).
    destruct (async_send_all answers (drop (S n) (c :: data))) as [wire r].
    destruct IH as (rest & E & Hr). exists rest. split; [|done].
    rewrite <- (assoc_L (++)), <- E. by rewrite take_drop.
  - apply IH.
  - by exists (c :: data).
Qed.

(** A kernel that keeps taking bytes: as many answers as bytes are enough. *)
Fixpoint taking (answers : list send_answer) : nat :=
  match answers with
  | [] => 0
  | Took _ :: answers => S (taking answers)
  | _ :: answers => taking answers
  end.
Definition no_error (answers : list send_answer) : Prop := Forall (λ a, a ≠ SendError) answers.

Lemma send_all_returns answers data :
  no_error answers → (length data ≤ taking answers)%nat →
  ∃ answers', async_send_all answers data = (data, Returned answers') ∧ no_error answers' ∧
    (taking answers ≤ taking answers' + length data)%nat.
Proof.
  intros Hok. revert data. induction Hok as [|a answers Ha Hok IH]; intros data Hl; simpl in *.
  { destruct data; [|simpl in Hl; lia]. exists []. by repeat constructor. }
  destruct data as [|c data].
  { exists (a :: answers). split_and!; [done|by constructor|simpl; lia]. }
  destruct a as [n| |]; [|by apply IH|done].
  destruct (IH (drop n data)) as (answers' & E & Hok' & Ht).
  { rewrite length_drop. simpl in Hl. lia. }
  exists answers'. cbn [drop]. rewrite E. cbn [take app]. rewrite take_drop.
  split_and!; [done|done|]. rewrite length_drop in Ht. simpl. lia.
Qed.

Lemma read_exact_spec t s total :
  match async_read_exact t s total with
  | Returned (x, s') => in_flight s = x ++ in_flight s' ∧ length x = total
  | Suspended => (length (in_flight s) < total)%nat ∧ t = Silent
  | Threw => (length (in_flight s) < total)%nat ∧ t = Closed
  end.
Proof.
  revert total. induction s as [|a s IH]; intros [|total]; try done.
  { destruct t; simpl; split; (lia || done). }
  destruct a as [[|c b]|].
  - apply (IH (S total)).
  - cbn [async_read_exact]. set (bs := c :: b).
    change (in_flight (Bytes bs :: s)) with (bs ++ in_flight s). case_decide as Hl.
    + specialize (IH (S total - length bs)%nat). destruct (async_read_exact t s _) as [[x s']| |]; simpl in *.
      * destruct IH as [-> Hx]. split; [by rewrite (assoc_L (++))|]. rewrite length_app. simpl in *. lia.
      * destruct IH as [? ?]. split; [|done]. rewrite length_app. simpl in *. lia.
      * destruct IH as [? ?]. split; [|done]. rewrite length_app. simpl in *. lia.
    + change (in_flight (Bytes (drop (S total) bs) :: s)) with (drop (S total) bs ++ in_flight s).
      rewrite (assoc_L (++)), take_drop, length_take. split; [done|lia].
  - apply (IH (S total)).
Qed.

Lemma read_exact_app t s a rest :
  in_flight s = a ++ rest →
  ∃ s', async_read_exact t s (length a) = Returned (a, s') ∧ in_flight s' = rest.
Proof.
  intros E. pose proof (read_exact_spec t s (length a)) as H. rewrite E, length_app in H.
  destruct (async_read_exact t s (length a)) as [[x s']| |]; [|lia|lia].
  destruct H as [H Hx]. apply app_inj_1 in H as [-> ->]; [by exists s'|done].
Qed.

(** ** Sent and received *)
Section roundtrip.
Context `{!Protobuf}.

(** The messages of the turns, in order. *)
Fixpoint messages (hb : HeartBeat) (env : list turn_env) : list HeartBeat :=
  match env with
  | [] => []
  | (now, sample) :: env => let hb := sample_message now sample hb in hb :: messages hb env
  end.

Definition frames (hbs : list HeartBeat) : bytes := concat (map build_frame hbs).

Lemma send_heartbeats_spec count sent hb env answers :
  0 < count → env ≠ [] → sent + Z.of_nat (length env) = count → no_error answers →
  (length (frames (messages hb env)) ≤ taking answers)%nat →
  send_heartbeats count sent hb env answers = (frames (messages hb env), Returned tt).
Proof.
  intros Hc. revert sent hb answers. induction env as [|[now sample] env IH];
    intros sent hb answers Hne Hs Hok Hl; [done|].
  cbn [length] in Hs. cbn [send_heartbeats messages]. rewrite decide_True by lia.
  set (hb' := sample_message now sample hb) in *. unfold frames in *. cbn [messages map concat] in *.
  fold hb' in Hl. rewrite length_app in Hl.
  destruct (send_all_returns answers (build_frame hb') Hok) as (answers' & -> & Hok' & Ht); [lia|].
  destruct env as [|e env].
  - rewrite decide_True by (simpl in Hs; lia). simpl. by rewrite app_nil_r.
  - rewrite decide_False by (cbn [length] in Hs; lia).
    rewrite IH; [done|done|cbn [length] in *; lia|done|lia].
Qed.

Lemma recv_one fuel max_alloc t s hb rest :
  wire_ok hb → Z.of_nat (length (serialize hb)) ≤ max_alloc → max_alloc ≤ INT_MAX →
  in_flight s = build_frame hb ++ rest →
  ∃ s', in_flight s' = rest ∧
    recv_heartbeats (S fuel) max_alloc t s =
      ('(hbs, r) ← recv_heartbeats fuel max_alloc t s'; Some (hb :: hbs, r)).
Proof.
  intros Hw Hm Hmax E. unfold build_frame, frame in E. rewrite <- (assoc_L (++)) in E.
  pose proof (serialize_small hb Hw) as Hsmall.
  set (n := w32 (Z.of_nat (length (serialize hb)))) in E.
  assert (n = Z.of_nat (length (serialize hb))) as En by (unfold n, wrap; rewrite Z.mod_small; lia).
  destruct (read_exact_app t s (be32 n) _ E) as (s1 & E1 & Hs1). rewrite length_be32 in E1.
  destruct (read_exact_app t s1 (serialize hb) rest Hs1) as (s2 & E2 & Hs2).
  exists s2. split; [done|]. cbn [recv_heartbeats]. rewrite E1. cbn [mbind io_bind].
  rewrite of_be32_be32 by lia. rewrite En, decide_False by lia. rewrite Nat2Z.id, E2.
  cbn [mbind io_bind]. rewrite decide_False by lia. by rewrite parse_serialize.
Qed.

Lemma recv_end fuel max_alloc t s :
  in_flight s = [] →
  recv_heartbeats (S fuel) max_alloc t s =
    Some ([], match t with Silent => Receiving | Closed => Failed end).
Proof.
  intros E. pose proof (read_exact_spec t s 4) as Hr. cbn [recv_heartbeats].
  rewrite E in Hr. destruct (async_read_exact t s 4) as [[x s']| |]; simpl in Hr.
  - destruct Hr as [Hr Hx]. symmetry in Hr. by apply app_eq_nil in Hr as [-> _].
  - destruct Hr as [_ ->]. done.
  - destruct Hr as [_ ->]. done.
Qed.

Lemma recv_frames max_alloc t hbs s :
  Forall (λ hb, wire_ok hb ∧ Z.of_nat (length (serialize hb)) ≤ max_alloc) hbs → max_alloc ≤ INT_MAX →
  in_flight s = frames hbs →
  recv_heartbeats (S (length hbs)) max_alloc t s =
    Some (hbs, match t with Silent => Receiving | Closed => Failed end).
Proof.
  intros Hok Hmax. revert s. induction Hok as [|hb hbs [Hw Hm] _ IH]; intros s E.
  { by apply recv_end. }
  destruct (recv_one (length (hb :: hbs)) max_alloc t s hb (frames hbs) Hw Hm Hmax E) as (s' & Hs' & ->).
  cbn [length]. by rewrite (IH s' Hs').
Qed.

(** The receiver stops on every finite stream: each message takes at least the
    four bytes of its length. *)
Lemma recv_heartbeats_returns max_alloc t fuel s :
  (length (in_flight s) < fuel)%nat → is_Some (recv_heartbeats fuel max_alloc t s).
Proof.
  revert s. induction fuel as [|fuel IH]; intros s Hl; [lia|]. cbn [recv_heartbeats].
  pose proof (read_exact_spec t s 4) as H4.
  destruct (async_read_exact t s 4) as [[sz s1]| |]; [|by eexists|by eexists].
  destruct H4 as [E4 H4]. cbn [mbind io_bind]. case_decide; [by eexists|].
  pose proof (read_exact_spec t s1 (Z.to_nat (of_be32 sz))) as Hb.
  destruct (async_read_exact t s1 _) as [[b s2]| |]; [|by eexists|by eexists].
  destruct Hb as [Eb _]. cbn [mbind io_bind]. case_decide; [by eexists|].
  destruct (parse b) as [hb|]; [|by eexists].
  destruct (IH s2) as [[hbs r] ->]; [|by eexists].
  rewrite E4, Eb, !length_app in Hl. lia.
Qed.

(** C38: heartbeats sent over TCP arrive.  [send_signal] with a positive count
    puts exactly that many messages on the wire, one per turn, in order, and
    returns, however the kernel cuts what it takes, as long as it keeps taking
    bytes; and however the network cuts the stream again, the receiver calls
    back with exactly those messages, in order, then waits for more or, if the
    peer closed, ends.  A message carries the sample of its turn; without a
    sample the processor and network fields are those of the turn before. *)
Theorem tcp_heartbeats_arrive (max_alloc sid : Z) (addr : bytes) (env : list turn_env)
    (answers : list send_answer) :
  let hbs := messages (first_message sid addr) env in
  env ≠ [] → max_alloc ≤ INT_MAX →
  Forall (λ hb, wire_ok hb ∧ Z.of_nat (length (serialize hb)) ≤ max_alloc) hbs →
  no_error answers → (length (frames hbs) ≤ taking answers)%nat →
  send_signal true (InProgress true) sid addr (Z.of_nat (length env)) env answers =
    (frames hbs, Some 0) ∧
  ∀ t s, in_flight s = frames hbs →
    recv_heartbeats (S (length hbs)) max_alloc t s =
      Some (hbs, match t with Silent => Receiving | Closed => Failed end).
Proof.
  cbv zeta. intros Hne Hmax Hok Hans Hl. split.
  - unfold send_signal, send_heartbeat_session, async_connect.
    rewrite send_heartbeats_spec; try done. destruct env; [done|]. simpl. lia.
  - intros t s. by apply recv_frames.
Qed.
End roundtrip.

#[local] Instance demo_protobuf : Protobuf := net_protobuf.
Definition demo_env : list turn_env := [(1000, inr (no_float, no_float)); (2000, inr (no_float, no_float))].
Definition demo_answers : list send_answer := SendBlocks :: replicate 400 (Took 2).

Lemma tcp_heartbeats_arrive_witness :
  send_signal true (InProgress true) 4 (lit "10.0.0.7:8083") 2 demo_env demo_answers =
    (frames (messages (first_message 4 (lit "10.0.0.7:8083")) demo_env), Some 0).
Proof.
  apply (tcp_heartbeats_arrive 4096 4 (lit "10.0.0.7:8083") demo_env demo_answers).
  - done.
  - by vm_compute.
  - repeat constructor; try done; by_decision.
  - constructor; [done|by apply Forall_replicate].
  - apply Nat.leb_le. by vm_compute.
Defined.
