(* ===== verification/ClusterServer.v ===== *)
(** * ClusterServer: starting a cluster server, and staying known
    (src/src/cluster_server/cluster_server.cpp)

    The command line, the choice of an address, the registration with the
    head server and the liveness loop.  What the kernel and the head server
    answer are arguments; the coordination store is the process's own. *)
From Stdlib Require Import Lia.
From S2P Require Import Prelude.
From S2P Require Import Text.
From S2P Require Import Ordered.
From S2P Require Import Net.
From S2P Require Import Config.
From S2P Require Import Zk.
From S2P Require Import ZkPaths.
From S2P Require Import JsonText.
From S2P Require Import Http.
From S2P Require Import ControlClient.
Local Open Scope Z_scope.

(** ** The command line *)
Record ServerArgs := mkArgs {
  sa_server_id : Z;
  sa_ip : bytes;
  sa_port : Z;
  sa_transfer_port : Z;
  sa_public_port : Z;
  sa_register : bool;
  sa_zk_hosts : bytes
}.

(** An option whose value is missing is skipped; [stoi] throws. *)
Fixpoint parse_args (argv : list bytes) (a : ServerArgs) : exc ServerArgs :=
  let '(mkArgs sid ip p tp pp reg zk) := a in
  match argv with
  | [] => Val a
  | arg :: rest =>
      match rest with
      | value :: rest' =>
          if decide (arg = lit "--server-id") then
            v ← stoi value; parse_args rest' (mkArgs v ip p tp pp reg zk)
          else if decide (arg = lit "--port") then
            v ← stoi value; parse_args rest' (mkArgs sid ip v tp pp reg zk)
          else if decide (arg = lit "--transfer-port") then
            v ← stoi value; parse_args rest' (mkArgs sid ip p v pp reg zk)
          else if decide (arg = lit "--public-port") then
            v ← stoi value; parse_args rest' (mkArgs sid ip p tp v reg zk)
          else if decide (arg = lit "--ip") then parse_args rest' (mkArgs sid value p tp pp reg zk)
          else if decide (arg = lit "--no-register") then parse_args rest (mkArgs sid ip p tp pp false zk)
          else if decide (arg = lit "--zk-hosts") then parse_args rest' (mkArgs sid ip p tp pp reg value)
          else parse_args rest a
      | [] =>
          if decide (arg = lit "--no-register") then Val (mkArgs sid ip p tp pp false zk) else Val a
      end
  end.

(** ** [chooseLanAddress] *)

(** The interfaces with an IPv4 address: name, and the address as a number if
    [getnameinfo] gives one.  [input]: the terminal, if stdin is one. *)
Definition usable_interfaces (ifs : list (bytes * option bytes)) : gmap bytes bytes :=
  fold_left (λ m i,
      match i with
      | (name, Some host) => if decide (name = lit "lo") then m else <[name := host]> m
      | (_, None) => m
      end) ifs ∅.

Definition chooseLanAddress (ifs : option (list (bytes * option bytes))) (input : option bytes) : bytes :=
  match ifs with
  | None => []
  | Some ifs =>
      let interfaces := smap_list (usable_interfaces ifs) in
      match interfaces, input with
      | [], _ => []
      | (_, first) :: _, None => first
      | _, Some text =>
          let choice := match read_u64 text with Some (n, _) => n | None => 0 end in
          if decide (choice < 1 ∨ Z.of_nat (length interfaces) < choice) then []
          else default [] (snd <$> interfaces !! Z.to_nat (choice - 1))
      end
  end.

(** ** [self_register_with_head]

    [reply]: what one [recv] of at most 1023 bytes returned within five
    seconds. *)
Definition self_register_with_head (connected : bool) (evs : list send_event) (reply : option bytes)
    (head_host : bytes) (sid : Z) (ip : bytes) (p tp pp : Z) : bool :=
  connected
  && match send_all evs (self_register_request head_host sid ip p tp pp) with
     | Some (true, _) => match reply with Some (c :: r) => registered_ok (c :: r) | _ => false end
     | _ => false
     end.

(** The registration thread: the number of attempts made, and the result. *)
Fixpoint register_attempts (tries : nat) (attempt : nat → bool) (k : nat) : nat * bool :=
  match tries with
  | O => (k, false)
  | S tries => if attempt k then (S k, true) else register_attempts tries attempt (S k)
  end.
Definition register_thread (attempt : nat → bool) : nat * bool := register_attempts 5 attempt 0.

(** ** [liveness_monitor] *)
Definition cluster_servers_path : bytes := lit "/dfg/cluster_servers".
Definition cluster_znode (server_id : Z) : bytes := lit "/dfg/cluster_servers/server_" ++ show_Z server_id.
Definition zk_data (ip : bytes) (p now_sec : Z) : bytes :=
  ip ++ colon :: show_Z p ++ lit "|timestamp:" ++ show_Z now_sec.

Record Liveness := mkLiveness {
  lv_client : ZkClient; lv_store : ZkStore; consecutive_failures : Z }.

Section liveness.
Variables (server_id : Z) (ip : bytes) (port : Z).

Definition create (s : ZkStore) (c : ZkClient) (path data : bytes) (eph : bool) : ZkStore :=
  (create_node c s path data eph false).1.1.

Definition liveness_start (zk_hosts : bytes) (now_sec : Z) (s : ZkStore) : Liveness :=
  let '(c, _) := connect (mkClient zk_hosts false false) in
  let s := if node_exists s cluster_servers_path then s else create s c cluster_servers_path [] false in
  mkLiveness c (create s c (cluster_znode server_id) (zk_data ip port now_sec) true) 0.

(** One turn; [head_ok]: whether the head server took the registration. *)
Definition liveness_turn (l : Liveness) (t : Z * bool) : Liveness :=
  let '(now_sec, head_ok) := t in
  let '(mkLiveness c s failures) := l in
  let znode := cluster_znode server_id in
  let data := zk_data ip port now_sec in
  let '(c, s, zk_ok) :=
    if connected c && node_exists s znode then (c, (set_node_data c s znode data).1.1, true)
    else
      let '(c, _) := connect c in
      let s := create s c znode data true in
      (c, s, connected c && node_exists s znode) in
  mkLiveness c s (if zk_ok || head_ok then 0 else failures + 1).

(** The loop until [DEAD], and the removal of the node. *)
Definition liveness_end (l : Liveness) : Liveness :=
  let '(mkLiveness c s failures) := l in
  mkLiveness c (if connected c then (delete_node c s (cluster_znode server_id)).1.1 else s) failures.

Definition liveness_monitor (zk_hosts : bytes) (now_sec : Z) (turns : list (Z * bool)) (s : ZkStore)
  : Liveness :=
  liveness_end (fold_left liveness_turn turns (liveness_start zk_hosts now_sec s)).
End liveness.

(** ** [run_cluster_server] *)

(** What the threads and the service are started with. *)
Record Launch := mkLaunch {
  la_args : ServerArgs; la_head_host : bytes; la_head_control_port : Z; la_zk_hosts : bytes }.
Inductive cluster_start := Help | Version | Launched (l : Launch).

Section start.
Variables (getenv : bytes → option bytes) (cfg : ConfigLoader)
  (ifs : option (list (bytes * option bytes))) (input : option bytes).

Definition configured_args : ServerArgs :=
  mkArgs (get_int getenv cfg (lit "server.id") 1) (get_string getenv cfg (lit "server.host") [])
    (get_int getenv cfg (lit "server.port") 8080)
    (get_int getenv cfg (lit "server.transfer_port") 8180)
    (get_int getenv cfg (lit "server.public_port") 8280) true [].

Definition launch (argv : list bytes) : exc Launch :=
  a ← parse_args (drop 1 argv) configured_args;
  let ip := if decide (sa_ip a = [] ∨ sa_ip a = lit "0.0.0.0")
            then chooseLanAddress ifs input else sa_ip a in
  Val (mkLaunch (mkArgs (sa_server_id a) ip (sa_port a) (sa_transfer_port a) (sa_public_port a)
                   (sa_register a) (sa_zk_hosts a))
         (get_string getenv cfg (lit "head_server.host") (lit "127.0.0.1"))
         (get_int getenv cfg (lit "head_server.control_port") 9670)
         (match sa_zk_hosts a with
          | [] => get_string getenv cfg (lit "zookeeper.hosts") (lit "127.0.0.1:2181")
          | zk => zk
          end)).

Definition run_cluster_server (argv : list bytes) : exc cluster_start :=
  match argv with
  | _ :: arg :: _ =>
      if decide (arg = lit "-h" ∨ arg = lit "--help") then Val Help
      else if decide (arg = lit "-v" ∨ arg = lit "-V" ∨ arg = lit "--version") then Val Version
      else l ← launch argv; Val (Launched l)
  | _ => l ← launch argv; Val (Launched l)
  end.
End start.

(** An address of the configuration wins over the interfaces; an option wins
    over both. *)
Example cluster_launch :
  (match run_cluster_server (λ _, None) new_config (Some [(lit "lo", Some (lit "127.0.0.1"));
           (lit "eth0", Some (lit "10.0.0.5"))]) None
         (map lit ["cluster_server"; "--server-id"; "7"; "--no-register"]%string) with
   | Val (Launched l) => (sa_server_id (la_args l), sa_ip (la_args l), sa_port (la_args l),
                          sa_register (la_args l), la_zk_hosts l)
   | _ => (0, [], 0, true, [])
   end) = (7, lit "10.0.0.5", 8080, false, lit "127.0.0.1:2181").
Proof. by vm_compute. Qed.

(** ** The process never appears in its own store *)
Lemma cluster_servers_parts :
  abs_path cluster_servers_path ∧ parent_path cluster_servers_path = lit "/dfg".
Proof.
  split; [|by vm_compute]. change cluster_servers_path with ((slash ++ lit "dfg") ++ slash ++ lit "cluster_servers").
  apply abs_sub; [apply abs_top|]; (split; [done|by_decision]).
Qed.

Lemma cluster_znode_parts sid :
  abs_path (cluster_znode sid) ∧ parent_path (cluster_znode sid) = cluster_servers_path.
Proof.
  change (cluster_znode sid) with (cluster_servers_path ++ slash ++ lit "server_" ++ show_Z sid).
  assert (name_ok (lit "server_" ++ show_Z sid)) as Hn by (apply name_ok_numbered; by_decision).
  split; [by apply abs_sub; [apply cluster_servers_parts|]|].
  by apply (child_path_parts cluster_servers_path).
Qed.

(** In a store with only its root, nothing below a missing parent is created. *)
Lemma initial_absent p : p ≠ slash → nodes initial_store !! p = None.
Proof. intros Hp. unfold initial_store. cbn [nodes]. by apply lookup_singleton_ne. Qed.

Lemma create_below_missing c p data eph :
  abs_path p → parent_path p ≠ slash → create initial_store c p data eph = initial_store.
Proof.
  intros Hp Hpar. destruct (abs_path_parts p Hp) as (Hs & Hc & _).
  destruct (canonical_parts p Hc Hs) as (_ & _ & Hne & _).
  unfold create, create_node. destruct (negb (connected c)); [done|].
  rewrite (abs_path_normal p Hp), (initial_absent p Hs).
  rewrite decide_False by (by intros []).
  by rewrite decide_True by (split; [done|by apply initial_absent]).
Qed.

Lemma absent_node p : abs_path p → node_exists initial_store p = false.
Proof.
  intros Hp. apply bool_decide_eq_false. rewrite (abs_path_normal p Hp), initial_absent.
  - by intros [].
  - by apply abs_path_parts.
Qed.

(** The turns since the head server last answered. *)
Definition unanswered (turns : list (Z * bool)) : Z :=
  fold_left (λ n (t : Z * bool), if t.2 then 0 else n + 1) turns 0.

Lemma create_znode c sid data : create initial_store c (cluster_znode sid) data true = initial_store.
Proof.
  destruct (cluster_znode_parts sid) as [Hp Hpar]. apply create_below_missing; [done|]. by rewrite Hpar.
Qed.

Lemma create_servers_path c : create initial_store c cluster_servers_path [] false = initial_store.
Proof.
  destruct cluster_servers_parts as [Hp Hpar]. apply create_below_missing; [done|]. by rewrite Hpar.
Qed.

Lemma liveness_turn_initial sid ip p c n now head_ok :
  let l := liveness_turn sid ip p (mkLiveness c initial_store n) (now, head_ok) in
  lv_store l = initial_store ∧ consecutive_failures l = if head_ok : bool then 0 else n + 1.
Proof.
  cbv zeta. unfold liveness_turn. rewrite (absent_node _ (proj1 (cluster_znode_parts sid))), andb_false_r.
  destruct (connect c) as [c' ev]. rewrite create_znode.
  rewrite (absent_node _ (proj1 (cluster_znode_parts sid))), andb_false_r. by destruct head_ok.
Qed.

(** C16: a cluster server never appears in the coordination store.  Its process
    starts with an empty store and nobody creates "/dfg", so creating
    "/dfg/cluster_servers" and the node below it fails at the start and at
    every turn: whatever the turns, no node is ever created, no data is
    written, and the failures it counts are those of the head server alone. *)
Theorem liveness_never_registers (zk_hosts ip : bytes) (sid p now : Z) (turns : list (Z * bool)) :
  let l := fold_left (liveness_turn sid ip p) turns (liveness_start sid ip p zk_hosts now initial_store) in
  lv_store l = initial_store ∧ node_exists (lv_store l) (cluster_znode sid) = false ∧
  consecutive_failures l = unanswered turns ∧
  lv_store (liveness_monitor sid ip p zk_hosts now turns initial_store) = initial_store.
Proof.
  cbv zeta. unfold liveness_monitor.
  assert (∃ c, liveness_start sid ip p zk_hosts now initial_store = mkLiveness c initial_store 0) as [c ->].
  { unfold liveness_start. destruct (connect _) as [c ev].
    rewrite (absent_node _ (proj1 cluster_servers_parts)), create_servers_path, create_znode. by exists c. }
  assert (∀ n c, ∃ c', fold_left (liveness_turn sid ip p) turns (mkLiveness c initial_store n) =
            mkLiveness c' initial_store (fold_left (λ n (t : Z * bool), if t.2 then 0 else n + 1) turns n)) as Hrun.
  { clear c. induction turns as [|[t head_ok] turns IH]; intros n c; [by exists c|]. cbn [fold_left].
    destruct (liveness_turn_initial sid ip p c n t head_ok) as [H1 H2].
    destruct (liveness_turn sid ip p (mkLiveness c initial_store n) (t, head_ok)) as [c1 s1 n1].
    simpl in H1, H2. subst. apply IH. }
  destruct (Hrun 0 c) as [c' E]. rewrite E. cbn [lv_store consecutive_failures].
  split_and!; [done|by apply absent_node, cluster_znode_parts|done|].
  unfold liveness_end. destruct (connected c') eqn:Ec; [|done]. unfold delete_node. rewrite Ec.
  destruct (cluster_znode_parts sid) as [Hp _]. rewrite (abs_path_normal _ Hp).
  cbn [negb]. by rewrite initial_absent by by apply abs_path_parts.
Qed.

(** ** The command line is read as it is written *)
Definition show_args (a : ServerArgs) : list bytes :=
  [lit "--server-id"; show_Z (sa_server_id a); lit "--port"; show_Z (sa_port a);
   lit "--transfer-port"; show_Z (sa_transfer_port a); lit "--public-port"; show_Z (sa_public_port a);
   lit "--ip"; sa_ip a; lit "--zk-hosts"; sa_zk_hosts a]
  ++ (if sa_register a then [] else [lit "--no-register"]).

(** One option is read. *)
Ltac read_option :=
  intros; cbn [parse_args];
  repeat first [rewrite decide_True by done | rewrite decide_False by done
               | rewrite stoi_show by done; cbn [mbind exc_bind]];
  done.

Section options.
Context (sid p tp pp : Z) (ip zk : bytes) (reg : bool) (rest : list bytes).
Lemma read_server_id v : INT_MIN ≤ v ≤ INT_MAX →
  parse_args (lit "--server-id" :: show_Z v :: rest) (mkArgs sid ip p tp pp reg zk) =
  parse_args rest (mkArgs v ip p tp pp reg zk).
Proof. read_option. Qed.
Lemma read_port v : INT_MIN ≤ v ≤ INT_MAX →
  parse_args (lit "--port" :: show_Z v :: rest) (mkArgs sid ip p tp pp reg zk) =
  parse_args rest (mkArgs sid ip v tp pp reg zk).
Proof. read_option. Qed.
Lemma read_transfer_port v : INT_MIN ≤ v ≤ INT_MAX →
  parse_args (lit "--transfer-port" :: show_Z v :: rest) (mkArgs sid ip p tp pp reg zk) =
  parse_args rest (mkArgs sid ip p v pp reg zk).
Proof. read_option. Qed.
Lemma read_public_port v : INT_MIN ≤ v ≤ INT_MAX →
  parse_args (lit "--public-port" :: show_Z v :: rest) (mkArgs sid ip p tp pp reg zk) =
  parse_args rest (mkArgs sid ip p tp v reg zk).
Proof. read_option. Qed.
Lemma read_ip v :
  parse_args (lit "--ip" :: v :: rest) (mkArgs sid ip p tp pp reg zk) =
  parse_args rest (mkArgs sid v p tp pp reg zk).
Proof. read_option. Qed.
Lemma read_zk_hosts v :
  parse_args (lit "--zk-hosts" :: v :: rest) (mkArgs sid ip p tp pp reg zk) =
  parse_args rest (mkArgs sid ip p tp pp reg v).
Proof. read_option. Qed.
End options.

Lemma args_roundtrip a d :
  INT_MIN ≤ sa_server_id a ≤ INT_MAX → INT_MIN ≤ sa_port a ≤ INT_MAX →
  INT_MIN ≤ sa_transfer_port a ≤ INT_MAX → INT_MIN ≤ sa_public_port a ≤ INT_MAX →
  sa_register d = true → parse_args (show_args a) d = Val a.
Proof.
  destruct a as [sid ip p tp pp reg zk], d as [sid' ip' p' tp' pp' reg' zk'].
  cbn [sa_server_id sa_port sa_transfer_port sa_public_port sa_register].
  intros H1 H2 H3 H4 ->. unfold show_args.
  cbn [sa_server_id sa_ip sa_port sa_transfer_port sa_public_port sa_register sa_zk_hosts app].
  rewrite read_server_id, read_port, read_transfer_port, read_public_port, read_ip, read_zk_hosts
    by done.
  destruct reg; [done|]. cbn [parse_args]. by rewrite decide_True.
Qed.
