(* ===== verification/FloatBounds.v ===== *)
(** * FloatBounds: bounds on rounded results

    The rounding of [SpecFloat] never exceeds an integer bound of the exact
    value ([aux_within]), does not overflow below the largest exponent
    ([aux_finite]), and the conversion of a 64-bit integer to [float] is
    monotone. *)
From Stdlib Require Import Lia SpecFloat.
From S2P Require Import Prelude.
From S2P Require Import Float.
Local Open Scope Z_scope.

(** ** Rounding half to even *)
Lemma half_even_bounds n d : 0 < d → n / d ≤ round_half_even n d ≤ n / d + 1.
Proof.
  intros Hd. unfold round_half_even. pose proof (Z.mod_pos_bound (n / d) 2 ltac:(lia)).
  repeat case_decide; lia.
Qed.

Lemma half_even_ceil n d t : 0 < d → n ≤ t * d → round_half_even n d ≤ t.
Proof.
  intros Hd Hn. pose proof (Z.div_mod n d ltac:(lia)) as E. pose proof (Z.mod_pos_bound n d Hd).
  pose proof (half_even_bounds n d Hd) as Hb.
  destruct (decide (n mod d = 0)) as [H0|H0].
  - unfold round_half_even. rewrite H0. rewrite decide_True by lia. nia.
  - assert (n / d < t) by nia. lia.
Qed.

Lemma half_even_floor n d t : 0 < d → t * d ≤ n → t ≤ round_half_even n d.
Proof.
  intros Hd Hn. pose proof (half_even_bounds n d Hd). assert (t ≤ n / d); [|lia].
  apply Z.div_le_lower_bound; lia.
Qed.

Lemma half_even_mono a b d : 0 < d → a ≤ b → round_half_even a d ≤ round_half_even b d.
Proof.
  intros Hd Hab. pose proof (Z.div_le_mono a b d Hd Hab) as Hq.
  pose proof (half_even_bounds a d Hd). pose proof (half_even_bounds b d Hd).
  destruct (decide (a / d = b / d)) as [E|]; [|lia].
  pose proof (Z.div_mod a d ltac:(lia)). pose proof (Z.div_mod b d ltac:(lia)).
  assert (a mod d ≤ b mod d) as Hr by nia.
  unfold round_half_even. rewrite E. pose proof (Z.mod_pos_bound (b / d) 2 ltac:(lia)).
  repeat case_decide; lia.
Qed.

(** ** Shifting right *)
Lemma shr_1_spec a r s :
  0 ≤ a → shr_1 (Build_shr_record a r s) = Build_shr_record (a / 2) (Z.odd a) (r || s).
Proof.
  intros Ha. rewrite <- Z.div2_div. destruct a as [|p|p]; [done| |lia]. by destruct p.
Qed.

Lemma iter_pos_nat {A} (f : A → A) (p : positive) (x : A) : @SpecFloat.iter_pos A f p x = Nat.iter (Pos.to_nat p) f x.
Proof.
  revert x. induction p as [p IH|p IH|]; intros x; [| |done]; cbn [SpecFloat.iter_pos]; rewrite !IH.
  - replace (Pos.to_nat p~1) with (S (Pos.to_nat p + Pos.to_nat p)) by lia.
    rewrite Nat.iter_succ_r, Nat.iter_add. done.
  - replace (Pos.to_nat p~0) with (Pos.to_nat p + Pos.to_nat p)%nat by lia.
    by rewrite Nat.iter_add.
Qed.

Lemma iter_shr m r s n : 0 ≤ m → shr_m (Nat.iter n shr_1 (Build_shr_record m r s)) = m / 2 ^ Z.of_nat n.
Proof.
  intros Hm. assert (∃ r' s', Nat.iter n shr_1 (Build_shr_record m r s) =
                              Build_shr_record (m / 2 ^ Z.of_nat n) r' s') as (r' & s' & ->); [|done].
  induction n as [|n (r' & s' & IH)].
  - exists r, s. rewrite Z.div_1_r. done.
  - rewrite Nat.iter_succ, IH, shr_1_spec by (apply Z.div_pos; lia).
    rewrite Z.div_div by lia. rewrite Nat2Z.inj_succ, Z.pow_succ_r, Z.mul_comm by lia. eauto.
Qed.

Lemma iter_shr_exact m n :
  0 ≤ m → Nat.iter (S n) shr_1 (Build_shr_record m false false) =
  Build_shr_record (m / 2 ^ Z.of_nat (S n)) (Z.odd (m / 2 ^ Z.of_nat n))
    (negb (m mod 2 ^ Z.of_nat n =? 0)).
Proof.
  intros Hm. induction n as [|n IH].
  - change (Nat.iter 1 shr_1 ?x) with (shr_1 x). rewrite shr_1_spec by done.
    rewrite Z.div_1_r, Z.mod_1_r. done.
  - rewrite Nat.iter_succ, IH, shr_1_spec by (apply Z.div_pos; lia). f_equal.
    + rewrite Z.div_div by lia. f_equal. rewrite (Nat2Z.inj_succ (S n)), Z.pow_succ_r by lia. lia.
    + rewrite Nat2Z.inj_succ, Z.pow_succ_r by lia.
      rewrite (Z.mul_comm 2), Z.rem_mul_r by lia. rewrite Zmod_odd.
      pose proof (Z.mod_pos_bound m (2 ^ Z.of_nat n) ltac:(lia)).
      destruct (Z.odd (m / 2 ^ Z.of_nat n)); cbn [orb].
      * symmetry. apply negb_true_iff, Z.eqb_neq. lia.
      * f_equal. f_equal. lia.
Qed.

(** [shr] by [n]: the quotient and, from an exact value, half-even rounding. *)
Lemma shr_quotient m e l n : 0 ≤ m →
  shr_m (shr (shr_record_of_loc m l) e n).1 = m / 2 ^ Z.max 0 n ∧
  (shr (shr_record_of_loc m l) e n).2 = e + Z.max 0 n.
Proof.
  intros Hm. assert (∃ r s, shr_record_of_loc m l = Build_shr_record m r s) as (r & s & ->).
  { destruct l as [|[]]; simpl; eauto. }
  destruct n as [|p|p]; cbn [shr fst snd shr_m]; rewrite ?Z.div_1_r; try (split; [done|lia]).
  rewrite iter_pos_nat, iter_shr by done. by rewrite positive_nat_Z.
Qed.

Lemma shr_rounded m e n : 0 ≤ m →
  let mrs := (shr (shr_record_of_loc m loc_Exact) e n).1 in
  round_nearest_even (shr_m mrs) (loc_of_shr_record mrs) = round_half_even m (2 ^ Z.max 0 n).
Proof.
  intros Hm. cbv zeta.
  destruct n as [|p|p]; cbn [shr fst shr_record_of_loc shr_m loc_of_shr_record round_nearest_even];
    try (unfold round_half_even; by rewrite Z.div_1_r, Z.mod_1_r, decide_True by lia).
  rewrite iter_pos_nat. destruct (Pos.to_nat p) as [|k] eqn:Ek; [lia|].
  rewrite iter_shr_exact by done. replace (Z.max 0 (Zpos p)) with (Z.of_nat (S k)) by lia.
  cbn [shr_m]. unfold round_half_even. rewrite Nat2Z.inj_succ.
  set (w := 2 ^ Z.of_nat k). assert (0 < w) as Hw by (unfold w; lia).
  rewrite Z.pow_succ_r by lia. fold w.
  assert (m mod (2 * w) = m mod w + w * (if Z.odd (m / w) then 1 else 0)) as Hmod.
  { rewrite (Z.mul_comm 2), Z.rem_mul_r by lia. by rewrite Zmod_odd. }
  pose proof (Z.mod_pos_bound m w Hw) as Hb. rewrite Hmod.
  set (q := m / (2 * w)). rewrite (Zmod_odd q), <- (Z.negb_even q).
  destruct (Z.odd (m / w)), (m mod w =? 0) eqn:E0;
    [apply Z.eqb_eq in E0|apply Z.eqb_neq in E0|apply Z.eqb_eq in E0|apply Z.eqb_neq in E0];
    cbn [negb loc_of_shr_record round_nearest_even]; repeat case_decide; try lia;
    destruct (Z.even q); cbn [negb]; lia.
Qed.

(** ** Binary digits *)
Lemma digits_pos p : 2 ^ (Zpos (digits2_pos p) - 1) ≤ Zpos p < 2 ^ Zpos (digits2_pos p).
Proof.
  induction p as [p IH|p IH|]; cbn [digits2_pos]; [| |done];
    rewrite Pos2Z.inj_succ; replace (Z.succ (Zpos (digits2_pos p)) - 1) with (Z.succ (Zpos (digits2_pos p) - 1)) by lia;
    rewrite !Z.pow_succ_r by lia; lia.
Qed.

Lemma digits_bounds m : 0 < m → 2 ^ (Zdigits2 m - 1) ≤ m < 2 ^ Zdigits2 m.
Proof. destruct m as [|p|p]; [lia| |lia]. intros _. apply digits_pos. Qed.

Lemma digits_nonneg m : 0 ≤ m → 0 ≤ Zdigits2 m.
Proof. by destruct m. Qed.

Lemma digits_le m k : 0 ≤ k → 0 ≤ m → m < 2 ^ k → Zdigits2 m ≤ k.
Proof.
  intros Hk Hm Hlt. destruct (decide (m = 0)) as [->|Hne]; [done|].
  pose proof (digits_bounds m ltac:(lia)) as [Hlo _].
  destruct (decide (Zdigits2 m ≤ k)); [done|]. exfalso.
  pose proof (Z.pow_le_mono_r 2 k (Zdigits2 m - 1)). lia.
Qed.

Lemma digits_lt m k : 0 ≤ k → 0 ≤ m → Zdigits2 m ≤ k → m < 2 ^ k.
Proof.
  intros Hk Hm Hd. destruct (decide (m = 0)) as [->|Hne]; [lia|].
  pose proof (digits_bounds m ltac:(lia)) as [_ Hlt].
  pose proof (Z.pow_le_mono_r 2 (Zdigits2 m) k). lia.
Qed.

(** ** One rounding step *)
Section rounding.
Variables prec emax : Z.
Hypothesis Hprec : 0 < prec.
Hypothesis Hemax : prec + 1 < emax.

Definition above (l : location) : Z := match l with loc_Exact => 0 | _ => 1 end.

(** The exponent after the first shift, and the rounded mantissa. *)
Definition cut (m e : Z) : Z := Z.max e (fexp prec emax (Zdigits2 m + e)).

Lemma cut_shift m e : e + Z.max 0 (fexp prec emax (Zdigits2 m + e) - e) = cut m e.
Proof. unfold cut. lia. Qed.

Definition nearest (m e : Z) (l : location) : Z :=
  let mrs := (shr_fexp prec emax m e l).1 in
  round_nearest_even (shr_m mrs) (loc_of_shr_record mrs).

Lemma nearest_nonneg m e l : 0 ≤ m → 0 ≤ nearest m e l.
Proof.
  intros Hm. unfold nearest, shr_fexp.
  destruct (shr_quotient m e l (fexp prec emax (Zdigits2 m + e) - e) Hm) as [-> _].
  set (n := Z.max 0 _). pose proof (Z.div_pos m (2 ^ n) Hm ltac:(lia)).
  unfold round_nearest_even. destruct (loc_of_shr_record _) as [|[]]; try case_match; lia.
Qed.

(** Rounding does not pass a multiple of the unit that bounds the value. *)
Lemma nearest_le m e l t :
  0 ≤ m → m + above l ≤ t * 2 ^ (cut m e - e) → nearest m e l ≤ t.
Proof.
  intros Hm Hle. unfold nearest, shr_fexp.
  set (n := fexp prec emax (Zdigits2 m + e) - e).
  assert (cut m e - e = Z.max 0 n) as En by (unfold cut, n; lia). rewrite En in Hle.
  destruct l as [|c].
  - rewrite shr_rounded by done. apply half_even_ceil; [lia|]. unfold above in Hle. lia.
  - destruct (shr_quotient m e (loc_Inexact c) n Hm) as [-> _].
    assert (m / 2 ^ Z.max 0 n < t) as Hlt.
    { apply Z.div_lt_upper_bound; [lia|]. unfold above in Hle. lia. }
    unfold round_nearest_even. destruct (loc_of_shr_record _) as [|[]]; try case_match; lia.
Qed.

Lemma round_aux_steps sx m e l :
  0 ≤ m →
  binary_round_aux prec emax sx m e l =
  let q := nearest m e l in
  let e' := cut m e in
  match q / 2 ^ (cut q e' - e') with
  | Z0 => S754_zero sx
  | Zpos p => if Z.leb (cut q e') (emax - prec) then S754_finite sx p (cut q e') else S754_infinity sx
  | _ => S754_nan
  end.
Proof.
  intros Hm. unfold binary_round_aux.
  assert ((shr_fexp prec emax m e l).2 = cut m e) as E1.
  { unfold shr_fexp. destruct (shr_quotient m e l (fexp prec emax (Zdigits2 m + e) - e) Hm) as [_ ->].
    apply cut_shift. }
  assert (round_nearest_even (shr_m (shr_fexp prec emax m e l).1)
            (loc_of_shr_record (shr_fexp prec emax m e l).1) = nearest m e l) as E2 by done.
  destruct (shr_fexp prec emax m e l) as [mrs e']. cbn [fst snd] in E1, E2. subst e'. rewrite E2.
  set (q := nearest m e l). pose proof (nearest_nonneg m e l Hm) as Hq. fold q in Hq.
  destruct (shr_quotient q (cut m e) loc_Exact (fexp prec emax (Zdigits2 q + cut m e) - cut m e) Hq)
    as [H1 H2].
  unfold shr_fexp. destruct (shr _ _ _) as [mrs2 e2]. cbn [fst snd] in H1, H2.
  cbv zeta. assert (e2 = cut q (cut m e)) as -> by (rewrite H2; apply cut_shift).
  set (c := cut m e) in *.
  replace (cut q c - c) with (Z.max 0 (fexp prec emax (Zdigits2 q + c) - c)) by (unfold cut; lia).
  by rewrite H1.
Qed.

(** The absolute value is at most [b * 2^k]. *)
Definition bounded_by (b k : Z) (f : spec_float) : Prop :=
  match f with
  | S754_zero _ => True
  | S754_finite _ m e => e ≤ k ∧ Zpos m ≤ b * 2 ^ (k - e)
  | _ => False
  end.

Lemma aux_bounded sx m e l b k :
  0 ≤ m → e ≤ k → emin prec emax ≤ k ≤ emax - prec → 0 < b → Zdigits2 b ≤ prec →
  m + above l ≤ b * 2 ^ (k - e) →
  bounded_by b k (binary_round_aux prec emax sx m e l).
Proof.
  intros Hm He Hk Hb Hdb Hle. rewrite round_aux_steps by done. cbv zeta.
  set (q := nearest m e l). set (e' := cut m e).
  pose proof (nearest_nonneg m e l Hm) as Hq. fold q in Hq.
  assert (∀ z x, 0 ≤ z → x ≤ k → z ≤ b * 2 ^ (k - x) → fexp prec emax (Zdigits2 z + x) ≤ k) as Hexp.
  { intros z x Hz Hx Hzb.
    assert (Zdigits2 z ≤ Zdigits2 b + (k - x)); [|unfold fexp in *; lia].
    pose proof (digits_nonneg b ltac:(lia)).
    apply digits_le; [lia|done|]. rewrite Z.pow_add_r by lia.
    pose proof (digits_bounds b Hb). pose proof (Z.pow_pos_nonneg 2 (k - x) ltac:(lia) ltac:(lia)). nia. }
  assert (above l = 0 ∨ above l = 1) as Ha by (destruct l; simpl; lia).
  assert (e' ≤ k ∧ e ≤ e') as [He' Hee].
  { unfold e', cut. pose proof (Hexp m e Hm He ltac:(lia)). lia. }
  assert (q ≤ b * 2 ^ (k - e')) as Hqb.
  { apply nearest_le; [done|]. fold e'. rewrite <- Z.mul_assoc, <- Z.pow_add_r by lia.
    by replace (k - e' + (e' - e)) with (k - e) by lia. }
  assert (cut q e' ≤ k ∧ e' ≤ cut q e') as [Hc Hce].
  { unfold cut. pose proof (Hexp q e' Hq He' Hqb). lia. }
  pose proof (Z.pow_pos_nonneg 2 (cut q e' - e') ltac:(lia) ltac:(lia)) as Hw.
  pose proof (Z.div_pos q (2 ^ (cut q e' - e')) Hq Hw) as Hp.
  assert (q / 2 ^ (cut q e' - e') ≤ b * 2 ^ (k - cut q e')) as Hdiv.
  { apply Z.div_le_upper_bound; [lia|]. rewrite Z.mul_comm, <- Z.mul_assoc, <- Z.pow_add_r by lia.
    by replace (k - cut q e' + (cut q e' - e')) with (k - e') by lia. }
  destruct (q / _) as [|p|p]; [done| |lia].
  rewrite (proj2 (Z.leb_le _ _)) by lia. done.
Qed.

(** Rounding keeps the sign and never makes a NaN. *)
Definition has_sign (s : bool) (f : spec_float) : Prop :=
  match f with S754_nan => False | S754_zero s' | S754_infinity s' | S754_finite s' _ _ => s' = s end.

Lemma aux_sign sx m e l : 0 ≤ m → has_sign sx (binary_round_aux prec emax sx m e l).
Proof.
  intros Hm. rewrite round_aux_steps by done. cbv zeta.
  pose proof (nearest_nonneg m e l Hm) as Hq. set (q := nearest m e l) in *. set (c := cut q (cut m e)).
  assert (cut m e ≤ c) as Hc by (unfold c, cut at 2; lia).
  pose proof (Z.pow_pos_nonneg 2 (c - cut m e) ltac:(lia) ltac:(lia)) as Hw.
  pose proof (Z.div_pos q (2 ^ (c - cut m e)) Hq Hw) as Hp.
  destruct (q / _) as [|p|p]; [done| |lia]. by destruct (Z.leb _ _).
Qed.

(** Between zero and the integer [b]. *)
Definition within (b : Z) (f : spec_float) : Prop := bounded_by b 0 f ∧ has_sign false f.

Lemma aux_within m e l b :
  0 ≤ m → e ≤ 0 → 0 < b → Zdigits2 b ≤ prec → m + above l ≤ b * 2 ^ (- e) →
  within b (binary_round_aux prec emax false m e l).
Proof.
  intros Hm He Hb Hdb Hle. split; [|by apply aux_sign].
  apply aux_bounded; try done. unfold emin. lia.
Qed.
End rounding.

(** ** Operations *)
Lemma shl_align_spec m e ex :
  (shl_align m e ex).2 = Z.min e ex ∧
  Zpos (shl_align m e ex).1 = Zpos m * 2 ^ (e - Z.min e ex).
Proof.
  unfold shl_align. destruct (ex - e) as [|p|p] eqn:E; cbn [fst snd].
  - replace (Z.min e ex) with e by lia. rewrite Z.sub_diag. lia.
  - replace (Z.min e ex) with e by lia. rewrite Z.sub_diag. lia.
  - replace (Z.min e ex) with ex by lia. split; [done|]. replace (e - ex) with (Zpos p) by lia.
    clear E. induction p as [|p IH] using Pos.peano_ind; [simpl; lia|].
    rewrite Pos.iter_succ. rewrite Pos2Z.inj_succ, Z.pow_succ_r by lia. lia.
Qed.

Section operations.
Variables prec emax : Z.
Hypothesis Hprec : 0 < prec.
Hypothesis Hemax : prec + 1 < emax.

Lemma round_within m e b :
  e ≤ 0 → 0 < b → Zdigits2 b ≤ prec → Zpos m ≤ b * 2 ^ (- e) →
  within b (binary_round prec emax false m e).
Proof.
  intros He Hb Hd Hle. unfold binary_round. set (ex := fexp _ _ _).
  destruct (shl_align_spec m e ex) as [E1 E2]. destruct (shl_align m e ex) as [mz ez].
  cbn [fst snd] in E1, E2. apply aux_within; try first [done|lia].
  cbn [above]. rewrite E2, E1, Z.add_0_r.
  replace (- Z.min e ex) with (- e + (e - Z.min e ex)) by lia. rewrite Z.pow_add_r by lia.
  pose proof (Z.pow_pos_nonneg 2 (e - Z.min e ex) ltac:(lia) ltac:(lia)). nia.
Qed.

Lemma round_bounded sx m e k :
  e ≤ k → emin prec emax ≤ k ≤ emax - prec → Zpos m ≤ 2 ^ (k - e) →
  bounded_by 1 k (binary_round prec emax sx m e).
Proof.
  intros He Hk Hle. unfold binary_round. set (ex := fexp _ _ _).
  destruct (shl_align_spec m e ex) as [E1 E2]. destruct (shl_align m e ex) as [mz ez].
  cbn [fst snd] in E1, E2. apply aux_bounded; try first [done|lia|simpl; lia].
  cbn [above]. rewrite E2, E1, Z.add_0_r.
  replace (k - Z.min e ex) with (k - e + (e - Z.min e ex)) by lia. rewrite Z.pow_add_r by lia.
  pose proof (Z.pow_pos_nonneg 2 (e - Z.min e ex) ltac:(lia) ltac:(lia)). nia.
Qed.

Lemma mul_within a b f g :
  0 < a → 0 < b → Zdigits2 (a * b) ≤ prec → within a f → within b g →
  within (a * b) (SFmul prec emax f g).
Proof.
  intros Ha Hb Hd [Hf Hsf] [Hg Hsg].
  destruct f as [s|s| |s m e], g as [s'|s'| |s' m' e']; simpl in Hsf, Hsg; subst; try done.
  destruct Hf as [He Hm], Hg as [He' Hm']. rewrite Z.sub_0_l in Hm, Hm'.
  cbn [SFmul xorb]. apply aux_within; try first [done|lia].
  cbn [above]. rewrite Pos2Z.inj_mul. replace (- (e + e')) with (- e + - e') by lia.
  rewrite Z.pow_add_r by lia. nia.
Qed.

Lemma mul_number f m e :
  is_number f → is_number (SFmul prec emax f (S754_finite false m e)).
Proof.
  intros Hf. destruct f as [s|s| |s m' e']; try done. cbn [SFmul].
  pose proof (aux_sign prec emax (xorb s false) (Zpos (m' * m)) (e' + e) loc_Exact ltac:(lia)) as H.
  intros E. by rewrite E in H.
Qed.

(** Division of integers' quotient and location, for positive mantissas. *)
Lemma div_core m1 e1 m2 e2 :
  let '(q, e', l) := SFdiv_core_binary prec emax (Zpos m1) e1 (Zpos m2) e2 in
  e' = Z.min (fexp prec emax (Zdigits2 (Zpos m1) + e1 - (Zdigits2 (Zpos m2) + e2))) (e1 - e2) ∧
  0 ≤ q ∧ ∀ t, Zpos m1 * 2 ^ (e1 - e2 - e') ≤ Zpos m2 * t → q + above l ≤ t.
Proof.
  unfold SFdiv_core_binary. set (e' := Z.min _ _). set (s := e1 - e2 - e').
  assert (0 ≤ s) as H0 by (unfold s, e'; lia).
  assert (match s with Zpos _ => Z.shiftl (Zpos m1) s | Z0 => Zpos m1 | Zneg _ => 0 end =
          Zpos m1 * 2 ^ s) as ->.
  { destruct s as [|p|p]; [lia| |lia]. by rewrite Z.shiftl_mul_pow2. }
  pose proof (Z.pow_pos_nonneg 2 s ltac:(lia) ltac:(lia)) as Hw.
  pose proof (Z_div_mod (Zpos m1 * 2 ^ s) (Zpos m2) ltac:(lia)) as Hdm.
  destruct (Z.div_eucl _ _) as [q r]. destruct Hdm as [Hq Hr].
  split; [done|]. assert (0 < Zpos m1 * 2 ^ s) as Hpos by (by apply Z.mul_pos_pos).
  set (v := Zpos m1 * 2 ^ s) in *. assert (Zpos m1 * 2 ^ s = v) as Ev by done. clearbody v. split.
  { destruct (decide (0 ≤ q)); [done|]. exfalso. assert (Zpos m2 * q ≤ - Zpos m2) by nia. lia. }
  intros t Ht. fold s in Ht. rewrite Ev in Ht.
  assert (above (new_location (Zpos m2) r) = if decide (r = 0) then 0 else 1) as ->.
  { unfold new_location, new_location_even, new_location_odd.
    destruct (Z.even (Zpos m2)), (Z.eqb_spec r 0), (decide (r = 0)); done. }
  destruct (decide (r = 0)) as [->|Hr0].
  - rewrite !Z.add_0_r in *. apply (Zmult_le_reg_r _ _ (Zpos m2)); lia.
  - assert (q < t); [|lia]. apply (Zmult_lt_reg_r _ _ (Zpos m2)); lia.
Qed.

Lemma div_bounded s1 s2 m1 e1 m2 e2 k :
  e1 ≤ k + e2 → emin prec emax ≤ k ≤ emax - prec → Zpos m1 ≤ 2 ^ (k + e2 - e1) →
  bounded_by 1 k (SFdiv prec emax (S754_finite s1 m1 e1) (S754_finite s2 m2 e2)).
Proof.
  intros He Hk Hm. cbn [SFdiv]. pose proof (div_core m1 e1 m2 e2) as Hd.
  destruct (SFdiv_core_binary _ _ _ _ _ _) as [[q e'] l]. destruct Hd as (Ee & Hq & Hle).
  assert (e' ≤ e1 - e2) as Hs by lia.
  apply aux_bounded; try first [done|lia|simpl; lia]. apply Hle.
  replace (k - e') with (k + e2 - e1 + (e1 - e2 - e')) by lia. rewrite Z.pow_add_r by lia.
  pose proof (Z.pow_pos_nonneg 2 (e1 - e2 - e') ltac:(lia) ltac:(lia)) as Hw.
  rewrite Z.mul_1_l. set (x := 2 ^ (k + e2 - e1)) in *. set (y := 2 ^ (e1 - e2 - e')) in *.
  assert (Zpos m1 * y ≤ x * y) by nia. assert (0 ≤ x * y) by nia. nia.
Qed.

Lemma div_number s1 s2 m1 e1 m2 e2 :
  is_number (SFdiv prec emax (S754_finite s1 m1 e1) (S754_finite s2 m2 e2)).
Proof.
  cbn [SFdiv]. pose proof (div_core m1 e1 m2 e2) as Hd.
  destruct (SFdiv_core_binary _ _ _ _ _ _) as [[q e'] l]. destruct Hd as (_ & Hq & _).
  pose proof (aux_sign prec emax (xorb s1 s2) q e' l Hq) as H. intros E. by rewrite E in H.
Qed.

Lemma div_within m1 e1 m2 e2 k :
  - k ≤ e1 → - k ≤ e2 → Zpos m1 * 2 ^ (e1 + k) ≤ Zpos m2 * 2 ^ (e2 + k) →
  within 1 (SFdiv prec emax (S754_finite false m1 e1) (S754_finite false m2 e2)).
Proof.
  intros Hk1 Hk2 Hle. cbn [SFdiv xorb]. pose proof (div_core m1 e1 m2 e2) as Hdc.
  destruct (SFdiv_core_binary _ _ _ _ _ _) as [[q e'] l]. destruct Hdc as (Ee & Hq & Hqle).
  assert (Zdigits2 (Zpos m1) + e1 ≤ Zdigits2 (Zpos m2) + e2) as Hd.
  { pose proof (digits_bounds (Zpos m1) ltac:(lia)) as [Hlo _].
    pose proof (digits_bounds (Zpos m2) ltac:(lia)) as [_ Hhi].
    pose proof (digits_nonneg (Zpos m2) ltac:(lia)).
    assert (1 ≤ Zdigits2 (Zpos m1)) by (simpl; lia).
    pose proof (Z.pow_pos_nonneg 2 (e1 + k) ltac:(lia) ltac:(lia)).
    pose proof (Z.pow_pos_nonneg 2 (e2 + k) ltac:(lia) ltac:(lia)).
    assert (2 ^ (Zdigits2 (Zpos m1) - 1 + (e1 + k)) < 2 ^ (Zdigits2 (Zpos m2) + (e2 + k))) as Hp.
    { rewrite (Z.pow_add_r 2 (Zdigits2 _ - 1)), (Z.pow_add_r 2 (Zdigits2 (Zpos m2))) by lia.
      apply Z.le_lt_trans with (Zpos m1 * 2 ^ (e1 + k)); [nia|].
      apply Z.le_lt_trans with (Zpos m2 * 2 ^ (e2 + k)); [done|nia]. }
    apply Z.pow_lt_mono_r_iff in Hp; lia. }
  assert (e' ≤ 0 ∧ e' ≤ e1 - e2) as [He' Hs] by (rewrite Ee; unfold fexp, emin; lia).
  apply aux_within; try first [done|lia|simpl; lia]. apply Hqle.
  pose proof (Z.pow_pos_nonneg 2 (e2 + k) ltac:(lia) ltac:(lia)) as Hw.
  pose proof (Z.pow_pos_nonneg 2 (- e') ltac:(lia) ltac:(lia)) as Hw'.
  assert (2 ^ (e1 - e2 - e') * 2 ^ (e2 + k) = 2 ^ (e1 + k) * 2 ^ (- e')) as E.
  { rewrite <- !Z.pow_add_r by lia. f_equal. lia. }
  apply (Zmult_le_reg_r _ _ (2 ^ (e2 + k))); [lia|]. nia.
Qed.
End operations.

(** ** Conversion of an integer to [float] *)
Definition near32 (z : Z) : Z :=
  let d := Zdigits2 z in
  if decide (d ≤ 24) then z else round_half_even z (2 ^ (d - 24)) * 2 ^ (d - 24).

Lemma near32_bounds z :
  0 < z → 24 < Zdigits2 z → 2 ^ 23 ≤ round_half_even z (2 ^ (Zdigits2 z - 24)) ≤ 2 ^ 24.
Proof.
  intros Hz Hd. pose proof (digits_bounds z Hz) as [Hlo Hhi]. split.
  - apply half_even_floor; [lia|]. rewrite <- Z.pow_add_r by lia.
    by replace (23 + (Zdigits2 z - 24)) with (Zdigits2 z - 1) by lia.
  - apply half_even_ceil; [lia|]. rewrite <- Z.pow_add_r by lia.
    replace (24 + (Zdigits2 z - 24)) with (Zdigits2 z) by lia. lia.
Qed.

Lemma digits_mono a b : 0 < a → a ≤ b → Zdigits2 a ≤ Zdigits2 b.
Proof.
  intros Ha Hab. pose proof (digits_bounds b ltac:(lia)) as [_ Hb].
  apply digits_le; [apply digits_nonneg; lia|lia|lia].
Qed.

Lemma near32_mono a b : 0 < a → a ≤ b → near32 a ≤ near32 b.
Proof.
  intros Ha Hab. pose proof (digits_mono a b Ha Hab) as Hd. unfold near32.
  destruct (decide (Zdigits2 a ≤ 24)) as [Ha24|Ha24], (decide (Zdigits2 b ≤ 24)) as [Hb24|Hb24];
    [done| |lia|].
  - pose proof (near32_bounds b ltac:(lia) ltac:(lia)) as [Hlo _].
    pose proof (digits_lt a 24 ltac:(lia) ltac:(lia) Ha24) as Hlt.
    pose proof (Z.pow_le_mono_r 2 1 (Zdigits2 b - 24) ltac:(lia) ltac:(lia)).
    change (2 ^ 24) with (2 * 2 ^ 23) in Hlt. nia.
  - destruct (decide (Zdigits2 a = Zdigits2 b)) as [E|Hne].
    + rewrite E. apply Z.mul_le_mono_nonneg_r; [lia|]. by apply half_even_mono; [lia|].
    + pose proof (near32_bounds a ltac:(lia) ltac:(lia)) as [_ Hhi].
      pose proof (near32_bounds b ltac:(lia) ltac:(lia)) as [Hlo _].
      set (q := round_half_even b _) in *. set (p := round_half_even a _) in *.
      assert (2 ^ (Zdigits2 b - 24) = 2 * 2 ^ (Zdigits2 a - 24) * 2 ^ (Zdigits2 b - Zdigits2 a - 1)) as ->.
      { rewrite <- (Z.pow_add_r 2 1), <- Z.pow_add_r by lia. f_equal. lia. }
      pose proof (Z.pow_pos_nonneg 2 (Zdigits2 b - Zdigits2 a - 1) ltac:(lia) ltac:(lia)) as Hx.
      pose proof (Z.pow_pos_nonneg 2 (Zdigits2 a - 24) ltac:(lia) ltac:(lia)) as Hy.
      clearbody p q. set (x := 2 ^ (_ - _ - 1)) in *. set (y := 2 ^ (Zdigits2 a - 24)) in *.
      change (2 ^ 24) with (2 * 2 ^ 23) in Hhi. set (c := 2 ^ 23) in *.
      assert (p ≤ 2 * q) by lia. assert (p * y ≤ 2 * q * y) by nia.
      assert (0 ≤ 2 * q * y) by (unfold c in *; nia). nia.
Qed.

(** From an exact value, the rounded mantissa is the nearest integer. *)
Lemma nearest_exact prec emax m e :
  0 ≤ m → nearest prec emax m e loc_Exact = round_half_even m (2 ^ (cut prec emax m e - e)).
Proof.
  intros Hm. unfold nearest, shr_fexp. rewrite shr_rounded by done. do 2 f_equal.
  unfold cut. lia.
Qed.

Lemma half_even_one m : round_half_even m 1 = m.
Proof. unfold round_half_even. by rewrite Z.div_1_r, Z.mod_1_r, decide_True by lia. Qed.

Lemma digits_unique m k : 0 < k → 2 ^ (k - 1) ≤ m < 2 ^ k → Zdigits2 m = k.
Proof.
  intros Hk [Hlo Hhi]. pose proof (Z.pow_pos_nonneg 2 (k - 1) ltac:(lia) ltac:(lia)).
  pose proof (digits_le m k ltac:(lia) ltac:(lia) Hhi).
  destruct (decide (Zdigits2 m = k)); [done|]. exfalso.
  pose proof (digits_lt m (k - 1) ltac:(lia) ltac:(lia) ltac:(lia)). lia.
Qed.

Lemma f32_value p :
  Zpos p < 2 ^ 64 →
  ∃ m e, binary_round f32_prec f32_emax false p 0 = S754_finite false m e ∧ - 23 ≤ e ∧
         Zpos m * 2 ^ (e + 23) = near32 (Zpos p) * 2 ^ 23.
Proof.
  intros Hp. pose proof (digits_bounds (Zpos p) ltac:(lia)) as [Hlo Hhi].
  set (d := Zdigits2 (Zpos p)) in *.
  assert (1 ≤ d) as Hd1 by (unfold d; simpl; lia).
  assert (d ≤ 64) as Hd64 by (apply digits_le; lia).
  unfold binary_round. change (Zpos (digits2_pos p) + 0) with (d + 0). rewrite Z.add_0_r.
  assert (∀ x, - 100 < x → fexp f32_prec f32_emax x = x - 24) as Hexp.
  { intros x Hx. unfold fexp, emin, f32_prec, f32_emax. lia. }
  rewrite Hexp by lia. destruct (shl_align_spec p 0 (d - 24)) as [E1 E2].
  destruct (shl_align p 0 (d - 24)) as [mz ez]. cbn [fst snd] in E1, E2.
  rewrite round_aux_steps, nearest_exact by lia. cbv zeta. unfold near32. fold d.
  destruct (decide (d ≤ 24)) as [H24|H24].
  - rewrite Z.min_r in E1, E2 by lia. subst ez.
    assert (Zdigits2 (Zpos mz) = 24) as Hdz.
    { apply digits_unique; [done|]. rewrite E2. replace (0 - (d - 24)) with (24 - d) by lia.
      replace (24 - 1) with (d - 1 + (24 - d)) by lia.
      assert (2 ^ 24 = 2 ^ d * 2 ^ (24 - d)) as -> by (rewrite <- Z.pow_add_r by lia; f_equal; lia).
      rewrite Z.pow_add_r by lia.
      pose proof (Z.pow_pos_nonneg 2 (24 - d) ltac:(lia) ltac:(lia)). nia. }
    assert (cut f32_prec f32_emax (Zpos mz) (d - 24) = d - 24) as Hc.
    { unfold cut. rewrite Hdz, Hexp by lia. lia. }
    rewrite Hc, Z.sub_diag, Z.pow_0_r, half_even_one, Hc, Z.sub_diag, Z.pow_0_r, Z.div_1_r.
    rewrite (proj2 (Z.leb_le _ _)) by (unfold f32_emax, f32_prec; lia).
    exists mz, (d - 24). split; [done|]. split; [lia|]. rewrite E2, <- Z.mul_assoc, <- Z.pow_add_r by lia.
    do 2 f_equal. lia.
  - rewrite Z.min_l in E1, E2 by lia. subst ez. rewrite Z.sub_diag, Z.mul_1_r in E2.
    injection E2 as ->. fold d.
    assert (cut f32_prec f32_emax (Zpos p) 0 = d - 24) as Hc.
    { unfold cut. fold d. rewrite Z.add_0_r, Hexp by lia. lia. }
    rewrite Hc, Z.sub_0_r.
    destruct (near32_bounds (Zpos p) ltac:(lia) ltac:(fold d; lia)) as [Hq1 Hq2]. fold d in Hq1, Hq2.
    set (q := round_half_even _ _) in *. clearbody q.
    destruct (decide (q = 2 ^ 24)) as [->|Hne].
    + assert (cut f32_prec f32_emax (2 ^ 24) (d - 24) = d - 23) as ->.
      { unfold cut. change (Zdigits2 (2 ^ 24)) with 25. rewrite Hexp by lia. lia. }
      replace (d - 23 - (d - 24)) with 1 by lia. change (2 ^ 24 / 2 ^ 1) with (2 ^ 23).
      cbn [Z.pow]. rewrite (proj2 (Z.leb_le _ _)) by (unfold f32_emax, f32_prec; lia).
      eexists _, (d - 23). split; [done|]. split; [lia|].
      change (Z.pos (2 ^ 23)) with (2 ^ 23). replace (d - 23 + 23) with (1 + (d - 24) + 23) by lia.
      rewrite !Z.pow_add_r by lia. change (2 ^ 24) with (2 ^ 23 * 2). lia.
    + assert (cut f32_prec f32_emax q (d - 24) = d - 24) as ->.
      { unfold cut. rewrite (digits_unique q 24) by lia. rewrite Hexp by lia. lia. }
      rewrite Z.sub_diag, Z.pow_0_r, Z.div_1_r. destruct q as [|q|q]; [lia| |lia].
      rewrite (proj2 (Z.leb_le _ _)) by (unfold f32_emax, f32_prec; lia).
      exists q, (d - 24). split; [done|]. split; [lia|]. rewrite Z.pow_add_r by lia. lia.
Qed.

(** The quotient of two converted integers is at most one. *)
Lemma ratio_within a b :
  0 ≤ a ≤ b → 0 < b < 2 ^ 64 →
  within 1 (SFdiv f32_prec f32_emax (binary_normalize f32_prec f32_emax a 0 false)
              (binary_normalize f32_prec f32_emax b 0 false)).
Proof.
  intros Ha Hb. destruct b as [|b|b]; [lia| |lia]. cbn [binary_normalize].
  destruct (f32_value b ltac:(lia)) as (m2 & e2 & -> & He2 & E2).
  destruct a as [|a|a]; [done| |lia]. cbn [binary_normalize].
  destruct (f32_value a ltac:(lia)) as (m1 & e1 & -> & He1 & E1).
  apply (div_within f32_prec f32_emax eq_refl eq_refl _ _ _ _ 23); [lia|lia|].
  rewrite E1, E2. pose proof (near32_mono (Zpos a) (Zpos b) ltac:(lia) ltac:(lia)). lia.
Qed.
