(* ===== verification/SystemInfo.v ===== *)
(** * SystemInfo: what a cluster server measures about itself
    (src/src/common/include/dfg/system_info.hpp)

    The files under /proc, the answer of [statvfs] and the clock are arguments.
    [float] and [double] arithmetic is the Standard Library's [SpecFloat].  Two
    results are undefined in C++ and are arguments too: a variable read before
    it is set ([unset]) and a [double] too large for [unsigned long long]
    ([too_large]). *)
From Stdlib Require Import Lia SpecFloat.
From S2P Require Import Prelude.
From S2P Require Import Text.
From S2P Require Import Float.
Local Open Scope Z_scope.

(** ** Arithmetic on [float] and [double] *)
Definition to_f32 (f : spec_float) : spec_float :=
  match f with S754_finite s m e => binary_round f32_prec f32_emax s m e | _ => f end.
Definition to_f64 (f : spec_float) : spec_float :=
  match f with S754_finite s m e => binary_round f64_prec f64_emax s m e | _ => f end.
Definition f32_of_Z (z : Z) : spec_float := binary_normalize f32_prec f32_emax z 0 false.
Definition f64_of_Z (z : Z) : spec_float := binary_normalize f64_prec f64_emax z 0 false.
Definition div32 : spec_float → spec_float → spec_float := SFdiv f32_prec f32_emax.
Definition div64 : spec_float → spec_float → spec_float := SFdiv f64_prec f64_emax.
Definition mul32 : spec_float → spec_float → spec_float := SFmul f32_prec f32_emax.
Definition mul64 : spec_float → spec_float → spec_float := SFmul f64_prec f64_emax.

(** The integer part of a nonnegative double, for [unsigned long long]. *)
Definition trunc_u64 (too_large : Z) (f : spec_float) : Z :=
  match f with
  | S754_zero _ => 0
  | S754_finite false _ _ =>
      let '(n, d) := float_ratio f in
      if decide (n / d ≤ ULLONG_MAX) then n / d else too_large
  | _ => too_large
  end.

(** [std::fixed << std::setprecision(k)]. *)
Definition show_fixed (k : nat) (f : spec_float) : bytes :=
  let one := 10 ^ Z.of_nat k in
  let digits r :=
    match k with
    | O => show_Z r
    | _ => let fp := show_Z (r mod one) in
           show_Z (r / one) ++ "."%char :: replicate (k - length fp) "0"%char ++ fp
    end in
  match f with
  | S754_zero neg => with_sign neg (digits 0)
  | S754_infinity neg => with_sign neg (lit "inf")
  | S754_nan => lit "nan"
  | S754_finite neg _ _ =>
      let '(n, d) := float_ratio f in with_sign neg (digits (scaled n d (Z.of_nat k)))
  end.

(** ** [formatBandwidth] *)
Definition units (i : nat) : bytes :=
  match i with O => lit "bps" | 1%nat => lit "Kbps" | 2%nat => lit "Mbps" | _ => lit "Gbps" end.

(** [while (speed >= 1000.0 && unitIndex < 3)]: at most [n] divisions. *)
Fixpoint scale_speed (n : nat) (speed : spec_float) (unit_index : nat) : spec_float * nat :=
  match n with
  | O => (speed, unit_index)
  | S n =>
      if SFleb (f64_of_Z 1000) speed
      then scale_speed n (div64 speed (f64_of_Z 1000)) (S unit_index)
      else (speed, unit_index)
  end.

Definition formatBandwidth (bytes_per_second : Z) : bytes :=
  let '(speed, unit_index) := scale_speed 3 (mul64 (f64_of_Z bytes_per_second) (f64_of_Z 8)) 0 in
  let precision := if SFltb speed (f64_of_Z 10) then 2%nat
                   else if SFltb speed (f64_of_Z 100) then 1%nat else 0%nat in
  show_fixed precision speed ++ sp :: units unit_index.

Example formatBandwidth_values :
  map formatBandwidth [0; 1; 124; 125; 12500; 999999; 125000000; 18446744073709551615] =
  map lit ["0.00 bps"; "8.00 bps"; "992 bps"; "1.00 Kbps"; "100 Kbps"; "8.00 Mbps"; "1.00 Gbps";
           "147573952590 Gbps"]%string.
Proof. by vm_compute. Qed.

(** ** Reading /proc *)

(** [ss >> x] for [unsigned long long]: the new value of [x] and the rest, [None]
    once the stream has failed.  At the end of the text [x] is left alone. *)
Definition extract_u64 (x : Z) (s : option bytes) : Z * option bytes :=
  match s with
  | None => (x, None)
  | Some s =>
      match skip_space s with
      | [] => (x, None)
      | _ =>
          match scan_int s with
          | None => (0, None)
          | Some (neg, m, rest) =>
              if decide (Z.of_N m ≤ ULLONG_MAX) then (w64 (signed_of neg m), Some rest)
              else (ULLONG_MAX, None)
          end
      end
  end.

(** [n] of them, each starting from [x]. *)
Fixpoint extract_all (n : nat) (x : Z) (s : option bytes) : list Z * option bytes :=
  match n with
  | O => ([], s)
  | S n => let '(v, s) := extract_u64 x s in
           let '(vs, s) := extract_all n x s in (v :: vs, s)
  end.

Record CpuStats := mkCpu {
  user : Z; nice : Z; system : Z; idle : Z; iowait : Z; irq : Z; softirq : Z; steal : Z }.
Definition getTotalIdle (c : CpuStats) : Z := w64 (idle c + iowait c).
Definition getTotalNonIdle (c : CpuStats) : Z :=
  w64 (user c + nice c + system c + irq c + softirq c + steal c).
Definition getTotal (c : CpuStats) : Z := w64 (getTotalIdle c + getTotalNonIdle c).

Definition zero_cpu : CpuStats := mkCpu 0 0 0 0 0 0 0 0.

(** [None]: the file cannot be opened. *)
Definition readCpuStats (file : option bytes) : CpuStats :=
  match file with
  | None => zero_cpu
  | Some text =>
      let '(line, _) := default ([], []) (getline nl text) in
      match extract_all 8 0 (snd <$> read_word line) with
      | ([u; n; s; i; w; q; f; t], _) => mkCpu u n s i w q f t
      | _ => zero_cpu
      end
  end.

Record NetworkStats := mkNet { rxBytes : Z; txBytes : Z }.

Definition interface_name (word : bytes) : bytes :=
  match last word with
  | Some c => if decide (c = colon) then take (length word - 1) word else word
  | None => word
  end.

Section network.
Variable unset : Z.

(** One line of /proc/net/dev: the counters of the interface. *)
Definition read_interface (line : bytes) : bytes * NetworkStats :=
  let '(iface, s) := match read_word line with Some (w, s) => (w, Some s) | None => ([], None) end in
  let '(r, s) := extract_all 8 unset s in
  let '(t, _) := extract_all 8 unset s in
  (interface_name iface, mkNet (default unset (head r)) (default unset (head t))).

Definition add_interface (stats : NetworkStats) (line : bytes) : NetworkStats :=
  let '(iface, n) := read_interface line in
  if decide (iface = lit "lo") then stats
  else mkNet (w64 (rxBytes stats + rxBytes n)) (w64 (txBytes stats + txBytes n)).

Definition readNetworkStats (file : option bytes) : NetworkStats :=
  fold_left add_interface (drop 2 (getlines nl (default [] file))) (mkNet 0 0).
End network.

(** ** Memory *)

(** [sscanf(line, "<label> %ld kB", &x)]: [x] keeps its value without a number;
    [strtol] saturates. *)
Definition scan_field (label line : bytes) (x : Z) : Z :=
  match scan_int (drop (length label) line) with
  | Some (neg, m, _) => Z.max LLONG_MIN (Z.min LLONG_MAX (signed_of neg m))
  | None => x
  end.

Record MemInfo := mkMem { totalMemKB : Z; freeMemKB : Z }.

(** The loop ends at the line of [Cached:]; the other two numbers it reads are
    not used. *)
Fixpoint scan_meminfo (lines : list bytes) (m : MemInfo) : MemInfo :=
  match lines with
  | [] => m
  | line :: rest =>
      if starts_with (lit "MemTotal:") line
      then scan_meminfo rest (mkMem (scan_field (lit "MemTotal:") line (totalMemKB m)) (freeMemKB m))
      else if starts_with (lit "MemAvailable:") line
      then scan_meminfo rest (mkMem (totalMemKB m) (scan_field (lit "MemAvailable:") line (freeMemKB m)))
      else if starts_with (lit "Cached:") line then m
      else scan_meminfo rest m
  end.

(** Used GB and percentage. *)
Definition getRamUsageGBPercent (file : option bytes) : spec_float * spec_float :=
  let m := scan_meminfo (getlines nl (default [] file)) (mkMem 0 0) in
  let gb kb := to_f32 (div64 (f64_of_Z kb) (f64_of_Z (1024 * 1024))) in
  let totalGB := gb (totalMemKB m) in
  let usedGB := gb (totalMemKB m - freeMemKB m) in
  (usedGB, if SFltb (S754_zero false) totalGB
           then mul32 (div32 usedGB totalGB) (f32_of_Z 100) else S754_zero false).

(** ** Disk *)
Record Statvfs := mkStatvfs { f_blocks : Z; f_frsize : Z; f_bfree : Z }.

(** Total GB and percentage used. *)
Definition getDiskUsageGBPercent (stat : option Statvfs) : spec_float * spec_float :=
  match stat with
  | None => (S754_zero false, S754_zero false)
  | Some st =>
      let totalBytes := w64 (f_blocks st * f_frsize st) in
      let usedBytes := w64 (totalBytes - w64 (f_bfree st * f_frsize st)) in
      (to_f32 (div64 (f64_of_Z totalBytes) (f64_of_Z (1024 * 1024 * 1024))),
       to_f32 (if decide (0 < totalBytes)
               then mul64 (to_f64 (div32 (f32_of_Z usedBytes) (f32_of_Z totalBytes))) (f64_of_Z 100)
               else S754_zero false))
  end.

(** ** CPU, from two readings *)
Definition cpu_differences (prev curr : CpuStats) : Z * Z :=
  (w64 (getTotal curr - getTotal prev), w64 (getTotalIdle curr - getTotalIdle prev)).

Definition busy_ratio (total_diff idle_diff : Z) : spec_float :=
  div32 (f32_of_Z (w64 (total_diff - idle_diff))) (f32_of_Z total_diff).

(** [getCpuUsagePercent] (the multiplication is in [double]). *)
Definition getCpuUsagePercent (prev curr : CpuStats) : spec_float :=
  let '(total_diff, idle_diff) := cpu_differences prev curr in
  if decide (total_diff = 0) then S754_zero false
  else to_f32 (mul64 (to_f64 (busy_ratio total_diff idle_diff)) (f64_of_Z 100)).

(** The same in [CachedSystemMonitor::sample] (in [float]). *)
Definition sampled_cpu (prev curr : CpuStats) : spec_float :=
  let '(total_diff, idle_diff) := cpu_differences prev curr in
  if decide (0 < total_diff) then mul32 (busy_ratio total_diff idle_diff) (f32_of_Z 100)
  else S754_zero false.

(** ** [CachedSystemMonitor] *)
Record system_usage := mkUsage {
  cpu_usage : spec_float;
  total_ram : spec_float;
  ram_usage : spec_float;
  memory_usage : Z;             (* never set: stays 0 *)
  disk_usage : spec_float;
  network_in : bytes;
  network_out : bytes;
  network_in_bytes_per_sec : Z;
  network_out_bytes_per_sec : Z
}.

Record CachedSystemMonitor := mkMonitor {
  cached : system_usage;
  has_sample : bool;
  last_cpu : CpuStats;
  last_net : NetworkStats;
  last_time : Z                 (* steady clock, nanoseconds *)
}.
Definition no_usage : system_usage :=
  mkUsage (S754_zero false) (S754_zero false) (S754_zero false) 0 (S754_zero false) [] [] 0 0.
Definition new_monitor : CachedSystemMonitor := mkMonitor no_usage false zero_cpu (mkNet 0 0) 0.

(** What one sample reads. *)
Record Readings := mkReadings {
  at_time : Z;
  proc_stat : option bytes;
  proc_net_dev : option bytes;
  proc_meminfo : option bytes;
  statvfs_root : option Statvfs
}.

Section sample.
Variables unset too_large : Z.

(** Bytes per second over [duration] milliseconds; 0 if the counter fell. *)
Definition rate (duration prev curr : Z) : Z :=
  if decide (prev ≤ curr)
  then trunc_u64 too_large
         (div64 (f64_of_Z (curr - prev)) (div64 (f64_of_Z duration) (f64_of_Z 1000)))
  else 0.

Definition sample (r : Readings) (m : CachedSystemMonitor) : CachedSystemMonitor :=
  let curr_cpu := readCpuStats (proc_stat r) in
  let curr_net := readNetworkStats unset (proc_net_dev r) in
  let '(ramGB, ramPct) := getRamUsageGBPercent (proc_meminfo r) in
  let '(_, diskPct) := getDiskUsageGBPercent (statvfs_root r) in
  let old := cached m in
  let '(cpu, nin, nout, inBps, outBps) :=
    if has_sample m then
      let duration := (at_time r - last_time m) ÷ 1000000 in
      if decide (0 < duration) then
        let inBps := rate duration (rxBytes (last_net m)) (rxBytes curr_net) in
        let outBps := rate duration (txBytes (last_net m)) (txBytes curr_net) in
        (sampled_cpu (last_cpu m) curr_cpu, formatBandwidth inBps, formatBandwidth outBps, inBps, outBps)
      else (cpu_usage old, network_in old, network_out old,
            network_in_bytes_per_sec old, network_out_bytes_per_sec old)
    else (S754_zero false, formatBandwidth 0, formatBandwidth 0, 0, 0) in
  mkMonitor (mkUsage cpu ramGB ramPct (memory_usage old) diskPct nin nout inBps outBps) true curr_cpu curr_net (at_time r).

(** Two readings of the counters, one second apart. *)
Definition getNetworkBandwidthFormatted (prev curr : NetworkStats) : bytes * bytes :=
  (formatBandwidth (w64 (rxBytes curr - rxBytes prev)),
   formatBandwidth (w64 (txBytes curr - txBytes prev))).

(** [system_monitor], which blocks between two readings of the counters. *)
Definition system_monitor (cpu0 cpu1 : CpuStats) (net0 net1 : NetworkStats) (r : Readings)
  : system_usage :=
  let '(ramUsedGB, ramPercent) := getRamUsageGBPercent (proc_meminfo r) in
  let '(_, diskPercent) := getDiskUsageGBPercent (statvfs_root r) in
  let '(netIn, netOut) := getNetworkBandwidthFormatted net0 net1 in
  mkUsage (getCpuUsagePercent cpu0 cpu1) ramUsedGB ramPercent 0 diskPercent netIn netOut 0 0.
End sample.
