(* ===== verification/SystemSpec.v ===== *)
(** * SystemSpec: the measurements are usable

    No measurement is ever a NaN, whatever /proc and [statvfs] answer, so what
    heartbeats carry keeps the head server's choice of servers well defined
    ([UploadSpec.disks_known]); the CPU and disk percentages are between 0 and
    100 when the kernel's counters are sane. *)
From Stdlib Require Import Lia SpecFloat.
From S2P Require Import Prelude.
From S2P Require Import Text.
From S2P Require Import Float.
From S2P Require Import FloatBounds.
From S2P Require Import SystemInfo.
From S2P Require Import Health.
From S2P Require Import Wire.
From S2P Require Import Heartbeat.
From S2P Require Import UploadSpec.
Local Open Scope Z_scope.

(** ** Conversions *)
Lemma round_number prec emax s m e : is_number (binary_round prec emax s m e).
Proof.
  unfold binary_round. destruct (shl_align _ _ _) as [mz ez].
  pose proof (aux_sign prec emax s (Zpos mz) ez loc_Exact ltac:(lia)) as H. intros E. by rewrite E in H.
Qed.

Lemma to_f32_number f : is_number f → is_number (to_f32 f).
Proof. destruct f; try done. intros _. apply round_number. Qed.
Lemma to_f64_number f : is_number f → is_number (to_f64 f).
Proof. destruct f; try done. intros _. apply round_number. Qed.

Lemma round_within_any prec emax b f :
  0 < prec → prec + 1 < emax → 0 < b → Zdigits2 b ≤ prec → within b f →
  within b (match f with S754_finite s m e => binary_round prec emax s m e | _ => f end).
Proof.
  intros Hp He Hb Hd Hf. destruct f as [s|s| |s m e]; try done.
  destruct Hf as [[H1 H2] Hs]. simpl in Hs. subst s. rewrite Z.sub_0_l in H2.
  by apply round_within.
Qed.

Lemma hundred32 : f32_of_Z 100 = S754_finite false 13107200 (-17).
Proof. reflexivity. Qed.
Lemma hundred64 : f64_of_Z 100 = S754_finite false 7036874417766400 (-46).
Proof. reflexivity. Qed.

(** ** Percentages of two counters *)
Definition u64 (z : Z) : Prop := 0 ≤ z ≤ ULLONG_MAX.

Lemma ratio_number a b : u64 a → 0 < b ≤ ULLONG_MAX → is_number (div32 (f32_of_Z a) (f32_of_Z b)).
Proof.
  unfold u64, ULLONG_MAX. intros Ha Hb. destruct b as [|b|b]; [lia| |lia].
  unfold div32, f32_of_Z. cbn [binary_normalize].
  destruct (f32_value b ltac:(lia)) as (m2 & e2 & -> & _).
  destruct a as [|a|a]; [done| |lia]. cbn [binary_normalize].
  destruct (f32_value a ltac:(lia)) as (m1 & e1 & -> & _). by apply div_number.
Qed.

Lemma w64_range z : u64 (w64 z).
Proof. unfold u64, w64, wrap, ULLONG_MAX. pose proof (Z.mod_pos_bound z (2 ^ 64) ltac:(lia)). lia. Qed.

Lemma w64_small z : u64 z → w64 z = z.
Proof. unfold u64, w64, wrap, ULLONG_MAX. intros Hz. apply Z.mod_small. lia. Qed.

Lemma sampled_cpu_number prev curr : is_number (sampled_cpu prev curr).
Proof.
  unfold sampled_cpu. destruct (cpu_differences prev curr) as [t i] eqn:E. case_decide; [|done].
  unfold mul32. rewrite hundred32. apply mul_number, ratio_number; [apply w64_range|].
  unfold cpu_differences in E. injection E as <- _.
  pose proof (w64_range (getTotal curr - getTotal prev)). unfold u64 in *. lia.
Qed.

Lemma disk_number stat : is_number (getDiskUsageGBPercent stat).2.
Proof.
  destruct stat as [st|]; [|done]. unfold getDiskUsageGBPercent. cbn [snd]. apply to_f32_number.
  case_decide; [|done]. unfold mul64. rewrite hundred64.
  apply mul_number, to_f64_number, ratio_number; [apply w64_range|].
  pose proof (w64_range (f_blocks st * f_frsize st)). unfold u64 in *. lia.
Qed.

(** Kilobytes, of any sign, in GB: at most [2^96]. *)
Lemma gb_bounded kb :
  - 2 ^ 64 ≤ kb ≤ 2 ^ 64 →
  bounded_by 1 96 (to_f32 (div64 (f64_of_Z kb) (f64_of_Z (1024 * 1024)))).
Proof.
  intros Hkb. change (f64_of_Z (1024 * 1024)) with (S754_finite false 4503599627370496 (-32)).
  assert (bounded_by 1 64 (f64_of_Z kb)) as Hb.
  { unfold f64_of_Z. destruct kb as [|p|p]; [done| |];
      (apply round_bounded; unfold emin, f64_prec, f64_emax; rewrite ?Z.sub_0_r; lia). }
  destruct (f64_of_Z kb) as [s|s| |s m e]; try done. destruct Hb as [He Hm]. rewrite Z.mul_1_l in Hm.
  assert (bounded_by 1 96 (div64 (S754_finite s m e) (S754_finite false 4503599627370496 (-32)))) as Hd.
  { apply div_bounded; [done|done|lia|unfold emin, f64_prec, f64_emax; lia|].
    by replace (96 + -32 - e) with (64 - e) by lia. }
  destruct (div64 _ _) as [s'|s'| |s' m' e']; try done. destruct Hd as [He' Hm']. rewrite Z.mul_1_l in Hm'.
  apply round_bounded; [done|done|done|unfold emin, f32_prec, f32_emax; lia|done].
Qed.

Definition saturated (m : MemInfo) : Prop :=
  LLONG_MIN ≤ totalMemKB m ≤ LLONG_MAX ∧ LLONG_MIN ≤ freeMemKB m ≤ LLONG_MAX.

Lemma scan_field_range label line x :
  LLONG_MIN ≤ x ≤ LLONG_MAX → LLONG_MIN ≤ scan_field label line x ≤ LLONG_MAX.
Proof.
  intros Hx. unfold scan_field. destruct (scan_int _) as [[[neg m] r]|]; [|done].
  unfold LLONG_MIN, LLONG_MAX in *. lia.
Qed.

Lemma scan_meminfo_range lines m : saturated m → saturated (scan_meminfo lines m).
Proof.
  revert m. induction lines as [|line lines IH]; intros m [H1 H2]; [done|]. cbn [scan_meminfo].
  destruct (starts_with (lit "MemTotal:") line); [apply IH; split; [by apply scan_field_range|done]|].
  destruct (starts_with (lit "MemAvailable:") line); [apply IH; split; [done|by apply scan_field_range]|].
  destruct (starts_with (lit "Cached:") line); [done|]. by apply IH.
Qed.

Lemma ram_number file : is_number (getRamUsageGBPercent file).2.
Proof.
  unfold getRamUsageGBPercent. cbv zeta. cbn [snd].
  pose proof (scan_meminfo_range (getlines nl (default [] file)) (mkMem 0 0)) as [H1 H2]; [by split|].
  set (m := scan_meminfo _ _) in *. clearbody m. unfold LLONG_MIN, LLONG_MAX in *.
  pose proof (gb_bounded (totalMemKB m) ltac:(lia)) as Ht.
  pose proof (gb_bounded (totalMemKB m - freeMemKB m) ltac:(lia)) as Hu.
  set (t := to_f32 (div64 (f64_of_Z (totalMemKB m)) _)) in *. set (u := to_f32 (div64 (f64_of_Z (_ - _)) _)) in *.
  clearbody t u. destruct (SFltb (S754_zero false) t) eqn:E; [|done].
  unfold mul32. rewrite hundred32. apply mul_number. unfold div32.
  destruct t as [s|s| |s mt et]; try done. destruct u as [s'|s'| |s' mu eu]; try done.
  by apply div_number.
Qed.

(** ** The monitor *)

(** What [heartbeat_sender] copies into a heartbeat. *)
Definition to_usage (u : system_usage) : SystemUsage :=
  Heartbeat.mkUsage (SystemInfo.cpu_usage u) (SystemInfo.ram_usage u) (SystemInfo.disk_usage u)
    (SystemInfo.network_in u) (SystemInfo.network_out u)
    (network_in_bytes_per_sec u) (network_out_bytes_per_sec u).

Definition no_sample_yet (r : Readings) : spec_float * spec_float :=
  ((getDiskUsageGBPercent (statvfs_root r)).2, (getRamUsageGBPercent (proc_meminfo r)).2).

(** One turn of a coroutine of a cluster server: [metrics_sampler] takes a
    sample, or [heartbeat_sender] builds the heartbeat it sends. *)
Inductive turn := Sample (r : Readings) | Beat (sent : Z) (r : Readings).

Section turns.
Variables (unset too_large server_id port : Z) (server_ip : bytes).

Definition take_turn (t : turn) (m : CachedSystemMonitor) : CachedSystemMonitor * option HeartBeat :=
  match t with
  | Sample r => (sample unset too_large r m, None)
  | Beat sent r =>
      (m, Some (make_heartbeat server_id server_ip port sent
                  (if has_sample m then inl (to_usage (cached m)) else inr (no_sample_yet r))))
  end.

(** The heartbeats of any interleaving. *)
Fixpoint run_turns (ts : list turn) (m : CachedSystemMonitor) : list HeartBeat :=
  match ts with
  | [] => []
  | t :: ts => let '(m, hb) := take_turn t m in option_list hb ++ run_turns ts m
  end.
End turns.

Definition numbers (u : system_usage) : Prop :=
  is_number (SystemInfo.cpu_usage u) ∧ is_number (SystemInfo.ram_usage u) ∧
  is_number (SystemInfo.disk_usage u).

Lemma sample_numbers unset too_large r m :
  numbers (cached m) → numbers (cached (sample unset too_large r m)).
Proof.
  intros (Hc & _ & _). unfold sample.
  pose proof (ram_number (proc_meminfo r)) as Hr. pose proof (disk_number (statvfs_root r)) as Hd.
  destruct (getRamUsageGBPercent _) as [rg rp], (getDiskUsageGBPercent _) as [dg dp].
  destruct (has_sample m); [case_decide|]; cbn [cached]; split_and!; try done.
  apply sampled_cpu_number.
Qed.

Definition hb_numbers (hb : HeartBeat) : Prop :=
  is_number (hb_cpu_usage hb) ∧ is_number (hb_ram_usage hb) ∧ is_number (hb_disk_usage hb).

Lemma run_turns_numbers unset too_large sid port ip ts m :
  numbers (cached m) → Forall hb_numbers (run_turns unset too_large sid port ip ts m).
Proof.
  revert m. induction ts as [|t ts IH]; intros m Hm; [constructor|]. destruct t as [r|sent r]; cbn.
  - by apply IH, sample_numbers.
  - constructor; [|by apply IH]. destruct Hm as (Hc & Hr & Hd).
    destruct (has_sample m); split_and!; try done; [apply ram_number|apply disk_number].
Qed.

Lemma record_known now hm hb :
  hb_numbers hb → disks_known (hm_servers hm) →
  disks_known (hm_servers (record_heartbeat now hm (hb_server_id hb) (health_of_heartbeat hb)).1).
Proof.
  intros (_ & _ & Hd) Hk. unfold disks_known, record_heartbeat. cbn [fst with_servers hm_servers].
  by apply map_Forall_insert_2.
Qed.

(** What the head server's receiver does with datagrams, each with its arrival time. *)
Definition receive_all (arrivals : list (Z * HeartBeat)) (hm : HealthMonitor) : HealthMonitor :=
  fold_left (λ hm '(now, hb), (record_heartbeat now hm (hb_server_id hb) (health_of_heartbeat hb)).1)
    arrivals hm.

(** C30: heartbeats keep the choice of servers well defined.  However sampling
    and sending are interleaved and whatever /proc and [statvfs] answer, no
    percentage in a heartbeat is a NaN; so whichever of these heartbeats reach
    the head server, lost, repeated or out of order, every server has an
    ordered disk usage if every server had one before. *)
Theorem heartbeats_are_numbers (unset too_large server_id port : Z) (server_ip : bytes)
    (ts : list turn) (arrivals : list (Z * HeartBeat)) (hm : HealthMonitor) :
  let hbs := run_turns unset too_large server_id port server_ip ts new_monitor in
  Forall hb_numbers hbs ∧
  (arrivals.*2 ⊆ hbs → disks_known (hm_servers hm) →
   disks_known (hm_servers (receive_all arrivals hm))).
Proof.
  intros hbs. assert (Forall hb_numbers hbs) as Hh by by apply run_turns_numbers.
  split; [done|]. clearbody hbs. unfold receive_all. revert hm.
  induction arrivals as [|[now hb] arrivals IH]; intros hm Hin Hk; [done|]. cbn [fmap list_fmap snd] in Hin. cbn [fold_left].
  apply IH; [intros x Hx; apply Hin; by right|]. apply record_known; [|done]. rewrite Forall_forall in Hh.
  apply Hh, Hin. by left.
Qed.

(** ** Percentages of sane counters *)

(** The counters only grow, and their sum fits. *)
Definition fields (c : CpuStats) : list Z :=
  [user c; nice c; system c; idle c; iowait c; irq c; softirq c; steal c].
Definition grew (prev curr : CpuStats) : Prop :=
  Forall2 (λ p c, 0 ≤ p ≤ c) (fields prev) (fields curr) ∧
  foldr Z.add 0 (fields curr) ≤ ULLONG_MAX.

Lemma grew_differences prev curr t i :
  grew prev curr → cpu_differences prev curr = (t, i) → 0 ≤ i ≤ t ∧ t ≤ ULLONG_MAX.
Proof.
  destruct prev as [a1 a2 a3 a4 a5 a6 a7 a8], curr as [b1 b2 b3 b4 b5 b6 b7 b8].
  unfold grew, cpu_differences, getTotal, getTotalIdle, getTotalNonIdle, fields. cbn.
  rewrite !Forall2_cons. intros [(H1 & H2 & H3 & H4 & H5 & H6 & H7 & H8 & _) Hs].
  rewrite (w64_small (b4 + b5)), (w64_small (a4 + a5)), (w64_small (b1 + b2 + b3 + b6 + b7 + b8)),
    (w64_small (a1 + a2 + a3 + a6 + a7 + a8)) by (unfold u64; lia).
  rewrite (w64_small (b4 + b5 + _)), (w64_small (a4 + a5 + _)) by (unfold u64; lia).
  rewrite (w64_small (_ - (a4 + a5))), w64_small by (unfold u64; lia).
  intros [= <- <-]. lia.
Qed.

Lemma ratio_percent a b : 0 ≤ a ≤ b → 0 < b ≤ ULLONG_MAX → within 1 (div32 (f32_of_Z a) (f32_of_Z b)).
Proof. unfold ULLONG_MAX. intros Ha Hb. apply ratio_within; lia. Qed.

(** A ratio times 100 in [double], narrowed to [float]. *)
Lemma percent64 f : within 1 f → within 100 (to_f32 (mul64 (to_f64 f) (f64_of_Z 100))).
Proof.
  intros Hf. apply round_within_any; try done. unfold mul64. rewrite hundred64.
  apply (mul_within f64_prec f64_emax eq_refl eq_refl 1 100); try done. by apply round_within_any.
Qed.

(** C31: with sane counters the percentages are percentages.  If the CPU counters
    grew and the free blocks are no more than the blocks, every CPU percentage
    (of either routine) and the disk percentage is between 0 and 100, roundings
    included. *)
Theorem percentages_in_range (prev curr : CpuStats) (st : Statvfs) :
  grew prev curr →
  0 ≤ f_bfree st ≤ f_blocks st → 0 ≤ f_frsize st → f_blocks st * f_frsize st ≤ ULLONG_MAX →
  within 100 (sampled_cpu prev curr) ∧ within 100 (getCpuUsagePercent prev curr) ∧
  within 100 (getDiskUsageGBPercent (Some st)).2.
Proof.
  intros Hg Hfree Hsz Hfit. split_and!.
  - unfold sampled_cpu. destruct (cpu_differences prev curr) as [t i] eqn:E.
    destruct (grew_differences _ _ _ _ Hg E) as [Hi Ht]. case_decide; [|by split].
    unfold mul32, busy_ratio. rewrite hundred32, w64_small by (unfold u64; lia).
    apply (mul_within f32_prec f32_emax eq_refl eq_refl 1 100); try done. apply ratio_percent; lia.
  - unfold getCpuUsagePercent. destruct (cpu_differences prev curr) as [t i] eqn:E.
    destruct (grew_differences _ _ _ _ Hg E) as [Hi Ht]. case_decide; [by split|].
    unfold busy_ratio. rewrite w64_small by (unfold u64; lia). apply percent64, ratio_percent; lia.
  - unfold getDiskUsageGBPercent. cbn [snd].
    assert (0 ≤ f_bfree st * f_frsize st ≤ f_blocks st * f_frsize st) as Hf by nia.
    rewrite !w64_small by (unfold u64; rewrite ?w64_small by (unfold u64; lia); lia).
    case_decide; [|by split]. apply percent64, ratio_percent; lia.
Qed.

(** The kernel's [iowait] may go down; then the CPU percentage is not one. *)
Lemma cpu_above_hundred :
  show_g (sampled_cpu (mkCpu 100 0 0 0 10 0 0 0) (mkCpu 110 0 0 0 5 0 0 0)) = lit "200".
Proof. by vm_compute. Qed.

(** ** A small machine *)
Definition cpu_before : CpuStats := mkCpu 100 0 50 800 40 0 10 0.
Definition cpu_after : CpuStats := mkCpu 160 0 60 815 45 0 20 0.
Definition root_disk : Statvfs := mkStatvfs 1000 4096 250.
Definition one_reading : Readings :=
  mkReadings 5000000000 (Some (lit "cpu  100 0 50 800 40 0 10 0" ++ [nl])) None
    (Some (lit "MemTotal:  2000 kB" ++ nl :: lit "MemAvailable:  500 kB" ++ [nl])) (Some root_disk).

Example one_sample :
  let u := cached (sample 0 0 one_reading new_monitor) in
  (show_g (SystemInfo.ram_usage u), show_g (SystemInfo.disk_usage u), SystemInfo.network_in u) =
  (lit "75", lit "75", lit "0.00 bps").
Proof. by vm_compute. Qed.

Definition some_turns : list turn := [Beat 4 one_reading; Sample one_reading; Beat 14 one_reading].

Example some_heartbeats :
  map (λ hb, (show_g (hb_disk_usage hb), hb_network_in hb))
    (run_turns 0 0 1 8080 (lit "h") some_turns new_monitor) =
  [(lit "75", []); (lit "75", lit "0.00 bps")].
Proof. by vm_compute. Qed.

Lemma heartbeats_are_numbers_witness :
  disks_known (hm_servers (receive_all
    (map (λ hb, (7, hb)) (run_turns 0 0 1 8080 (lit "h") some_turns new_monitor))
    (mkMonitor ∅ 60 3 true true))).
Proof.
  apply (heartbeats_are_numbers 0 0 1 8080 (lit "h") some_turns); [|apply map_Forall_empty].
  rewrite <-list_fmap_compose, list_fmap_id. done.
Defined.

Lemma percentages_in_range_witness :
  within 100 (sampled_cpu cpu_before cpu_after) ∧ within 100 (getCpuUsagePercent cpu_before cpu_after) ∧
  within 100 (getDiskUsageGBPercent (Some root_disk)).2.
Proof.
  apply (percentages_in_range cpu_before cpu_after root_disk); [|by_decision..].
  split; [|by_decision]. unfold fields; cbn. repeat constructor; by_decision.
Defined.
