(* ===== verification/HeadMain.v ===== *)
(** * HeadMain: how the head server starts
    ([run_head_server] in src/src/head_server/head_server.cpp)

    The command line and the configuration give the settings; the configured
    cluster servers enter the registry and the health monitor; the head server
    registers itself in ZooKeeper.  Sockets, threads and the Prometheus exporter
    are left out: what the threads do is in [HeadThreads], [Failover],
    [Client] and [ControlApi]. *)
From Stdlib Require Import Lia.
From S2P Require Import Prelude.
From S2P Require Import Text.
From S2P Require Import Ordered.
From S2P Require Import Config.
From S2P Require Import Registry.
From S2P Require Import Health.
From S2P Require Import Zk.
From S2P Require Import Failover.
Local Open Scope Z_scope.

(** ** The command line *)

(** The pairs [(argv[i], argv[i + 1])] for [1 <= i < argc - 1]; the loops step
    by one, so a value is looked at again as a flag. *)
Definition argument_pairs (argv : list bytes) : list (bytes * bytes) :=
  zip (drop 1 argv) (drop 2 argv).

Definition is_config_flag (a : bytes) : Prop := a = lit "-c" ∨ a = lit "--config".
Definition is_port_flag (a : bytes) : Prop := a = lit "-p" ∨ a = lit "--port".
#[export] Instance is_config_flag_dec a : Decision (is_config_flag a).
Proof. unfold is_config_flag. apply _. Defined.
#[export] Instance is_port_flag_dec a : Decision (is_port_flag a).
Proof. unfold is_port_flag. apply _. Defined.

Fixpoint load_given (fuel : nat) (files : Files) (cfg : ConfigLoader) (pairs : list (bytes * bytes))
  : option ConfigLoader :=
  match pairs with
  | [] => Some cfg
  | (a, v) :: rest =>
      if decide (is_config_flag a)
      then '(cfg, _) ← load fuel files cfg v; load_given fuel files cfg rest
      else load_given fuel files cfg rest
  end.

(** [std::stoi] throws out of [run_head_server]. *)
Fixpoint port_arguments (port control_port : Z) (pairs : list (bytes * bytes)) : exc (Z * Z) :=
  match pairs with
  | [] => Val (port, control_port)
  | (a, v) :: rest =>
      port ← (if decide (is_port_flag a) then stoi v else Val port);
      control_port ← (if decide (a = lit "--control-port") then stoi v else Val control_port);
      port_arguments port control_port rest
  end.

Definition zk_argument (zk_hosts : bytes) (pairs : list (bytes * bytes)) : bytes :=
  fold_left (λ z (p : bytes * bytes), if decide (p.1 = lit "--zk-hosts") then p.2 else z) pairs zk_hosts.

(** ** The configured servers *)
Definition server_address (e : ClusterServerEntry) : bytes := ce_host e ++ colon :: show_Z (ce_port e).

(** One iteration of the loop: the registry chooses its own id, the monitor is
    given the configured one.  [times]: when each of the two calls is made. *)
Definition register_configured (st : Registry * HealthMonitor) (e : (Z * Z) * ClusterServerEntry)
  : Registry * HealthMonitor :=
  let '((now, now'), e) := e in
  ((add_server now st.1 (ce_host e) (ce_port e) (-1) (-1)).1.1,
   Health.register_server now' st.2 (ce_id e) (server_address e)).

Definition load_servers (times : nat → Z * Z) (st : Registry * HealthMonitor)
    (servers : list ClusterServerEntry) : Registry * HealthMonitor :=
  fold_left register_configured (imap (λ i e, (times i, e)) servers) st.

(** ** Starting *)
Record HeadServer := mkHeadServer {
  hd_port : Z;
  hd_replication_factor : Z;
  hd_chunk_size : Z;
  hd_control_port : Z;
  hd_zk_hosts : bytes;
  hd_registry : Registry;
  hd_monitor : HealthMonitor;
  hd_zk : ZkStore
}.

Inductive head_outcome :=
  | Diverged                               (* the configuration parser does not return *)
  | DumpedConfig (values : list (bytes * bytes))
  | Threw                                  (* a port that is no number *)
  | Running (h : HeadServer).

Section start.
Variables (fuel : nat) (getenv : bytes → option bytes) (files : Files) (times : nat → Z * Z).

(** [cfg] is what [head_server_config()] answers, [zk] ZooKeeper's store. *)
Definition run_head_server (cfg : ConfigLoader) (zk : ZkStore) (argv : list bytes) : head_outcome :=
  let pairs := argument_pairs argv in
  match load_given fuel files cfg pairs with
  | None => Diverged
  | Some cfg =>
      if decide (lit "--dump-config" ∈ drop 1 argv) then DumpedConfig (smap_list (values cfg))
      else
        match port_arguments (get_int getenv cfg (lit "server.port") 9669)
                (get_int getenv cfg (lit "control_api.port") 9670) pairs with
        | Throw _ => Threw
        | Val (port, control_port) =>
            let monitor := mkMonitor ∅ (get_int getenv cfg (lit "health_checker.heartbeat_timeout") 60)
              (get_int getenv cfg (lit "health_checker.max_missed_heartbeats") 10) false false in
            let '(reg, monitor) :=
              load_servers times (empty_registry, monitor) (get_cluster_servers getenv cfg) in
            let zk_hosts := zk_argument
              (get_string getenv cfg (lit "zookeeper.hosts") (lit "127.0.0.1:2181")) pairs in
            let zk := register_head (mkClient zk_hosts false false) zk control_port in
            Running (mkHeadServer port (get_int getenv cfg (lit "storage.replication_factor") 3)
              (get_long getenv cfg (lit "storage.chunk_size") (64 * 1024 * 1024))
              control_port zk_hosts reg
              (mkMonitor (hm_servers monitor) (heartbeat_timeout monitor) (max_missed monitor) true false)
              zk)
        end
  end.
End start.

(** ** The registry and the monitor after the start *)
Definition endpoint_of (e : ClusterServerEntry) : bytes * Z := (ce_host e, ce_port e).

(** The registry numbers the servers from one, in the configured order. *)
Record numbered (reg : Registry) (servers : list ClusterServerEntry) : Prop := {
  nu_next : reg_next reg = Z.of_nat (length servers) + 1;
  nu_at id : (λ e, (host e, Registry.port e)) <$> reg_servers reg !! id =
             (if decide (1 ≤ id) then endpoint_of <$> servers !! Z.to_nat (id - 1) else None)
}.

Lemma numbered_add reg servers now e :
  Z.of_nat (length servers) + 1 < INT_MAX → endpoint_of e ∉ map endpoint_of servers →
  numbered reg servers → numbered (add_server now reg (ce_host e) (ce_port e) (-1) (-1)).1.1 (servers ++ [e]).
Proof.
  intros Hlen Hnew [Hnext Hat]. unfold add_server.
  assert (find_endpoint reg (ce_host e) (ce_port e) = None) as ->.
  { apply find_endpoint_None. intros id x Hx [Hh Hp]. apply Hnew.
    pose proof (Hat id) as E. rewrite Hx in E. simpl in E. case_decide; [|done].
    symmetry in E. apply fmap_Some in E as (d & Hd & E). apply list_elem_of_fmap.
    exists d. split; [|by apply list_elem_of_lookup_2 in Hd].
    unfold endpoint_of in E |- *. by rewrite <- Hh, <- Hp. }
  cbn [fst]. constructor; cbn [reg_next reg_servers].
  - rewrite Hnext, sint32_small, length_app by (unfold INT_MIN; lia). simpl. lia.
  - intros id. rewrite lookup_insert. destruct (decide (reg_next reg = id)) as [E|Hne].
    + rewrite decide_True by lia. rewrite lookup_app_r by lia.
      replace (Z.to_nat (id - 1) - length servers)%nat with 0%nat by lia. done.
    + rewrite Hat. destruct (decide (1 ≤ id)); [|done].
      destruct (decide (Z.to_nat (id - 1) < length servers)%nat) as [Hl|Hl].
      * by rewrite lookup_app_l.
      * rewrite lookup_ge_None_2 by lia. rewrite lookup_ge_None_2; [done|].
        rewrite length_app. simpl. lia.
Qed.

(** The monitor has the configured ids; of two servers with one id, the first. *)
Definition with_id (id : Z) (servers : list ClusterServerEntry) : option ClusterServerEntry :=
  head (filter (λ e, ce_id e = id) servers).
Definition watching (hm : HealthMonitor) (servers : list ClusterServerEntry) : Prop :=
  ∀ id, ip <$> hm_servers hm !! id = server_address <$> with_id id servers.

Lemma with_id_snoc id servers e :
  with_id id (servers ++ [e]) =
  match with_id id servers with
  | Some d => Some d
  | None => if decide (ce_id e = id) then Some e else None
  end.
Proof.
  unfold with_id. rewrite filter_app, filter_cons. destruct (filter _ servers); [|done].
  by destruct (decide (ce_id e = id)).
Qed.

Lemma watching_add hm servers now e :
  watching hm servers →
  watching (Health.register_server now hm (ce_id e) (server_address e)) (servers ++ [e]).
Proof.
  intros Hw id. rewrite with_id_snoc. pose proof (Hw (ce_id e)) as He.
  unfold Health.register_server. destruct (hm_servers hm !! ce_id e) as [h|] eqn:Eh.
  - rewrite Hw. destruct (with_id id servers) as [d|] eqn:E; [done|].
    destruct (decide (ce_id e = id)) as [<-|]; [|done]. by rewrite E in He.
  - cbn [with_servers hm_servers]. rewrite lookup_insert. destruct (decide (ce_id e = id)) as [<-|Hne].
    + destruct (with_id (ce_id e) servers); [done|]. done.
    + rewrite Hw. by destruct (with_id id servers).
Qed.

Lemma load_servers_spec times rest :
  ∀ done st, numbered st.1 done → watching st.2 done →
  NoDup (map endpoint_of (done ++ rest)) → Z.of_nat (length (done ++ rest)) < INT_MAX →
  let st' := load_servers times st rest in
  numbered st'.1 (done ++ rest) ∧ watching st'.2 (done ++ rest) ∧
  heartbeat_timeout st'.2 = heartbeat_timeout st.2 ∧ max_missed st'.2 = max_missed st.2.
Proof.
  revert times. induction rest as [|e rest IH]; intros times before [reg hm] Hn Hw Hnd Hlen; simpl in *.
  { by rewrite app_nil_r. }
  assert (endpoint_of e ∉ map endpoint_of before) as He.
  { rewrite map_app in Hnd. apply NoDup_app in Hnd as (_ & Hnd & _). intros Hin.
    apply (Hnd _ Hin). by left. }
  rewrite length_app in Hlen. simpl in Hlen.
  pose proof (numbered_add reg before (times 0%nat).1 e ltac:(lia) He Hn) as Hn'.
  pose proof (watching_add hm before (times 0%nat).2 e Hw) as Hw'.
  rewrite (cons_middle e before rest), (assoc_L (++)) in Hnd |- *.
  destruct (IH (λ i, times (S i)) (before ++ [e])
              (register_configured (reg, hm) (times 0%nat, e))) as (H1 & H2 & H3 & H4).
  - unfold register_configured. destruct (times 0%nat) as [t t']. exact Hn'.
  - unfold register_configured. destruct (times 0%nat) as [t t']. exact Hw'.
  - done.
  - rewrite !length_app. simpl. lia.
  - change (load_servers times (reg, hm) (e :: rest)) with
      (load_servers (λ i, times (S i)) (register_configured (reg, hm) (times 0%nat, e)) rest).
    split; [exact H1|]. split; [exact H2|]. rewrite H3, H4. unfold register_configured. destruct (times 0%nat) as [t t'].
    unfold Health.register_server. cbn [snd]. by destruct (hm_servers hm !! ce_id e).
Qed.

Lemma length_probe getenv cfg n i : (length (probe_cluster_servers getenv cfg n i) ≤ n)%nat.
Proof.
  revert i. induction n as [|n IH]; intros i; simpl; [lia|].
  destruct (get_string _ _ _ _); simpl; [lia|]. specialize (IH (i + 1)). lia.
Qed.

Section started.
Variables (fuel : nat) (getenv : bytes → option bytes) (files : Files) (times : nat → Z * Z).

(** C13: the configured servers are known from the start, under the configured
    ids only where these are 1, 2, and so on.  With distinct endpoints the
    registry has each configured server, numbered by its position, and nothing
    else, and the monitor watches each configured id at its configured address;
    so the registry's entry for the id the monitor reports is that server
    exactly when the configured id is its position. *)
Theorem head_start_registers (cfg cfg' : ConfigLoader) (zk : ZkStore) (argv : list bytes) (h : HeadServer) :
  load_given fuel files cfg (argument_pairs argv) = Some cfg' →
  run_head_server fuel getenv files times cfg zk argv = Running h →
  let servers := get_cluster_servers getenv cfg' in
  NoDup (map endpoint_of servers) →
  (∀ id, (λ e, (host e, Registry.port e)) <$> reg_servers (hd_registry h) !! id =
         (if decide (1 ≤ id) then endpoint_of <$> servers !! Z.to_nat (id - 1) else None)) ∧
  (∀ id, ip <$> hm_servers (hd_monitor h) !! id = server_address <$> with_id id servers) ∧
  ∀ i e, servers !! i = Some e →
    ((λ e, (host e, Registry.port e)) <$> reg_servers (hd_registry h) !! ce_id e = Some (endpoint_of e)
     ↔ ce_id e = Z.of_nat i + 1).
Proof.
  intros Hc Hrun servers Hnd. unfold run_head_server in Hrun. rewrite Hc in Hrun.
  case_decide; [done|]. destruct (port_arguments _ _ _) as [[p cp]|]; [|done].
  set (hm0 := mkMonitor ∅ _ _ _ _) in Hrun.
  pose proof (length_probe getenv cfg' 100 0) as Hlen. fold (get_cluster_servers getenv cfg') in Hlen.
  fold servers in Hrun, Hlen.
  destruct (load_servers_spec times servers [] (empty_registry, hm0)) as (Hn & Hw & _ & _).
  - constructor; [done|]. intros id. cbn [fst empty_registry reg_servers].
    rewrite lookup_empty. by case_decide.
  - intros id. cbn [snd hm0 hm_servers]. by rewrite lookup_empty.
  - done.
  - cbn [app]. change INT_MAX with 2147483647. lia.
  - destruct (load_servers times (empty_registry, hm0) servers) as [reg hm]. injection Hrun as <-.
    cbn [hd_registry hd_monitor hm_servers fst snd app] in *. split; [apply Hn|]. split; [exact Hw|].
    intros i e Hi. rewrite (nu_at _ _ Hn). split.
    + destruct (decide (1 ≤ ce_id e)) as [H1|]; [|done]. intros E.
      apply fmap_Some in E as (d & Hd & E).
      assert (Z.to_nat (ce_id e - 1) = i); [|lia].
      eapply (NoDup_lookup _ _ _ (endpoint_of e) Hnd).
      * change (map endpoint_of servers) with (endpoint_of <$> servers).
        rewrite list_lookup_fmap, Hd. simpl. by rewrite E.
      * change (map endpoint_of servers) with (endpoint_of <$> servers).
        by rewrite list_lookup_fmap, Hi.
    + intros E. rewrite decide_True by lia. replace (Z.to_nat (ce_id e - 1)) with i by lia.
      by rewrite Hi.
Qed.
End started.

(** Two configured servers, the second with an id of its own. *)
Definition two_servers : ConfigLoader :=
  mkConfig (list_to_map (map (λ kv : string * string, (lit kv.1, lit kv.2))
    [("cluster_servers.0.host", "h1"); ("cluster_servers.1.host", "h2");
     ("cluster_servers.1.id", "7")]%string)) (lit "c.json") true.
#[local] Abbreviation started_two :=
  (run_head_server 0 (λ _, None) (λ _, None) (λ _, (1, 1)) two_servers (mkZk ∅ ∅) [lit "dfg"]).
Definition two_head : HeadServer :=
  match started_two with Running h => h | _ => mkHeadServer 0 0 0 0 [] empty_registry (mkMonitor ∅ 0 0 false false) (mkZk ∅ ∅) end.

Lemma started_two_running : started_two = Running two_head.
Proof.
  unfold two_head. destruct started_two eqn:E; [| | |done]; exfalso; revert E; by vm_compute.
Qed.

Lemma head_start_registers_witness :
  (λ e, (host e, Registry.port e)) <$> reg_servers (hd_registry two_head) !! 1 = Some (lit "h1", 8080) ∧
  (λ e, (host e, Registry.port e)) <$> reg_servers (hd_registry two_head) !! 7 ≠ Some (lit "h2", 8081).
Proof.
  destruct (head_start_registers 0 (λ _, None) (λ _, None) (λ _, (1, 1)) two_servers two_servers
              (mkZk ∅ ∅) [lit "dfg"] two_head eq_refl started_two_running) as (H1 & _ & H3).
  - by_decision.
  - split; [by rewrite H1|].
    rewrite (H3 1%nat (mkClusterServer 7 (lit "h2") 8081)); [done|by vm_compute].
Defined.
