(* ===== verification/CliMain.v ===== *)
(** * CliMain: the two command lines

    [main] of the server binary (src/src/cli/dfg_cli.cpp) and [main] of the
    client (src/src/client/client.cpp).  The client parses its arguments with
    the argparse library: [ArgParser] is what a parser answers after parsing,
    and an argument of the model. *)
From Stdlib Require Import Lia.
From S2P Require Import Prelude.
From S2P Require Import Text.
From S2P Require Import Client.
From S2P Require Import Registry.
From S2P Require Import Health.
From S2P Require Import Http.
From S2P Require Import JsonText.
From S2P Require Import ControlApi.
From S2P Require Import ControlClient.
Local Open Scope Z_scope.

(** ** The server binary *)
Inductive dfg_action :=
  | PrintUsage (code : Z)
  | PrintVersion
  | RunHeadServer (argv : list bytes)
  | RunClusterServer (argv : list bytes)
  | RunHealthChecker (argv : list bytes)
  | RunZkMonitor (argv : list bytes)
  | AddServer (host : bytes) (port : Z)
  | RemoveServer (id : Z)
  | ListServers
  | Misused                     (* a usage line and exit code 1 *)
  | Uncaught.                   (* [std::stoi] throws outside the [try] *)

(** The loop from [argv[2]] on: a flag takes the next argument; anything else,
    a last flag included, is skipped. *)
Fixpoint dfg_options (args : list bytes) (host : bytes) (id port : Z) : exc (bytes * Z * Z) :=
  match args with
  | a :: ((v :: rest) as tail) =>
      if decide (a = lit "--host") then dfg_options rest v id port
      else if decide (a = lit "--id") then id ← stoi v; dfg_options rest host id port
      else if decide (a = lit "--port") then port ← stoi v; dfg_options rest host id port
      else dfg_options tail host id port
  | _ => Val (host, id, port)
  end.

Definition dfg_main (argv : list bytes) : dfg_action :=
  match argv with
  | _ :: ((command :: args) as argv') =>
      let named names := bool_decide (command ∈ map lit names) in
      if named ["-h"; "--help"]%string then PrintUsage 0
      else if named ["-v"; "--version"]%string then PrintVersion
      else
        match dfg_options args [] (-1) 8080 with
        | Throw _ => Uncaught
        | Val (host, id, port) =>
            if named ["head-server"; "head"]%string then RunHeadServer argv'
            else if named ["cluster-server"; "cluster"]%string then RunClusterServer argv'
            else if named ["health-checker"; "health"]%string then RunHealthChecker argv'
            else if named ["zk-monitor"; "zk"]%string then RunZkMonitor argv'
            else if named ["add-server"]%string then
              (match host with [] => Misused | _ => AddServer host port end)
            else if named ["remove-server"]%string then
              (if decide (id < 0) then Misused else RemoveServer id)
            else if named ["list-servers"]%string then ListServers
            else PrintUsage 1
        end
  | _ => PrintUsage 1
  end.

(** ** The client *)

(** What follows the last slash or backslash. *)
Definition is_separator (c : ascii) : bool := bool_decide (c = "/"%char ∨ c = "\"%char).
Fixpoint extract_filename (path : bytes) : bytes :=
  match path with
  | [] => []
  | c :: rest =>
      if existsb is_separator rest then extract_filename rest
      else if is_separator c then rest else path
  end.

Definition validate_port (port : Z) : bool := bool_decide (0 < port ≤ 65535).

Section environment.
Variable getenv : bytes → option bytes.
Definition get_default_server_ip : bytes :=
  match getenv (lit "DFG_HEAD_HOST") with
  | Some v => v
  | None => default (lit "127.0.0.1") (getenv (lit "DFG_SERVER_HOST"))
  end.
Definition get_default_server_port : Z :=
  match (match getenv (lit "DFG_HEAD_PORT") with
         | Some v => Some v
         | None => getenv (lit "DFG_SERVER_PORT")
         end) with
  | Some env =>
      match stoi env with
      | Val p => if validate_port p then p else 9669
      | Throw _ => 9669
      end
  | None => 9669
  end.
End environment.

(** A parser after [parse_args]. *)
Record ArgParser := mkParser {
  is_used : bytes → bool;
  get_str : bytes → bytes;
  get_num : bytes → Z;
  get_flag : bytes → bool;
  present : bytes → option bytes
}.

Inductive subcommand := CmdUpload | CmdDownload | CmdList | CmdDelete | CmdTest | CmdHelp | CmdVersion.

Definition resolve_server_target (sub_cmd parent : ArgParser) : bytes * Z :=
  let pick {A} (get : ArgParser → bytes → A) (name : bytes) : A :=
    if is_used sub_cmd name then get sub_cmd name
    else if is_used parent name then get parent name
    else get sub_cmd name in
  (pick get_str (lit "--server_ip"), pick get_num (lit "--server_port")).

Inductive client_run :=
  | FileUpload (path name : bytes)
  | FileDownload (name output : bytes)
  | FileList
  | FileDelete (name : bytes)
  | ClientTest.

Inductive client_action :=
  | ExitWith (code : Z)
  | RunAgainst (ip : bytes) (port : Z) (run : client_run).

Section client_main.
(** [argc]; the outcome of [parse_args]; the parser, its subparsers and which
    of them was used. *)
Variables (argc : Z) (parsed : bool) (program : ArgParser)
  (subparser : subcommand → ArgParser) (is_subcommand_used : subcommand → bool).

Definition against (target : bytes * Z) (run : client_run) : client_action :=
  if validate_port target.2 then RunAgainst target.1 target.2 run else ExitWith 1.
Definition against_sub (c : subcommand) : client_run → client_action :=
  against (resolve_server_target (subparser c) program).

Definition download_output (sub : ArgParser) : bytes :=
  let output_path := get_str sub (lit "output_path") in
  let output_path :=
    match output_path with
    | [] => if is_used sub (lit "-o") then get_str sub (lit "-o") else []
    | p => p
    end in
  match output_path with [] => get_str sub (lit "filename") | p => p end.

Definition client_main : client_action :=
  if decide (argc < 2) then ExitWith 1
  else if negb parsed then ExitWith 1
  else if is_subcommand_used CmdHelp then ExitWith 0
  else if is_subcommand_used CmdVersion then ExitWith 0
  else if is_subcommand_used CmdDelete then
    against_sub CmdDelete (FileDelete (get_str (subparser CmdDelete) (lit "filename")))
  else if is_subcommand_used CmdUpload then
    let filepath := get_str (subparser CmdUpload) (lit "filepath") in
    against_sub CmdUpload (FileUpload filepath
      (match get_str (subparser CmdUpload) (lit "filename") with
       | [] => extract_filename filepath
       | name => name
       end))
  else if is_subcommand_used CmdDownload then
    against_sub CmdDownload (FileDownload (get_str (subparser CmdDownload) (lit "filename"))
      (download_output (subparser CmdDownload)))
  else if is_subcommand_used CmdList then against_sub CmdList FileList
  else if is_subcommand_used CmdTest then against_sub CmdTest ClientTest
  else
    let target := (get_str program (lit "--server_ip"), get_num program (lit "--server_port")) in
    if negb (validate_port target.2) then ExitWith 1
    else if get_flag program (lit "--list") then against target FileList
    else if get_flag program (lit "--test") then against target ClientTest
    else
      match present program (lit "--upload") with
      | Some file_path => against target (FileUpload file_path (extract_filename file_path))
      | None =>
          let download_file :=
            match present program (lit "--download") with
            | Some f => f
            | None => default [] (present program (lit "--downlaod"))
            end in
          match download_file with
          | [] => ExitWith 1
          | _ => against target (FileDownload download_file
                   (if is_used program (lit "-o") then get_str program (lit "-o") else download_file))
          end
      end.
End client_main.

(** [run_client_test]: the file it writes, and its exit code from the replies to
    the upload and the outcome of the download; [None]: the download threads
    end the process. *)
Definition test_line (i : nat) : bytes :=
  lit "Line " ++ show_nat i ++ lit ": Lorem ipsum dolor sit amet." ++ [nl].
Definition test_content : bytes :=
  lit "This is a test file for the distributed storage system." ++ [nl] ++
  concat (map test_line (seq 0 1000)).

Definition run_client_test (upload_reply : bytes) (download : download_result) : option Z :=
  if decide (upload_exit upload_reply ≠ 0) then Some (-1)
  else
    match download with
    | DownloadCrashed => None
    | DownloadFailed => Some (-1)
    | Saved content => Some (if decide (content = test_content) then 0 else -1)
    end.

(** ** What they do *)
Lemma extract_filename_spec path :
  ∃ dir, path = dir ++ extract_filename path ∧
    existsb is_separator (extract_filename path) = false ∧
    (dir = [] ∨ ∃ c, last dir = Some c ∧ is_separator c = true).
Proof.
  induction path as [|c rest IH]; [by exists []; split_and!; [| |left]|].
  cbn [extract_filename]. destruct (existsb is_separator rest) eqn:E.
  - destruct IH as (dir & Ed & Hn & Hd). exists (c :: dir). split; [simpl; by f_equal|].
    split; [done|]. right. destruct Hd as [->|(x & Hx & Hs)].
    + simpl in Ed. rewrite <- Ed in Hn. congruence.
    + exists x. split; [|done]. destruct dir; [done|]. exact Hx.
  - destruct (is_separator c) eqn:Ec.
    + exists [c]. split_and!; [done|done|]. right. by exists c.
    + exists []. split_and!; [done| |by left]. simpl. by rewrite Ec.
Qed.

(** A client command runs only against a valid port. *)
Lemma client_main_port argc parsed program subparser used ip port run :
  client_main argc parsed program subparser used = RunAgainst ip port run → 0 < port ≤ 65535.
Proof.
  assert (∀ target r, against target r = RunAgainst ip port run → 0 < port ≤ 65535) as H.
  { intros [i p] r. unfold against, validate_port. cbn [fst snd].
    case_bool_decide; [|done]. by intros [= _ <- _]. }
  unfold client_main, against_sub.
  repeat first [done | apply H | case_decide | match goal with
    | |- context [if ?b then _ else _] => destruct b
    | |- context [match ?x with _ => _ end = RunAgainst _ _ _] => destruct x
    end].
Qed.

Lemma client_test_ok upload_reply download :
  run_client_test upload_reply download = Some 0 ↔
  upload_exit upload_reply = 0 ∧ download = Saved test_content.
Proof.
  unfold run_client_test. split.
  - case_decide as Hu; [done|]. destruct download as [| |content]; [done|done|].
    case_decide as Hc; [|done]. intros _. split; [lia|]. by rewrite Hc.
  - intros [-> ->]. case_decide; [done|]. by rewrite decide_True.
Qed.

(** A port that is no number ends the server binary with an uncaught
    exception, whatever the command. *)
Lemma dfg_bad_port_uncaught (prog command v : bytes) e :
  command ∉ map lit ["-h"; "--help"; "-v"; "--version"]%string → stoi v = Throw e →
  dfg_main [prog; command; lit "--port"; v] = Uncaught.
Proof.
  intros Hc Hv. unfold dfg_main. cbn [map] in Hc.
  rewrite !elem_of_cons in Hc.
  case_bool_decide as H1; [exfalso; cbn [map] in H1; rewrite !elem_of_cons, elem_of_nil in H1; tauto|].
  case_bool_decide as H2; [exfalso; cbn [map] in H2; rewrite !elem_of_cons, elem_of_nil in H2; tauto|].
  assert (dfg_options [lit "--port"; v] [] (-1) 8080 = Throw e) as ->; [|done].
  cbn [dfg_options]. rewrite !decide_False by done. rewrite decide_True by done. by rewrite Hv.
Qed.

Section dfg.
Variable reachable : bytes → Z → bool.

(** C15: from the shell to the registry: [dfg add-server --host h --port p], with
    the flags in either order, makes the head server list that endpoint (under
    the id it had, or as a new entry with the next id and nothing else changed)
    and watch that id at [h:p], healthy and heard of now; when the monitor
    watched the id before, it keeps the record and the address it had. *)
Theorem dfg_add_server_registers (prog : bytes) (now : Z) (s : Head) (head_host h : bytes) (p : Z) argv :
  word head_host → plain_host h → port_ok p →
  argv = [prog; lit "add-server"; lit "--host"; h; lit "--port"; show_Z p] ∨
  argv = [prog; lit "add-server"; lit "--port"; show_Z p; lit "--host"; h] →
  dfg_main argv = AddServer h p ∧
  let s' := (handle_request reachable now s (cmd_add_server head_host h p)).1 in
  ∃ id e, reg_servers (registry s') !! id = Some e ∧ host e = h ∧ Registry.port e = p ∧
    lists now (registry s) h p 0 0 id e (registry s') ∧
    hm_servers (monitor s') =
      <[id := default (fresh_health now id (h ++ colon :: show_Z p)) (hm_servers (monitor s) !! id)]>
        (hm_servers (monitor s)).
Proof.
  intros Hhh Hh Hp Hargv. split.
  - assert (INT_MIN ≤ p ≤ INT_MAX) as Hr by (unfold port_ok, INT_MIN, INT_MAX in *; lia).
    assert (h ≠ []) as Hne by (by destruct Hh as [[[? _] _] _]).
    destruct Hargv as [->| ->]; unfold dfg_main; cbn [dfg_options];
      rewrite stoi_show by done; by destruct h.
  - pose proof (cli_add_server_registers reachable now s head_host h p Hhh Hh Hp) as E. cbv zeta.
    destruct (handle_request _ _ _ _) as [s' o]. destruct E as (id & e & H1 & H2 & H3 & H4 & H5 & _).
    by exists id, e.
Qed.
End dfg.

Lemma dfg_add_server_registers_witness :
  dfg_main [lit "dfg"; lit "add-server"; lit "--port"; show_Z 8080; lit "--host"; local] =
    AddServer local 8080 ∧
  let s' := (handle_request up 5 demo_head (cmd_add_server local local 8080)).1 in
  ∃ id e, reg_servers (registry s') !! id = Some e ∧ host e = local ∧
    hm_servers (monitor s') !! id = Some (fresh_health 5 id (local ++ colon :: show_Z 8080)).
Proof.
  destruct (dfg_add_server_registers up (lit "dfg") 5 demo_head local local 8080
              [lit "dfg"; lit "add-server"; lit "--port"; show_Z 8080; lit "--host"; local])
    as [H1 (id & e & H2 & H3 & _ & _ & H5)]; [by lit_word|by_decision|by_decision|by right|].
  split; [exact H1|]. exists id, e. split; [exact H2|]. split; [exact H3|].
  rewrite H5. apply lookup_insert_eq.
Defined.
