(* ===== verification/RedisStore.v ===== *)
(** * RedisStore: the head server's metadata in Redis
    (src/src/head_server/redis_handler.hpp, the build with Redis)

    The Redis server and its client library are not part of the repository:
    [Redis] is what the code relies on (commands act on hashes, one key per
    file), [RedisSim] one implementation, for the witnesses.  A call that
    answers [None] throws.  Nothing is cached: the state of every operation is
    the server's. *)
From Stdlib Require Import Lia.
From S2P Require Import Prelude.
From S2P Require Import Text.
From S2P Require Import Ordered.
From S2P Require Import Metadata.
Local Open Scope Z_scope.

(** ** What the code relies on *)
Abbreviation redis_hash := (gmap bytes bytes).
Inductive command :=
  | HSet (key : bytes) (fields : list (bytes * bytes))
  | HDel (key field : bytes)
  | Del (key : bytes)
  | Expire (key : bytes) (seconds : Z).

(** The hash at each key; a key without fields does not exist. *)
Definition run_command (db : bytes → redis_hash) (c : command) : bytes → redis_hash :=
  match c with
  | HSet key fields => λ k, if decide (k = key)
                            then fold_left (λ h f, <[f.1 := f.2]> h) fields (db k) else db k
  | HDel key field => λ k, if decide (k = key) then delete field (db k) else db k
  | Del key => λ k, if decide (k = key) then ∅ else db k
  | Expire _ _ => db
  end.

Class Redis (R : Type) := {
  hashes : R → bytes → redis_hash;
  send : R → list command → option R;               (* one command, or a pipeline *)
  hgetall : R → bytes → option redis_hash;
  scan_keys : R → bytes → option (list bytes);       (* a whole scan, by prefix *)
  send_hashes r cs r' k : send r cs = Some r' → hashes r' k = fold_left run_command cs (hashes r) k;
  hgetall_hashes r k h : hgetall r k = Some h → h = hashes r k;
  scan_hashes r p ks k : scan_keys r p = Some ks → k ∈ ks ↔ starts_with p k = true ∧ hashes r k ≠ ∅
}.

(** ** Keys and values *)
Definition bar : ascii := "|"%char.
Definition chunk_field (id : Z) (server : bytes) : bytes := lit "chunk:" ++ show_Z id ++ colon :: server.
Definition replicas_field (id : Z) : bytes := lit "chunk_replicas:" ++ show_Z id.
Definition chunk_value (server path checksum : bytes) (replicas : Z) : bytes :=
  encode_loc server path ++ bar :: checksum ++ bar :: show_Z replicas.

Definition record_fields (c : ChunkRecord) : list (bytes * bytes) :=
  [(chunk_field (chunk_id c) (server c),
    chunk_value (server c) (path c) (checksum c) (replica_count c));
   (replicas_field (chunk_id c), show_Z (replica_count c))].

Section operations.
Context {R : Type} `{!Redis R} `{!HashOrder bytes bytes}.

Definition list_all_files (r : R) : list bytes :=
  match scan_keys r (lit "file:") with
  | Some keys => sorted_strings (remove_dups (map (drop 5) keys))
  | None => []
  end.

(** ** [create_entry] *)

(** The header lines, in any order; an entry whose TTL is not a number is not
    created.  The result is what follows: the first line that is no header and
    the rest, if any. *)
Fixpoint read_headers (lines : list bytes) (ttl : Z) (hash : bytes) (replicas : Z)
  : exc (Z * bytes * Z * list bytes) :=
  match lines with
  | [] => Val (ttl, hash, replicas, [])
  | line :: rest =>
      if starts_with (lit "TTL=") line then
        ttl ← stoll (drop 4 line); read_headers rest ttl hash replicas
      else if starts_with (lit "HASH=") line then read_headers rest ttl (drop 5 line) replicas
      else if starts_with (lit "REPLICAS=") line then
        read_headers rest ttl hash (try_catch (stoi (drop 9 line)) replicas)
      else Val (ttl, hash, replicas, lines)
  end.

Definition parse_chunk_lines (lines : list bytes) : list ChunkRecord :=
  omap (λ l, match l with [] => None | _ => parse_entry_line l end) lines.

(** [if (..) redis.command(..)]: a call that throws ends the operation; what
    was sent before stays. *)
Definition send_if (b : bool) (cs : list command) (r : R) (k : R → R) : R :=
  if b then match send r cs with Some r => k r | None => r end else k r.

Definition store_entry (r : R) (file hash : bytes) (ttl replicas : Z) (parsed : list ChunkRecord) : R :=
  let key := file_key file in
  let cs := fill_counts parsed in
  let n := default_file_replicas replicas parsed in
  send_if (negb (bool_decide (cs = []))) [HSet key (concat (map record_fields cs))] r (λ r,
  send_if (negb (bool_decide (hash = []))) [HSet key [(lit "file_hash", hash)]] r (λ r,
  send_if (bool_decide (0 < n)) [HSet key [(lit "replica_count", show_Z n)]] r (λ r,
  send_if (bool_decide (0 < ttl)) [Expire key ttl] r id))).

Definition create_entry (r : R) (request : bytes) : R :=
  let '(file, rest) := default ([], []) (getline nl request) in
  match read_headers (getlines nl rest) 0 [] 0 with
  | Throw _ => r
  | Val (ttl, hash, replicas, lines) => store_entry r file hash ttl replicas (parse_chunk_lines lines)
  end.

(** ** [query_metadata] *)
Definition per_chunk_replicas (all : list (bytes * bytes)) : gmap Z Z :=
  fold_left (λ m kv,
      if starts_with (lit "chunk_replicas:") kv.1 then
        match stoll (drop 15 kv.1) with
        | Val cid => (* [m[cid] = stoi(..)]: the entry is made once the value is read *)
            match stoi kv.2 with Val n => <[cid := n]> m | Throw _ => m end
        | Throw _ => m
        end
      else m) all ∅.

(** The value of a chunk field, cut at its bars. *)
Definition parse_value (per_chunk : gmap Z Z) (id : Z) (v : bytes) : ChunkRecord :=
  match find_char bar v with
  | None => mkChunk id v [] [] 1
  | Some p1 =>
      let srv := take p1 v in
      let rest := drop (p1 + 1) v in
      match find_char bar rest with
      | None => mkChunk id srv rest [] 1
      | Some p2 =>
          let pth := take p2 rest in
          let rest := drop (p2 + 1) rest in
          match find_char bar rest with
          | Some p3 => mkChunk id srv pth (take p3 rest) (try_catch (stoi (drop (p3 + 1) rest)) 1)
          | None =>
              let n := default 0 (per_chunk !! id) in
              mkChunk id srv pth rest (if decide (0 < n) then n else 1)
          end
      end
  end.

Definition parse_field (per_chunk : gmap Z Z) (kv : bytes * bytes) : option ChunkRecord :=
  if starts_with (lit "chunk:") kv.1 then
    let rest := drop 6 kv.1 in
    let number := match find_char colon rest with Some i => take i rest | None => rest end in
    match stoll number with
    | Val id => Some (parse_value per_chunk id kv.2)
    | Throw _ => None
    end
  else None.

Definition record_of_hash (h : redis_hash) : FileRecord :=
  let all := hash_order h in
  let replicas := match h !! lit "replica_count" with Some v => try_catch (stoi v) 0 | None => 0 end in
  let cs := omap (parse_field (per_chunk_replicas all)) all in
  mkFile (default [] (h !! lit "file_hash")) (default_file_replicas replicas cs) (fill_counts cs).

Definition query_metadata (r : R) (file : bytes) : FileRecord :=
  match file with
  | [] => empty_file
  | _ =>
      match hgetall r (file_key file) with
      | None => empty_file
      | Some h => if decide (h = ∅) then empty_file else record_of_hash h
      end
  end.

(** ** Failover and removal *)
Definition replace_commands (dead new_server : bytes) (upd : bytes * list ChunkRecord) : list command :=
  concat (map (λ c,
      let target := match server c with [] => new_server | s => s end in
      [HDel (file_key upd.1) (chunk_field (chunk_id c) dead);
       HSet (file_key upd.1) [(chunk_field (chunk_id c) target,
                               chunk_value target (path c) (checksum c) (replica_count c))];
       HSet (file_key upd.1) [(replicas_field (chunk_id c), show_Z (replica_count c))]]) upd.2).

Definition atomic_replace_server_chunks (r : R) (dead new_server : bytes)
    (updates : gmap bytes (list ChunkRecord)) : R * bool :=
  match send r (concat (map (replace_commands dead new_server) (smap_list updates))) with
  | Some r => (r, true)
  | None => (r, false)
  end.

Definition purge_commands (r : R) (addr file : bytes) : list command :=
  map (λ c, HDel (file_key file) (chunk_field (chunk_id c) addr))
    (filter (λ c, server c = addr) (chunks (query_metadata r file))).

Definition delete_server_metadata (r : R) (addr : bytes) : R :=
  default r (send r (concat (map (purge_commands r addr) (list_all_files r)))).

(** [delete_entry]: a file, or one field of it after a hash mark. *)
Definition delete_entry (r : R) (file : bytes) : R :=
  default r
    (match find (lit "#chunk:") file with
     | Some pos =>
         match drop (pos + 1) file with
         | [] => send r [Del (file_key (take pos file))]
         | field => send r [HDel (file_key (take pos file)) field]
         end
     | None => send r [Del (file_key file)]
     end).
(** [read_entry]: one chunk is printed with its checksum only if it has one. *)
Definition shown (c : ChunkRecord) : bytes := show_chunk (negb (bool_decide (checksum c = []))) c.

Definition read_entry (r : R) (request : bytes) : list output :=
  match read_word request with
  | None => [Err (lit "read_entry: file_name required" ++ [nl])]
  | Some (file, rest) =>
      let rec := query_metadata r file in
      match chunks rec with
      | [] => [Out (lit "No chunks or file not found" ++ [nl])]
      | cs =>
        (if decide (file_hash rec = []) then [] else [Out (lit "file_hash=" ++ file_hash rec ++ [nl])])
        ++ [Out (lit "replica_count=" ++ show_Z (file_replicas rec) ++ [nl])]
        ++ match read_ll rest with
           | Some (id, _) =>
               match list_find (λ c, chunk_id c = id) cs with
               | Some (_, c) => [Out (shown c)]
               | None => [Out (lit "Chunk not found" ++ [nl])]
               end
           | None => map (λ c, Out (shown c)) cs
           end
      end
  end.
End operations.

(** ** Where the server is *)

(** The environment: the value of a variable, if it is set. *)
Definition get_redis_connection_string (getenv : bytes → option bytes) : bytes :=
  lit "tcp://" ++ default (lit "127.0.0.1") (getenv (lit "REDIS_HOST")) ++ colon
  :: default (lit "6379") (getenv (lit "REDIS_PORT")).

Definition nonempty (v : option bytes) : option bytes :=
  match v with Some [] => None | _ => v end.

(** The address [is_redis_running] pings; a port that is no number is an
    exception, and the answer is then no. *)
Definition pinged_address (getenv : bytes → option bytes) (host : bytes) (port : Z) : exc bytes :=
  let h := match host with
           | [] => default (lit "127.0.0.1") (nonempty (getenv (lit "REDIS_HOST")))
           | _ => host
           end in
  p ← (if decide (port ≤ 0) then
         match nonempty (getenv (lit "REDIS_PORT")) with Some v => stoi v | None => Val 6379 end
       else Val port);
  Val (lit "tcp://" ++ h ++ colon :: show_Z p).

Definition is_redis_running (getenv : bytes → option bytes) (ping : bytes → bool)
    (host : bytes) (port : Z) : bool :=
  match pinged_address getenv host port with Val a => ping a | Throw _ => false end.

(** [create_replication]: the [REPLICAOF] it sends, and its exit code. *)
Definition replication_target (ip_address : bytes) : exc (bytes * Z) :=
  match find_char colon ip_address with
  | None => Val (ip_address, 6379)
  | Some pos => port ← stoi (drop (pos + 1) ip_address); Val (take pos ip_address, port)
  end.

Definition create_replication (replicaof : bytes → bytes → bool) (ip_address : bytes) : Z :=
  match replication_target ip_address with
  | Val (host, port) => if replicaof host (show_Z port) then 0 else -1
  | Throw _ => -1
  end.

(** [start_daemon]: whether the head server finds its metadata server, which
    it starts if it must ([start] is [start_server]'s exit code). *)
Definition start_daemon (getenv : bytes → option bytes) (ping_before ping_after : bytes → bool)
    (start : Z) : bool :=
  is_redis_running getenv ping_before [] 0 ||
  bool_decide (start = 0) && is_redis_running getenv ping_after [] 0.

(** ** A Redis in memory *)
Record RedisSim := mkSim { sim_db : gmap bytes redis_hash; sim_up : bool }.
Definition sim_at (db : gmap bytes redis_hash) (k : bytes) : redis_hash := default ∅ (db !! k).
Definition sim_command (db : gmap bytes redis_hash) (c : command) : gmap bytes redis_hash :=
  match c with
  | HSet key fields => <[key := fold_left (λ h f, <[f.1 := f.2]> h) fields (sim_at db key)]> db
  | HDel key field => <[key := delete field (sim_at db key)]> db
  | Del key => delete key db
  | Expire _ _ => db
  end.

Lemma sim_command_at db c k : sim_at (sim_command db c) k = run_command (sim_at db) c k.
Proof.
  destruct c as [key fields|key field|key|key n]; unfold sim_at; simpl; try done.
  - rewrite lookup_insert. repeat case_decide; congruence || (by subst) || done.
  - rewrite lookup_insert. repeat case_decide; congruence || (by subst) || done.
  - rewrite lookup_delete. repeat case_decide; congruence || (by subst) || done.
Qed.

Lemma run_command_ext c db db' :
  (∀ k, db k = db' k) → ∀ k, run_command db c k = run_command db' c k.
Proof. intros E k. destruct c; simpl; rewrite ?E; done. Qed.

Lemma sim_commands_at cs db k :
  sim_at (fold_left sim_command cs db) k = fold_left run_command cs (sim_at db) k.
Proof.
  assert (∀ f, (∀ k, sim_at db k = f k) →
          ∀ k, sim_at (fold_left sim_command cs db) k = fold_left run_command cs f k) as H.
  { revert db. induction cs as [|c cs IH]; intros db f Hf; [done|]. apply IH. intros j.
    rewrite sim_command_at. by apply run_command_ext. }
  by apply H.
Qed.

#[export] Instance sim_redis : Redis RedisSim.
Proof.
  refine {|
    hashes r := sim_at (sim_db r);
    send r cs := if sim_up r then Some (mkSim (fold_left sim_command cs (sim_db r)) true) else None;
    hgetall r k := if sim_up r then Some (sim_at (sim_db r) k) else None;
    scan_keys r p :=
      if sim_up r
      then Some (filter (λ k, starts_with p k = true ∧ sim_at (sim_db r) k ≠ ∅) (map_to_list (sim_db r)).*1)
      else None
  |}.
  - intros r cs r' k. destruct (sim_up r); [|done]. intros [= <-]. apply sim_commands_at.
  - intros r k h. destruct (sim_up r); [|done]. by intros [= <-].
  - intros r p ks k. destruct (sim_up r); [|done]. intros [= <-].
    rewrite list_elem_of_filter. split; [tauto|]. intros [Hp Hk]. split; [done|].
    unfold sim_at in Hk. destruct (sim_db r !! k) as [h|] eqn:E; [|done].
    apply list_elem_of_fmap. exists (k, h). split; [done|by apply elem_of_map_to_list].
Defined.
