(* ===== verification/RedisSpec.v ===== *)
(** * RedisSpec: the Redis build keeps the same records as the file build

    [encodes h cs] relates a file's hash to the chunk records it stands for,
    one per chunk and server: the abstract state of the store.  Each command
    sequence of the operations of [RedisStore] is the matching operation on
    [cs] ([put], [unlink]); the theorems compare the result with the file
    backend's ([Metadata]). *)
From Stdlib Require Import Lia.
From S2P Require Import Prelude.
From S2P Require Import Text.
From S2P Require Import Ordered.
From S2P Require Import Metadata.
From S2P Require Import Wire.
From S2P Require Import Upload.
From S2P Require Import UploadSpec.
From S2P Require Import Failover.
From S2P Require Import FailoverSpec.
From S2P Require Import RedisStore.
Local Open Scope Z_scope.

(** ** Fields and the records they stand for *)
Abbreviation place := (Z * bytes)%type.
Definition place_of (c : ChunkRecord) : place := (chunk_id c, server c).
Definition field_of (p : place) : bytes := chunk_field p.1 p.2.
Definition value_of (c : ChunkRecord) : bytes :=
  chunk_value (server c) (path c) (checksum c) (replica_count c).

(** A record a field can carry: its id and count fit, no bar in its texts. *)
Record storable (c : ChunkRecord) : Prop := {
  st_id : LLONG_MIN ≤ chunk_id c ≤ LLONG_MAX;
  st_count : 0 < replica_count c ≤ INT_MAX;
  st_server : no_char bar (server c);
  st_path : no_char bar (path c);
  st_checksum : no_char bar (checksum c)
}.

Lemma field_of_inj p q : field_of p = field_of q → p = q.
Proof.
  destruct p as [i s], q as [j t]. unfold field_of, chunk_field. simpl fst. simpl snd.
  intros E%app_inv_head. apply app_char_inj in E as [Ei ->]; [|by apply digit_run_no..].
  by apply show_Z_inj in Ei as ->.
Qed.

Lemma field_is_chunk p : starts_with (lit "chunk:") (field_of p) = true.
Proof. apply starts_with_app. Qed.

Lemma parse_field_value m c : storable c → parse_field m (field_of (place_of c), value_of c) = Some c.
Proof.
  intros [Hid Hn Hs Hp Hc]. unfold parse_field. cbn [fst snd].
  rewrite field_is_chunk. unfold field_of, chunk_field, place_of. cbn [fst snd].
  change 6%nat with (length (lit "chunk:")). rewrite drop_app_length.
  rewrite find_char_app by (by apply digit_run_no). rewrite take_app_length, stoll_show by done.
  f_equal. unfold parse_value, value_of, chunk_value, encode_loc.
  rewrite <- !app_assoc. rewrite <- app_comm_cons. fold bar.
  rewrite find_char_app, take_app_length, drop_past_char by done.
  rewrite find_char_app, take_app_length, drop_past_char by done.
  rewrite find_char_app, take_app_length, drop_past_char by done.
  rewrite stoi_show by (unfold INT_MIN; lia). by destruct c.
Qed.

Lemma parse_field_other m k v : starts_with (lit "chunk:") k = false → parse_field m (k, v) = None.
Proof. unfold parse_field. cbn [fst]. by intros ->. Qed.

Lemma replicas_field_other id : starts_with (lit "chunk:") (replicas_field id) = false.
Proof. done. Qed.

(** ** The representation *)
Record encodes (h : redis_hash) (cs : list ChunkRecord) : Prop := {
  en_places : NoDup (map place_of cs);
  en_storable : Forall storable cs;
  en_there c : c ∈ cs → h !! field_of (place_of c) = Some (value_of c);
  en_only k v : h !! k = Some v → starts_with (lit "chunk:") k = true →
                ∃ c, c ∈ cs ∧ k = field_of (place_of c)
}.

Definition unlink (p : place) (cs : list ChunkRecord) : list ChunkRecord :=
  filter (λ c, place_of c ≠ p) cs.
Definition put (c : ChunkRecord) (cs : list ChunkRecord) : list ChunkRecord :=
  unlink (place_of c) cs ++ [c].

Lemma encodes_empty : encodes ∅ [].
Proof.
  constructor; [constructor|done| |].
  - by intros c ?%elem_of_nil.
  - intros k v Hk. by rewrite lookup_empty in Hk.
Qed.

Lemma encodes_unlink h cs p : encodes h cs → encodes (delete (field_of p) h) (unlink p cs).
Proof.
  intros [Hnd Hst Hin Hon]. unfold unlink. constructor.
  - eapply sublist_NoDup; [exact Hnd|]. apply fmap_sublist, sublist_filter.
  - by apply Forall_kept.
  - intros c [Hc Hcs]%list_elem_of_filter. rewrite lookup_delete_ne; [by apply Hin|].
    by intros E%field_of_inj.
  - intros k v Hk Hs. apply lookup_delete_Some in Hk as [Hne Hk].
    destruct (Hon k v Hk Hs) as (c & Hc & ->). exists c. split; [|done].
    apply list_elem_of_filter. split; [|done]. by intros <-.
Qed.

Lemma place_unlinked p cs : p ∉ map place_of (unlink p cs).
Proof. intros (c & -> & [Hc _]%list_elem_of_filter)%list_elem_of_fmap. done. Qed.

Lemma encodes_put h cs c :
  storable c → encodes h cs → encodes (<[field_of (place_of c) := value_of c]> h) (put c cs).
Proof.
  intros Hc Hh. apply (encodes_unlink _ _ (place_of c)) in Hh as [Hnd Hst Hin Hon].
  rewrite <- insert_delete_eq. unfold put. constructor.
  - rewrite map_app, NoDup_app. split_and!; [done| |apply NoDup_singleton].
    intros p Hp ->%list_elem_of_singleton. by apply place_unlinked in Hp.
  - apply Forall_app. split; [done|]. by apply Forall_singleton.
  - intros d [Hd| ->%list_elem_of_singleton]%elem_of_app; [|by rewrite lookup_insert_eq].
    rewrite lookup_insert_ne; [by apply Hin|]. intros E%field_of_inj.
    apply (place_unlinked (place_of c) cs). apply list_elem_of_fmap. by exists d.
  - intros k v Hk Hs. apply lookup_insert_Some in Hk as [[<- <-]|[_ Hk]].
    + exists c. split; [|done]. apply elem_of_app. right. by apply list_elem_of_singleton.
    + destruct (Hon k v Hk Hs) as (d & Hd & ->). exists d. split; [|done].
      apply elem_of_app. by left.
Qed.

Lemma encodes_other h cs k v :
  starts_with (lit "chunk:") k = false → encodes h cs → encodes (<[k := v]> h) cs.
Proof.
  intros Hk [Hnd Hst Hin Hon]. constructor; [done|done| |].
  - intros c Hc. rewrite lookup_insert_ne; [by apply Hin|]. intros ->.
    by rewrite field_is_chunk in Hk.
  - intros j w Hj Hs. apply lookup_insert_Some in Hj as [[<- _]|[_ Hj]]; [congruence|by eapply Hon].
Qed.

(** What the hash is read back as. *)
Lemma NoDup_omap_keys {A B C} (f : A → option B) (g : A → C) l :
  NoDup (map g l) → (∀ x y b, x ∈ l → y ∈ l → f x = Some b → f y = Some b → g x = g y) →
  NoDup (omap f l).
Proof.
  induction l as [|x l IH]; intros Hnd Hf; [constructor|].
  apply NoDup_cons in Hnd as [Hx Hnd]. cbn [omap list_omap].
  assert (NoDup (omap f l)) as Hl.
  { apply IH; [done|]. intros y z b Hy Hz. apply Hf; by right. }
  destruct (f x) as [b|] eqn:E; [|done]. apply NoDup_cons. split; [|done].
  intros (y & Hy & Ey)%list_elem_of_omap. apply Hx.
  rewrite (Hf x y b); [by apply list_elem_of_fmap_2|by left|by right|done|done].
Qed.

Section reading.
Context `{!HashOrder bytes bytes}.

Lemma encodes_parsed h cs m : encodes h cs → omap (parse_field m) (hash_order h) ≡ₚ cs.
Proof.
  intros [Hnd Hst Hin Hon]. rewrite Forall_forall in Hst.
  assert (∀ kv b, kv ∈ hash_order h → parse_field m kv = Some b →
          b ∈ cs ∧ kv = (field_of (place_of b), value_of b)) as Hread.
  { intros [k v] b Hkv%elem_of_hash_order Hb.
    destruct (starts_with (lit "chunk:") k) eqn:E; [|by rewrite parse_field_other in Hb].
    destruct (Hon k v Hkv E) as (c & Hc & ->). rewrite (Hin c Hc) in Hkv. injection Hkv as <-.
    rewrite parse_field_value in Hb by auto. by injection Hb as <-. }
  apply NoDup_Permutation.
  - apply (NoDup_omap_keys _ fst); [apply hash_order_NoDup|].
    intros x y b Hx Hy Ex Ey. destruct (Hread x b Hx Ex) as [_ ->].
    by destruct (Hread y b Hy Ey) as [_ ->].
  - by eapply NoDup_fmap_1.
  - intros c. rewrite list_elem_of_omap. split.
    + intros (kv & Hkv & E). by eapply Hread.
    + intros Hc. exists (field_of (place_of c), value_of c). split.
      * apply elem_of_hash_order. by apply Hin.
      * by apply parse_field_value, Hst.
Qed.

Lemma encodes_read h cs : encodes h cs → chunks (record_of_hash h) ≡ₚ cs.
Proof.
  intros Hh. unfold record_of_hash. cbv zeta. cbn [chunks].
  pose proof (encodes_parsed h cs (per_chunk_replicas (hash_order h)) Hh) as Hp.
  rewrite fill_counts_positive; [done|]. rewrite Hp.
  eapply Forall_impl; [apply (en_storable _ _ Hh)|]. by intros c [_ [? _] _ _ _].
Qed.

Lemma encodes_query `{!Redis R} (r : R) file cs h :
  file ≠ [] → hgetall r (file_key file) = Some h → encodes (hashes r (file_key file)) cs →
  chunks (query_metadata r file) ≡ₚ cs.
Proof.
  intros Hf Hh He. rewrite <- (hgetall_hashes _ _ _ Hh) in He. unfold query_metadata.
  destruct file as [|x file]; [done|]. rewrite Hh. case_decide as Hn; [|by apply encodes_read].
  subst h. destruct cs as [|c cs]; [done|]. exfalso.
  pose proof (en_there _ _ He c ltac:(by left)) as E. by rewrite lookup_empty in E.
Qed.
End reading.

(** ** Writing records *)
Definition put_all (cs cs0 : list ChunkRecord) : list ChunkRecord :=
  fold_left (λ acc c, put c acc) cs cs0.

Lemma put_all_spec cs cs0 :
  NoDup (map place_of cs) →
  put_all cs cs0 = filter (λ c, place_of c ∉ map place_of cs) cs0 ++ cs.
Proof.
  revert cs0. induction cs as [|c cs IH]; intros cs0 Hnd.
  - simpl. rewrite filter_all; [by rewrite app_nil_r|].
    apply Forall_forall. intros c _. apply not_elem_of_nil.
  - cbn [map] in Hnd. apply NoDup_cons in Hnd as [Hc Hnd]. unfold put_all. cbn [fold_left].
    fold (put_all cs (put c cs0)). rewrite IH by done. unfold put, unlink.
    rewrite filter_app, filter_cons_True by done. rewrite <- app_assoc. f_equal.
    rewrite list_filter_filter. apply list_filter_iff. intros d. cbn [map].
    rewrite not_elem_of_cons. tauto.
Qed.

Definition set_fields (h : redis_hash) (fs : list (bytes * bytes)) : redis_hash :=
  fold_left (λ h f, <[f.1 := f.2]> h) fs h.

Lemma encodes_put_all h cs cs0 :
  Forall storable cs → encodes h cs0 →
  encodes (set_fields h (concat (map record_fields cs))) (put_all cs cs0).
Proof.
  intros Hcs. revert h cs0. induction Hcs as [|c cs Hc _ IH]; intros h cs0 Hh; [done|].
  unfold set_fields, put_all. cbn [map concat record_fields app fold_left fst snd].
  apply IH, encodes_other; [done|]. by apply (encodes_put _ _ c).
Qed.

(** A server that answers. *)
Class RedisUp (R : Type) `{!Redis R} (up : R → Prop) := {
  up_send r cs : up r → ∃ r', send r cs = Some r' ∧ up r';
  up_hgetall r k : up r → is_Some (hgetall r k);
  up_scan r p : up r → is_Some (scan_keys r p)
}.

Section writing.
Context {R : Type} `{!Redis R} {up : R → Prop} `{!RedisUp R up}.

Lemma send_if_up b cs r (k : R → R) :
  up r → ∃ r1, send_if b cs r k = k r1 ∧ up r1 ∧
         ∀ key, hashes r1 key = (if b then fold_left run_command cs (hashes r) key else hashes r key).
Proof.
  intros Hu. unfold send_if. destruct b; [|by exists r].
  destruct (up_send r cs Hu) as (r1 & E & Hu1). rewrite E. exists r1. split_and!; [done..|].
  intros key. by apply send_hashes.
Qed.

(** What [store_entry] leaves in the file's hash. *)
Lemma store_entry_up r file hash ttl n cs cs0 :
  let r' := store_entry r file hash ttl n cs in
  up r → Forall storable cs → 0 < n → encodes (hashes r (file_key file)) cs0 →
  up r' ∧ encodes (hashes r' (file_key file)) (put_all cs cs0) ∧
  (∀ k, k ≠ file_key file → hashes r' k = hashes r k) ∧
  (hash ≠ [] → hashes r' (file_key file) !! lit "file_hash" = Some hash) ∧
  hashes r' (file_key file) !! lit "replica_count" = Some (show_Z n).
Proof.
  intros r' Hu Hcs Hn He. subst r'. unfold store_entry. cbv zeta.
  rewrite fill_counts_positive.
  2: { eapply Forall_impl; [exact Hcs|]. by intros c [_ [? _] _ _ _]. }
  unfold default_file_replicas. rewrite (decide_False (P := n ≤ 0)) by lia.
  set (key := file_key file) in *.
  destruct (send_if_up (negb (bool_decide (cs = []))) [HSet key (concat (map record_fields cs))]
              r (λ r, send_if (negb (bool_decide (hash = []))) [HSet key [(lit "file_hash", hash)]] r
              (λ r, send_if (bool_decide (0 < n)) [HSet key [(lit "replica_count", show_Z n)]] r
              (λ r, send_if (bool_decide (0 < ttl)) [Expire key ttl] r id))) Hu) as (r1 & -> & Hu1 & H1).
  destruct (send_if_up (negb (bool_decide (hash = []))) [HSet key [(lit "file_hash", hash)]] r1
              (λ r, send_if (bool_decide (0 < n)) [HSet key [(lit "replica_count", show_Z n)]] r
              (λ r, send_if (bool_decide (0 < ttl)) [Expire key ttl] r id)) Hu1) as (r2 & -> & Hu2 & H2).
  destruct (send_if_up (bool_decide (0 < n)) [HSet key [(lit "replica_count", show_Z n)]] r2
              (λ r, send_if (bool_decide (0 < ttl)) [Expire key ttl] r id) Hu2) as (r3 & -> & Hu3 & H3).
  destruct (send_if_up (bool_decide (0 < ttl)) [Expire key ttl] r3 id Hu3) as (r4 & -> & Hu4 & H4).
  assert (∀ k, hashes r4 k = hashes r3 k) as H4'.
  { intros k. rewrite H4. by case_bool_decide. }
  clear H4. unfold id.
  assert (hashes r4 key = <[lit "replica_count" := show_Z n]> (hashes r2 key)) as Ekey.
  { rewrite H4', H3, bool_decide_true by done. cbn [fold_left run_command fst snd].
    by rewrite decide_True. }
  assert (hashes r1 key = set_fields (hashes r key) (concat (map record_fields cs))) as E1.
  { rewrite H1. destruct cs as [|c cs]; [done|]. rewrite bool_decide_false by done.
    cbn [negb fold_left run_command]. by rewrite decide_True. }
  split; [done|]. split; [|split; [|split]].
  - rewrite Ekey. apply encodes_other; [done|]. rewrite H2.
    assert (encodes (hashes r1 key) (put_all cs cs0)) as He1.
    { rewrite E1. by apply encodes_put_all. }
    destruct (bool_decide (hash = [])); cbn [negb fold_left run_command]; [done|].
    rewrite decide_True by done. by apply encodes_other.
  - intros k Hk. rewrite H4'.
    trans (hashes r2 k); [rewrite H3; destruct (bool_decide (0 < n))|trans (hashes r1 k);
      [rewrite H2; destruct (bool_decide (hash = []))|rewrite H1; destruct (bool_decide (cs = []))]];
      cbn [negb fold_left run_command]; rewrite ?decide_False; done.
  - intros Hh. rewrite Ekey, lookup_insert_ne, H2 by done.
    rewrite bool_decide_false by done. cbn [negb fold_left run_command fst snd].
    rewrite decide_True, lookup_insert_eq; done.
  - rewrite Ekey. by rewrite lookup_insert_eq.
Qed.
End writing.

(** ** A pipeline over several files *)
Definition key_of (c : command) : bytes :=
  match c with HSet k _ | HDel k _ | Del k | Expire k _ => k end.

Definition run_hash (h : redis_hash) (c : command) : redis_hash :=
  match c with
  | HSet _ fields => set_fields h fields
  | HDel _ field => delete field h
  | Del _ => ∅
  | Expire _ _ => h
  end.

Lemma run_commands_at cs db k :
  fold_left run_command cs db k = fold_left run_hash (filter (λ c, key_of c = k) cs) (db k).
Proof.
  revert db. induction cs as [|c cs IH]; intros db; [done|].
  cbn [fold_left]. rewrite IH, filter_cons. case_decide as Hk.
  - cbn [fold_left]. f_equal. destruct c; cbn in *; by rewrite ?decide_True.
  - f_equal. destruct c; cbn in *; by rewrite ?decide_False.
Qed.

Lemma file_key_inj f g : file_key f = file_key g → f = g.
Proof. unfold file_key. apply app_inv_head. Qed.

(** Commands grouped by file: what acts on one file is its own group. *)
Lemma filter_groups {A} (file_of : A → bytes) (g : A → list command) (l : list A) f :
  (∀ a, a ∈ l → Forall (λ c, key_of c = file_key (file_of a)) (g a)) →
  filter (λ c, key_of c = file_key f) (concat (map g l)) =
  concat (map g (filter (λ a, file_of a = f) l)).
Proof.
  induction l as [|a l IH]; intros Hg; [done|]. cbn [map concat].
  pose proof (Hg a ltac:(by left)) as Ha. rewrite filter_app, filter_cons, IH.
  2: { intros b Hb. apply Hg. by right. }
  case_decide as Hf.
  - subst f. cbn [map concat]. by rewrite filter_all.
  - rewrite filter_none; [done|]. intros c Hc E. rewrite Forall_forall in Ha.
    rewrite (Ha c Hc) in E. by apply file_key_inj in E.
Qed.

(** Moving a record off a dead server. *)
Definition move (dead : bytes) (cs : list ChunkRecord) (c : ChunkRecord) : list ChunkRecord :=
  put c (unlink (chunk_id c, dead) cs).

Lemma moves_spec dead ups cs :
  NoDup (map place_of ups) → Forall (λ c, server c ≠ dead) ups →
  fold_left (move dead) ups cs =
  filter (λ c, (place_of c ∉ map place_of ups) ∧ (server c = dead → chunk_id c ∉ map chunk_id ups)) cs
  ++ ups.
Proof.
  intros Hnd Hd. revert cs Hnd. induction Hd as [|c ups Hc Hd IH]; intros cs Hnd.
  - simpl. rewrite filter_all; [by rewrite app_nil_r|].
    apply Forall_forall. intros d _. split; [|intros _]; apply not_elem_of_nil.
  - cbn [map] in Hnd. apply NoDup_cons in Hnd as [Hcu Hnd]. cbn [fold_left].
    rewrite IH by done. unfold move, put, unlink. rewrite filter_app, filter_cons_True by done.
    rewrite <- app_assoc. f_equal. rewrite !list_filter_filter. apply list_filter_iff.
    intros d. cbn [map]. rewrite !not_elem_of_cons. unfold place_of. split.
    + intros [[[Hp Hi] Hne] Hold]. split; [done|]. intros Hs. split; [|by apply Hi].
      intros E. apply Hold. by rewrite <- E, <- Hs.
    + intros [[Hne Hp] Hi]. split; [split; [split; [done|]|done]|]; [intros Hs; by apply Hi|].
      intros [= E Hs]. by apply (proj1 (Hi Hs)).
Qed.

Lemma replace_commands_key dead new u :
  Forall (λ c, key_of c = file_key u.1) (replace_commands dead new u).
Proof.
  unfold replace_commands. induction u.2 as [|c cs IH]; [constructor|].
  cbn [map concat app]. by repeat apply Forall_cons_2.
Qed.

Lemma moves_encode dead new key ups h cs :
  Forall storable ups → Forall (λ c, server c ≠ []) ups → encodes h cs →
  encodes (fold_left run_hash (replace_commands dead new (key, ups)) h) (fold_left (move dead) ups cs).
Proof.
  intros Hst Hs. revert h cs. induction Hst as [|c ups Hc _ IH]; intros h cs Hh; [done|].
  apply Forall_cons in Hs as [Hsc Hs]. unfold replace_commands.
  cbn [snd fst map concat app fold_left run_hash set_fields].
  destruct (server c) as [|x s] eqn:E; [done|]. rewrite <- E.
  apply IH; [done|]. apply encodes_other; [done|]. apply (encodes_put _ _ c); [done|].
  by apply (encodes_unlink _ _ (chunk_id c, dead)).
Qed.

(** ** Failover *)
Lemma moves_add_none dead ups cs :
  NoDup (map place_of ups) → Forall (λ c, server c ≠ dead) ups →
  (∀ c, c ∈ cs → place_of c ∉ map place_of ups) →
  filter (λ c, server c ≠ dead) (fold_left (move dead) ups cs) =
  filter (λ c, server c ≠ dead) cs ++ ups.
Proof.
  intros Hnd Hd Hfresh. rewrite moves_spec by done.
  rewrite filter_app, (filter_all _ ups), list_filter_filter by done. f_equal.
  apply filter_ext_elem. intros c Hc. split; [by intros [? _]|]. intros Hs.
  split; [done|]. split; [by apply Hfresh|done].
Qed.

Lemma unlinks_encode k ds h cs :
  encodes h cs →
  encodes (fold_left run_hash (map (λ c, HDel k (field_of (place_of c))) ds) h)
          (filter (λ c, place_of c ∉ map place_of ds) cs).
Proof.
  revert h cs. induction ds as [|d ds IH]; intros h cs Hh.
  - simpl. rewrite filter_all; [done|]. apply Forall_forall. intros c _. apply not_elem_of_nil.
  - cbn [map fold_left run_hash].
    pose proof (IH _ _ (encodes_unlink h cs (place_of d) Hh)) as Hd. unfold unlink in Hd.
    rewrite list_filter_filter in Hd. erewrite list_filter_iff; [exact Hd|].
    intros c. cbn. rewrite not_elem_of_cons. tauto.
Qed.

Section failover.
Context {R : Type} `{!Redis R} `{!HashOrder bytes bytes} {up : R → Prop} `{!RedisUp R up}.

(** The pipeline of [atomic_replace_server_chunks]. *)
Lemma replace_up (r : R) (dead new : bytes) (u : gmap bytes (list ChunkRecord)) file cs :
  let ups := default [] (u !! file) in
  let o := RedisStore.atomic_replace_server_chunks r dead new u in
  up r → encodes (hashes r (file_key file)) cs →
  Forall storable ups → Forall (λ c, server c ≠ []) ups →
  up o.1 ∧ o.2 = true ∧ encodes (hashes o.1 (file_key file)) (fold_left (move dead) ups cs).
Proof.
  intros ups o Hu He Hst Hs. subst o. unfold RedisStore.atomic_replace_server_chunks.
  destruct (up_send r (concat (map (replace_commands dead new) (smap_list u))) Hu) as (r' & E & Hu').
  rewrite E. split_and!; [done|done|]. cbn [fst]. rewrite (send_hashes _ _ _ _ E), run_commands_at.
  rewrite (filter_groups fst).
  2: { intros a _. apply replace_commands_key. }
  assert (filter (λ a, a.1 = file) (smap_list u) =
          match u !! file with Some l => [(file, l)] | None => [] end) as ->.
  { pose proof (ordered_NoDup str_le u) as Hnd.
    destruct (u !! file) as [l|] eqn:El.
    - assert ((file, l) ∈ smap_list u) as Hin by (by apply elem_of_ordered).
      apply list_elem_of_split in Hin as (l1 & l2 & El'). rewrite El' in Hnd |- *.
      rewrite fmap_app, fmap_cons in Hnd. apply NoDup_app in Hnd as (_ & H1 & [H2 _]%NoDup_cons).
      cbn [fst] in H2.
      rewrite filter_app, filter_cons_True by done. rewrite !filter_none; [done| |].
      + intros x Hx <-. apply H2. by apply list_elem_of_fmap_2.
      + intros x Hx <-. apply (H1 x.1); [by apply list_elem_of_fmap_2|by left].
    - apply filter_none. intros [f l] Hin%elem_of_ordered. intros <-. cbn in El. congruence. }
  unfold ups in *. destruct (u !! file) as [l|]; [|done]. cbn [map concat default id] in *.
  rewrite app_nil_r. by apply moves_encode.
Qed.

(** The pipeline of [delete_server_metadata]. *)
Lemma purge_up (r : R) (addr file : bytes) cs :
  up r → file ≠ [] → encodes (hashes r (file_key file)) cs →
  let r' := RedisStore.delete_server_metadata r addr in
  up r' ∧ encodes (hashes r' (file_key file)) (filter (λ c, server c ≠ addr) cs).
Proof.
  intros Hu Hf He. cbv zeta. unfold RedisStore.delete_server_metadata.
  destruct (up_send r (concat (map (purge_commands r addr) (RedisStore.list_all_files r))) Hu)
    as (r' & E & Hu'). rewrite E. cbn [default id]. split; [done|].
  rewrite (send_hashes _ _ _ _ E), run_commands_at, (filter_groups id).
  2: { intros f _. unfold purge_commands. apply Forall_fmap, Forall_forall. by intros c _. }
  destruct (up_scan r (lit "file:") Hu) as [ks Hks].
  assert (NoDup (RedisStore.list_all_files r) ∧
          (file ∈ RedisStore.list_all_files r ∨ hashes r (file_key file) = ∅)) as [Hnd Hin].
  { unfold RedisStore.list_all_files. rewrite Hks, sorted_strings_perm. split; [apply NoDup_remove_dups|].
    destruct (decide (hashes r (file_key file) = ∅)) as [|Hne]; [by right|left].
    rewrite elem_of_remove_dups. apply list_elem_of_fmap.
    exists (file_key file). split; [done|].
    apply (scan_hashes _ _ _ _ Hks). split; [apply starts_with_app|done]. }
  unfold id. rewrite filter_one by done. destruct (up_hgetall r (file_key file) Hu) as [h Hh].
  pose proof (encodes_query r file cs h Hf Hh He) as Hq.
  destruct (decide (file ∈ RedisStore.list_all_files r)) as [_|Hno].
  - cbn [map concat]. rewrite app_nil_r. unfold purge_commands.
    set (ds := filter (λ c, server c = addr) (chunks (RedisStore.query_metadata r file))).
    assert (map (λ c, HDel (file_key file) (chunk_field (chunk_id c) addr)) ds =
            map (λ c, HDel (file_key file) (field_of (place_of c))) ds) as ->.
    { apply map_ext_in. intros c Hc%list_elem_of_In. by apply list_elem_of_filter in Hc as [<- _]. }
    erewrite (filter_ext_elem (λ c, server c ≠ addr)); [by apply unlinks_encode|].
    intros c Hc. split.
    + intros Hs (d & [= _ Ed] & [Hd _]%list_elem_of_filter)%list_elem_of_fmap. congruence.
    + intros Hp Hs. apply Hp, list_elem_of_fmap_2, list_elem_of_filter. split; [done|]. by rewrite Hq.
  - destruct Hin as [?|He0]; [done|]. cbn [map concat fold_left].
    destruct cs as [|c cs]; [done|]. exfalso. pose proof (en_there _ _ He c ltac:(by left)) as Hc.
    by rewrite He0, lookup_empty in Hc.
Qed.
End failover.

(** ** Deleting one chunk *)

(** [delete_entry] of a chunk removes the field [chunk:<id>], but the fields
    have the server after the id: no record is ever removed. *)
Lemma delete_chunk_removes_nothing {R : Type} `{!Redis R} (r : R) (file : bytes) (cid : Z) cs :
  no_char "#"%char file →
  encodes (hashes r (file_key file)) cs →
  encodes (hashes (RedisStore.delete_entry r (file ++ lit "#chunk:" ++ show_Z cid)) (file_key file)) cs.
Proof.
  intros Hf He. unfold RedisStore.delete_entry.
  change (lit "#chunk:") with ("#"%char :: lit "chunk:").
  rewrite find_skip by done. rewrite find_here. cbn [fmap option_fmap option_map].
  rewrite Nat.add_0_r, take_app_length.
  replace (drop (length file + 1) (file ++ ("#"%char :: lit "chunk:") ++ show_Z cid))
    with (lit "chunk:" ++ show_Z cid) by (by rewrite <- app_comm_cons, drop_past_char).
  assert (∀ k, send r [HDel (file_key file) k] = None ∨
    ∃ r', send r [HDel (file_key file) k] = Some r') as Hs.
  { intros k. destruct (send r _) as [r'|]; [right; by exists r'|by left]. }
  destruct (lit "chunk:" ++ show_Z cid) as [|x field] eqn:Ef; [done|]. rewrite <- Ef.
  destruct (Hs (lit "chunk:" ++ show_Z cid)) as [->|[r' E]]; [done|]. rewrite E. cbn [default id].
  rewrite (send_hashes _ _ _ _ E). cbn [fold_left run_command]. rewrite decide_True by done.
  destruct He as [Hnd Hst Hin Hon].
  assert (hashes r (file_key file) !! (lit "chunk:" ++ show_Z cid) = None) as Hnone.
  { destruct (_ !! _) as [v|] eqn:Ev; [|done]. exfalso.
    destruct (Hon _ _ Ev (starts_with_app _ _)) as (c & _ & Ec).
    unfold field_of, chunk_field in Ec. apply app_inv_head in Ec.
    apply (digit_run_no colon cid); [done|done|]. rewrite Ec. apply elem_of_app. right. by left. }
  rewrite delete_id by done. by constructor.
Qed.

(** ** Agreement with the file backend *)
Section agreement.
Context {R : Type} `{!Redis R} `{!HashOrder bytes bytes} `{!HashOrder bytes FileRecord}.
Context {up : R → Prop} `{!RedisUp R up}.
Variable cfg : UploadConfig.

(** Descriptions of an upload this backend can carry. *)
Record carried (infos : list ChunkInfo) : Prop := {
  ca_info : Forall info_ok infos;
  ca_bars : Forall (λ c, no_char bar (ci_server_ip c) ∧ no_char bar (ci_file_path c) ∧
                         no_char bar (ci_checksum c)) infos;
  ca_places : NoDup (map place_of (map record_of infos))
}.

Lemma carried_storable infos : carried infos → Forall storable (map record_of infos).
Proof.
  intros [Hi Hb _]. apply Forall_fmap, Forall_forall. intros c Hc.
  rewrite Forall_forall in Hi, Hb. destruct (Hi c Hc) as [[Hid _ _ _] Hn].
  destruct (Hb c Hc) as (? & ? & ?). by constructor.
Qed.

Lemma read_headers_here ttl n hash infos :
  LLONG_MIN ≤ ttl ≤ LLONG_MAX → int32_ok n →
  read_headers ((lit "TTL=" ++ show_Z ttl) :: (lit "HASH=" ++ hash)
                :: (lit "REPLICAS=" ++ show_Z n) :: map info_line infos) 0 [] 0 =
  Val (ttl, hash, n, map info_line infos).
Proof.
  intros Ht Hn.
  assert (∀ p c, match p with [] => False | c :: _ => is_digit c = false ∧ c ≠ "-"%char end →
            starts_with p (info_line c) = false) as Hno.
  { intros p c Hp. unfold info_line. destruct p as [|x p]; [done|].
    pose proof (show_Z_not_prefix [x] (ci_chunk_id c) Hp) as E.
    destruct (show_Z (ci_chunk_id c)) as [|y s] eqn:Ez; [by destruct (word_show_Z (ci_chunk_id c))|].
    cbn [starts_with app] in E |- *. rewrite andb_true_r in E. by rewrite E. }
  cbn [read_headers]. rewrite starts_with_app.
  change (drop 4 (lit "TTL=" ++ show_Z ttl)) with (show_Z ttl). rewrite stoll_show by done.
  cbn [mbind exc_bind].
  change (starts_with (lit "TTL=") (lit "HASH=" ++ hash)) with false. cbn iota.
  rewrite starts_with_app. change (drop 5 (lit "HASH=" ++ hash)) with hash.
  change (starts_with (lit "TTL=") (lit "REPLICAS=" ++ show_Z n)) with false.
  change (starts_with (lit "HASH=") (lit "REPLICAS=" ++ show_Z n)) with false. cbn iota.
  rewrite starts_with_app. change (drop 9 (lit "REPLICAS=" ++ show_Z n)) with (show_Z n).
  rewrite stoi_show by done. cbn [try_catch].
  destruct infos as [|c infos]; [done|]. cbn [map read_headers].
  by rewrite !Hno.
Qed.

Lemma upload_stores (r : R) file infos hash :
  no_char nl file → no_char nl hash → carried infos → int32_ok (replication_factor cfg) →
  RedisStore.create_entry r (metadata_request cfg file infos hash) =
  store_entry r file hash 3600 (replication_factor cfg) (map record_of infos).
Proof.
  intros Hf Hh Hi Hn. unfold RedisStore.create_entry.
  destruct (request_lines cfg file infos hash Hf Hh (ca_info _ Hi)) as (rest & -> & E).
  cbn [default id]. rewrite E. change (lit "3600") with (show_Z 3600).
  rewrite read_headers_here by done. f_equal. rewrite <- info_lines_parsed by apply Hi.
  unfold parse_chunk_lines. destruct Hi as [Hi _ _]. clear E.
  induction Hi as [|c infos Hc _ IH]; [done|]. cbn [map omap list_omap].
  rewrite IH. destruct (info_line_text c Hc) as [_ Hne]. by destruct (info_line c).
Qed.

Lemma query_after r file hash n cs h :
  file ≠ [] → up r → encodes (hashes r (file_key file)) cs → 0 < n ≤ INT_MAX →
  h = hashes r (file_key file) →
  (hash ≠ [] → h !! lit "file_hash" = Some hash) → h !! lit "replica_count" = Some (show_Z n) →
  let f := RedisStore.query_metadata r file in
  (hash ≠ [] → file_hash f = hash) ∧ file_replicas f = n ∧ chunks f ≡ₚ cs.
Proof.
  intros Hf Hu He Hn -> Hh Hr. cbv zeta.
  destruct (up_hgetall r (file_key file) Hu) as [h Hg].
  pose proof (encodes_query r file cs h Hf Hg He) as Hq. revert Hq.
  apply hgetall_hashes in Hg as Eh. rewrite <- Eh in Hh, Hr.
  unfold RedisStore.query_metadata. destruct file as [|x file]; [done|]. rewrite Hg.
  destruct (decide (h = ∅)) as [->|_]; [by rewrite lookup_empty in Hr|]. intros Hq.
  unfold record_of_hash in *. cbv zeta in *. cbn [file_hash file_replicas] in *.
  rewrite Hr. rewrite stoi_show by (unfold INT_MIN; lia). cbn [try_catch].
  split; [intros Hne; by rewrite (Hh Hne)|]. split; [|done].
  unfold default_file_replicas. by rewrite decide_False by lia.
Qed.

Lemma filter_nil_perm (P : ChunkRecord → Prop) `{!∀ c, Decision (P c)} (l k : list ChunkRecord) :
  (filter P l ++ k ≡ₚ k) ↔ ∀ c, c ∈ l → ¬ P c.
Proof.
  split.
  - intros Hp c Hc HP. apply Permutation_length in Hp. rewrite length_app in Hp.
    assert (filter P l = []) as E by (apply nil_length_inv; lia).
    assert (c ∈ filter P l) as Hin by (by apply list_elem_of_filter). rewrite E in Hin.
    by apply elem_of_nil in Hin.
  - intros Hn. by rewrite filter_none.
Qed.

(** C27: what the two metadata backends make of the request an upload writes,
    whatever Redis held of the file before ([before]: nothing on a first
    upload).  A query returns the file hash and the replica count the file
    backend returns, and no other key is touched.  The file backend returns the
    records of this upload; Redis returns them and, since the upload does not
    clear the key, every earlier record of another chunk or server: the two
    agree, up to order, exactly when the upload writes each earlier record
    again, as on a first upload, where there is none. *)
Theorem redis_upload_agrees (r : R) (s : MetaState) (file hash : bytes) (infos : list ChunkInfo)
    (before : list ChunkRecord) :
  up r → encodes (hashes r (file_key file)) before →
  file ≠ [] → no_char nl file → no_char nl hash →
  carried infos → 0 < replication_factor cfg ≤ INT_MAX →
  let r' := RedisStore.create_entry r (metadata_request cfg file infos hash) in
  let there := RedisStore.query_metadata r' file in
  let here := Metadata.query_metadata (store_metadata cfg s file infos hash) file in
  (hash ≠ [] → file_hash there = file_hash here) ∧ file_replicas there = file_replicas here ∧
  chunks here = map record_of infos ∧
  chunks there ≡ₚ filter (λ c, place_of c ∉ map place_of (chunks here)) before ++ chunks here ∧
  (chunks there ≡ₚ chunks here ↔ ∀ c, c ∈ before → place_of c ∈ map place_of (chunks here)) ∧
  ∀ k, k ≠ file_key file → hashes r' k = hashes r k.
Proof.
  intros Hu He Hf Hfn Hhn Hi Hn. cbv zeta.
  assert (int32_ok (replication_factor cfg)) as Hok by (unfold int32_ok, INT_MIN; lia).
  rewrite upload_stores by done. pose proof (carried_storable _ Hi) as Hst.
  destruct (store_entry_up r file hash 3600 _ _ _ Hu Hst (proj1 Hn) He) as (Hu' & He' & Hk & Hhf & Hrf).
  rewrite put_all_spec in He' by apply Hi.
  destruct (query_after _ file hash _ _ _ Hf Hu' He' Hn eq_refl Hhf Hrf) as (E1 & E2 & E3).
  rewrite store_metadata_replaces by (done || apply Hi).
  unfold Metadata.query_metadata, get_chunks, replace_file_chunks.
  destruct file as [|x file]; [done|]. rewrite persist_locked_store. cbn [store with_store].
  rewrite lookup_insert_eq. cbn [default id file_hash file_replicas chunks].
  rewrite fill_counts_infos by apply Hi.
  unfold default_file_replicas. rewrite !(decide_False (P := replication_factor cfg ≤ 0)) by lia.
  split_and!; [exact E1|done|done|exact E3| |exact Hk].
  rewrite E3, filter_nil_perm. split; intros Hall c Hc; [|naive_solver].
  by apply dec_stable, Hall.
Qed.

Lemma NoDup_places cs : NoDup (map chunk_id cs) → NoDup (map place_of cs).
Proof.
  intros Hnd. assert (map chunk_id cs = map fst (map place_of cs)) as E by by rewrite map_map.
  rewrite E in Hnd. by eapply NoDup_fmap_1.
Qed.

Lemma core_filter_perm addr cs cs' :
  map core cs ≡ₚ map core cs' →
  map core (filter (λ c, server c ≠ addr) cs) ≡ₚ map core (filter (λ c, server c ≠ addr) cs').
Proof.
  assert (∀ l, map core (filter (λ c, server c ≠ addr) l) =
               filter (λ x : Z * bytes * bytes * bytes, x.1.1.2 ≠ addr) (map core l)) as E.
  { induction l as [|c l IH]; [done|]. cbn [map]. rewrite !filter_cons. cbn [core fst snd].
    destruct (decide (server c ≠ addr)); cbn [map]; by rewrite IH. }
  rewrite !E. by intros ->.
Qed.

(** C28: the two backends agree on a failover.  Both record the collected
    updates and then remove what is left on the dead server; from equal records
    of a file, and updates that add places the file did not have, a query
    returns (in some order) the same chunk locations and checksums. *)
Theorem redis_failover_agrees (r : R) (meta : MetaState) (dead primary : bytes) (u : updates)
    (file : bytes) (rec : FileRecord) (before : list ChunkRecord) :
  up r → file ≠ [] → encodes (hashes r (file_key file)) before →
  store meta !! file = Some rec → map core (chunks rec) ≡ₚ map core before →
  (∀ f c, c ∈ entries u f → storable c ∧ server c ≠ [] ∧ server c ≠ dead) →
  (∀ f, NoDup (map chunk_id (entries u f))) →
  (∀ c, c ∈ before → place_of c ∉ map place_of (entries u file)) →
  let r1 := if decide (u = ∅) then r
            else (RedisStore.atomic_replace_server_chunks r dead primary u).1 in
  let meta1 := if decide (u = ∅) then meta
               else (Metadata.atomic_replace_server_chunks meta dead primary u).1 in
  let there := RedisStore.query_metadata (RedisStore.delete_server_metadata r1 dead) file in
  let here := Metadata.query_metadata (Metadata.delete_server_metadata meta1 dead) file in
  map core (chunks there) ≡ₚ map core (chunks here).
Proof.
  intros Hu Hf He Hrec Hcore Hups Hids Hfresh r1 meta1. cbv zeta.
  pose proof (update_store_spec dead meta primary u file
                (λ f c Hc, proj2 (proj2 (Hups f c Hc))) Hids) as Hspec.
  cbv zeta in Hspec. rewrite Hrec in Hspec. destruct Hspec as (rec' & Hst & Hrep & _).
  fold meta1 in Hst.
  assert (Metadata.query_metadata (Metadata.delete_server_metadata meta1 dead) file = rec') as ->.
  { unfold Metadata.query_metadata, get_chunks. rewrite Hst. by destruct file. }
  rewrite (rep_core _ _ _ _ Hrep), map_app, core_filter_perm by done. rewrite <- map_app.
  assert (Forall storable (entries u file) ∧ Forall (λ c, server c ≠ []) (entries u file) ∧
          Forall (λ c, server c ≠ dead) (entries u file)) as (H1 & H2 & H3).
  { rewrite !Forall_forall. split_and!; intros c Hc; by apply (Hups file). }
  assert (up r1 ∧ encodes (hashes r1 (file_key file)) (fold_left (move dead) (entries u file) before))
    as [Hu1 He1].
  { unfold r1. destruct (decide (u = ∅)) as [->|_]; [done|].
    by destruct (replace_up r dead primary u file before) as (? & _ & ?). }
  destruct (purge_up r1 dead file _ Hu1 Hf He1) as [Hu2 He2].
  destruct (up_hgetall _ (file_key file) Hu2) as [h Hh].
  apply Permutation_map. rewrite (encodes_query _ _ _ _ Hf Hh He2).
  by rewrite moves_add_none by auto using NoDup_places.
Qed.
End agreement.

(** ** A concrete server *)
#[export] Instance sim_redis_up : RedisUp RedisSim (λ r, sim_up r = true).
Proof.
  split; intros r; intros; cbn [send hgetall scan_keys sim_redis]; destruct (sim_up r); try done;
    by eexists.
Defined.

Definition redis_cfg : UploadConfig := mkUploadConfig 1024 2 [].
Definition two_infos : list ChunkInfo :=
  [mkInfo 0 (lit "h1:80") (lit "/d/0") 3 (lit "c0") 2; mkInfo 0 (lit "h2:80") (lit "/d/0") 3 (lit "c0") 2].
Definition old_record : ChunkRecord := mkChunk 1 (lit "h1:80") (lit "/d/1") (lit "c1") 1.
Definition moved_record : ChunkRecord := mkChunk 1 (lit "h3:80") (lit "/d/1") (lit "c1") 1.
Definition old_hash : redis_hash := <[field_of (place_of old_record) := value_of old_record]> ∅.
Definition old_redis : RedisSim := mkSim {[file_key (lit "f") := old_hash]} true.
Definition old_meta : MetaState := mkMeta {[lit "f" := mkFile [] 1 [old_record]]} [] true.

Lemma two_carried : carried two_infos.
Proof.
  constructor.
  - repeat apply Forall_cons_2; try done; (constructor; [constructor|done]); by_decision || lit_word.
  - repeat apply Forall_cons_2; try done; by_decision.
  - by_decision.
Qed.

Lemma old_storable : storable old_record.
Proof. constructor; by_decision. Qed.

Lemma moved_storable : storable moved_record.
Proof. constructor; by_decision. Qed.

Lemma old_encodes : encodes (hashes old_redis (file_key (lit "f"))) [old_record].
Proof.
  assert (hashes old_redis (file_key (lit "f")) = old_hash) as ->.
  { cbn [hashes sim_redis]. unfold sim_at, old_redis. cbn [sim_db]. by rewrite lookup_singleton_eq. }
  apply (encodes_put ∅ [] old_record old_storable encodes_empty).
Qed.

Lemma redis_upload_agrees_witness :
  let r := RedisStore.create_entry old_redis
             (metadata_request redis_cfg (lit "f") two_infos (lit "h")) in
  let here := Metadata.query_metadata
                (store_metadata redis_cfg old_meta (lit "f") two_infos (lit "h")) (lit "f") in
  chunks (RedisStore.query_metadata r (lit "f")) ≡ₚ
    filter (λ c, place_of c ∉ map place_of (chunks here)) [old_record] ++ chunks here.
Proof.
  refine (proj1 (proj2 (proj2 (proj2 (redis_upload_agrees redis_cfg old_redis old_meta (lit "f") (lit "h")
            two_infos [old_record] _ _ _ _ _ _ _)))));
    try exact old_encodes; try exact two_carried; by_decision.
Defined.

Lemma redis_failover_agrees_witness :
  let u := {[lit "f" := [moved_record]]} : updates in
  let r := RedisStore.delete_server_metadata
             (RedisStore.atomic_replace_server_chunks old_redis (lit "h1:80") (lit "h3:80") u).1 (lit "h1:80") in
  let meta := Metadata.delete_server_metadata
                (Metadata.atomic_replace_server_chunks old_meta (lit "h1:80") (lit "h3:80") u).1 (lit "h1:80") in
  map core (chunks (RedisStore.query_metadata r (lit "f"))) ≡ₚ
  map core (chunks (Metadata.query_metadata meta (lit "f"))).
Proof.
  intros u r meta.
  apply (redis_failover_agrees old_redis old_meta (lit "h1:80") (lit "h3:80") u (lit "f")
           (mkFile [] 1 [old_record]) [old_record]).
  - done.
  - done.
  - exact old_encodes.
  - by vm_compute.
  - done.
  - intros f c. unfold entries, u. destruct (decide (f = lit "f")) as [->|Hf].
    + rewrite lookup_singleton_eq. intros ->%list_elem_of_singleton.
      split; [exact moved_storable|by split].
    + rewrite lookup_singleton_ne by congruence. by intros ?%elem_of_nil.
  - intros f. unfold entries, u. destruct (decide (f = lit "f")) as [->|Hf].
    + rewrite lookup_singleton_eq. by_decision.
    + rewrite lookup_singleton_ne by congruence. constructor.
  - intros c ->%list_elem_of_singleton. by_decision.
Defined.
