(* ===== verification/Registration.v ===== *)
(** * Registration: what becomes of a cluster server that registers itself

    The request of [ControlClient], the handler of [ControlApi], the health
    monitor ([Health]) and the callback of [Failover] put together.  The head
    server files a new server under an id that is not the server's own, and
    watches that id; the server's heartbeats carry its own. *)
From Stdlib Require Import Lia.
From S2P Require Import Prelude.
From S2P Require Import Text.
From S2P Require Import Ordered.
From S2P Require Import Net.
From S2P Require Import Metadata.
From S2P Require Import Registry.
From S2P Require Import Health.
From S2P Require Import JsonText.
From S2P Require Import Http.
From S2P Require Import ControlApi.
From S2P Require Import ControlClient.
From S2P Require Import Zk.
From S2P Require Import Wire.
From S2P Require Import WireCodec.
From S2P Require Import HeadNet.
From S2P Require Import Cluster.
From S2P Require Import Failover.
From S2P Require Import FailoverSpec.
From S2P Require Import Consensus.
Local Open Scope Z_scope.

(** ** What the monitor watches *)

(** The record the monitor starts with. *)
Lemma registered_watched (now : Z) (m : HealthMonitor) (id : Z) (a : bytes) :
  hm_servers m !! id = None →
  ∃ h, hm_servers (register_server now m id a) !! id = Some h ∧ ip h = a ∧
       last_heartbeat h = now ∧ missed_heartbeats h = 0 ∧ is_healthy h = true.
Proof.
  intros Hm. unfold register_server. rewrite Hm. cbn. rewrite lookup_insert_eq. by eexists.
Qed.

Section registration.
Context {N : Type} `{!Network N} `{!OneShot N} `{!Protobuf} `{!HashOrder bytes FileRecord}.
Variable reachable : bytes → Z → bool.

(** What the handler leaves in the monitor. *)
Lemma self_register_watches (now : Z) (s : Head) (hh h : bytes) (sid p tp pp : Z) :
  word hh → plain_host h → port_ok p → int_ok tp → int_ok pp →
  0 < sid < INT_MAX → count (registry s) < INT_MAX →
  find_endpoint (registry s) h p = None →
  monitor (handle_request reachable now s (self_register_request hh sid h p tp pp)).1 =
  register_server now (monitor s) (Z.max (sid + 1) (count (registry s) + 1)) (show_address h p).
Proof.
  intros Hhh Hh Hp Htp Hpp Hsid Hcount Hnone. unfold self_register_request.
  rewrite handle_request_post by first [done|lit_word]. rewrite route_register.
  destruct (register_fields sid h p tp pp Hh) as (E0 & E1 & E2 & E3 & E4);
    [unfold int_ok, port_ok, INT_MIN in *; lia..|].
  unfold handle_self_register. rewrite E0, E1, E2, E3, E4.
  rewrite decide_False by (destruct Hh as [[[Hne _] _] _]; unfold port_ok in Hp;
    intros [?|?]; [done|lia]).
  rewrite decide_True by lia. assert (0 ≤ count (registry s)) by (unfold count; lia).
  rewrite !sint32_small by (unfold INT_MIN; lia).
  unfold enlist, add_server.
  assert (∀ n, find_endpoint (set_next_id (registry s) n) h p = None) as Hn by done.
  cbn [registry set_next_id reg_next]. by rewrite Hn.
Qed.

(** C12: a live cluster server that registered itself is declared dead.  The head
    server watches it under an id [id] that is not its own [sid]; so after its
    registration, whatever heartbeats arrive under [sid] or any other id but
    [id], whatever else registers and whenever checks are made, as soon as the
    allowed number of checks found [id] stale the unhealthy callback is made
    exactly once with the live server's address.  That callback, in a head
    server whose peers run this control API, reaches the consensus and removes
    the server from the registry. *)
Theorem self_registered_declared_dead (now : Z) (s : Head) (hh h : bytes) (sid p tp pp : Z)
    (es : list health_event) :
  word hh → plain_host h → port_ok p → int_ok tp → int_ok pp →
  0 < sid < INT_MAX → count (registry s) < INT_MAX → find_endpoint (registry s) h p = None →
  health_wf (monitor s) → unhealthy_cb (monitor s) = true → now ≠ 0 →
  let id := Z.max (sid + 1) (count (registry s) + 1) in
  hm_servers (monitor s) !! id = None →
  let s' := (handle_request reachable now s (self_register_request hh sid h p tp pp)).1 in
  Forall (quiet id) es →
  max_missed (monitor s) ≤
    Z.of_nat (length (filter (stale (heartbeat_timeout (monitor s)) now) es)) →
  id ≠ sid ∧
  ∃ hl, about id (run_health (monitor s') es).2 = [Unhealthy id hl] ∧ ip hl = show_address h p ∧
    ∀ (c : ZkClient) (cfg : list (bytes * Z)) (port now_sec : Z) (pr : HeadProcess N),
      hp_head pr = s' → hp_zk pr = register_head c initial_store port → ip hl ∉ hp_recovering pr →
      INT_MIN ≤ port ≤ INT_MAX →
      (∀ n a q n' b, (a, q) ∈ cfg → ask n a q (health_query id a) 1023 = (n', Heard b) →
         from_control_api (health_query id a) b) →
      (∃ e, reg_servers (registry s') !! id = Some e ∧ address e = show_address h p) ∧
      reg_servers (registry (hp_head (on_server_unhealthy cfg port now_sec pr id hl))) !! id = None.
Proof.
  intros Hhh Hh Hp Htp Hpp Hsid Hcount Hnone Hwf Hcb Hnow id Hid s' Hq Hstale.
  pose proof (self_register_files reachable now s hh h sid p tp pp Hhh Hh Hp Htp Hpp Hsid Hcount Hnone)
    as Hreg. cbv zeta in Hreg. fold id in Hreg.
  pose proof (self_register_watches now s hh h sid p tp pp Hhh Hh Hp Htp Hpp Hsid Hcount Hnone) as Hm.
  fold id in Hm. subst s'. destruct (handle_request _ _ _ _) as [s' o]. cbn [fst] in *.
  destruct (registered_watched now (monitor s) id (show_address h p) Hid)
    as (h0 & Hh0 & Hip & Hlast & Hmiss & Hok). rewrite <-Hm in Hh0.
  destruct (step_health_params (monitor s) (Register now id (show_address h p))) as (Ht & Hmax & Hc & _).
  cbn [step_health fst] in Ht, Hmax, Hc. rewrite <-Hm in Ht, Hmax, Hc.
  assert (health_wf (monitor s')) as Hwf'.
  { rewrite Hm. by apply (step_health_wf (monitor s) (Register now id (show_address h p))). }
  assert (last_heartbeat h0 ≠ 0) as Hl by congruence. rewrite Hcb in Hc.
  destruct (silent_counted (monitor s') es id h0 Hwf' Hq Hh0 Hc Hl) as [_ Hlen].
  pose proof (silent_reports (monitor s') es id h0 Hq Hh0 Hc Hl) as Hrep.
  rewrite Hok, Hmiss, Hlast, Ht, Hmax, bool_decide_true in Hlen by lia. cbn [andb] in Hlen.
  destruct (about id _) as [|n [|n' ns]]; [done| |done].
  apply Forall_inv in Hrep. destruct n as [i hl|]; [|done]. destruct Hrep as [-> Hipl].
  destruct Hreg as (Hne & (e & He & _ & Hhost & Hport & _) & _).
  split; [done|]. exists hl. split; [done|]. split; [congruence|].
  intros c cfg port now_sec pr Hhead Hzk Hrec Hport' Hpeers. split.
  { exists e. split; [done|]. unfold address, show_address. by rewrite Hhost, Hport. }
  destruct (failover_registry cfg port now_sec pr id hl) as [_ Hdone].
  rewrite Hdone; [by rewrite remove_server_lookup, decide_True|exact Hrec|].
  rewrite Hzk. destruct (vote_reached c cfg port now_sec id (hp_net pr) Hport' Hpeers) as [n ->].
  reflexivity.
Qed.
End registration.

(** ** A server started with id 1, its heartbeats and the checks *)
Definition beat (t : Z) : health_event := Heartbeat (t * 1000000000) 1 empty_health.
Definition lively : list health_event :=
  [beat 10; beat 20; beat 60; CheckHealth (70 * 1000000000); beat 70; CheckHealth (80 * 1000000000);
   beat 80; CheckHealth (90 * 1000000000); beat 90; CheckHealth (100 * 1000000000)].
Definition registered : Head :=
  (handle_request up 5 demo_head (self_register_request local 1 (lit "10.0.0.9") 8080 8180 8280)).1.

(** Its own record is healthy, the one it was filed under is not. *)
Example lively_but_dead :
  map (λ e : Z * ServerHealth, (e.1, is_healthy e.2)) (zmap_list (hm_servers (run_health (monitor registered) lively).1)) =
  [(1, true); (2, false)].
Proof. by vm_compute. Qed.

Section demo.
Existing Instance net_protobuf.
Existing Instance cluster_network.
Existing Instance silent_peers.

Lemma self_registered_declared_dead_witness :
  ∃ hl, about 2 (run_health (monitor registered) lively).2 = [Unhealthy 2 hl] ∧ ip hl = dead_addr ∧
    (∃ e, reg_servers (registry registered) !! 2 = Some e ∧ address e = dead_addr) ∧
    reg_servers (registry (hp_head (on_server_unhealthy [] 9670 100
      (mkProcess registered failover_meta (register_head demo_client initial_store 9670)
         failover_cluster ∅) 2 hl))) !! 2 = None.
Proof.
  destruct (self_registered_declared_dead up 5 demo_head local (lit "10.0.0.9") 1 8080 8180 8280 lively)
    as (_ & hl & Habout & Hip & Hdead);
    [lit_word|by_decision|by_decision|by_decision|by_decision|done|done|done| |done|done|done| |by_decision|].
  - split; [done|]. apply map_Forall_empty.
  - by repeat constructor.
  - exists hl. split; [exact Habout|]. split; [exact Hip|].
    refine (Hdead demo_client [] 9670 100 (mkProcess registered failover_meta
      (register_head demo_client initial_store 9670) failover_cluster ∅) eq_refl eq_refl _ _ _).
    + apply not_elem_of_empty.
    + by_decision.
    + intros n a q n' b Hin. by apply elem_of_nil in Hin.
Defined.
End demo.
