(* ===== verification/ZkMain.v ===== *)
(** * ZkMain: the ZooKeeper monitor as a program
    ([run_zk_monitor], [start] and [simulate_head_server_registration] of
    src/src/zk_monitor/zk_monitor.cpp)

    The command line, the start, and what holds however long the monitor runs:
    its turns, interleaved with registrations, never write a node that the next
    discovery cannot read. *)
From Stdlib Require Import Lia SpecFloat.
From stdpp Require Import relations.
From S2P Require Import Prelude.
From S2P Require Import Text.
From S2P Require Import Ordered.
From S2P Require Import Float.
From S2P Require Import Zk.
From S2P Require Import ZkPaths.
From S2P Require Import ZkMonitor.
From S2P Require Import ZkMonitorSpec.
Local Open Scope Z_scope.

(** ** The command line *)

(** The hosts and whether the interactive mode is asked for; [None]: the help
    text is printed. *)
Fixpoint zk_arguments (args : list bytes) (zk_hosts : bytes) (interactive : bool)
  : option (bytes * bool) :=
  match args with
  | [] => Some (zk_hosts, interactive)
  | arg :: rest =>
      match decide (arg = lit "--zk-hosts"), rest with
      | left _, value :: rest' => zk_arguments rest' value interactive
      | _, _ =>
          if decide (arg = lit "-i" ∨ arg = lit "--interactive") then zk_arguments rest zk_hosts true
          else if decide (arg = lit "--help") then None
          else zk_arguments rest zk_hosts interactive
      end
  end.

(** ** Starting *)

(** What the start takes from the system: the process's name for itself, the
    address, the clock, and [rand()] for the two registrations. *)
Record Start := mkStart {
  st_id : bytes; st_host : bytes; st_now : Z;
  st_rand1 : Z * Z * Z * Z; st_rand2 : Z * Z * Z * Z }.

(** [start] begins the monitor's thread before the two head servers of the
    deployment are registered. *)
Definition start (st : Start) (zk_hosts : bytes) : Monitor :=
  register_monitor (st_now st) (st_host st) (new_monitor zk_hosts (st_id st) initial_store).

Definition register_deployment (st : Start) (mon : Monitor) : Monitor :=
  let '(now1, c1, m1, k1) := st_rand1 st in
  let '(now2, c2, m2, k2) := st_rand2 st in
  let mon := (simulate_head_server_registration now1 c1 m1 k1 (lit "head_server_1")
                (lit "head-server-1") 9670 mon).1 in
  (simulate_head_server_registration now2 c2 m2 k2 (lit "head_server_2")
     (lit "head-server-2") 9670 mon).1.

(** [None]: help.  [cfg_hosts] is the configured value. *)
Definition run_zk_monitor (st : Start) (cfg_hosts : bytes) (argv : list bytes)
  : option (Monitor * bool) :=
  '(zk_hosts, interactive) ← zk_arguments (drop 1 argv) cfg_hosts false;
  Some (register_deployment st (start st zk_hosts), interactive).

(** A step of the running process: a turn of the monitor's thread, or a
    registration by the main thread (at the start or in interactive mode).  Each
    is one step: the two threads share the table without holding a lock over a
    whole turn.  The start registers addresses without commas; interactive mode
    takes any word, and one with a comma would spell further fields of the
    node's text, so the step asks for an address without.  [rand()] gives the
    remainders. *)
Definition int (z : Z) : Prop := INT_MIN ≤ z ≤ INT_MAX.
Definition time (z : Z) : Prop := LLONG_MIN ≤ z ≤ LLONG_MAX.

Inductive mon_step : Monitor → Monitor → Prop :=
  | step_turn t mon :
      int (t_garbage t) → time (t_election t) → mon_step mon (monitor_turn t mon)
  | step_register now r_cpu r_mem r_conn id ip p mon :
      time now → 0 ≤ r_cpu < 30 → 0 ≤ r_mem < 50 → 0 ≤ r_conn < 100 →
      no_char ","%char ip → int p →
      mon_step mon (simulate_head_server_registration now r_cpu r_mem r_conn id ip p mon).1.

(** ** Fields that are read back *)
#[export] Instance spec_float_eq_dec : EqDecision spec_float.
Proof. solve_decision. Defined.

(** What [std::to_string] prints, [std::stod] reads. *)
Definition printable (f : spec_float) : Prop :=
  match stod (show_f6 f) with Val g => g = f | Throw _ => False end ∧ no_char ","%char (show_f6 f).
#[export] Instance printable_dec f : Decision (printable f).
Proof. unfold printable, no_char. destruct (stod _); apply _. Defined.

Lemma printable_stod f : printable f → stod (show_f6 f) = Val f.
Proof. unfold printable. destruct (stod _); [by intros [-> _]|by intros []]. Qed.

Definition load_value (base r : Z) : spec_float := SFadd f64_prec f64_emax (whole base) (whole r).

Lemma load_printable base r :
  (base = 10 ∧ 0 ≤ r < 30) ∨ (base = 40 ∧ 0 ≤ r < 50) → printable (load_value base r).
Proof.
  intros H. assert (Forall (λ n, printable (load_value 10 (Z.of_nat n))) (seq 0 30)) as H10 by by_decision.
  assert (Forall (λ n, printable (load_value 40 (Z.of_nat n))) (seq 0 50)) as H40 by by_decision.
  rewrite Forall_seq in H10, H40.
  destruct H as [[-> Hr]|[-> Hr]]; rewrite <-(Z2Nat.id r) by lia; [apply H10|apply H40]; lia.
Qed.

Inductive good_field : bytes * bytes → Prop :=
  | gf_ip v : no_char ","%char v → good_field (lit "ip", v)
  | gf_port z : int z → good_field (lit "port", show_Z z)
  | gf_status v : no_char ","%char v → good_field (lit "status", v)
  | gf_cpu f : printable f → good_field (lit "cpu_usage", show_f6 f)
  | gf_memory f : printable f → good_field (lit "memory_usage", show_f6 f)
  | gf_connections z : int z → good_field (lit "active_connections", show_Z z)
  | gf_update z : time z → good_field (lit "last_update", show_Z z).

(** A record whose fields can be written and read again. *)
Record own (info : HeadServerInfo) : Prop := {
  own_ip : no_char ","%char (ip_address info);
  own_port : int (port info);
  own_cpu : printable (cpu_usage info);
  own_memory : printable (memory_usage info);
  own_connections : int (active_connections info)
}.

Lemma set_field_own info kv :
  good_field kv → own info → ∃ info', set_field info kv.1 kv.2 = Val info' ∧ own info'.
Proof.
  intros Hg [H1 H2 H3 H4 H5]. destruct info; simpl in *.
  destruct Hg as [v Hv|z Hz|v Hv|f Hf|f Hf|z Hz|z Hz]; unfold set_field; cbn [fst snd];
    repeat (rewrite decide_False by done); rewrite ?decide_True by done;
    rewrite ?(stoi_show z Hz), ?(stoll_show z Hz), ?(printable_stod f Hf);
    eexists; (split; [reflexivity|]); by constructor.
Qed.

Lemma show_Z_no_comma z : no_char ","%char (show_Z z).
Proof. by apply show_Z_avoids. Qed.

Definition token (kv : bytes * bytes) : bytes := kv.1 ++ "="%char :: kv.2.

Lemma good_token kv : good_field kv → no_char ","%char (token kv) ∧ no_char "="%char kv.1.
Proof.
  intros Hg. assert (no_char ","%char kv.2) as Hv
    by (destruct Hg as [| | |f [_ ?]|f [_ ?]| |]; [done|apply show_Z_no_comma|done|done|done|apply show_Z_no_comma..]).
  assert (no_char ","%char kv.1 ∧ no_char "="%char kv.1) as [H1 H2] by (destruct Hg; split; by_decision).
  split; [|done]. unfold token, no_char in *. rewrite not_elem_of_app, not_elem_of_cons. done.
Qed.

Lemma set_fields_own kvs info :
  Forall good_field kvs → own info →
  ∃ info', set_fields info (map token kvs) = Val info' ∧ own info'.
Proof.
  intros Hg. revert info. induction Hg as [|kv kvs Hkv _ IH]; intros info Hi; [by exists info|].
  destruct (good_token kv Hkv) as [_ Heq]. cbn [map set_fields].
  change (token kv) with (kv.1 ++ "="%char :: kv.2).
  rewrite find_char_app by done. cbv beta iota. rewrite take_app_length, drop_past_char.
  destruct (set_field_own info kv Hkv Hi) as (info' & -> & Hi'). by apply IH.
Qed.

(** A node as the monitor writes it. *)
Definition fields_text (kvs : list (bytes * bytes)) : bytes :=
  match kvs with
  | [] => []
  | kv :: rest => token kv ++ concat (map (λ kv, ","%char :: token kv) rest)
  end.

Lemma getlines_fields kvs :
  Forall good_field kvs → getlines ","%char (fields_text kvs) = map token kvs.
Proof.
  intros Hg. destruct Hg as [|kv kvs Hkv Hg]; [done|]. cbn [fields_text map].
  revert kv Hkv. induction Hg as [|kv' kvs Hkv' _ IH]; intros kv Hkv; cbn [map concat].
  - rewrite app_nil_r. destruct (good_token kv Hkv) as [Hc _]. revert Hc.
    assert (token kv ≠ []) as Hne by (unfold token; by destruct kv.1). revert Hne.
    generalize (token kv). clear. intros s. induction s as [|c s IH]; intros Hne Hc; [done|].
    unfold no_char in Hc. apply not_elem_of_cons in Hc as [Hc Hs].
    cbn [getlines]. rewrite decide_False by done. destruct s as [|c' s]; [done|]. by rewrite IH.
  - cbn [app]. rewrite getlines_cons by apply (good_token kv Hkv). by rewrite IH.
Qed.

(** Data that the next discovery reads without an exception. *)
Definition readable (data : bytes) : Prop :=
  ∀ garbage now, int garbage →
    ∃ info, parse_server_data garbage now data = Val info ∧ own info.

Lemma new_info_own garbage now : int garbage → own (new_info garbage now).
Proof. intros Hg. constructor; [by_decision|done|by_decision..]. Qed.

Lemma fields_readable kvs : Forall good_field kvs → readable (fields_text kvs).
Proof.
  intros Hg garbage now Hi. unfold parse_server_data. rewrite getlines_fields by done.
  apply set_fields_own; [done|by apply new_info_own].
Qed.

Ltac good_fields :=
  repeat (apply Forall_cons_2;
    [first [apply gf_ip|apply gf_port|apply gf_status|apply gf_cpu|apply gf_memory
           |apply gf_connections|apply gf_update]|]);
  [..|apply Forall_nil_2].

Lemma registration_readable now r_cpu r_mem r_conn ip p :
  time now → 0 ≤ r_cpu < 30 → 0 ≤ r_mem < 50 → 0 ≤ r_conn < 100 →
  no_char ","%char ip → int p → readable (registration_data now r_cpu r_mem r_conn ip p).
Proof.
  intros. replace (registration_data now r_cpu r_mem r_conn ip p) with
    (fields_text [(lit "ip", ip); (lit "port", show_Z p); (lit "status", healthy);
                  (lit "cpu_usage", show_f6 (load_value 10 r_cpu));
                  (lit "memory_usage", show_f6 (load_value 40 r_mem));
                  (lit "active_connections", show_Z r_conn); (lit "last_update", show_Z now)]).
  - apply fields_readable. good_fields; [done|done|by_decision|apply load_printable; lia..| |done].
    unfold int, INT_MIN, INT_MAX. lia.
  - unfold registration_data, fields_text, token, field, load_value. cbn [fst snd map concat].
    by rewrite app_nil_r, <-!app_assoc.
Qed.

Lemma promoted_readable now info : time now → own info → readable (promoted_data now info).
Proof.
  intros Ht [H1 H2 H3 H4 H5]. replace (promoted_data now info) with
    (fields_text [(lit "ip", ip_address info); (lit "port", show_Z (port info));
                  (lit "status", lit "leader"); (lit "cpu_usage", show_f6 (cpu_usage info));
                  (lit "memory_usage", show_f6 (memory_usage info));
                  (lit "active_connections", show_Z (active_connections info));
                  (lit "last_update", show_Z now)]).
  - apply fields_readable. good_fields; try done; by_decision.
  - unfold promoted_data, address_fields, fields_text, token, field. cbn [fst snd map concat].
    by rewrite app_nil_r, <-!app_assoc.
Qed.

(** ** What a write changes *)
Definition writes (p data : bytes) (s s' : ZkStore) : Prop :=
  ∀ q n, nodes s' !! q = Some n →
    (q = normalize_path p ∧ node_data n = data) ∨ node_data n = [] ∨
    ∃ n0, nodes s !! q = Some n0 ∧ node_data n0 = node_data n.

Lemma writes_none p data s : writes p data s s.
Proof. intros q n Hn. right; right. by exists n. Qed.

Lemma create_node_writes c s p data eph : writes p data s (create_node c s p data eph false).1.1.
Proof.
  unfold create_node. destruct (negb (connected c)); [apply writes_none|].
  case_decide; [apply writes_none|]. case_decide; [apply writes_none|].
  intros q n. cbn [fst nodes]. unfold link_node.
  assert (∀ m, <[normalize_path p := mkNode data eph 0 ∅]> (nodes s) !! q = Some m →
    (q = normalize_path p ∧ node_data m = data) ∨ ∃ n0, nodes s !! q = Some n0 ∧ node_data n0 = node_data m)
    as Hins.
  { intros m Hm. rewrite lookup_insert in Hm. case_decide; [injection Hm as <-; by left|]. right. by exists m. }
  destruct (parent_path (normalize_path p)) as [|x par].
  { intros Hn. destruct (Hins n Hn); [by left|by right; right]. }
  unfold update_children. rewrite lookup_insert. case_decide as E.
  - intros [= <-]. cbn [with_children node_data]. rewrite E.
    destruct (<[normalize_path p := _]> (nodes s) !! q) as [m|]; [|by right; left].
    destruct (Hins m eq_refl); [by left|by right; right].
  - intros Hn. destruct (Hins n Hn); [by left|by right; right].
Qed.

Lemma writes_after p p' data s s' s'' : writes p' [] s s' → writes p data s' s'' → writes p data s s''.
Proof.
  intros H1 H2 q n Hn. destruct (H2 q n Hn) as [?|[?|(n0 & Hn0 & E)]]; [by left|by right; left|].
  destruct (H1 q n0 Hn0) as [[_ E']|[E'|(n1 & Hn1 & E')]].
  - right; left. congruence.
  - right; left. congruence.
  - right; right. exists n1. split; congruence.
Qed.

Lemma wrapper_create_writes fuel w s p data eph : writes p data s (wrapper_create fuel w s p data eph).1.2.
Proof.
  revert w s p data eph. induction fuel as [|fuel IH]; intros w s p data eph; [apply writes_none|].
  cbn [wrapper_create].
  match goal with |- context [let '(_, _) := ?x in _] => set (way := x) end.
  assert (∃ p', writes p' [] s way.2) as [p' Hw].
  { subst way. destruct (find_last_of "/"%char p) as [[|pos]|];
      [exists []; apply writes_none| |exists []; apply writes_none].
    destruct (node_exists s (take (S pos) p)); [exists []; apply writes_none|].
    exists (take (S pos) p). pose proof (IH (wrapper_connect w) s (take (S pos) p) [] false) as Hk.
    by destruct (wrapper_create fuel _ s _ [] false) as [[? ?] ?]. }
  destruct way as [w2 s2]. pose proof (create_node_writes (zk w2) s2 p data eph) as Hk2.
  destruct (create_node (zk w2) s2 p data eph false) as [[s3 rc] ev]. simpl in *. by eapply writes_after.
Qed.

Lemma put_node_writes w s p data eph : writes p data s (put_node w s p data eph).1.2.
Proof.
  unfold put_node. destruct (node_exists s p); [|apply wrapper_create_writes].
  unfold update_node, set_node_data. destruct (negb _); [apply writes_none|].
  destruct (nodes s !! normalize_path p) as [n0|] eqn:E; [|apply writes_none].
  intros q n. simpl. rewrite lookup_insert. case_decide as Hq.
  - intros [= <-]. left. by rewrite Hq.
  - intros Hn. right; right. by exists n.
Qed.

(** The session survives every write. *)
Lemma connected_ok w : connected (zk w) = true → wrapper_ok w.
Proof. by intros H _. Qed.

Lemma wrapper_create_connected fuel w s p data eph :
  connected (zk w) = true → connected (zk (wrapper_create fuel w s p data eph).1.1) = true.
Proof.
  revert w s p data eph. induction fuel as [|fuel IH]; intros w s p data eph Hw; [done|].
  cbn [wrapper_create]. destruct (wrapper_connect_ok w (connected_ok w Hw)) as [_ Hc1].
  match goal with |- context [let '(_, _) := ?x in _] => set (way := x) end.
  assert (connected (zk way.1) = true) as Hw2.
  { subst way. destruct (find_last_of "/"%char p) as [[|pos]|]; [done| |done].
    destruct (node_exists s (take (S pos) p)); [done|].
    pose proof (IH (wrapper_connect w) s (take (S pos) p) [] false Hc1) as Hk.
    by destruct (wrapper_create fuel _ s _ [] false) as [[? ?] ?]. }
  destruct way as [w2 s2]. pose proof (create_node_events (zk w2) s2 p data eph) as Hev.
  destruct (create_node (zk w2) s2 p data eph false) as [[s3 rc] ev]. cbn [fst snd] in *.
  by apply watch_live.
Qed.

Lemma create_path_ok w s p data eph : wrapper_ok w → wrapper_ok (create_path w s p data eph).1.1.
Proof.
  intros Hw. unfold create_path. cbn [wrapper_create].
  destruct (wrapper_connect_ok w Hw) as [_ Hc1].
  match goal with |- context [let '(_, _) := ?x in _] => set (way := x) end.
  assert (connected (zk way.1) = true) as Hw2.
  { subst way. destruct (find_last_of "/"%char p) as [[|pos]|]; [done| |done].
    destruct (node_exists s (take (S pos) p)); [done|].
    pose proof (wrapper_create_connected (length p) (wrapper_connect w) s (take (S pos) p) [] false Hc1) as Hk.
    by destruct (wrapper_create (length p) _ s _ [] false) as [[? ?] ?]. }
  destruct way as [w2 s2]. pose proof (create_node_events (zk w2) s2 p data eph) as Hev.
  destruct (create_node (zk w2) s2 p data eph false) as [[s3 rc] ev]. cbn [fst snd] in *.
  by apply connected_ok, watch_live.
Qed.

Lemma put_node_ok w s p data eph : wrapper_ok w → wrapper_ok (put_node w s p data eph).1.1.
Proof.
  intros Hw. unfold put_node. destruct (node_exists s p); [|by apply create_path_ok].
  destruct (wrapper_connect_ok w Hw) as [_ Hc1]. unfold update_node, set_node_data.
  destruct (negb _); [by apply connected_ok|].
  destruct (nodes s !! normalize_path p) as [n0|]; cbn [fst snd]; [|by apply connected_ok].
  by apply connected_ok, watch_live, Hc1; apply invoke_live.
Qed.

(** ** The invariant *)
Definition server_nodes_ok (s : ZkStore) : Prop :=
  ∀ name n, nodes s !! normalize_path (server_path name) = Some n → readable (node_data n).

Record sound (w : ZkWrapper) (s : ZkStore) : Prop := {
  so_wrapper : wrapper_ok w;
  so_root : is_Some (nodes s !! slash);
  so_nodes : server_nodes_ok s
}.
Definition mon_sound (mon : Monitor) : Prop := sound (mon_zk mon) (mon_store mon).

(** A path that is no head server's, or data that can be read. *)
Definition harmless (p data : bytes) : Prop :=
  (∀ name, normalize_path (server_path name) ≠ normalize_path p) ∨ readable data.

Lemma no_fields_readable data :
  Forall (λ tok, find_char "="%char tok = None) (getlines ","%char data) → readable data.
Proof.
  intros H garbage now Hg. exists (new_info garbage now). split; [|by apply new_info_own].
  unfold parse_server_data. induction H as [|tok toks Ht _ IH]; [done|]. cbn. by rewrite Ht.
Qed.

Lemma writes_sound p data s s' :
  writes p data s s' → harmless p data → server_nodes_ok s → server_nodes_ok s'.
Proof.
  intros Hw Hp Hs name n Hn. destruct (Hw _ n Hn) as [[E Hd]|[->|(n0 & Hn0 & <-)]].
  - destruct Hp as [Hp|Hp]; [by destruct (Hp name)|by rewrite Hd].
  - apply (fields_readable []). constructor.
  - by eapply Hs.
Qed.

Lemma create_path_sound w s p data eph :
  sound w s → harmless p data →
  sound (create_path w s p data eph).1.1 (create_path w s p data eph).1.2.
Proof.
  intros [Hw Hr Hn] Hp. constructor; [by apply create_path_ok| |].
  - by apply (kept_some s); [apply wrapper_create_kept|].
  - eapply writes_sound; [apply wrapper_create_writes|done|done].
Qed.

Lemma put_node_sound w s p data eph :
  sound w s → harmless p data →
  sound (put_node w s p data eph).1.1 (put_node w s p data eph).1.2.
Proof.
  intros [Hw Hr Hn] Hp. constructor; [by apply put_node_ok| |].
  - by eapply kept_except_some; [apply put_node_kept|].
  - eapply writes_sound; [apply put_node_writes|done|done].
Qed.

(** Paths that differ from the head servers' in one character. *)
Lemma harmless_at i c c' p data :
  head p = Some "/"%char → p !! i = Some c → HEAD_SERVERS_PATH !! i = Some c' →
  c ≠ "/"%char → c' ≠ "/"%char → c ≠ c' → harmless p data.
Proof.
  intros Hh Hp Hs H1 H2 Hne. left. intros name E.
  pose proof (normalize_keeps p i c Hh Hp H1) as Hc.
  assert (server_path name !! i = Some c') as Hs'.
  { unfold server_path. by apply lookup_app_l_Some. }
  pose proof (normalize_keeps (server_path name) i c' eq_refl Hs' H2) as Hc'. congruence.
Qed.

Lemma harmless_leader data : harmless LEADER_PATH data.
Proof. by apply (harmless_at 23 "l"%char "h"%char). Qed.
Lemma harmless_report p data : harmless (REPORTS_PATH ++ p) data.
Proof. by apply (harmless_at 26 "l"%char "d"%char). Qed.
Lemma harmless_monitors p data : harmless (MONITORS_PATH ++ p) data.
Proof. by apply (harmless_at 23 "m"%char "h"%char). Qed.

(** ** Every step keeps it *)
Lemma register_sound now r_cpu r_mem r_conn id ip p mon :
  mon_sound mon → readable (registration_data now r_cpu r_mem r_conn ip p) →
  mon_sound (simulate_head_server_registration now r_cpu r_mem r_conn id ip p mon).1.
Proof. intros Hm Hd. apply create_path_sound; [done|by right]. Qed.

Lemma start_sound st hosts : mon_sound (start st hosts).
Proof.
  apply create_path_sound; [|by apply harmless_monitors].
  assert (harmless ZK_ROOT_PATH (lit "Distributed File Grid Root")) as H1
    by (right; apply no_fields_readable; by_decision).
  assert (harmless HEAD_SERVERS_PATH (lit "Head Servers Registry")) as H2
    by (right; apply no_fields_readable; by_decision).
  unfold new_monitor. cbn [mon_zk mon_store]. repeat apply create_path_sound; try done.
  - constructor; [|by_decision|].
    + apply wrapper_connect_ok. by intros [=].
    + intros name n Hn. cbn in Hn. apply lookup_singleton_Some in Hn as [_ <-].
      apply (fields_readable []). constructor.
  - apply (harmless_monitors []).
  - apply (harmless_report []).
Qed.

Definition all_own (m : gmap bytes HeadServerInfo) : Prop := map_Forall (λ _, own) m.

Lemma discover_sound garbage now s m names :
  server_nodes_ok s → int garbage → all_own m →
  (discover garbage now s m names).2 = true ∧ all_own (discover garbage now s m names).1.
Proof.
  intros Hs Hg. revert m. induction names as [|name names IH]; intros m Hm; [done|].
  cbn [discover]. unfold add_server. destruct (get_node_data s (server_path name)) as [|c data] eqn:E.
  { by apply IH. }
  assert (readable (c :: data)) as Hr.
  { unfold get_node_data in E. destruct (nodes s !! _) as [n|] eqn:En; [|done].
    rewrite <-E. by eapply Hs. }
  destruct (Hr garbage now Hg) as (info & -> & [H1 H2 H3 H4 H5]). cbn. apply IH.
  apply map_Forall_insert_2; [|done]. by constructor.
Qed.

Lemma own_identity a b : identity a = identity b → own b → own a.
Proof. intros [= _ E1 E2 _ E3 E4 E5] [H1 H2 H3 H4 H5]. constructor; congruence. Qed.

Lemma all_own_identity m m' : identity <$> m = identity <$> m' → all_own m' → all_own m.
Proof.
  intros E Hm id info Hi. destruct (identity_lookup _ _ _ _ E Hi) as (info' & Hi' & Hid).
  apply (own_identity _ info'); [done|]. by eapply Hm.
Qed.

Lemma own_status info st leader : own info → own (with_status info st leader).
Proof. intros [H1 H2 H3 H4 H5]. by constructor. Qed.

Lemma election_sound now check_at recheck_at attempt reattempt mon :
  mon_sound mon → time now → all_own (head_servers mon) →
  leaderless (head_servers mon) → keyed (head_servers mon) →
  mon_sound (perform_leader_election now check_at recheck_at attempt reattempt mon).
Proof.
  intros Hs Ht Hown Hll Hkey. unfold perform_leader_election.
  rewrite (review_leaderless now check_at attempt mon Hll).
  destruct (consider_spec recheck_at reattempt (head_servers mon) (failure_counts mon)
              (smap_list (head_servers mon))) as (Hid & _).
  { apply ordered_strict; apply _. }
  { intros [id info] He%elem_of_ordered. split; [done|]. by apply Hkey. }
  destruct (fold_left _ _ _) as [[m cs] best]. cbn [fst snd] in Hid.
  apply (all_own_identity _ _ Hid) in Hown. destruct best as [[id b]|].
  - rewrite clear_no_leader. destruct (m !! id) as [info|] eqn:Em; [|done].
    apply put_node_sound; [apply put_node_sound; [done|apply harmless_leader]|].
    right. apply promoted_readable; [done|]. by apply own_status, (Hown id).
  - destruct (least_failures m) as [[id info]|]; [|done].
    apply put_node_sound; [done|apply harmless_leader].
Qed.

Lemma turn_sound t mon :
  mon_sound mon → int (t_garbage t) → time (t_election t) →
  (discover_head_servers (t_garbage t) (t_discovered t) mon).2 = true ∧ mon_sound (monitor_turn t mon).
Proof.
  intros Hs Hg Ht. unfold monitor_turn.
  pose proof (discovered_fresh (t_garbage t) (t_discovered t) mon) as Hfresh.
  unfold discover_head_servers in *.
  destruct (discover_sound (t_garbage t) (t_discovered t) (mon_store mon) ∅
              (get_children (mon_store mon) HEAD_SERVERS_PATH)) as [Hok Hown];
    [apply Hs|done|apply map_Forall_empty|].
  destruct (discover _ _ _ _ _) as [m ok]. cbn [fst snd] in *. subst ok. split; [done|].
  destruct (check_servers_spec t (with_servers mon m)) as (Hid & _ & Hz & Hst & _).
  set (mon2 := check_servers t (with_servers mon m)) in *. cbn [head_servers with_servers] in *.
  apply put_node_sound; [apply create_path_sound|].
  - apply election_sound; [|done|by eapply all_own_identity| |].
    + unfold mon_sound. by rewrite Hz, Hst.
    + apply (leaderless_identity _ _ Hid). intros id info Hm. by apply (Hfresh id info Hm).
    + apply (keyed_identity _ _ Hid). intros id info Hm. by apply (Hfresh id info Hm).
  - apply (harmless_report []).
  - apply harmless_report.
Qed.

Lemma steps_sound mon mon' : rtc mon_step mon mon' → mon_sound mon → mon_sound mon'.
Proof.
  induction 1 as [|mon1 mon2 mon3 Hstep _ IH]; intros Hs; [done|]. apply IH.
  destruct Hstep as [t mon Hg Ht|now r_cpu r_mem r_conn id ip p mon Ht Hc Hm Hk Hip Hp].
  - by apply turn_sound.
  - apply register_sound; [done|]. by apply registration_readable.
Qed.

(** What the start draws is in range. *)
Definition draws (r : Z * Z * Z * Z) : Prop :=
  let '(now, c, m, k) := r in time now ∧ 0 ≤ c < 30 ∧ 0 ≤ m < 50 ∧ 0 ≤ k < 100.

(** The two registrations of the deployment are such steps, so what holds for
    every interleaving of the two threads holds for the whole program. *)
Lemma deployment_steps st mon :
  draws (st_rand1 st) → draws (st_rand2 st) → rtc mon_step mon (register_deployment st mon).
Proof.
  unfold register_deployment, draws. destruct (st_rand1 st) as [[[n1 c1] m1] k1], (st_rand2 st) as [[[n2 c2] m2] k2].
  intros (H1 & H2 & H3 & H4) (H5 & H6 & H7 & H8).
  eapply rtc_l; [|apply rtc_once]; (apply step_register; try done; by_decision).
Qed.

(** C18: the monitor never stops itself.  From its start and without requests to
    its API, however its thread's turns and the main thread's registrations are
    interleaved as whole steps, for registered addresses without commas, and
    whatever the network and the clock answer, the next discovery reads every
    node (so the turn is not cut short by an exception), and the turn elects
    exactly one leader, as in [monitor_turn_elects], whenever some discovered
    server is trusted or reached. *)
Theorem monitor_never_stops_itself (st : Start) (hosts : bytes) (mon : Monitor) (t : Turn) :
  rtc mon_step (start st hosts) mon → int (t_garbage t) → time (t_election t) →
  (discover_head_servers (t_garbage t) (t_discovered t) mon).2 = true ∧
  ((∃ c, discovered t mon !! c.1 = Some c.2 ∧ up t c) → ∃ c, turn_leader t mon c).
Proof.
  intros Hr Hg Ht. pose proof (steps_sound _ _ Hr (start_sound st hosts)) as Hs.
  destruct (turn_sound t mon Hs Hg Ht) as [Hok _]. split; [done|].
  destruct Hs as [Hw Hroot _]. by apply turn_elects.
Qed.

Definition demo_start : Start :=
  mkStart (lit "monitor_1") (lit "10.0.0.9") 5 (7, 20, 7, 3) (8, 4, 7, 3).

Example demo_elects :
  match run_zk_monitor demo_start (lit "localhost:2181") (map lit ["dfg"; "--zk-hosts"; "zk:2181"]%string) with
  | Some (mon, interactive) =>
      (hosts (zk (mon_zk mon)), interactive, leader_server_id (monitor_turn demo_turn mon))
  | None => ([], true, [])
  end = (lit "zk:2181", false, lit "head_server_1").
Proof. by vm_compute. Qed.

Lemma monitor_never_stops_itself_witness :
  ∃ c, turn_leader demo_turn (register_deployment demo_start (start demo_start (lit "zk:2181"))) c.
Proof.
  apply (monitor_never_stops_itself demo_start (lit "zk:2181")).
  - apply deployment_steps; by_decision.
  - done.
  - done.
  - exists (lit "head_server_1", mkInfo (lit "head_server_1") (lit "head-server-1") 9670 7 1000 false healthy
              (load_value 10 20) (load_value 40 7) 3 0).
    split; [by vm_compute|]. left. by vm_compute.
Defined.
