(* ===== verification/Metrics.v ===== *)
(** * Metrics: what the processes export to Prometheus
    (src/src/head_server/metrics.hpp, src/src/cluster_server/metrics_exporter.cpp,
    the constructors of src/src/health_checker/health_checker.cpp and
    src/src/zk_monitor/zk_monitor.cpp)

    The client library is an argument: what a scrape reports of a counter or
    gauge, by family name and labels.  Values are doubles. *)
From Stdlib Require Import Lia SpecFloat.
From stdpp Require Import relations.
From S2P Require Import Prelude.
From S2P Require Import Text.
From S2P Require Import Float.
Local Open Scope Z_scope.

Abbreviation double := spec_float.
Definition add64 (x y : double) : double := SFadd f64_prec f64_emax x y.
Definition of_Z64 (n : Z) : double := binary_normalize f64_prec f64_emax n 0 false.
Definition zero64 : double := S754_zero false.
Definition one64 : double := of_Z64 1.

Inductive kind := Counter | Gauge | Histogram.
Abbreviation Labels := (list (bytes * bytes)).

(** A registered family, and whether it gets its one metric without labels at
    once ([.Add({})]). *)
Record family := mkFamily {
  fam_kind : kind; fam_name : bytes; fam_help : bytes; fam_single : bool }.

(** The library: [Family::Add] creates a metric at zero or finds it, [Increment]
    ignores what is not a positive number, histograms are read elsewhere. *)
Definition increases (v : double) : bool :=
  match v with S754_finite s _ _ | S754_infinity s => negb s | _ => false end.
Class Prometheus (R : Type) := {
  exposed : R → bytes → Labels → option double;
  family_add : R → bytes → Labels → R;
  increment : R → bytes → Labels → double → R;
  gauge_set : R → bytes → Labels → double → R;
  observe : R → bytes → Labels → double → R;
  family_add_exposed r n l n' l' :
    exposed (family_add r n l) n' l' =
      if decide ((n', l') = (n, l)) then Some (default zero64 (exposed r n l)) else exposed r n' l';
  increment_exposed r n l v n' l' :
    exposed (increment r n l v) n' l' =
      if decide ((n', l') = (n, l))
      then (λ x, if increases v then add64 x v else x) <$> exposed r n l else exposed r n' l';
  gauge_set_exposed r n l v n' l' :
    exposed (gauge_set r n l v) n' l' =
      if decide ((n', l') = (n, l)) then (λ _, v) <$> exposed r n l else exposed r n' l';
  observe_exposed r n l v n' l' : exposed (observe r n l v) n' l' = exposed r n' l'
}.

(** A registry that keeps the promise. *)
Abbreviation Registered := (gmap (bytes * Labels) double).
Lemma registered_alter (r : Registered) k (f : double → double) n' l' :
  alter f k r !! (n', l') = if decide ((n', l') = k) then f <$> r !! k else r !! (n', l').
Proof. case_decide as E; [by rewrite E, lookup_alter_eq|by rewrite lookup_alter_ne by congruence]. Qed.
Lemma registered_insert (r : Registered) k v n' l' :
  <[k := v]> r !! (n', l') = if decide ((n', l') = k) then Some v else r !! (n', l').
Proof. case_decide as E; [by rewrite E, lookup_insert_eq|by rewrite lookup_insert_ne by congruence]. Qed.
#[export] Instance registered_prometheus : Prometheus Registered := {|
  exposed r n l := r !! (n, l);
  family_add r n l := <[(n, l) := default zero64 (r !! (n, l))]> r;
  increment r n l v := alter (λ x, if increases v then add64 x v else x) (n, l) r;
  gauge_set r n l v := alter (λ _, v) (n, l) r;
  observe r n l v := r;
  family_add_exposed r n l n' l' := registered_insert r (n, l) _ n' l';
  increment_exposed r n l v n' l' := registered_alter r (n, l) _ n' l';
  gauge_set_exposed r n l v n' l' := registered_alter r (n, l) _ n' l';
  observe_exposed r n l v n' l' := eq_refl
|}.

(** ** The families of each program *)
Definition head_families : list family :=
  [mkFamily Counter (lit "head_files_uploaded_total") (lit "Total number of files uploaded") true;
   mkFamily Counter (lit "head_files_downloaded_total") (lit "Total number of files downloaded") true;
   mkFamily Counter (lit "head_chunks_created_total") (lit "Total number of chunks created from file splits") true;
   mkFamily Counter (lit "head_chunks_transferred_total") (lit "Total chunks transferred to cluster servers") true;
   mkFamily Counter (lit "head_bytes_ingested_total") (lit "Total bytes ingested from file uploads") true;
   mkFamily Counter (lit "head_read_repairs_total") (lit "Total number of read repairs performed") true;
   mkFamily Counter (lit "head_corruption_detected_total")
     (lit "Total number of data corruptions detected via hash voting") true;
   mkFamily Counter (lit "head_errors_total") (lit "Total errors during file operations") false;
   mkFamily Gauge (lit "head_healthy_cluster_servers") (lit "Number of currently healthy cluster servers") true;
   mkFamily Histogram (lit "head_chunk_transfer_duration_seconds")
     (lit "Time taken to transfer chunks to cluster servers") true].

Definition exporter_families : list family :=
  [mkFamily Gauge (lit "heartbeat_active_connections") (lit "Number of active connections") true;
   mkFamily Gauge (lit "system_cpu_usage_percent") (lit "CPU usage percentage") true;
   mkFamily Gauge (lit "system_ram_usage_percent") (lit "RAM usage percentage") true;
   mkFamily Gauge (lit "system_disk_usage_percent") (lit "Disk usage percentage") true;
   mkFamily Counter (lit "heartbeat_messages_received_total") (lit "Total number of messages received") true;
   mkFamily Counter (lit "heartbeat_bytes_received_total") (lit "Total bytes received") true;
   mkFamily Counter (lit "heartbeat_errors_total") (lit "Total number of errors") false;
   mkFamily Counter (lit "heartbeat_errors_unknown_total") (lit "Total number of unknown errors") true;
   mkFamily Histogram (lit "heartbeat_processing_time_seconds") (lit "Message processing time in seconds") true].

Definition checker_families : list family :=
  [mkFamily Counter (lit "hc_heartbeats_received_total") (lit "Total heartbeats received") true;
   mkFamily Counter (lit "hc_servers_marked_unhealthy_total")
     (lit "Total times a server was marked unhealthy") true;
   mkFamily Counter (lit "hc_servers_recovered_total") (lit "Total times a server recovered") true;
   mkFamily Counter (lit "hc_replications_triggered_total") (lit "Total re-replications triggered") true;
   mkFamily Gauge (lit "hc_healthy_servers") (lit "Number of currently healthy servers") true;
   mkFamily Gauge (lit "hc_server_cpu_usage_percent") (lit "CPU usage percentage per cluster server") false;
   mkFamily Gauge (lit "hc_server_ram_usage_percent") (lit "RAM usage percentage per cluster server") false;
   mkFamily Gauge (lit "hc_server_disk_usage_percent") (lit "Disk usage percentage per cluster server") false;
   mkFamily Gauge (lit "hc_server_network_in_bytes_per_sec")
     (lit "Network ingress bytes/sec per cluster server") false;
   mkFamily Gauge (lit "hc_server_network_out_bytes_per_sec")
     (lit "Network egress bytes/sec per cluster server") false;
   mkFamily Gauge (lit "hc_server_healthy") (lit "Whether each cluster server is healthy (1=yes, 0=no)") false].

Definition monitor_families : list family :=
  [mkFamily Counter (lit "zk_leader_elections_total") (lit "Total number of leader elections performed") true;
   mkFamily Counter (lit "zk_health_checks_total") (lit "Total number of health checks performed") true;
   mkFamily Counter (lit "zk_health_check_failures_total") (lit "Total number of failed health checks") true;
   mkFamily Counter (lit "zk_reconnections_total") (lit "Total ZooKeeper reconnection attempts") true;
   mkFamily Gauge (lit "zk_connected") (lit "Whether ZooKeeper is currently connected (1=yes, 0=no)") true;
   mkFamily Gauge (lit "zk_total_head_servers") (lit "Total number of discovered head servers") true;
   mkFamily Gauge (lit "zk_healthy_head_servers") (lit "Number of healthy head servers") true;
   mkFamily Gauge (lit "zk_has_leader") (lit "Whether a leader is currently elected (1=yes, 0=no)") true;
   mkFamily Gauge (lit "zk_head_server_status") (lit "Health status per head server (1=healthy, 0=unhealthy)") false;
   mkFamily Gauge (lit "zk_head_server_cpu_percent") (lit "CPU usage percentage per head server") false;
   mkFamily Gauge (lit "zk_head_server_memory_percent") (lit "Memory usage percentage per head server") false].

Section exports.
Context {R : Type} `{!Prometheus R}.

Definition register_family (r : R) (f : family) : R :=
  if fam_single f then family_add r (fam_name f) [] else r.
Definition with_families (fs : list family) (r : R) : R := fold_left register_family fs r.
Definition labelled (n key value : bytes) (v : double) (r : R) : R :=
  gauge_set (family_add r n [(key, value)]) n [(key, value)] v.

(** ** [HeadServerMetrics] *)
Definition new_head_metrics (r : R) : R := with_families head_families r.
Definition record_file_upload (size n_chunks : Z) (r : R) : R :=
  let r := increment r (lit "head_files_uploaded_total") [] one64 in
  let r := increment r (lit "head_bytes_ingested_total") [] (of_Z64 size) in
  increment r (lit "head_chunks_created_total") [] (of_Z64 n_chunks).
Definition record_file_download (r : R) : R := increment r (lit "head_files_downloaded_total") [] one64.
Definition record_chunk_transfer (seconds : double) (r : R) : R :=
  observe (increment r (lit "head_chunks_transferred_total") [] one64)
    (lit "head_chunk_transfer_duration_seconds") [] seconds.
Definition record_read_repair (r : R) : R := increment r (lit "head_read_repairs_total") [] one64.
Definition record_corruption (r : R) : R := increment r (lit "head_corruption_detected_total") [] one64.
Definition record_head_error (type : bytes) (r : R) : R :=
  let l := [(lit "type", type)] in
  increment (family_add r (lit "head_errors_total") l) (lit "head_errors_total") l one64.
Definition set_healthy_servers (n : Z) (r : R) : R :=
  gauge_set r (lit "head_healthy_cluster_servers") [] (of_Z64 n).

(** ** [MetricsExporter] *)
Definition new_exporter (r : R) : R := with_families exporter_families r.
Definition update_connections (n : Z) (r : R) : R :=
  gauge_set r (lit "heartbeat_active_connections") [] (of_Z64 n).
(** Floats are doubles already. *)
Definition update_system_metrics (cpu ram disk : spec_float) (r : R) : R :=
  let r := gauge_set r (lit "system_cpu_usage_percent") [] cpu in
  let r := gauge_set r (lit "system_ram_usage_percent") [] ram in
  gauge_set r (lit "system_disk_usage_percent") [] disk.
Definition record_message (size : Z) (nanoseconds : double) (r : R) : R :=
  let r := increment r (lit "heartbeat_messages_received_total") [] one64 in
  let r := increment r (lit "heartbeat_bytes_received_total") [] (of_Z64 size) in
  observe r (lit "heartbeat_processing_time_seconds") []
    (SFdiv f64_prec f64_emax nanoseconds (of_Z64 1000000000)).
Definition record_error (type : bytes) (r : R) : R :=
  match type with
  | [] => increment r (lit "heartbeat_errors_unknown_total") [] one64
  | _ => let l := [(lit "type", type)] in
         increment (family_add r (lit "heartbeat_errors_total") l) (lit "heartbeat_errors_total") l one64
  end.

(** ** [HealthChecker] and [ZooKeeperHeadServerMonitor] *)
Definition new_checker_metrics (r : R) : R := with_families checker_families r.
Definition new_monitor_metrics (r : R) : R :=
  gauge_set (with_families monitor_families r) (lit "zk_connected") [] one64.

(** One health check of a head server in the monitoring loop. *)
Definition export_head_server (id : bytes) (healthy : bool) (cpu mem : double) (r : R) : R :=
  let r := increment r (lit "zk_health_checks_total") [] one64 in
  let r := if healthy then r else increment r (lit "zk_health_check_failures_total") [] one64 in
  let r := labelled (lit "zk_head_server_status") (lit "server") id (if healthy then one64 else zero64) r in
  let r := labelled (lit "zk_head_server_cpu_percent") (lit "server") id cpu r in
  labelled (lit "zk_head_server_memory_percent") (lit "server") id mem r.
(** The counts at the end of the checks, and an election that found a leader. *)
Definition export_head_counts (total healthy : Z) (r : R) : R :=
  gauge_set (gauge_set r (lit "zk_total_head_servers") [] (of_Z64 total))
    (lit "zk_healthy_head_servers") [] (of_Z64 healthy).
Definition export_election (r : R) : R :=
  gauge_set (increment r (lit "zk_leader_elections_total") [] one64) (lit "zk_has_leader") [] one64.
End exports.

(** ** What can never be seen *)
Section stuck.
Context {R : Type} `{!Prometheus R}.

(** The exports of the monitor's process after its constructor. *)
Inductive monitor_export : R → R → Prop :=
  | export_check r id healthy cpu mem : monitor_export r (export_head_server id healthy cpu mem r)
  | export_counts r total healthy : monitor_export r (export_head_counts total healthy r)
  | export_elected r : monitor_export r (export_election r).

Ltac exposure :=
  repeat (first [rewrite family_add_exposed|rewrite increment_exposed|rewrite gauge_set_exposed
                |rewrite observe_exposed];
          first [rewrite decide_False by (by intros [=])|rewrite decide_True by done|case_decide]).

Lemma registered_once (fs : list family) (r : R) n :
  NoDup (map fam_name fs) → exposed (with_families fs r) n [] =
    if decide (Exists (λ f, fam_name f = n ∧ fam_single f = true) fs)
    then Some (default zero64 (exposed r n [])) else exposed r n [].
Proof.
  intros Hnd. revert r. induction fs as [|f fs IH]; intros r.
  { rewrite decide_False; [done|]. by intros ?%Exists_nil. }
  cbn [map] in Hnd. apply NoDup_cons in Hnd as [Hf Hnd].
  unfold with_families in *. cbn [fold_left]. rewrite IH by done. unfold register_family.
  assert (fam_name f = n → ¬ Exists (λ g, fam_name g = n ∧ fam_single g = true) fs) as Hno.
  { intros <- (g & Hg & E & _)%Exists_exists. apply Hf. rewrite <- E. by apply (list_elem_of_fmap_2 fam_name). }
  destruct (decide (Exists _ fs)) as [He|He].
  - rewrite (decide_True (P := Exists _ (f :: fs))) by by right. f_equal.
    destruct (fam_single f); [|done]. rewrite family_add_exposed, decide_False; [done|].
    intros [= ->]. by apply (Hno eq_refl).
  - destruct (decide (Exists _ (f :: fs))) as [He'|He'].
    + apply Exists_cons in He' as [[<- ->]|?]; [|done]. by rewrite family_add_exposed, decide_True.
    + destruct (fam_single f) eqn:Es; [|done]. rewrite family_add_exposed, decide_False; [done|].
      intros [= ->]. apply He'. left. by split.
Qed.

Lemma names_distinct :
  NoDup (map fam_name head_families) ∧ NoDup (map fam_name exporter_families) ∧
  NoDup (map fam_name checker_families) ∧ NoDup (map fam_name monitor_families).
Proof. by_decision. Qed.

Lemma monitor_export_keeps r r' n :
  n ∉ [lit "zk_health_checks_total"; lit "zk_health_check_failures_total"; lit "zk_head_server_status";
       lit "zk_head_server_cpu_percent"; lit "zk_head_server_memory_percent";
       lit "zk_total_head_servers"; lit "zk_healthy_head_servers"; lit "zk_leader_elections_total";
       lit "zk_has_leader"] →
  monitor_export r r' → exposed r' n [] = exposed r n [].
Proof.
  rewrite !not_elem_of_cons. intros (H1 & H2 & H3 & H4 & H5 & H6 & H7 & H8 & H9 & _) [].
  - unfold export_head_server, labelled. destruct healthy; exposure; congruence.
  - unfold export_head_counts. exposure; congruence.
  - unfold export_election. exposure; congruence.
Qed.

(** The monitor says for ever that ZooKeeper is connected and that it never
    reconnected. *)
Theorem connected_gauge_stuck (r0 r : R) :
  rtc monitor_export (new_monitor_metrics r0) r →
  exposed r (lit "zk_connected") [] = Some one64 ∧
  exposed r (lit "zk_reconnections_total") [] =
    Some (default zero64 (exposed r0 (lit "zk_reconnections_total") [])).
Proof.
  intros Hr. assert (∀ n x, n = lit "zk_connected" ∨ n = lit "zk_reconnections_total" →
    rtc monitor_export x r → exposed r n [] = exposed x n []) as Hkeep.
  { clear Hr. intros n x Hn. induction 1 as [|a b c Hab _ IH]; [done|]. rewrite IH by done.
    apply monitor_export_keeps; [|done]. destruct Hn as [->| ->]; by_decision. }
  rewrite (Hkeep (lit "zk_connected") _ (or_introl eq_refl) Hr).
  rewrite (Hkeep (lit "zk_reconnections_total") _ (or_intror eq_refl) Hr). unfold new_monitor_metrics. exposure.
  pose proof names_distinct as (_ & _ & _ & Hnd). rewrite !registered_once by done.
  rewrite !decide_True by by_decision. done.
Qed.

(** The head server only ever sets one gauge: whatever is uploaded, downloaded
    or fails, its counters stay what they were at the start. *)
Theorem head_counters_stuck (r0 : R) (healthy : list Z) (n : bytes) :
  n ≠ lit "head_healthy_cluster_servers" →
  exposed (fold_left (λ r k, set_healthy_servers k r) healthy (new_head_metrics r0)) n [] =
  exposed (new_head_metrics r0) n [].
Proof.
  intros Hn. generalize (new_head_metrics r0). induction healthy as [|k ks IH]; intros r; [done|].
  cbn [fold_left]. rewrite IH. unfold set_healthy_servers. rewrite gauge_set_exposed.
  rewrite decide_False; [done|]. intros E. apply (f_equal fst) in E. by apply Hn.
Qed.
End stuck.
