(* ===== verification/Settings.v ===== *)
(** * Settings: the configurations of a process and their reload
    (the singletons, SIGHUP, the warnings and [dump] of
    src/src/common/include/dfg/config_loader.hpp)

    Four services have a configuration each, created at the first access; one
    counter of SIGHUPs is shared by all of them.  Printed text is a list of
    lines. *)
From Stdlib Require Import Lia SpecFloat.
From S2P Require Import Prelude.
From S2P Require Import Text.
From S2P Require Import Ordered.
From S2P Require Import Float.
From S2P Require Import JsonText.
From S2P Require Import Config.
Local Open Scope Z_scope.

(** ** [get_double], [dump] *)
Definition get_double (getenv : bytes → option bytes) (cfg : ConfigLoader) (key : bytes)
    (default_val : spec_float) : spec_float :=
  match get_string getenv cfg key [] with
  | [] => default_val
  | v => try_catch (stod v) default_val
  end.

Definition dump (cfg : ConfigLoader) : list bytes :=
  (lit "=== Config loaded from " ++ filepath cfg ++ lit " ===") ::
  map (λ kv : bytes * bytes, lit "  " ++ kv.1 ++ lit " = " ++ kv.2) (ordered str_le (values cfg)).

(** ** The warnings *)
Record DefaultEntry := mkDefault { key : bytes; default_value : bytes }.

Definition esc (s : bytes) : bytes := Ascii.ascii_of_nat 27 :: s.
Definition yellow (s : bytes) : bytes := esc (lit "[33m") ++ s ++ esc (lit "[0m").

Definition print_config_warnings (cfg : ConfigLoader) (service_name : bytes)
    (paths : list bytes) (defaults : list DefaultEntry) : list bytes :=
  if loaded cfg then []
  else
    [[]; yellow (lit "╔══════════════════════════════════════════════════════════════════╗");
     esc (lit "[33m║  ⚠  CONFIG NOT LOADED — ") ++ service_name;
     yellow (lit "╚══════════════════════════════════════════════════════════════════╝");
     yellow (lit "  None of the following config files could be loaded:")] ++
    map (λ path, yellow (lit "    • " ++ path)) paths ++
    [[]; yellow (lit "  Using default values:")] ++
    map (λ d, yellow (lit "    " ++ key d ++ lit " = " ++ default_value d)) defaults ++
    [[]; yellow (lit "  To fix: place a valid JSON config file at one of the paths above,");
     yellow (lit "  or set individual values via DFG_<KEY> environment variables."); []].

(** ** The services *)
Inductive service := HeadServer | HealthChecker | ClusterServer | ZooKeeper.
#[export] Instance service_eq_dec : EqDecision service.
Proof. solve_decision. Defined.

Definition service_paths (s : service) : list bytes :=
  match s with
  | HeadServer => head_server_paths
  | HealthChecker => health_checker_paths
  | ClusterServer => cluster_server_paths
  | ZooKeeper => zookeeper_paths
  end.

Definition service_name (s : service) : bytes :=
  match s with
  | HeadServer => lit "Head Server"
  | HealthChecker => lit "Health Checker"
  | ClusterServer => lit "Cluster Server"
  | ZooKeeper => lit "ZooKeeper Monitor"
  end.

Definition entries (l : list (string * string)) : list DefaultEntry :=
  map (λ kv, mkDefault (lit kv.1) (lit kv.2)) l.

Definition service_defaults (s : service) : list DefaultEntry :=
  match s with
  | HeadServer =>
      entries [("server.host", "0.0.0.0"); ("server.port", "9669"); ("server.max_connections", "1000");
               ("server.timeout_seconds", "30"); ("storage.chunk_size", "67108864 (64 MB)");
               ("storage.replication_factor", "3"); ("redis.host", "127.0.0.1"); ("redis.port", "6379");
               ("logging.level", "INFO")]%string
  | HealthChecker =>
      entries [("server.host", "0.0.0.0"); ("server.port", "9000");
               ("monitoring.heartbeat_interval", "30"); ("monitoring.heartbeat_timeout", "60");
               ("monitoring.max_missed_heartbeats", "3"); ("monitoring.health_check_interval", "30");
               ("failover.enable_auto_failover", "true"); ("logging.level", "INFO")]%string
  | ClusterServer =>
      entries [("server.host", "0.0.0.0"); ("server.port", "8080"); ("server.max_connections", "500");
               ("storage.chunk_dir", "/data/chunks"); ("storage.max_storage_gb", "100");
               ("heartbeat.target_host", "127.0.0.1"); ("heartbeat.target_port", "9000");
               ("heartbeat.interval_seconds", "30"); ("head_server.host", "127.0.0.1");
               ("head_server.port", "9669"); ("logging.level", "INFO")]%string
  | ZooKeeper =>
      entries [("zookeeper.hosts", "localhost:2181"); ("zookeeper.session_timeout_ms", "10000");
               ("zookeeper.connection_timeout_ms", "5000"); ("monitor.interval_seconds", "10");
               ("monitor.heartbeat_timeout_seconds", "30"); ("logging.level", "INFO")]%string
  end.

(** ** The process *)
Record Process := mkProcess { generation : Z; singletons : service → Singleton }.
Definition new_process : Process := mkProcess 0 (λ _, no_instance).

(** [generation] is 64 bits wide. *)
Definition sighup_handler (p : Process) : Process :=
  mkProcess (w64 (generation p + 1)) (singletons p).

Definition set_singleton (s : service) (x : Singleton) (p : Process) : Process :=
  mkProcess (generation p) (λ t, if decide (t = s) then x else singletons p t).

(** [head_server_config()], [health_checker_config()], [cluster_server_config()]
    and [zookeeper_config()]: the configuration, and what is printed the first
    time. *)
Definition service_config (fuel : nat) (files : Files) (s : service) (p : Process)
  : option (Process * ConfigLoader * list bytes) :=
  '(x, cfg) ← config_access fuel (service_paths s) files (generation p) (singletons p s);
  warnings ← match instance (singletons p s) with
             | Some _ => Some []
             | None => first ← load_first fuel files new_config (service_paths s);
                       Some (print_config_warnings first (service_name s) (service_paths s) (service_defaults s))
             end;
  Some (set_singleton s x p, cfg, warnings).

(** ** Reloading *)
Lemma config_access_current fuel files paths g s s' cfg :
  config_access fuel paths files g s = Some (s', cfg) → s' = mkSingleton (Some cfg) g.
Proof.
  unfold config_access.
  destruct (match instance s with Some _ => _ | None => _ end) as [[c prev]|]; [|done].
  cbn. case_decide as Hg; [by intros [= <- <-]; rewrite Hg|].
  destruct (reload fuel files c) as [[c' ok]|]; [|done]. cbn. by intros [= <- <-].
Qed.

Lemma sighups n p :
  0 ≤ generation p < 2 ^ 64 →
  generation (Nat.iter n sighup_handler p) = w64 (generation p + Z.of_nat n) ∧
  singletons (Nat.iter n sighup_handler p) = singletons p.
Proof.
  intros Hg. induction n as [|n [IH1 IH2]]; [split; [|done]|].
  - cbn. unfold wrap. rewrite Z.add_0_r, Z.mod_small; lia.
  - cbn [Nat.iter]. split; [|done]. cbn. unfold Nat.iter in IH1. rewrite IH1. unfold wrap.
    rewrite Zplus_mod_idemp_l. f_equal. lia.
Qed.

Lemma sighups_differ n p :
  0 ≤ generation p < 2 ^ 64 → 0 < Z.of_nat n < 2 ^ 64 →
  generation (Nat.iter n sighup_handler p) ≠ generation p.
Proof.
  intros Hg Hn. rewrite (proj1 (sighups n p Hg)). unfold wrap. change (2 ^ Z.of_nat 64) with (2 ^ 64).
  destruct (Z_lt_ge_dec (generation p + Z.of_nat n) (2 ^ 64)).
  - rewrite Z.mod_small; lia.
  - rewrite <-(Z_mod_plus_full _ (-1)), Z.mod_small; lia.
Qed.

(** However many SIGHUPs arrive between two accesses of a service's
    configuration, the second one reads the file that was loaded exactly once,
    and then no file is read until the next signal; the first access of another
    service is not affected, so each service reloads its own file. *)
Theorem config_reloads_once (fuel : nat) (files : Files) (s : service) (p p1 : Process)
    (cfg : ConfigLoader) (printed : list bytes) :
  service_config fuel files s p = Some (p1, cfg, printed) → 0 ≤ generation p < 2 ^ 64 →
  (∀ t, t ≠ s → singletons p1 t = singletons p t) ∧
  (∀ fuel' files', (λ r, r.1.2) <$> service_config fuel' files' s p1 = Some cfg) ∧
  ∀ n fuel' files', 0 < Z.of_nat n < 2 ^ 64 →
    let p2 := Nat.iter n sighup_handler p1 in
    (λ r, r.1.2) <$> service_config fuel' files' s p2 = fst <$> reload fuel' files' cfg.
Proof.
  intros Hs Hg. unfold service_config in Hs.
  destruct (config_access _ _ _ _ _) as [[x cfg']|] eqn:Ha; [|done]. cbn in Hs.
  apply config_access_current in Ha as ->.
  assert (p1 = set_singleton s (mkSingleton (Some cfg) (generation p)) p ∧ cfg' = cfg) as [-> ->].
  { destruct (match instance _ with Some _ => _ | None => _ end); [|done]. by injection Hs as <- <- <-. }
  clear Hs. split_and!.
  - intros t Ht. cbn. by rewrite decide_False.
  - intros fuel' files'. unfold service_config, config_access. cbn. rewrite !decide_True by done. cbn.
    by rewrite decide_True.
  - intros n fuel' files' Hn p2. destruct (sighups n (set_singleton s (mkSingleton (Some cfg) (generation p)) p) Hg)
      as [_ Hp]. fold p2 in Hp.
    pose proof (sighups_differ n (set_singleton s (mkSingleton (Some cfg) (generation p)) p) Hg Hn) as Hd.
    fold p2 in Hd. cbn in Hd. unfold service_config, config_access. rewrite Hp. cbn.
    rewrite !decide_True by done. cbn. rewrite decide_False by done.
    destruct (reload fuel' files' cfg) as [[c ok]|]; done.
Qed.

Definition port_file (port : string) (path : bytes) : option bytes :=
  if decide (path = lit "../config/head_server.json")
  then Some (lit "{" ++ quoted (lit "server") ++ lit ": {" ++ quoted (lit "port") ++ lit ": " ++
             lit port ++ lit "}}")
  else None.
Definition no_env (name : bytes) : option bytes := None.
Definition port_of (cfg : ConfigLoader) : Z := get_int no_env cfg (lit "server.port") 9669.

(** The second candidate is the file that is there; a change is seen after the
    signal, not before. *)
Example port_changes :
  (match service_config 99 (port_file "7001") HeadServer new_process with
   | Some (p1, cfg, w) =>
       (length w, port_of cfg,
        (λ r, port_of r.1.2) <$> service_config 99 (port_file "7002") HeadServer p1,
        (λ r, port_of r.1.2) <$> service_config 99 (port_file "7002") HeadServer (sighup_handler p1))
   | None => (99%nat, 0, None, None)
   end) = (0%nat, 7001, Some 7001, Some 7002).
Proof. vm_compute. reflexivity. Qed.

Lemma config_reloads_once_witness :
  match service_config 99 (port_file "7001") HeadServer new_process with
  | Some (p1, cfg, _) =>
      (λ r, r.1.2) <$> service_config 99 (port_file "7002") HeadServer (Nat.iter 3 sighup_handler p1) =
      fst <$> reload 99 (port_file "7002") cfg
  | None => False
  end.
Proof.
  assert ((if service_config 99 (port_file "7001") HeadServer new_process then true else false) = true) as H
    by (vm_compute; reflexivity).
  destruct (service_config _ _ _ _) as [[[p1 cfg] w]|] eqn:E; [|done].
  by apply (config_reloads_once 99 (port_file "7001") HeadServer new_process p1 cfg w E).
Defined.
