(* ===== verification/Reports.v ===== *)
(** * Reports: the tables printed on the console
    ([print_chunk_distribution] of src/src/head_server/file_upload.cpp and
    [print_status] of src/src/common/include/dfg/server_registry.hpp)

    Printed text is a list of lines.  [std::setw] pads by bytes. *)
From Stdlib Require Import SpecFloat.
From S2P Require Import Prelude.
From S2P Require Import Text.
From S2P Require Import Ordered.
From S2P Require Import Float.
From S2P Require Import SystemInfo.
From S2P Require Import Registry.
From S2P Require Import Upload.
Local Open Scope Z_scope.

(** [std::left << std::setw(n)]. *)
Definition pad_right (n : nat) (s : bytes) : bytes := s ++ replicate (n - length s) sp.

Lemma length_pad_right n s : length (pad_right n s) = Nat.max n (length s).
Proof. unfold pad_right. rewrite length_app, length_replicate. lia. Qed.

(** ** [print_chunk_distribution] *)
Definition size_str (size : Z) : bytes :=
  if decide (1024 * 1024 ≤ size)
  then show_fixed 1 (div64 (f64_of_Z size) (f64_of_Z (1024 * 1024))) ++ lit " MB"
  else if decide (1024 ≤ size)
  then show_fixed 1 (div64 (f64_of_Z size) (f64_of_Z 1024)) ++ lit " KB"
  else show_Z size ++ lit " B".

Definition transfer_status (success : bool) : bytes :=
  if success then lit "✅ Stored" else lit "❌ Failed".

Definition bar : bytes := lit " │ ".

Definition distribution_row (r : PendingTransfer * TransferOutcome) : bytes :=
  lit "║ " ++ pad_right 6 (show_Z (pt_chunk_id r.1)) ++ bar ++ pad_right 8 (size_str (Z.of_nat (length (pt_data r.1)))) ++
  bar ++ pad_right 22 (pt_server r.1) ++ bar ++ pad_right 18 (transfer_status r.2.1) ++ lit " ║".

Definition success_percent (results : list (PendingTransfer * TransferOutcome)) : spec_float :=
  match results with
  | [] => S754_zero false
  | _ => div64 (mul64 (f64_of_Z 100) (f64_of_Z (Z.of_nat (length (succeeded results)))))
               (f64_of_Z (Z.of_nat (length results)))
  end.

Definition print_chunk_distribution (filename : bytes)
    (results : list (PendingTransfer * TransferOutcome)) (total_chunks replication_factor : Z)
  : list bytes :=
  [[];
   lit "╔══════════════════════════════════════════════════════════════════╗";
   lit "║  Chunk Distribution Status for: " ++ pad_right 32 filename ++ lit "║";
   lit "╠════════╤══════════╤════════════════════════╤════════════════════╣";
   lit "║ Chunk  │ Size     │ Server                 │ Status             ║";
   lit "╠════════╪══════════╪════════════════════════╪════════════════════╣"] ++
  map distribution_row results ++
  [lit "╚════════╧══════════╧════════════════════════╧════════════════════╝";
   lit "Summary: " ++ show_nat (length (succeeded results)) ++ lit "/" ++ show_nat (length results) ++
     lit " replicas stored successfully (" ++ show_fixed 1 (success_percent results) ++ lit "%)";
   lit "Total chunks: " ++ show_Z total_chunks ++ lit " | Replication factor: " ++
     show_Z replication_factor;
   []].

(** ** [ServerRegistry::print_status] *)
Definition status_row (id : Z) (e : ServerEntry) : bytes :=
  lit "║ " ++ pad_right 4 (show_Z id) ++ bar ++ pad_right 22 (address e) ++ bar ++
  pad_right 8 (status e) ++ lit " ║".

Definition print_status (r : Registry) : list bytes :=
  [[];
   lit "╔══════╤════════════════════════╤══════════╗";
   lit "║  ID  │ Address                │ Status   ║";
   lit "╠══════╪════════════════════════╪══════════╣"] ++
  map (λ e : Z * ServerEntry, status_row e.1 e.2) (zmap_list (reg_servers r)) ++
  [lit "╚══════╧════════════════════════╧══════════╝";
   lit "Total: " ++ show_nat (size (reg_servers r)) ++ lit " servers"].

(** Two replicas of one chunk, one of them stored. *)
Example distribution_summary :
  let t ip := mkPending 0 (lit ip) (replicate 1536 sp) (lit "sum") in
  let lines := print_chunk_distribution (lit "f")
                 [(t "a:1"%string, (true, lit "/p")); (t "b:2"%string, (false, []))] 1 2 in
  (lines !! 6%nat, lines !! 9%nat) =
  (Some (lit "║ 0      │ 1.5 KB   │ a:1                    │ ✅ Stored         ║"),
   Some (lit "Summary: 1/2 replicas stored successfully (50.0%)")).
Proof. by vm_compute. Qed.
