(* ===== verification/Sockets.v ===== *)
(** * Sockets: who owns which descriptor
    (net_utils.hpp [connect_with_timeout]; the listening coroutines of
    chunk_service.cpp; the client port and the heartbeat port of head_server.cpp)

    The process has a set of open descriptors.  What the kernel answers is an
    argument: to each call while a socket is set up, then a list of events in
    which accepting connections and handlers that finish are interleaved. *)
From S2P Require Import Prelude.
From S2P Require Import Text.
From S2P Require Import ChunkStore.
Local Open Scope Z_scope.

Abbreviation Descriptors := (gset Z).
Definition close (fd : Z) (k : Descriptors) : Descriptors := k ∖ {[fd]}.

(** ** [connect_with_timeout] *)

(** What [connect] does.  In progress: what [select] returns, then the pending
    error, if [getsockopt] can read it. *)
Inductive connecting :=
  | Connected
  | InProgress (selected : Z) (so_error : option Z)
  | Refused.

Record Attempt := mkAttempt {
  new_socket : option Z;
  numeric : bool;               (* [inet_pton] takes the host *)
  resolved : bool;              (* [gethostbyname] finds an IPv4 address *)
  connecting_to : connecting;
  flags_known : bool            (* [F_GETFL] succeeds *)
}.

(** The descriptor with whether it blocks, [None] for -1. *)
Definition connect_with_timeout (k : Descriptors) (a : Attempt)
  : Descriptors * option (Z * bool) :=
  match new_socket a with
  | None => (k, None)
  | Some sock =>
      let k := {[sock]} ∪ k in
      let connected := (k, Some (sock, flags_known a)) in
      if negb (numeric a) && negb (resolved a) then (close sock k, None)
      else match connecting_to a with
           | Connected => connected
           | Refused => (close sock k, None)
           | InProgress selected so_error =>
               if decide (selected ≤ 0) then (close sock k, None)
               else if decide (so_error = Some 0) then connected
               else (close sock k, None)
           end
  end.

(** ** Setting up a listening socket *)
Record Setup := mkSetup {
  socket_made : option Z; bound : bool; listening : bool; nonblocking : bool }.

(** [chunk_server], [public_chunk_server] and [emergency_listener]. *)
Definition open_listener (k : Descriptors) (a : Setup) : Descriptors * option Z :=
  match socket_made a with
  | None => (k, None)
  | Some lfd =>
      let k := {[lfd]} ∪ k in
      if negb (bound a) then (close lfd k, None)
      else if negb (listening a) then (close lfd k, None)
      else if negb (nonblocking a) then (close lfd k, None)
      else (k, Some lfd)
  end.

(** The head server's client port: whether [listen] succeeds is not looked at.
    The heartbeat port: a datagram socket, bound. *)
Definition open_bound (k : Descriptors) (a : Setup) : Descriptors * option Z :=
  match socket_made a with
  | None => (k, None)
  | Some sfd => let k := {[sfd]} ∪ k in
                if bound a then (k, Some sfd) else (close sfd k, None)
  end.

(** [heartbeat_sender]: a datagram socket, made non-blocking, then connected. *)
Definition open_heartbeat_socket (k : Descriptors) (host_found : bool) (a : Setup) (connects : bool)
  : Descriptors * option Z :=
  if negb host_found then (k, None)
  else match socket_made a with
       | None => (k, None)
       | Some sfd =>
           let k := {[sfd]} ∪ k in
           if negb (nonblocking a) then (close sfd k, None)
           else if negb connects then (close sfd k, None)
           else (k, Some sfd)
       end.

(** ** Accepting connections *)
Inductive accepted :=
  | Accepted (cfd : Z)
  | WouldBlock                  (* EAGAIN *)
  | Interrupted                 (* EINTR *)
  | AcceptFailed.

(** [running]: the flag tested before accepting, and [still] after.  [Handled]:
    the handler of a connection has closed it. *)
Inductive event :=
  | Accept (running still : bool) (a : accepted)
  | Handled (cfd : Z).

(** The loop is at its test, inside the loop that accepts, or over. *)
Inductive position := Testing | Accepting | Left.
#[export] Instance position_eq_dec : EqDecision position.
Proof. solve_decision. Defined.

Record Listener := mkListener {
  at_ : position;
  descriptors : Descriptors;
  handlers : gset Z;            (* connections whose handler runs *)
  spawned : list Z              (* every connection handed to one, in order *)
}.

Definition with_position (p : position) (l : Listener) : Listener :=
  mkListener p (descriptors l) (handlers l) (spawned l).
Definition leave (lfd : Z) (l : Listener) : Listener :=
  mkListener Left (close lfd (descriptors l)) (handlers l) (spawned l).
Definition spawn (cfd : Z) (l : Listener) : Listener :=
  mkListener Testing ({[cfd]} ∪ descriptors l) ({[cfd]} ∪ handlers l) (spawned l ++ [cfd]).
(** A handler is one event: it closes the connection it was given.  A socket it
    opens itself is not tracked: [handle_connection] closes its [target_sock],
    except when allocating the answer's buffer throws (chunk_service.cpp:576). *)
Definition handled (cfd : Z) (l : Listener) : Listener :=
  if decide (cfd ∈ handlers l)
  then mkListener (at_ l) (close cfd (descriptors l)) (handlers l ∖ {[cfd]}) (spawned l)
  else l.

(** [chunk_server] and [public_chunk_server]: [running] is not tested again
    while the inner loop waits, and any other error goes round at once. *)
Definition chunk_port (lfd : Z) (ev : event) (l : Listener) : Listener :=
  match ev with
  | Handled cfd => handled cfd l
  | Accept running _ a =>
      match at_ l with
      | Left => l
      | p => if bool_decide (p = Testing) && negb running then leave lfd l
             else match a with
                  | Accepted cfd => spawn cfd l
                  | WouldBlock => with_position Accepting l
                  | Interrupted | AcceptFailed => with_position Testing l
                  end
      end
  end.

(** The head server's client port, on a blocking socket. *)
Definition client_port (sfd : Z) (ev : event) (l : Listener) : Listener :=
  match ev with
  | Handled cfd => handled cfd l
  | Accept running still a =>
      match at_ l with
      | Left => l
      | _ => if negb running then leave sfd l
             else match a with
                  | Accepted cfd => if still : bool then spawn cfd l else leave sfd l
                  | Interrupted => with_position Testing l
                  | WouldBlock | AcceptFailed => leave sfd l
                  end
      end
  end.

(** A connection handled at once, in the loop itself. *)
Definition handle_at_once (cfd : Z) (l : Listener) : Listener :=
  mkListener Testing (close cfd ({[cfd]} ∪ descriptors l)) (handlers l) (spawned l ++ [cfd]).

(** [ControlAPI::run_server]: a failed [accept] only goes round, and the flag is
    tested again after it ([stop] connects to wake the loop up). *)
Definition control_port (lfd : Z) (ev : event) (l : Listener) : Listener :=
  match ev with
  | Handled cfd => handled cfd l
  | Accept running still a =>
      match at_ l with
      | Left => l
      | _ => if negb running then leave lfd l
             else match a with
                  | Accepted cfd => if still : bool then handle_at_once cfd l else leave lfd l
                  | WouldBlock | Interrupted | AcceptFailed => with_position Testing l
                  end
      end
  end.

(** [ui_server] of the health checker and [master_api_server] of the monitor:
    [WouldBlock] is a [select] that found nothing within its second. *)
Definition polled_port (lfd : Z) (ev : event) (l : Listener) : Listener :=
  match ev with
  | Handled cfd => handled cfd l
  | Accept running _ a =>
      match at_ l with
      | Left => l
      | _ => if negb running then leave lfd l
             else match a with
                  | Accepted cfd => handle_at_once cfd l
                  | WouldBlock | Interrupted | AcceptFailed => with_position Testing l
                  end
      end
  end.

(** The whole coroutines and threads: set up, then accept. *)
Definition serve (step : Z → event → Listener → Listener) (opened : Descriptors * option Z)
    (evs : list event) : Listener :=
  match opened with
  | (k, None) => mkListener Left k ∅ []
  | (k, Some lfd) => fold_left (λ l ev, step lfd ev l) evs (mkListener Testing k ∅ [])
  end.

Definition chunk_server (k : Descriptors) (a : Setup) (evs : list event) : Listener :=
  serve chunk_port (open_listener k a) evs.
(** The same code, for another port and another handler. *)
Definition public_chunk_server (k : Descriptors) (a : Setup) (evs : list event) : Listener :=
  serve chunk_port (open_listener k a) evs.
Definition client_listener (k : Descriptors) (a : Setup) (evs : list event) : Listener :=
  serve client_port (open_bound k a) evs.
Definition control_server (k : Descriptors) (a : Setup) (evs : list event) : Listener :=
  serve control_port (open_bound k a) evs.
Definition ui_server (k : Descriptors) (a : Setup) (evs : list event) : Listener :=
  serve polled_port (open_bound k a) evs.
Definition master_api_server (k : Descriptors) (a : Setup) (evs : list event) : Listener :=
  serve polled_port (open_bound k a) evs.

(** [emergency_listener] handles one connection at a time, with the bytes that
    its only [recv] finds ([]: none yet, or an error). *)
Inductive emergency_state :=
  | Listening (k : Descriptors) (s : ChunkStorage)
  | Stopped (k : Descriptors) (s : ChunkStorage)
  | Exiting (k : Descriptors) (s : ChunkStorage)    (* [_exit] in 100 ms *)
  | Replaced.                                       (* [execv] *)

Definition emergency_port (i : io) (lfd : Z) (ev : bool * accepted * bytes) (st : emergency_state)
  : emergency_state * bytes :=
  let '(running, a, found) := ev in
  match st with
  | Listening k s =>
      if negb running then (Stopped (close lfd k) s, [])
      else match a with
           | WouldBlock => (st, [])
           | Interrupted | AcceptFailed => (Stopped (close lfd k) s, [])
           | Accepted cfd =>
               let k := {[cfd]} ∪ k in
               match handle_emergency i s (take 1023 found) with
               | Terminated reply => (Exiting (close lfd (close cfd k)) s, reply)
               | Reexecuted reply => (Replaced, reply)
               | Answered s' reply => (Listening (close cfd k) s', reply)
               end
           end
  | _ => (st, [])
  end.

(** ** Nothing leaks while a socket is set up *)

Ltac descriptors_eq :=
  unfold close; apply leibniz_equiv; set_solver.

Lemma open_close fd k : fd ∉ k → close fd ({[fd]} ∪ k) = k.
Proof. intros H. descriptors_eq. Qed.

(** The kernel gives a descriptor that is not open. *)
Definition fresh (o : option Z) (k : Descriptors) : Prop :=
  match o with Some fd => fd ∉ k | None => True end.

(** A connection attempt leaves the descriptors as they were, or adds exactly
    the socket it returns; it returns one exactly when the host is known and
    the connection is established, at once or without a pending error before
    the time is over. *)
Theorem connect_keeps_descriptors (k : Descriptors) (a : Attempt) :
  fresh (new_socket a) k →
  let '(k', r) := connect_with_timeout k a in
  match r with
  | None => k' = k
  | Some (fd, _) => new_socket a = Some fd ∧ k' = {[fd]} ∪ k
  end ∧
  (is_Some r ↔ is_Some (new_socket a) ∧ (numeric a || resolved a = true) ∧
     (connecting_to a = Connected ∨ ∃ n, connecting_to a = InProgress n (Some 0) ∧ 0 < n)).
Proof.
  destruct a as [[sock|] num res c fl]; simpl; intros Hf; unfold connect_with_timeout; simpl;
    [|split; [done|]; split; [by intros []|by intros ([] & _)]].
  assert ((numeric (mkAttempt (Some sock) num res c fl) || res = true) ↔ negb num && negb res = false) as Hn
    by (destruct num, res; simpl; split; done).
  simpl in Hn. destruct (negb num && negb res); simpl.
  { rewrite open_close by done. split; [done|]. rewrite Hn. split; [by intros []|by intros (_ & ? & _)]. }
  destruct c as [|n e|]; simpl.
  - split; [done|]. split; [|done]. intros _. split_and!; [done|by apply Hn|by left].
  - destruct (decide (n ≤ 0)) as [Hle|Hle]; simpl.
    { rewrite open_close by done. split; [done|]. split; [by intros []|].
      intros (_ & _ & [?|(? & [= -> ->] & ?)]); [done|lia]. }
    destruct (decide (e = Some 0)) as [->|He]; simpl.
    + split; [done|]. split; [|done]. intros _.
      split_and!; [done|by apply Hn|right; exists n; split; [done|lia]].
    + rewrite open_close by done. split; [done|]. split; [by intros []|].
      by intros (_ & _ & [?|(? & [= -> ->] & ?)]).
  - rewrite open_close by done. split; [done|]. split; [by intros []|].
    by intros (_ & _ & [?|(? & ? & ?)]).
Qed.

Lemma setups_keep_descriptors k a host connects :
  fresh (socket_made a) k →
  ∀ o, o ∈ [open_listener k a; open_bound k a; open_heartbeat_socket k host a connects] →
  match o.2 with None => o.1 = k | Some fd => socket_made a = Some fd ∧ o.1 = {[fd]} ∪ k end.
Proof.
  destruct a as [[fd|] b l n]; simpl; intros Hf o Ho;
    repeat (apply elem_of_cons in Ho as [->|Ho]); try (by inversion Ho);
    unfold open_listener, open_bound, open_heartbeat_socket; simpl; destruct host; simpl; try done;
    destruct b, l, n, connects; simpl; rewrite ?open_close by done; done.
Qed.

(** ** The accept loops *)
Section listener.
Variables (lfd : Z) (base : Descriptors) (step : event → Listener → Listener).

Definition run (evs : list event) (l : Listener) : Listener :=
  fold_left (λ l ev, step ev l) evs l.

(** Only closed descriptors are given out. *)
Fixpoint kernel_ok (evs : list event) (l : Listener) : Prop :=
  match evs with
  | [] => True
  | ev :: evs =>
      match ev with
      | Accept _ _ (Accepted cfd) => cfd ∉ descriptors l
      | _ => True
      end ∧ kernel_ok evs (step ev l)
  end.

Definition ready : Listener := mkListener Testing ({[lfd]} ∪ base) ∅ [].

(** What is open: what was before, the port until it is left, and the
    connections whose handler runs. *)
Definition owned (l : Listener) : Prop :=
  descriptors l = base ∪ (if decide (at_ l = Left) then ∅ else {[lfd]}) ∪ handlers l ∧
  lfd ∉ base ∪ handlers l ∧ handlers l ## base ∧ (∀ cfd, cfd ∈ handlers l → cfd ∈ spawned l).

Lemma ready_owned : lfd ∉ base → owned ready.
Proof.
  intros H. unfold owned, ready. cbn. split_and!; [|set_solver..]. apply leibniz_equiv. set_solver.
Qed.

Lemma owned_position p l : p ≠ Left → at_ l ≠ Left → owned l → owned (with_position p l).
Proof. intros Hp Hl. unfold owned. cbn. by rewrite !decide_False. Qed.

Lemma owned_leave l : at_ l ≠ Left → owned l → owned (leave lfd l).
Proof.
  unfold owned. cbn. intros Hl. rewrite decide_False by done. intros (-> & H1 & H2 & H3).
  split_and!; try done. descriptors_eq.
Qed.

Lemma owned_spawn cfd l : at_ l ≠ Left → cfd ∉ descriptors l → owned l → owned (spawn cfd l).
Proof.
  unfold owned. cbn. intros Hl. rewrite decide_False by done. intros Hc (E & H1 & H2 & H3).
  rewrite E in *. split_and!; [|set_solver..]. apply leibniz_equiv. set_solver.
Qed.

Lemma owned_at_once cfd l :
  at_ l ≠ Left → cfd ∉ descriptors l → owned l → owned (handle_at_once cfd l).
Proof.
  unfold owned. cbn. intros Hl. rewrite decide_False by done. intros Hc (E & H1 & H2 & H3).
  rewrite E in *. split_and!; [|set_solver..]. descriptors_eq.
Qed.

Lemma owned_handled cfd l : owned l → owned (handled cfd l).
Proof.
  unfold owned, handled. destruct (decide (cfd ∈ handlers l)) as [Hc|]; [|done]. cbn.
  intros (-> & H1 & H2 & H3). split_and!; [|set_solver..].
  assert (cfd ≠ lfd) by set_solver. assert (cfd ∉ base) by set_solver.
  unfold close. apply leibniz_equiv. destruct (decide (at_ l = Left)); set_solver.
Qed.
End listener.

(** What the two accept loops share: an event hands over the connection it
    accepts, or leaves the port, or only moves the loop. *)
Inductive port_step (lfd : Z) : event → Listener → Listener → Prop :=
  | ps_handled cfd l : port_step lfd (Handled cfd) l (handled cfd l)
  | ps_over r s a l : at_ l = Left → port_step lfd (Accept r s a) l l
  | ps_leave r s a l : at_ l ≠ Left → port_step lfd (Accept r s a) l (leave lfd l)
  | ps_spawn r s cfd l : at_ l ≠ Left → port_step lfd (Accept r s (Accepted cfd)) l (spawn cfd l)
  | ps_at_once r s cfd l :
      at_ l ≠ Left → port_step lfd (Accept r s (Accepted cfd)) l (handle_at_once cfd l)
  | ps_move r s a p l :
      at_ l ≠ Left → p ≠ Left → (∀ cfd, a ≠ Accepted cfd) →
      port_step lfd (Accept r s a) l (with_position p l).

Lemma chunk_port_step lfd ev l : port_step lfd ev l (chunk_port lfd ev l).
Proof.
  destruct ev as [r s a|cfd]; [|constructor]. unfold chunk_port.
  destruct (at_ l) eqn:Hp; [| |by constructor];
    destruct (_ && _); try (constructor; congruence);
    destruct a; constructor; congruence.
Qed.

Lemma client_port_step sfd ev l : port_step sfd ev l (client_port sfd ev l).
Proof.
  destruct ev as [r s a|cfd]; [|constructor]. unfold client_port.
  destruct (at_ l) eqn:Hp; [| |by constructor];
    destruct r; simpl; try (constructor; congruence);
    destruct a; try destruct s; constructor; congruence.
Qed.

Lemma control_port_step lfd ev l : port_step lfd ev l (control_port lfd ev l).
Proof.
  destruct ev as [r s a|cfd]; [|constructor]. unfold control_port.
  destruct (at_ l) eqn:Hp; [| |by constructor];
    destruct r; simpl; try (constructor; congruence);
    destruct a; try destruct s; constructor; congruence.
Qed.

Lemma polled_port_step lfd ev l : port_step lfd ev l (polled_port lfd ev l).
Proof.
  destruct ev as [r s a|cfd]; [|constructor]. unfold polled_port.
  destruct (at_ l) eqn:Hp; [| |by constructor];
    destruct r; simpl; try (constructor; congruence);
    destruct a; constructor; congruence.
Qed.

Definition accepted_of (evs : list event) : list Z :=
  omap (λ ev, match ev with Accept _ _ (Accepted cfd) => Some cfd | _ => None end) evs.

Section port.
Variables (lfd : Z) (base : Descriptors) (step : event → Listener → Listener).
Hypothesis step_port : ∀ ev l, port_step lfd ev l (step ev l).

Lemma run_owned evs l :
  owned lfd base l → kernel_ok step evs l → owned lfd base (run step evs l).
Proof.
  revert l. induction evs as [|ev evs IH]; intros l Hl Hk; [done|].
  destruct Hk as [Hev Hk]. apply IH; [|done].
  destruct (step_port ev l).
  - by apply owned_handled.
  - done.
  - by apply owned_leave.
  - by apply owned_spawn.
  - by apply owned_at_once.
  - by apply owned_position.
Qed.

Lemma left_stays ev l : at_ l = Left → at_ (step ev l) = Left.
Proof. intros Hl. destruct (step_port ev l); try done. unfold handled. by case_decide. Qed.

Lemma run_left evs l : at_ l = Left → at_ (run step evs l) = Left.
Proof. revert l. induction evs as [|ev evs IH]; intros l Hl; [done|]. by apply IH, left_stays. Qed.

Lemma run_spawned evs l :
  at_ (run step evs l) ≠ Left → spawned (run step evs l) = spawned l ++ accepted_of evs.
Proof.
  revert l. induction evs as [|ev evs IH]; intros l Hr; [by rewrite app_nil_r|].
  cbn [run fold_left] in *. fold (run step evs (step ev l)) in *. rewrite IH by done.
  assert (at_ (step ev l) ≠ Left) as Hs by (intros E; by apply Hr, run_left). clear IH Hr.
  destruct (step_port ev l) as [cfd l|r s a l Hl|r s a l Hl|r s cfd l Hl|r s cfd l Hl|r s a p l Hl Hp Ha];
    try done.
  - cbn. unfold handled. by case_decide.
  - cbn. by rewrite <-app_assoc.
  - cbn. by rewrite <-app_assoc.
  - cbn. destruct a as [cfd| | |]; try done. by destruct (Ha cfd).
Qed.

(** What the port promises after any events. *)
Lemma port_conserves evs :
  lfd ∉ base → kernel_ok step evs (ready lfd base) →
  let l := run step evs (ready lfd base) in
  owned lfd base l ∧ (at_ l ≠ Left → spawned l = accepted_of evs) ∧
  (at_ l = Left → handlers l = ∅ → descriptors l = base).
Proof.
  intros Hb Hk l. assert (owned lfd base l) as Ho.
  { apply run_owned; [by apply ready_owned|done]. }
  split; [done|]. split; [by apply (run_spawned evs (ready lfd base))|].
  intros Hl Hh. destruct Ho as (-> & _). rewrite decide_True, Hh by done. apply leibniz_equiv. set_solver.
Qed.
End port.

Lemma chunk_port_stays lfd evs l :
  (∀ s a, Accept false s a ∉ evs) → at_ l ≠ Left → at_ (run (chunk_port lfd) evs l) ≠ Left.
Proof.
  revert l. induction evs as [|ev evs IH]; intros l Hr Hat; [done|]. cbn [run fold_left].
  apply IH; [set_solver|]. destruct ev as [[] s a|cfd].
  - unfold chunk_port. destruct (at_ l) eqn:E; [| |done]; rewrite andb_false_r; by destruct a.
  - exfalso. apply (Hr s a). by left.
  - cbn. unfold handled. by case_decide.
Qed.

(** A port, from its set-up on. *)
Lemma serve_conserves (step : Z → event → Listener → Listener) (k : Descriptors) (a : Setup)
    (opened : Descriptors * option Z) (evs : list event) :
  (∀ lfd ev l, port_step lfd ev l (step lfd ev l)) → fresh (socket_made a) k →
  match opened.2 with
  | None => opened.1 = k
  | Some fd => socket_made a = Some fd ∧ opened.1 = {[fd]} ∪ k
  end →
  (∀ lfd, opened.2 = Some lfd → kernel_ok (step lfd) evs (ready lfd k)) →
  let l := serve step opened evs in
  handlers l ⊆ descriptors l ∧ handlers l ## k ∧
  (at_ l ≠ Left → spawned l = accepted_of evs) ∧
  (at_ l = Left → handlers l = ∅ → descriptors l = k).
Proof.
  intros Hstep Hf Ho Hk l. unfold l, serve. destruct opened as [k' [lfd|]]; cbn [fst snd] in *.
  - destruct Ho as [Hs ->]. rewrite Hs in Hf. cbn in Hf. specialize (Hk lfd eq_refl).
    change (fold_left _ evs _) with (run (step lfd) evs (ready lfd k)).
    destruct (port_conserves lfd k _ (Hstep lfd) evs Hf Hk) as ((Hd & _ & Hh & _) & Hsp & Hl).
    split; [rewrite Hd; set_solver|]. split; [done|]. split; [exact Hsp|exact Hl].
  - subst k'. by split_and!.
Qed.

(** The other ports: the client port, the control API, and the pages of the
    health checker and of the monitor. *)
Lemma other_ports_conserve (k : Descriptors) (a : Setup) (evs : list event)
    (step : Z → event → Listener → Listener) :
  step ∈ [client_port; control_port; polled_port] → fresh (socket_made a) k →
  (∀ lfd, (open_bound k a).2 = Some lfd → kernel_ok (step lfd) evs (ready lfd k)) →
  let l := serve step (open_bound k a) evs in
  (at_ l ≠ Left → spawned l = accepted_of evs) ∧
  (at_ l = Left → handlers l = ∅ → descriptors l = k).
Proof.
  intros Hin Hf Hk. apply serve_conserves with (a := a); [|done| |done].
  - intros lfd ev l. repeat (apply elem_of_cons in Hin as [->|Hin]);
      [apply client_port_step|apply control_port_step|apply polled_port_step|by apply elem_of_nil in Hin].
  - apply (setups_keep_descriptors k a true true Hf). right. by left.
Qed.

(** C29: the ports of a cluster server lose nothing.  Whatever the kernel answers and
    however the handlers are interleaved with the loop, a connection whose
    handler runs is open and was not before; every accepted connection was
    handed to a handler, in order; a port that could be opened is left only
    after the service was told to stop; and once it is left and the handlers are
    done, nothing the port opened or accepted is open (see [handled] for the
    socket a handler may open itself). *)
Theorem chunk_server_conserves (k : Descriptors) (a : Setup) (evs : list event) :
  fresh (socket_made a) k →
  (∀ lfd, (open_listener k a).2 = Some lfd → kernel_ok (chunk_port lfd) evs (ready lfd k)) →
  let l := chunk_server k a evs in
  handlers l ⊆ descriptors l ∧ handlers l ## k ∧
  (at_ l ≠ Left → spawned l = accepted_of evs) ∧
  (at_ l = Left → handlers l = ∅ → descriptors l = k) ∧
  (is_Some (open_listener k a).2 → (∀ s x, Accept false s x ∉ evs) → at_ l ≠ Left).
Proof.
  intros Hf Hk l.
  pose proof (setups_keep_descriptors k a true true Hf (open_listener k a) ltac:(by left)) as Ho.
  destruct (serve_conserves chunk_port k a _ evs chunk_port_step Hf Ho Hk) as (H1 & H2 & H3 & H4).
  split_and!; try done. intros [lfd E] Hr. unfold l, chunk_server, serve.
  destruct (open_listener k a) as [k' o]. cbn [snd] in E. subst o. by apply chunk_port_stays.
Qed.

(** The head server's client port is lost at the first connection that cannot
    be accepted (EINTR apart): it is closed, and nothing is served after. *)
Theorem client_port_lost (sfd : Z) (base : Descriptors) (evs after : list event) (still : bool) :
  let l := run (client_port sfd) evs (ready sfd base) in
  at_ l ≠ Left →
  let l' := run (client_port sfd) (evs ++ Accept true still AcceptFailed :: after) (ready sfd base) in
  at_ l' = Left ∧ spawned l' = spawned l ∧ (sfd ∉ handlers l' → sfd ∉ descriptors l').
Proof.
  intros l Hl l'. assert (l' = run (client_port sfd) after (leave sfd l)) as ->.
  { unfold l', run. rewrite fold_left_app. cbn [fold_left]. fold (run (client_port sfd) evs (ready sfd base)).
    fold l. f_equal. unfold client_port. by destruct (at_ l). }
  assert (at_ (leave sfd l) = Left ∧ spawned (leave sfd l) = spawned l ∧ sfd ∉ descriptors (leave sfd l)) as H.
  { split_and!; try done. cbn. unfold close. set_solver. }
  revert H. generalize (leave sfd l). clear. induction after as [|ev after IH]; intros l0 (H1 & H2 & H3).
  { done. }
  cbn [run fold_left]. apply IH. destruct ev as [r s a|cfd]; unfold client_port.
  - by rewrite H1.
  - unfold handled. case_decide; [|done]. split_and!; try done. cbn. unfold close. set_solver.
Qed.

(** One [accept] fails: the chunk port goes on and the client port does not. *)
Definition some_accepts : list event :=
  [Accept true true (Accepted 5); Accept true true WouldBlock; Accept true true AcceptFailed;
   Handled 5; Accept true true (Accepted 5); Handled 5; Accept false false WouldBlock].

Example ports_differ :
  spawned (run (chunk_port 3) some_accepts (ready 3 {[0]})) = [5; 5] ∧
  spawned (run (client_port 3) some_accepts (ready 3 {[0]})) = [5].
Proof. by vm_compute. Qed.

Lemma chunk_server_conserves_witness :
  descriptors (chunk_server {[0]} (mkSetup (Some 3) true true true) some_accepts) = {[0]}.
Proof.
  apply (chunk_server_conserves {[0]} (mkSetup (Some 3) true true true) some_accepts);
    [by_decision| |by vm_compute|by apply leibniz_equiv; vm_compute].
  intros lfd [= <-]. cbn. repeat split; by_decision.
Defined.

Lemma client_port_lost_witness :
  at_ (run (client_port 3) ([Accept true true (Accepted 5)] ++
        Accept true true AcceptFailed :: [Accept true true (Accepted 6)]) (ready 3 ∅)) = Left.
Proof. apply (client_port_lost 3 ∅ [Accept true true (Accepted 5)] [Accept true true (Accepted 6)] true). done. Defined.

(** A command whose bytes arrive after the connection was accepted is dropped. *)
Lemma emergency_needs_bytes_at_once (i : io) (lfd cfd : Z) (k : Descriptors) (s : ChunkStorage) :
  cfd ∉ k → emergency_port i lfd (true, Accepted cfd, []) (Listening k s) = (Listening k s, []).
Proof. intros H. cbn. by rewrite open_close. Qed.

(** DEAD closes both sockets and answers before the process exits. *)
Lemma emergency_dead (i : io) (lfd cfd : Z) (k : Descriptors) (s : ChunkStorage) :
  emergency_port i lfd (true, Accepted cfd, lit "DEAD") (Listening k s) =
  (Exiting (close lfd (close cfd ({[cfd]} ∪ k))) s, ok_reply).
Proof. reflexivity. Qed.
