(* ===== verification/CheckerMain.v ===== *)
(** * CheckerMain: the stand-alone health checker as a program
    (src/src/health_checker/health_checker.cpp 68-122, 271-343, 404-444, 493-547)

    Its constructor, its two coroutines on one reactor, what they export, and
    [stop].  An event is what wakes a coroutine up: a datagram, the timer of the
    monitor; or a call of [stop]. *)
From Stdlib Require Import Lia SpecFloat.
From stdpp Require Import relations.
From S2P Require Import Prelude.
From S2P Require Import Text.
From S2P Require Import Ordered.
From S2P Require Import Float.
From S2P Require Import Metadata.
From S2P Require Import Zk.
From S2P Require Import Wire.
From S2P Require Import WireCodec.
From S2P Require Import Config.
From S2P Require Import HealthChecker.
From S2P Require Import HealthCheckerSpec.
From S2P Require Import Metrics.
From S2P Require Import Sockets.
Local Open Scope Z_scope.

Section program.
Context {R : Type} `{!Prometheus R} `{!Protobuf} `{!HashOrder Z ServerHealth}.

Record Service := mkService {
  checker : HealthChecker;
  exports : R;
  running : bool;
  receiver : option Z;            (* the socket its coroutine waits for; [None]: over *)
  sleeping : bool;                (* the monitor's coroutine is between two checks *)
  reported : list scan_report;
  descriptors : Descriptors
}.

Definition set_running (b : bool) (s : Service) : Service :=
  mkService (checker s) (exports s) b (receiver s) (sleeping s) (reported s) (descriptors s).
Definition set_receiver (r : option Z) (k : Descriptors) (s : Service) : Service :=
  mkService (checker s) (exports s) (running s) r (sleeping s) (reported s) k.
Definition set_checker (hc : HealthChecker) (r : R) (s : Service) : Service :=
  mkService hc r (running s) (receiver s) (sleeping s) (reported s) (descriptors s).

(** The constructor, with the thresholds of the configuration. *)
Definition new_service (getenv : bytes → option bytes) (cfg : ConfigLoader) (zk : ZkStore) (r : R)
    (k : Descriptors) : Service :=
  mkService
    (new_checker (get_int getenv cfg (lit "monitoring.max_missed_heartbeats") 3)
       (get_int getenv cfg (lit "monitoring.heartbeat_timeout") 60) zk)
    (new_checker_metrics r) false None false [] k.

(** The end of [process_heartbeat]: the server's gauges. *)
Definition server_label : bytes := lit "server_id".
Definition export_heartbeat (h : ServerHealth) (r : R) : R :=
  let set n v := labelled (lit n) server_label (show_Z (server_id h)) v in
  let r := set "hc_server_cpu_usage_percent" (cpu_usage h) r in
  let r := set "hc_server_ram_usage_percent" (ram_usage h) r in
  let r := set "hc_server_disk_usage_percent" (disk_usage h) r in
  let r := set "hc_server_network_in_bytes_per_sec" (of_Z64 (network_in_bps h)) r in
  let r := set "hc_server_network_out_bytes_per_sec" (of_Z64 (network_out_bps h)) r in
  set "hc_server_healthy" (if is_healthy h then one64 else zero64) r.

(** The message of a datagram, if the buffer holds one. *)
Definition heartbeat_in (datagram : bytes) : option HeartBeat :=
  let buffer := take buffer_size datagram in
  if decide (4 < length buffer)%nat then parse (drop 4 buffer) else None.

(** [heartbeat_receiver] once its socket is readable; [None]: [recvfrom] fails
    or finds an empty datagram. *)
Definition receiver_turn (now : Z) (found : option bytes) (s : Service) : Service :=
  match receiver s with
  | None => s
  | Some sockfd =>
      let s := match found with
               | Some d =>
                   set_checker (receive_datagram now d (checker s))
                     (match heartbeat_in d with
                      | Some hb => export_heartbeat (health_of now hb) (exports s)
                      | None => exports s
                      end) s
               | None => s
               end in
      if running s then s else set_receiver None (close sockfd (descriptors s)) s
  end.

(** One check of [health_monitor], then 30 seconds of sleep. *)
Definition monitor_check (now : Z) (meta : MetaState) (s : Service) : Service :=
  let '(hc, scans) := check_server_health now meta (checker s) in
  mkService hc
    (gauge_set (exports s) (lit "hc_healthy_servers") [] (of_Z64 (healthy_server_count hc)))
    (running s) (receiver s) true (reported s ++ scans) (descriptors s).
Definition monitor_turn (now : Z) (meta : MetaState) (s : Service) : Service :=
  if negb (sleeping s) then s
  else if running s then monitor_check now meta s
  else mkService (checker s) (exports s) (running s) (receiver s) false (reported s) (descriptors s).

(** [heartbeat_receiver] before its loop: its datagram socket, on port 9000. *)
Definition open_receiver (k : Descriptors) (a : Setup) : Descriptors * option Z := open_bound k a.

(** [start]: the receiver's socket, then the monitor's first check. *)
Definition start (a : Setup) (now : Z) (meta : MetaState) (s : Service) : Service :=
  let '(k, sockfd) := open_receiver (descriptors s) a in
  monitor_check now meta (set_receiver sockfd k (set_running true s)).
Definition stop (s : Service) : Service := set_running false s.

Inductive event :=
  | Datagram (now : Z) (found : option bytes)
  | Timer (now : Z) (meta : MetaState)
  | StopCalled.
Definition turn (s : Service) (ev : event) : Service :=
  match ev with
  | Datagram now found => receiver_turn now found s
  | Timer now meta => monitor_turn now meta s
  | StopCalled => stop s
  end.
Definition serve_events (evs : list event) (s : Service) : Service := fold_left turn evs s.
(** The reactor has no task left, so [start] returns. *)
Definition start_returns (s : Service) : Prop := receiver s = None ∧ sleeping s = false.

(** [run_health_checker]; [ports_free]: the exporter could bind its port. *)
Inductive outcome := Exited (code : Z) | Started (s : Service).
Definition run_health_checker (args : list bytes) (ports_free : bool) (a : Setup) (now : Z)
    (meta : MetaState) (s : Service) : outcome :=
  let serve := if ports_free then Started (start a now meta s) else Exited 1 in
  match args with
  | arg :: _ =>
      if decide (arg = lit "-h" ∨ arg = lit "--help") then Exited 0
      else if decide (arg = lit "-v" ∨ arg = lit "-V" ∨ arg = lit "--version") then Exited 0
      else serve
  | [] => serve
  end.

(** The same for a program that links the checker in. *)
Definition start_health_checker (ports_free : bool) (a : Setup) (now : Z) (meta : MetaState) (s : Service)
  : outcome :=
  if ports_free then Started (start a now meta s) else Exited (-1).
(** [stop], then the checker is destroyed: with its coroutines still suspended
    in [start]'s reactor ([true]), or with [start] over. *)
Definition stop_health_checker (s : Service) : bool :=
  let s := stop s in bool_decide (is_Some (receiver s)) || sleeping s.

(** ** The table is that of [HealthChecker] *)













(** Without a call of [stop] the monitor's coroutine is always there. *)
Lemma events_running evs : ∀ s,
  StopCalled ∉ evs → running s = true → sleeping s = true →
  running (serve_events evs s) = true ∧ sleeping (serve_events evs s) = true ∧
  receiver (serve_events evs s) = receiver s.
Proof.
  induction evs as [|ev evs IH]; intros s Hn Hr Hs; [done|].
  rewrite not_elem_of_cons in Hn. destruct Hn as [Hev Hn].
  assert (running (turn s ev) = true ∧ sleeping (turn s ev) = true ∧ receiver (turn s ev) = receiver s)
    as (H1 & H2 & <-).
  { destruct ev as [now found|now meta|]; [| |done]; cbn [turn].
    - unfold receiver_turn. destruct (receiver s) as [fd|] eqn:E; [|by rewrite E].
      destruct found as [d|]; cbn [set_checker running]; by rewrite Hr.
    - unfold monitor_turn. rewrite Hs, Hr. cbn [negb]. unfold monitor_check.
      by destruct (check_server_health _ _ _). }
  by apply IH.
Qed.

Lemma start_spec a now meta s :
  checker (start a now meta s) = (check_server_health now meta (checker s)).1 ∧
  running (start a now meta s) = true ∧ sleeping (start a now meta s) = true ∧
  receiver (start a now meta s) = (open_bound (descriptors s) a).2.
Proof.
  unfold start, open_receiver. destruct (open_bound _ _) as [k fd]. unfold monitor_check. cbn [set_receiver set_running checker].
  by destruct (check_server_health _ _ _).
Qed.


Lemma hash_order_none : hash_order (∅ : gmap Z ServerHealth) = [].
Proof.
  apply elem_of_nil_inv. intros [id h] Hin. by apply elem_of_hash_order, lookup_empty_Some in Hin.
Qed.

(** Without the UDP port (a head server on the same host has it) the checker
    runs on and watches nobody. *)
Theorem deaf_checker (getenv : bytes → option bytes) (cfg : ConfigLoader) (r : R)
    (k : Descriptors) (a : Setup) (now : Z) (meta : MetaState) (evs : list event) :
  let s := serve_events evs (start a now meta (new_service getenv cfg initial_store r k)) in
  bound a = false → StopCalled ∉ evs →
  servers (checker s) = ∅ ∧ reported s = [] ∧ ¬ start_returns s.
Proof.
  cbv zeta. intros Hb Hn. set (s0 := new_service getenv cfg initial_store r k).
  destruct (start_spec a now meta s0) as (Hc & Hr & Hs & Hrec).
  assert (receiver (start a now meta s0) = None) as Hnone.
  { rewrite Hrec. unfold open_bound. destruct (socket_made a); [by rewrite Hb|done]. }
  assert (∀ now meta hc, servers hc = ∅ →
    servers (check_server_health now meta hc).1 = ∅ ∧ (check_server_health now meta hc).2 = []) as Hempty.
  { intros now' meta' hc E. unfold check_server_health. by rewrite E, hash_order_none. }
  assert (servers (checker (start a now meta s0)) = ∅ ∧ reported (start a now meta s0) = []) as [He Hz].
  { split; [rewrite Hc; by apply Hempty|]. unfold start, open_receiver. destruct (open_bound _ _) as [k' fd].
    unfold monitor_check. pose proof (Hempty now meta (checker s0) eq_refl) as [_ H2].
    cbn [set_receiver set_running checker reported]. destruct (check_server_health now meta (checker s0)).
    by cbn in *; subst. }
  assert (∀ s, receiver s = None → servers (checker s) = ∅ → reported s = [] →
    servers (checker (serve_events evs s)) = ∅ ∧ reported (serve_events evs s) = []) as Hev.
  { clear -Hempty. induction evs as [|ev evs IH]; intros s Hr Hs Hz; [done|]. unfold serve_events in *.
    cbn [fold_left]. destruct ev as [now found|now meta|]; cbn [turn]; [| |by apply IH].
    - unfold receiver_turn. rewrite Hr. by apply IH.
    - unfold monitor_turn. destruct (sleeping s); cbn [negb]; [|by apply IH].
      destruct (running s); [|by apply IH]. unfold monitor_check.
      pose proof (Hempty now meta (checker s) Hs) as [H1 H2].
      destruct (check_server_health now meta (checker s)) as [hc scans]. cbn [fst snd] in *.
      apply IH; [done|done|]. cbn [reported]. by rewrite Hz, H2. }
  destruct (Hev _ Hnone He Hz) as [? ?]. split; [done|]. split; [done|].
  intros [_ Hsl]. destruct (events_running evs _ Hn Hr Hs) as (_ & Hs' & _). congruence.
Qed.

Lemma receiver_stays evs : ∀ s,
  (∀ now found, Datagram now found ∉ evs) → receiver (serve_events evs s) = receiver s.
Proof.
  induction evs as [|ev evs IH]; intros s Hn; [done|]. unfold serve_events in *. cbn [fold_left].
  rewrite IH by (intros now found Hin; by apply (Hn now found); right).
  destruct ev as [now found|now meta|]; [by destruct (Hn now found); left| |done]. cbn [turn].
  unfold monitor_turn, monitor_check. by repeat case_match.
Qed.

Lemma monitor_stays evs : ∀ s,
  (∀ now meta, Timer now meta ∉ evs) → sleeping (serve_events evs s) = sleeping s.
Proof.
  induction evs as [|ev evs IH]; intros s Hn; [done|]. unfold serve_events in *. cbn [fold_left].
  rewrite IH by (intros now meta Hin; by apply (Hn now meta); right).
  destruct ev as [now found|now meta|]; [|by destruct (Hn now meta); left|done]. cbn [turn].
  unfold receiver_turn. by repeat case_match.
Qed.

(** [stop] only clears a flag: [start] does not return before another datagram
    and another timer. *)
Theorem stop_needs_both (s : Service) (evs : list event) (fd : Z) :
  receiver s = Some fd → sleeping s = true →
  (∀ now found, Datagram now found ∉ evs) ∨ (∀ now meta, Timer now meta ∉ evs) →
  ¬ start_returns (serve_events evs (stop s)).
Proof.
  intros Hr Hs Hn [Hr' Hs']. destruct Hn as [Hn|Hn].
  - rewrite receiver_stays in Hr' by done. cbn in Hr'. congruence.
  - rewrite monitor_stays in Hs' by done. cbn in Hs'. congruence.
Qed.
(** [stop_health_checker] destroys the checker under its running coroutines,
    whatever has happened since it was started. *)
Theorem stop_frees_running_checker (a : Setup) (now : Z) (meta : MetaState) (evs : list event) (s s' : Service) :
  start_health_checker true a now meta s = Started s' → StopCalled ∉ evs →
  stop_health_checker (serve_events evs s') = true.
Proof.
  intros [= <-] Hn. destruct (start_spec a now meta s) as (_ & Hr & Hs & _).
  destruct (events_running evs _ Hn Hr Hs) as (_ & Hs' & _). unfold stop_health_checker, stop.
  cbn [set_running sleeping receiver]. by rewrite Hs', orb_true_r.
Qed.
End program.

(** A server is heard once; four checks later the table has it dead, the gauge
    does not. *)
#[local] Instance program_protobuf : Protobuf := net_protobuf.


