(* ===== verification/Services.v ===== *)
(** * Services: the coroutines of a cluster server, and [receive_signal]
    (src/src/cluster_server/chunk_service.cpp 295-383, 589-869, 872-937 and
    src/src/common/include/dfg/async_net.hpp 470-539)

    The control flow of the coroutines a cluster server starts, on the machine
    of [Coroutines]: what each may do next, whatever the kernel and the peers
    answer.  The data they carry is in [ChunkStore], [Heartbeat] and [Sockets]. *)
From Stdlib Require Import Lia.
From stdpp Require Import relations.
From S2P Require Import Prelude.
From S2P Require Import Text.
From S2P Require Import Wire.
From S2P Require Import WireCodec.
From S2P Require Import Heartbeat.
From S2P Require Import HeartbeatTcp.
From S2P Require Import Reactor.
From S2P Require Import Coroutines.
Local Open Scope Z_scope.

(** ** The cluster server *)

(** A program point: where a coroutine goes on. *)
Inductive point :=
  | MetricsSampler                    (* at the test of [running] *)
  | HeartbeatSetup
  | HeartbeatTurn (sfd : Z)           (* at the test of [running] *)
  | HeartbeatSent (sfd : Z)
  | EmergencySetup
  | EmergencyTurn (lfd : Z)           (* at the test of [running] *)
  | ChunkSetup
  | ChunkTurn (lfd : Z)               (* at the test of [running] *)
  | ChunkAccepting (lfd : Z)          (* in the loop that accepts *)
  | PrintStats                        (* at the test of [running] *)
  | PublicSetup
  | PublicTurn (lfd : Z)
  | PublicAccepting (lfd : Z)
  | Connection (cfd : Z)              (* serving a request *)
  | PublicConnection (cfd : Z)
  | ConnectionEnd (cfd : Z)           (* after the handler's try block *)
  | SendAll (fd : Z)                  (* async_send_all *)
  | ReadExact (fd : Z)                (* async_read_exact *)
  | Ending.                           (* at the final co_return *)

(** What a coroutine does next, up to its next suspension or exit.  A listener
    whose [accept] keeps failing goes round without an effect: the reactor is
    then not left either, and takes no step. *)
Inductive service_code (running : bool) : point → effect point → Prop :=
  (* metrics_sampler *)
  | sampler_on : running = true → service_code running MetricsSampler (Sleep MetricsSampler)
  | sampler_off : running = false → service_code running MetricsSampler Return
  (* heartbeat_sender *)
  | heartbeat_none : service_code running HeartbeatSetup Return
  | heartbeat_failed sfd : service_code running HeartbeatSetup (Close sfd Ending)
  | heartbeat_first sfd eff :
      service_code running (HeartbeatTurn sfd) eff → service_code running HeartbeatSetup eff
  | heartbeat_on sfd : running = true →
      service_code running (HeartbeatTurn sfd) (Call (SendAll sfd) (λ _, HeartbeatSent sfd))
  | heartbeat_error sfd : running = true →      (* thrown before the send *)
      service_code running (HeartbeatTurn sfd) (Sleep (HeartbeatTurn sfd))
  | heartbeat_sent sfd : service_code running (HeartbeatSent sfd) (Sleep (HeartbeatTurn sfd))
  | heartbeat_off sfd : running = false → service_code running (HeartbeatTurn sfd) (Close sfd Ending)
  (* emergency_listener *)
  | emergency_none : service_code running EmergencySetup Return
  | emergency_failed lfd : service_code running EmergencySetup (Close lfd Ending)
  | emergency_first lfd eff :
      service_code running (EmergencyTurn lfd) eff → service_code running EmergencySetup eff
  | emergency_wait lfd : running = true →
      service_code running (EmergencyTurn lfd) (Wait lfd EPOLLIN (EmergencyTurn lfd))
  | emergency_served lfd cfd : running = true →
      service_code running (EmergencyTurn lfd) (Close cfd (EmergencyTurn lfd))
  | emergency_over lfd : service_code running (EmergencyTurn lfd) (Close lfd Ending)
  (* chunk_server *)
  | chunk_none : service_code running ChunkSetup Return
  | chunk_failed lfd : service_code running ChunkSetup (Close lfd Ending)
  | chunk_ready lfd : service_code running ChunkSetup (Spawn PrintStats (ChunkTurn lfd))
  | chunk_off lfd : running = false → service_code running (ChunkTurn lfd) (Close lfd Ending)
  | chunk_on lfd eff : running = true →
      service_code running (ChunkAccepting lfd) eff → service_code running (ChunkTurn lfd) eff
  | chunk_wait lfd : service_code running (ChunkAccepting lfd) (Wait lfd EPOLLIN (ChunkAccepting lfd))
  | chunk_accepted lfd cfd :
      service_code running (ChunkAccepting lfd) (Spawn (Connection cfd) (ChunkTurn lfd))
  | chunk_error lfd eff :                          (* any other error *)
      service_code running (ChunkTurn lfd) eff → service_code running (ChunkAccepting lfd) eff
  (* print_stats *)
  | stats_on : running = true → service_code running PrintStats (Sleep PrintStats)
  | stats_off : running = false → service_code running PrintStats Return
  (* public_chunk_server *)
  | public_none : service_code running PublicSetup Return
  | public_failed lfd : service_code running PublicSetup (Close lfd Ending)
  | public_ready lfd eff :
      service_code running (PublicTurn lfd) eff → service_code running PublicSetup eff
  | public_off lfd : running = false → service_code running (PublicTurn lfd) (Close lfd Ending)
  | public_on lfd eff : running = true →
      service_code running (PublicAccepting lfd) eff → service_code running (PublicTurn lfd) eff
  | public_wait lfd : service_code running (PublicAccepting lfd) (Wait lfd EPOLLIN (PublicAccepting lfd))
  | public_accepted lfd cfd :
      service_code running (PublicAccepting lfd) (Spawn (PublicConnection cfd) (PublicTurn lfd))
  | public_error lfd eff :
      service_code running (PublicTurn lfd) eff → service_code running (PublicAccepting lfd) eff
  (* handle_connection and handle_public_connection *)
  | connection_reads cfd k :
      k = (λ threw : bool, if threw then ConnectionEnd cfd else Connection cfd) →
      service_code running (Connection cfd) (Call (ReadExact cfd) k)
  | connection_awaits cfd fut : service_code running (Connection cfd) (AwaitFuture fut (Connection cfd))
  | connection_answers cfd k :
      k = (λ threw : bool, if threw then ConnectionEnd cfd else Connection cfd) →
      service_code running (Connection cfd) (Call (SendAll cfd) k)
  | connection_over cfd eff :
      service_code running (ConnectionEnd cfd) eff → service_code running (Connection cfd) eff
  | connection_closes cfd : service_code running (ConnectionEnd cfd) (Close cfd Ending)
  | public_connection cfd eff :
      service_code running (Connection cfd) eff → service_code running (PublicConnection cfd) eff
  (* async_send_all and async_read_exact *)
  | send_blocks fd : service_code running (SendAll fd) (Wait fd EPOLLOUT (SendAll fd))
  | send_done fd : service_code running (SendAll fd) Return
  | send_throws fd : service_code running (SendAll fd) Throw
  | read_blocks fd : service_code running (ReadExact fd) (Wait fd EPOLLIN (ReadExact fd))
  | read_done fd : service_code running (ReadExact fd) Return
  | read_throws fd : service_code running (ReadExact fd) Throw
  | ending : service_code running Ending Return.

(** ** Starting a reactor's program *)
Section program.
Context {S : Type} (code : S → effect S → Prop).

(** [spawn] of one coroutine: it runs until control comes back. *)
Definition runs (m m' : Machine S) : Prop := rtc (λ a b, step code a b ∧ ¬ idle a) m m' ∧ idle m'.
(** The tasks spawned one after the other, before [run]. *)
Inductive begun : list S → Machine S → Machine S → Prop :=
  | begun_none m : begun [] m m
  | begun_one s ss m m1 m' :
      idle m → runs (start (User s) true None m) m1 → begun ss m1 m' → begun (s :: ss) m m'.

Lemma running_steps m m' : rtc (λ a b, step code a b ∧ ¬ idle a) m m' → rtc (step code) m m'.
Proof. induction 1 as [|a b c [Hab _] _ IH]; [done|]. by eapply rtc_l. Qed.

Lemma begun_reachable ss m m' : begun ss m m' → rtc (step code) m m'.
Proof.
  induction 1 as [m|s ss m m1 m' Hi [Hr _] _ IH]; [done|].
  eapply rtc_l; [by apply step_start|]. by eapply rtc_trans, IH; apply running_steps.
Qed.

(** Of tasks one of which never ends, a frame is alive from then on. *)
Lemma begun_living (undying : S → Prop) s ss m m' :
  (∀ s eff, undying s → code s eff →
    match eff with
    | Wait _ _ k | Sleep k | Close _ k | Spawn _ k | AwaitFuture _ k => undying k
    | Call _ k => ∀ threw, undying (k threw)
    | Return | Throw => False
    end) →
  machine_ok m → begun ss m m' → s ∈ ss → undying s → ∃ x, has_living undying (frames m') x.
Proof.
  intros Hund Hok Hb. revert Hok. induction Hb as [m|s' ss m m1 m' Hi [Hr _] Hb IH]; intros Hok Hin Hs.
  { by apply elem_of_nil in Hin. }
  apply running_steps in Hr.
  assert (machine_ok (start (User s') true None m)) as Hok0 by by apply start_free_ok.
  assert (∀ a b, machine_ok a → rtc (step code) a b → machine_ok b ∧
            ∀ x, has_living undying (frames a) x → has_living undying (frames b) x) as Hgo.
  { clear -Hund. intros a b Ha Hab. revert Ha. induction Hab as [|a b c Hab _ IHab]; intros Ha; [done|].
    destruct IHab as [Hc Hx]; [by eapply step_machine_ok|]. split; [done|]. intros x Hl.
    apply Hx. by apply (step_living code undying Hund a b). }
  destruct (Hgo _ _ Hok0 Hr) as [Hok1 Hx1].
  apply elem_of_cons in Hin as [<-|Hin]; [|by apply IH].
  exists (next_handle m). apply (Hgo _ _ Hok1 (begun_reachable _ _ _ Hb)), Hx1.
  eexists. cbn [start frames]. split; [apply lookup_insert_eq|]. by exists s.
Qed.
End program.

(** ** [ClusterServerService] *)
Definition exporter_address (id : Z) : bytes := lit "0.0.0.0:" ++ show_Z (9090 + id).
(** The tasks [start] spawns, in order. *)
Definition service_tasks : list point :=
  [MetricsSampler; HeartbeatSetup; EmergencySetup; ChunkSetup; PublicSetup].

(** [start_cluster_server]: the exporter and the reactor throw if they cannot be
    made; else [run] is entered, and 0 is returned when it returns. *)
Inductive service := NotStarted (code : Z) | Serving (m : Machine point).
Inductive start_cluster_server (exporter_made reactor_made : bool) : service → Prop :=
  | service_fails :
      exporter_made && reactor_made = false → start_cluster_server exporter_made reactor_made (NotStarted (-1))
  | service_starts m :
      exporter_made && reactor_made = true → begun (service_code true) service_tasks new_machine m →
      start_cluster_server exporter_made reactor_made (Serving m).

(** While [running] is set, the sampler only sleeps. *)
Lemma sampler_never_ends s eff :
  s = MetricsSampler → service_code true s eff →
  match eff with
  | Wait _ _ k | Sleep k | Close _ k | Spawn _ k | AwaitFuture _ k => k = MetricsSampler
  | Call _ k => ∀ threw, k threw = MetricsSampler
  | Return | Throw => False
  end.
Proof. intros -> Hc. by inversion Hc; subst. Qed.

(** C26: a cluster server serves until it is stopped.  Whatever its peers and
    the kernel do (listeners that cannot be made, connections that fail in
    the middle, exceptions, answers of the thread pool at any time), the
    program that [start] enters is never left while [running] is set, resumes
    no coroutine wrongly, and whenever it blocks some coroutine waits
    for a descriptor that the kernel watches. *)
Theorem service_serves_on (e r : bool) (m m' : Machine point) :
  start_cluster_server e r (Serving m) → rtc (step (service_code true)) m m' →
  fault m' = false ∧ ¬ run_returns m' ∧
  (idle m' → ∃ h fd ed, h ∈ waiting (reactor m') fd ed ∧ is_Some (interest (reactor m') !! fd)).
Proof.
  intros Hs Hr. inversion Hs as [|m0 _ Hb]; subst m0.
  pose proof (begun_reachable _ _ _ _ Hb) as Hreach.
  assert (∃ x, has_living (λ p, p = MetricsSampler) (frames m) x) as [x Hx].
  { apply (begun_living (service_code true) _ MetricsSampler service_tasks new_machine m);
      [exact sampler_never_ends|apply new_machine_ok|done|by left|done]. }
  pose proof (living_never_returns (service_code true) (λ p, p = MetricsSampler) sampler_never_ends
    m m' x (reachable_ok _ m Hreach) Hx Hr) as Hn.
  pose proof (rtc_trans _ _ _ Hreach Hr) as Hr'.
  destruct (machine_safe (service_code true) m' Hr') as (H1 & _ & _ & _ & H5).
  split; [done|]. split; [done|]. intros Hi. apply H5; [done|]. intros E. by apply Hn.
Qed.

(** The sampler sleeps, three ports and the heartbeat socket cannot be had, the
    public port waits. *)
Ltac run_to eff tfd :=
  eapply rtc_l;
  [split; [eapply (step_code _ _ _ _ _ _ eff tfd); [reflexivity|reflexivity|reflexivity| |]
          |let Hi := fresh in intros Hi; by destruct Hi]|].
Ltac begin_with eff tfd :=
  eapply begun_one; [by split|split; [run_to eff tfd; [|first [done|by intros []]|apply rtc_refl]|by split]|].

Lemma service_serves_on_witness : ∃ m,
  start_cluster_server true true (Serving m) ∧ ¬ run_returns m ∧
  ∃ h fd ed, h ∈ waiting (reactor m) fd ed ∧ is_Some (interest (reactor m) !! fd).
Proof.
  assert (∃ m, begun (service_code true) service_tasks new_machine m ∧ idle m) as (m & Hb & Hi).
  { eexists. split.
    - unfold service_tasks.
      begin_with (Sleep MetricsSampler) 10; [by constructor|].
      begin_with (Return (S := point)) 0; [by constructor|].
      begin_with (Return (S := point)) 0; [by constructor|].
      begin_with (Return (S := point)) 0; [by constructor|].
      begin_with (Wait 7 EPOLLIN (PublicAccepting 7)) 0; [|apply begun_none].
      apply (public_ready _ 7), public_on; [done|]. constructor.
    - by split. }
  exists m. assert (start_cluster_server true true (Serving m)) as Hs by by constructor.
  destruct (service_serves_on true true m m Hs (rtc_refl _ _)) as (_ & H1 & H2). auto.
Defined.

(** ** [resolve_ipv4] *)

(** [inet_pton]: the address a dotted host denotes; [gethostbyname]: its first
    address, with whether it is an IPv4 one. *)
Definition resolve_ipv4 (inet_pton : bytes → option Z) (gethostbyname : bytes → option (bool * Z))
    (host : bytes) (port : Z) : option (Z * Z) :=
  match inet_pton host with
  | Some a => Some (a, port)
  | None => match gethostbyname host with
            | Some (true, a) => Some (a, port)
            | _ => None
            end
  end.

(** [heartbeat_sender] gives up for good when the name cannot be resolved at
    its start. *)
Definition heartbeat_target (getenv : bytes → option bytes) (inet_pton : bytes → option Z)
    (gethostbyname : bytes → option (bool * Z)) : option (Z * Z) :=
  resolve_ipv4 inet_pton gethostbyname (default (lit "127.0.0.1") (getenv (lit "HEALTH_CHECKER_HOST"))) 9000.

(** ** [receive_signal] *)
Section receiving.
Context `{!Protobuf}.

(** One [accept4]: a connection, none yet, or another error. *)
Inductive accept_answer := Incoming | NotYet | AcceptError.

(** [accept_and_recv]: whether a connection came; its exception, like that of
    [recv_heartbeats], is kept in a task nobody awaits, and dropped with it. *)
Fixpoint accept_one (answers : list accept_answer) : HeartbeatTcp.io unit :=
  match answers with
  | [] => Suspended
  | Incoming :: _ => Returned tt
  | NotYet :: answers => accept_one answers
  | AcceptError :: _ => Threw
  end.

(** The messages printed, and the exit code; [None]: it has not returned (or the
    parser was given a negative length).
    [listens]: the listening socket could be made; [reactor_made]: [Reactor]'s
    constructor did not throw. *)
Definition receive_signal (fuel : nat) (max_alloc : Z) (listens reactor_made : bool)
    (answers : list accept_answer) (t : tail) (s : list arrival)
  : option (list HeartBeat * option Z) :=
  if negb listens || negb reactor_made then Some ([], Some 1)
  else match accept_one answers with
       | Suspended => Some ([], None)
       | Threw => Some ([], Some 0)
       | Returned _ =>
           '(hbs, r) ← recv_heartbeats fuel max_alloc t s;
           Some (hbs, match r with Receiving | Broken => None | Failed => Some 0 end)
       end.

(** Whatever goes wrong once it listens (no connection can be accepted, the peer
    breaks off inside a message, a message cannot be read), [receive_signal]
    returns 0, and it always returns when the peer closes. *)
Theorem receive_signal_hides_errors (max_alloc : Z) (answers : list accept_answer) (t : tail)
    (s : list arrival) (fuel : nat) hbs code :
  receive_signal fuel max_alloc true true answers t s = Some (hbs, Some code) → code = 0.
Proof.
  unfold receive_signal. cbn [negb orb]. destruct (accept_one answers); [|by intros [= _ <-]|done].
  destruct (recv_heartbeats _ _ _ _) as [[h []]|]; cbn; try done; by intros [= _ <-].
Qed.

(** What [send_signal] sends is what [receive_signal] prints. *)
Theorem signals_received (max_alloc sid : Z) (addr : bytes) (env : list turn_env)
    (sent : list send_answer) (accepts : list accept_answer) (s : list arrival) :
  let hbs := messages (first_message sid addr) env in
  env ≠ [] → max_alloc ≤ INT_MAX →
  Forall (λ hb, wire_ok hb ∧ Z.of_nat (length (serialize hb)) ≤ max_alloc) hbs →
  no_error sent → (length (HeartbeatTcp.frames hbs) ≤ taking sent)%nat →
  accept_one accepts = Returned tt →
  in_flight s = (send_signal true (InProgress true) sid addr (Z.of_nat (length env)) env sent).1 →
  receive_signal (Datatypes.S (length hbs)) max_alloc true true accepts Closed s = Some (hbs, Some 0).
Proof.
  cbv zeta. intros Hne Hmax Hok Hsent Hl Hacc Hs.
  assert ((send_signal true (InProgress true) sid addr (Z.of_nat (length env)) env sent).1 =
          HeartbeatTcp.frames (messages (first_message sid addr) env)) as E.
  { unfold send_signal, send_heartbeat_session, async_connect.
    rewrite send_heartbeats_spec; try done. destruct env; [done|]. simpl. lia. }
  rewrite E in Hs. unfold receive_signal. cbn [negb orb]. rewrite Hacc.
  by rewrite (recv_frames max_alloc Closed _ s Hok Hmax Hs).
Qed.
End receiving.
