(* ===== verification/HeadThreads.v ===== *)
(** * HeadThreads: the head server's process once it runs
    (src/src/head_server/head_server.cpp: [heartbeat_receiver_thread],
    [health_check_thread], [head_signal_handler], the end of [run_head_server],
    [main])

    An event is what wakes one of the threads up; handling it is one step.  The
    client port, the control API and the failover threads are other components:
    here a failover is the notification its thread is started with, and a
    request that changes the monitor is an event. *)
From Stdlib Require Import Lia SpecFloat.
From S2P Require Import Prelude.
From S2P Require Import Text.
From S2P Require Import Ordered.
From S2P Require Import Registry.
From S2P Require Import Health.
From S2P Require Import Zk.
From S2P Require Import Wire.
From S2P Require Import WireCodec.
From S2P Require Import Heartbeat.
From S2P Require Import Config.
From S2P Require Import HeadMain.
From S2P Require Import Metrics.
From S2P Require Import Sockets.
Local Open Scope Z_scope.

Section threads.
Context {R : Type} `{!Prometheus R} `{!Protobuf}.

Record HeadState := mkHeadState {
  monitor : HealthMonitor;
  metrics : option R;               (* [None]: the exporter could not be made *)
  head_running : bool;
  receiver : option Z;              (* the socket its thread waits for; [None]: over *)
  checking : bool;                  (* [health_check_thread] is in its loop *)
  session : ZkClient;               (* what that thread connects and never uses *)
  failovers : list notification;    (* the threads started by the callback *)
  exit_code : option Z;
  descriptors : Descriptors
}.

Definition set_monitor (m : HealthMonitor) (r : option R) (ns : list notification) (s : HeadState) : HeadState :=
  mkHeadState m r (head_running s) (receiver s) (checking s) (session s) (failovers s ++ ns)
    (exit_code s) (descriptors s).

(** [g_head_metrics]: a failure to make the exporter is only a warning. *)
Definition head_metrics (exporter_made : bool) (r : R) : option R :=
  if exporter_made then Some (new_head_metrics r) else None.

(** The two threads before their loops. *)
Definition start_threads (h : HeadServer) (r : option R) (k : Descriptors) (a : Setup) : HeadState :=
  let '(k, sfd) := open_bound k a in
  mkHeadState (hd_monitor h) r true sfd true (connect (mkClient (hd_zk_hosts h) false false)).1 [] None k.

(** One iteration of [heartbeat_receiver_thread], then its loop condition.
    [found = None]: nothing for two seconds, an error, or an empty datagram.
    [None]: the parser was called with a negative length. *)
Definition heartbeat_receiver_thread (now : Z) (found : option bytes) (s : HeadState) : option HeadState :=
  match receiver s with
  | None => Some s
  | Some sfd =>
      s ← match found with
          | None => Some s
          | Some d =>
              match receive_heartbeat now (monitor s) d with
              | Ignored => Some s
              | Overrun => None
              | Recorded m ns =>
                  Some (set_monitor m (set_healthy_servers (healthy_count m) <$> metrics s) ns s)
              end
          end;
      Some (if head_running s then s
            else mkHeadState (monitor s) (metrics s) false None (checking s) (session s) (failovers s)
                   (exit_code s) (close sfd (descriptors s)))
  end.

(** After ten seconds [health_check_thread] checks, also when it was told to
    stop meanwhile; then its loop condition. *)
Definition health_check_thread (now : Z) (s : HeadState) : HeadState :=
  if checking s then
    let '(m, ns) := check_health now (monitor s) in
    let s := set_monitor m (metrics s) ns s in
    mkHeadState (monitor s) (metrics s) (head_running s) (receiver s) (head_running s) (session s)
      (failovers s) (exit_code s) (descriptors s)
  else s.

Definition head_signal_handler (s : HeadState) : HeadState :=
  mkHeadState (monitor s) (metrics s) false (receiver s) (checking s) (session s) (failovers s)
    (exit_code s) (descriptors s).

(** The loop at the end of [run_head_server], each second. *)
Definition main_turn (s : HeadState) : HeadState :=
  if head_running s then s
  else mkHeadState (monitor s) (metrics s) false (receiver s) (checking s) (session s) (failovers s)
         (Some 0) (descriptors s).

Inductive head_event :=
  | Datagram (now : Z) (found : option bytes)
  | TenSeconds (now : Z)
  | Request (now sid : Z) (addr : option bytes)   (* of the control API: watch an address, or stop *)
  | Signal
  | MainWakes.
#[export] Instance head_event_eq_dec : EqDecision head_event.
Proof. solve_decision. Defined.

Definition request_event (now sid : Z) (addr : option bytes) : health_event :=
  match addr with Some a => Register now sid a | None => Deregister sid end.

Definition head_turn (s : HeadState) (ev : head_event) : option HeadState :=
  if decide (is_Some (exit_code s)) then Some s      (* the process is over *)
  else match ev with
       | Datagram now found => heartbeat_receiver_thread now found s
       | TenSeconds now => Some (health_check_thread now s)
       | Request now sid addr =>
           let '(m, ns) := step_health (monitor s) (request_event now sid addr) in
           Some (set_monitor m (metrics s) ns s)
       | Signal => Some (head_signal_handler s)
       | MainWakes => Some (main_turn s)
       end.

Fixpoint head_serve (s : HeadState) (evs : list head_event) : option HeadState :=
  match evs with
  | [] => Some s
  | ev :: evs => s ← head_turn s ev; head_serve s evs
  end.

(** [main] of the stand-alone binary. *)
Inductive main_answer := Answered (code : Z) | Ran (o : head_outcome).
Definition main (run : list bytes → head_outcome) (argv : list bytes) : main_answer :=
  match argv !! 1%nat with
  | Some arg =>
      if decide (arg = lit "-h" ∨ arg = lit "--help") then Answered 0
      else if decide (arg = lit "-v" ∨ arg = lit "--version") then Answered 0
      else Ran (run argv)
  | None => Ran (run argv)
  end.

(** ** The history of the monitor *)

(** The datagrams whose length word overflows the receiver's check: the parser
    would be called with a negative length ([heartbeat_length_check]). *)
Definition overruns (ev : head_event) : Prop :=
  match ev with
  | Datagram _ (Some d) => (4 ≤ length d)%nat ∧ 2 ^ 32 - 4 ≤ of_be32 (take 4 d)
  | _ => False
  end.
#[export] Instance overruns_dec ev : Decision (overruns ev).
Proof. destruct ev as [now [d|]| | | |]; cbn; apply _. Defined.

(** The message the receiver finds in a datagram. *)
Definition head_heartbeat (d : bytes) : option HeartBeat :=
  let buf := take (Z.to_nat datagram_max) d in
  let n := Z.of_nat (length buf) in
  if decide (n < 4 ∨ n < w32 (4 + of_be32 (take 4 buf))) then None
  else parse (take (Z.to_nat (of_be32 (take 4 buf))) (drop 4 buf)).

(** What an event is to the monitor while both threads run. *)
Definition monitor_event (listens : bool) (ev : head_event) : list health_event :=
  match ev with
  | Datagram now (Some d) =>
      match head_heartbeat d with
      | Some hb => if listens then [Heartbeat now (hb_server_id hb) (health_of_heartbeat hb)] else []
      | None => []
      end
  | Datagram _ None => []
  | TenSeconds now => [CheckHealth now]
  | Request now sid addr => [request_event now sid addr]
  | Signal | MainWakes => []
  end.
Definition history (listens : bool) (evs : list head_event) : list health_event :=
  mjoin (map (monitor_event listens) evs).
Lemma history_cons listens ev evs :
  history listens (ev :: evs) = monitor_event listens ev ++ history listens evs.
Proof. done. Qed.

Lemma receive_small now now' m d :
  ¬ overruns (Datagram now' (Some d)) →
  receive_heartbeat now m d =
  match head_heartbeat d with
  | None => Ignored
  | Some hb => let '(m', ns) := record_heartbeat now m (hb_server_id hb) (health_of_heartbeat hb) in
               Recorded m' ns
  end.
Proof.
  intros Hs. destruct (heartbeat_length_check now m d) as [Hover _]. cbn in Hs. rewrite <- Hover in Hs.
  clear Hover. revert Hs. unfold receive_heartbeat, head_heartbeat.
  case_decide as H1; [by rewrite decide_True by (by left)|].
  case_decide as H2; [by rewrite decide_True by (by right)|].
  rewrite (decide_False (P := _ ∨ _)) by tauto. by case_decide.
Qed.

Lemma receive_overrun now now' m d :
  overruns (Datagram now' (Some d)) → receive_heartbeat now m d = Overrun.
Proof. intros Hd. by apply (heartbeat_length_check now m d). Qed.

(** A process that runs: not told to stop, the checker in its loop. *)
Definition up (s : HeadState) : Prop :=
  head_running s = true ∧ checking s = true ∧ exit_code s = None.

Lemma run_health_app m es es' :
  run_health m (es ++ es') =
  let '(m1, o1) := run_health m es in let '(m2, o2) := run_health m1 es' in (m2, o1 ++ o2).
Proof.
  revert m. induction es as [|e es IH]; intros m; cbn [app run_health].
  { by destruct (run_health m es'). }
  destruct (step_health m e) as [m1 o1]. rewrite IH. destruct (run_health m1 es) as [m2 o2].
  destruct (run_health m2 es') as [m3 o3]. by rewrite (assoc_L (++)).
Qed.

Lemma run_health_one m e : run_health m [e] = step_health m e.
Proof. cbn [run_health]. destruct (step_health m e). by rewrite app_nil_r. Qed.

Lemma head_turn_spec s ev :
  up s → ev ≠ Signal → (is_Some (receiver s) → ¬ overruns ev) →
  ∃ s', head_turn s ev = Some s' ∧ up s' ∧ receiver s' = receiver s ∧
    let '(m, ns) := run_health (monitor s) (monitor_event (bool_decide (is_Some (receiver s))) ev) in
    monitor s' = m ∧ failovers s' = failovers s ++ ns.
Proof.
  intros (Hr & Hc & He) Hev Hsm. unfold head_turn. rewrite decide_False by (rewrite He; by intros [? ?]).
  destruct ev as [now found|now|now sid addr| |]; [| | |done|].
  - unfold heartbeat_receiver_thread. destruct (receiver s) as [fd|] eqn:Efd.
    + rewrite bool_decide_true by eauto. destruct found as [d|]; cbn [monitor_event].
      * rewrite (receive_small now now) by (apply Hsm; by eexists).
        destruct (head_heartbeat d) as [hb|].
        -- rewrite run_health_one. cbn [step_health]. destruct (record_heartbeat _ _ _ _) as [m ns].
           cbn. rewrite Hr. eexists. split; [done|]. by repeat split.
        -- cbn. rewrite Hr. exists s. split; [done|]. by rewrite app_nil_r.
      * cbn. rewrite Hr. exists s. split; [done|]. by rewrite app_nil_r.
    + exists s. split; [done|]. split; [done|]. split; [done|].
      rewrite bool_decide_false by (by intros [? ?]). cbn [monitor_event].
      destruct found as [d|]; [destruct (head_heartbeat d)|]; cbn; by rewrite app_nil_r.
  - cbn [monitor_event]. rewrite run_health_one. cbn [step_health]. unfold health_check_thread. rewrite Hc.
    destruct (check_health _ _) as [m ns]. eexists. split; [done|]. cbn. by rewrite Hr.
  - cbn [monitor_event]. rewrite run_health_one. destruct (step_health _ _) as [m ns].
    eexists. split; [done|]. by repeat split.
  - cbn [monitor_event run_health]. unfold main_turn. rewrite Hr. exists s.
    split; [done|]. by rewrite app_nil_r.
Qed.

Lemma head_serve_history evs : ∀ s,
  up s → Signal ∉ evs → (is_Some (receiver s) → Forall (λ ev, ¬ overruns ev) evs) →
  ∃ s', head_serve s evs = Some s' ∧ up s' ∧
    let '(m, ns) := run_health (monitor s) (history (bool_decide (is_Some (receiver s))) evs) in
    monitor s' = m ∧ failovers s' = failovers s ++ ns.
Proof.
  induction evs as [|ev evs IH]; intros s Hs Hn Hsm.
  { exists s. cbn. by rewrite app_nil_r. }
  rewrite not_elem_of_cons in Hn. destruct Hn as [H1 H2].
  assert (is_Some (receiver s) → ¬ overruns ev) as Hs1.
  { intros Hr. specialize (Hsm Hr). by apply Forall_cons in Hsm as [? _]. }
  destruct (head_turn_spec s ev Hs (λ E, H1 (eq_sym E)) Hs1) as (s1 & E1 & Hu1 & Hr1 & Hm1).
  cbn [head_serve]. rewrite E1. cbn [mbind option_bind].
  destruct (IH s1 Hu1 H2) as (s2 & E2 & Hu2 & Hm2).
  { rewrite Hr1. intros Hr. specialize (Hsm Hr). by apply Forall_cons in Hsm as [_ ?]. } exists s2. split; [done|]. split; [done|].
  rewrite Hr1 in Hm2. rewrite history_cons, run_health_app.
  destruct (run_health (monitor s) _) as [m1 ns1]. destruct Hm1 as [<- Hf1].
  destruct (run_health (monitor s1) _) as [m2 ns2]. destruct Hm2 as [-> ->]. split; [done|].
  by rewrite Hf1, (assoc_L (++)).
Qed.

(** A listening receiver does not survive an overrun. *)
Lemma head_serve_overrun evs : ∀ s,
  up s → Signal ∉ evs → is_Some (receiver s) → Exists overruns evs → head_serve s evs = None.
Proof.
  induction evs as [|ev evs IH]; intros s Hs Hn Hr Hex; [by apply Exists_nil in Hex|].
  rewrite not_elem_of_cons in Hn. destruct Hn as [H1 H2]. cbn [head_serve].
  destruct (decide (overruns ev)) as [Ho|Ho].
  - destruct ev as [now [d|]| | | |]; try done. destruct Hs as (_ & _ & He), Hr as [fd Hfd].
    unfold head_turn. rewrite decide_False by (rewrite He; by intros [? ?]).
    unfold heartbeat_receiver_thread. by rewrite Hfd, (receive_overrun now now).
  - destruct (head_turn_spec s ev Hs (λ E, H1 (eq_sym E)) (λ _, Ho)) as (s1 & -> & Hu1 & Hr1 & _).
    cbn [mbind option_bind]. apply IH; [done|done|by rewrite Hr1|].
    by apply Exists_cons in Hex as [?|?].
Qed.
End threads.

(** ** Shutting down *)
Section shutdown.
Context {R : Type} `{!Prometheus R} `{!Protobuf}.

Lemma turn_after_signal (s : HeadState (R := R)) ev :
  exit_code s = None → head_running s = false → ¬ overruns ev →
  ∃ s', head_turn s ev = Some s' ∧ head_running s' = false ∧
    exit_code s' = match ev with MainWakes => Some 0 | _ => None end.
Proof.
  intros He Hr Hsm. unfold head_turn. rewrite decide_False by (rewrite He; by intros [? ?]).
  destruct ev as [now found|now|now sid addr| |].
  - unfold heartbeat_receiver_thread. destruct (receiver s); [|by exists s].
    destruct found as [d|]; cbn in *.
    + rewrite (receive_small now now) by done. destruct (head_heartbeat d) as [hb|].
      * destruct (record_heartbeat _ _ _ _) as [m ns]. cbn. rewrite Hr. by eexists.
      * cbn. rewrite Hr. by eexists.
    + rewrite Hr. by eexists.
  - eexists. split; [done|]. unfold health_check_thread. destruct (checking s); [|done].
    by destruct (check_health _ _).
  - destruct (step_health _ _) as [m ns]. by eexists.
  - by eexists.
  - eexists. split; [done|]. unfold main_turn. by rewrite Hr.
Qed.

(** After a signal the process ends, with code 0, the next time [main]'s loop
    wakes up: it waits neither for the two threads nor for a failover. *)
Theorem signal_ends_process (s : HeadState (R := R)) (evs : list head_event) :
  exit_code s = None → Forall (λ ev, ¬ overruns ev) evs →
  ∃ s', head_serve s (Signal :: evs) = Some s' ∧
    exit_code s' = if decide (MainWakes ∈ evs) then Some 0 else None.
Proof.
  intros He Hsm. cbn [head_serve]. unfold head_turn at 1.
  rewrite decide_False by (rewrite He; by intros [? ?]). cbn [mbind option_bind].
  assert (head_running (head_signal_handler s) = false) as Hr by done.
  change (exit_code (head_signal_handler s) = None) in He. revert He Hr.
  generalize (head_signal_handler s). clear s. induction Hsm as [|ev evs Hev _ IH]; intros s He Hr.
  { exists s. split; [done|]. by rewrite decide_False by (apply not_elem_of_nil). }
  destruct (turn_after_signal s ev He Hr Hev) as (s1 & E1 & Hr1 & Hx1). cbn [head_serve]. rewrite E1.
  cbn [mbind option_bind]. destruct (decide (ev = MainWakes)) as [->|Hne].
  - rewrite decide_True by left. exists s1. split; [|done]. clear -Hx1.
    induction evs as [|ev l IHl]; [done|]. cbn [head_serve]. unfold head_turn.
    by rewrite decide_True by (rewrite Hx1; eauto).
  - destruct (IH s1) as (s' & E & Hx); [by destruct ev|done|].
    exists s'. split; [done|]. rewrite Hx. repeat case_decide; try done; set_solver.
Qed.
End shutdown.

(** ** The configured servers when the threads start *)
Section watched.
Variable (times : nat → Z * Z).

(** The record of a configured server: the first with its id, as registered. *)
Definition newly_watched (id : Z) (servers : list ClusterServerEntry) : option (nat * ClusterServerEntry) :=
  list_find (λ e, ce_id e = id) servers.
Definition initial_health (id : Z) (ie : nat * ClusterServerEntry) : ServerHealth :=
  mkHealth id (server_address ie.2) fzero fzero fzero [] [] 0 0 true (times ie.1).2 0.

Lemma load_servers_snoc st servers e :
  load_servers times st (servers ++ [e]) =
  register_configured (load_servers times st servers) (times (length servers), e).
Proof.
  unfold load_servers. rewrite imap_app, fold_left_app. cbn. by rewrite Nat.add_0_r.
Qed.

Lemma newly_watched_snoc id servers e :
  newly_watched id (servers ++ [e]) =
  match newly_watched id servers with
  | Some ie => Some ie
  | None => if decide (ce_id e = id) then Some (length servers, e) else None
  end.
Proof.
  unfold newly_watched. destruct (list_find _ servers) as [[i x]|] eqn:E.
  - by apply list_find_app_l.
  - rewrite list_find_app_r by done. cbn. case_decide; [|done]. cbn. by rewrite ?Nat.add_0_r.
Qed.

Lemma load_servers_watch reg hm servers id :
  hm_servers hm = ∅ →
  let m := (load_servers times (reg, hm) servers).2 in
  hm_servers m !! id = initial_health id <$> newly_watched id servers ∧
  heartbeat_timeout m = heartbeat_timeout hm ∧ max_missed m = max_missed hm.
Proof.
  intros Hm. revert id. induction servers as [|e servers IH] using rev_ind; intros id.
  { cbn. by rewrite Hm. }
  rewrite load_servers_snoc. destruct (load_servers times (reg, hm) servers) as [reg1 m1].
  cbn [snd] in *. rewrite newly_watched_snoc. unfold register_configured.
  destruct (times (length servers)) as [t1 t2] eqn:Et. cbn [snd].
  destruct (IH id) as (Hi & Ht & Hx). destruct (IH (ce_id e)) as (He & _).
  unfold Health.register_server. destruct (hm_servers m1 !! ce_id e) as [h|] eqn:E.
  - split; [|done]. rewrite Hi. destruct (newly_watched id servers) eqn:En; [done|].
    case_decide as Eid; [|done]. subst id. by rewrite En in He.
  - cbn [with_servers hm_servers heartbeat_timeout max_missed]. split; [|done]. rewrite lookup_insert.
    case_decide as Eid.
    + subst id. destruct (newly_watched (ce_id e) servers) as [ie|] eqn:En; [done|].
      rewrite ?decide_True by done. cbn. unfold initial_health. cbn. by rewrite Et.
    + rewrite Hi. destruct (newly_watched id servers); [done|]. done.
Qed.
End watched.

Section detection.
Context {R : Type} `{!Prometheus R} `{!Protobuf}.
Variables (fuel : nat) (getenv : bytes → option bytes) (files : Files) (times : nat → Z * Z).

(** The checks that find nothing heard since [last]. *)
Definition stale_check (timeout last : Z) (ev : head_event) : Prop :=
  match ev with TenSeconds now => timeout < (now - last) ÷ 1000000000 | _ => False end.
#[export] Instance stale_check_dec timeout last ev : Decision (stale_check timeout last ev).
Proof. destruct ev; cbn; apply _. Defined.

(** Nothing about server [id] reaches the monitor. *)
Definition unheard (listens : bool) (id : Z) (ev : head_event) : Prop :=
  match ev with
  | Datagram _ (Some d) =>
      if listens then (λ hb, hb_server_id hb) <$> head_heartbeat d ≠ Some id else True
  | Request _ sid None => sid ≠ id
  | _ => True
  end.

Lemma unheard_quiet listens id evs :
  Forall (unheard listens id) evs → Forall (quiet id) (history listens evs).
Proof.
  induction 1 as [|ev evs Hev _ IH]; [constructor|]. rewrite history_cons. apply Forall_app. split; [|done].
  destruct ev as [now [d|]|now|now sid [addr|]| |]; cbn in *; try by repeat constructor.
  destruct (head_heartbeat d); [|constructor]. destruct listens; [|constructor].
  repeat constructor. cbn in *. congruence.
Qed.

Lemma history_stale listens timeout last evs :
  length (filter (stale timeout last) (history listens evs)) =
  length (filter (stale_check timeout last) evs).
Proof.
  induction evs as [|ev evs IH]; [done|]. rewrite history_cons, filter_app, length_app, IH, filter_cons.
  assert (length (filter (stale timeout last) (monitor_event listens ev)) =
          if decide (stale_check timeout last ev) then 1%nat else 0%nat) as ->.
  { destruct ev as [now [d|]|now|now sid addr| |]; cbn [monitor_event stale_check].
    - rewrite decide_False by auto. destruct (head_heartbeat d), listens; done.
    - by rewrite decide_False by auto.
    - rewrite filter_cons. cbn [stale]. by repeat case_decide.
    - rewrite decide_False by auto. by destruct addr.
    - by rewrite decide_False by auto.
    - by rewrite decide_False by auto. }
  by case_decide.
Qed.

Lemma running_monitor cfg cfg' zk argv h :
  load_given fuel files cfg (argument_pairs argv) = Some cfg' →
  run_head_server fuel getenv files times cfg zk argv = Running h →
  unhealthy_cb (hd_monitor h) = true ∧ recovered_cb (hd_monitor h) = false ∧
  heartbeat_timeout (hd_monitor h) = get_int getenv cfg' (lit "health_checker.heartbeat_timeout") 60 ∧
  max_missed (hd_monitor h) = get_int getenv cfg' (lit "health_checker.max_missed_heartbeats") 10 ∧
  ∀ id, hm_servers (hd_monitor h) !! id =
    initial_health times id <$> newly_watched id (get_cluster_servers getenv cfg').
Proof.
  intros Hc Hrun. unfold run_head_server in Hrun. rewrite Hc in Hrun.
  case_decide; [done|]. destruct (port_arguments _ _ _) as [[p cp]|]; [|done].
  set (hm0 := mkMonitor ∅ _ _ _ _) in Hrun.
  assert (Hw := λ id, load_servers_watch times empty_registry hm0 (get_cluster_servers getenv cfg') id eq_refl).
  destruct (load_servers times (empty_registry, hm0) _) as [reg m]. injection Hrun as <-.
  cbn [hd_monitor unhealthy_cb recovered_cb heartbeat_timeout max_missed hm_servers snd] in *.
  destruct (Hw 0) as (_ & -> & ->). split_and!; try done. intros id. apply (Hw id).
Qed.

Lemma start_threads_up h (r : option R) k a :
  let s := start_threads h r k a in
  up s ∧ monitor s = hd_monitor h ∧ failovers s = [] ∧ receiver s = (open_bound k a).2.
Proof. unfold start_threads. by destruct (open_bound k a). Qed.

(** The configured server [id] from which the monitor hears nothing. *)
Lemma silence_counted cfg cfg' zk argv h (r : option R) k a evs id i e :
  load_given fuel files cfg (argument_pairs argv) = Some cfg' →
  run_head_server fuel getenv files times cfg zk argv = Running h →
  newly_watched id (get_cluster_servers getenv cfg') = Some (i, e) →
  0 < max_missed (hd_monitor h) → (times i).2 ≠ 0 →
  Signal ∉ evs → (is_Some (open_bound k a).2 → Forall (λ ev, ¬ overruns ev) evs) →
  Forall (unheard (bool_decide (is_Some (open_bound k a).2)) id) evs →
  ∃ s', head_serve (start_threads h r k a) evs = Some s' ∧ up s' ∧
    if decide (max_missed (hd_monitor h) ≤
               Z.of_nat (length (filter (stale_check (heartbeat_timeout (hd_monitor h)) (times i).2) evs)))
    then ∃ hl, about id (failovers s') = [Unhealthy id hl] ∧ ip hl = server_address e
    else about id (failovers s') = [].
Proof.
  intros Hc Hrun Hid Hmax Ht Hn Hsm Hq.
  destruct (running_monitor cfg cfg' zk argv h Hc Hrun) as (Hcb & _ & _ & _ & Hw).
  destruct (start_threads_up h r k a) as (Hu & Hm & Hf & Hrec).
  rewrite <- Hrec in Hsm. destruct (head_serve_history evs _ Hu Hn Hsm) as (s' & E & Hu' & Hs').
  rewrite Hm, Hf, Hrec in Hs'. exists s'. split; [done|]. split; [done|].
  pose proof (Hw id) as Hx. rewrite Hid in Hx. cbn [fmap option_fmap option_map] in Hx.
  assert (health_wf (hd_monitor h)) as Hwf.
  { split; [done|]. intros j x Hj. rewrite Hw in Hj. apply fmap_Some in Hj as (ie & _ & ->).
    cbn. by rewrite bool_decide_true. }
  pose proof (unheard_quiet _ _ _ Hq) as Hquiet.
  destruct (silent_counted (hd_monitor h) _ id _ Hwf Hquiet Hx Hcb Ht) as [_ Ho].
  pose proof (silent_reports (hd_monitor h) _ id _ Hquiet Hx Hcb Ht) as Hrep.
  cbv zeta in Ho. cbn [initial_health last_heartbeat missed_heartbeats is_healthy fst snd] in Ho.
  rewrite history_stale, Z.add_0_l in Ho. destruct (run_health _ _) as [m ns]. destruct Hs' as [_ ->].
  cbn [snd app] in *. cbn [andb] in Ho. case_bool_decide as Hd.
  - rewrite decide_True by done. destruct (about id ns) as [|n [|n' l]]; [done| |done].
    apply Forall_inv in Hrep. destruct n as [j hl|j hl]; [|done]. destruct Hrep as [-> Hip]. by exists hl.
  - rewrite decide_False by done. by apply nil_length_inv.
Qed.

(** C14: a configured server that falls silent is failed over, once.  The head
    server starts from its configuration and its threads run; no datagram and
    no request speaks of the server and no signal comes.  Then whatever else
    arrives, and in whatever order: if the heartbeat port is open and some
    datagram has a length word of 2^32 - 4 or more, the run reaches the parser
    call with a negative length (beyond which nothing is said); otherwise the
    process runs on and has started one failover, of that server at its
    configured address, when [max_missed] checks have found it stale since it
    was registered, and none before. *)
Theorem silent_server_fails_over (cfg cfg' : ConfigLoader) (zk : ZkStore) (argv : list bytes)
    (h : HeadServer) (r : option R) (k : Descriptors) (a : Setup) (evs : list head_event)
    (id : Z) (i : nat) (e : ClusterServerEntry) :
  load_given fuel files cfg (argument_pairs argv) = Some cfg' →
  run_head_server fuel getenv files times cfg zk argv = Running h →
  newly_watched id (get_cluster_servers getenv cfg') = Some (i, e) →
  0 < max_missed (hd_monitor h) → (times i).2 ≠ 0 →
  Signal ∉ evs → Forall (unheard true id) evs →
  if decide (is_Some (open_bound k a).2 ∧ Exists overruns evs)
  then head_serve (start_threads h r k a) evs = None
  else
    ∃ s', head_serve (start_threads h r k a) evs = Some s' ∧ up s' ∧
      if decide (max_missed (hd_monitor h) ≤
                 Z.of_nat (length (filter (stale_check (heartbeat_timeout (hd_monitor h)) (times i).2) evs)))
      then ∃ hl, about id (failovers s') = [Unhealthy id hl] ∧ ip hl = server_address e
      else about id (failovers s') = [].
Proof.
  intros Hc Hrun Hid Hmax Ht Hn Hq. case_decide as Ho.
  - destruct Ho as [Hfd Ho]. destruct (start_threads_up h r k a) as (Hu & _ & _ & Hrec).
    apply head_serve_overrun; [done|done|by rewrite Hrec|done].
  - apply (silence_counted cfg cfg' zk argv h r k a evs id i e Hc Hrun Hid Hmax Ht Hn).
    + intros Hfd. apply not_Exists_Forall; [intros ev; apply _|]. by intros Hex; apply Ho.
    + eapply Forall_impl; [exact Hq|]. intros [now [d|]| | | |]; try done. cbn. by case_bool_decide.
Qed.

(** When UDP port 9000 is taken the process runs on, and a server is failed
    over however many heartbeats it sends. *)
Theorem deaf_head_fails_over (cfg cfg' : ConfigLoader) (zk : ZkStore) (argv : list bytes)
    (h : HeadServer) (r : option R) (k : Descriptors) (a : Setup) (evs : list head_event)
    (id : Z) (i : nat) (e : ClusterServerEntry) :
  load_given fuel files cfg (argument_pairs argv) = Some cfg' →
  run_head_server fuel getenv files times cfg zk argv = Running h →
  newly_watched id (get_cluster_servers getenv cfg') = Some (i, e) →
  0 < max_missed (hd_monitor h) → (times i).2 ≠ 0 →
  bound a = false → Signal ∉ evs → (∀ now, Request now id None ∉ evs) →
  max_missed (hd_monitor h) ≤
    Z.of_nat (length (filter (stale_check (heartbeat_timeout (hd_monitor h)) (times i).2) evs)) →
  ∃ s', head_serve (start_threads h r k a) evs = Some s' ∧ up s' ∧
    ∃ hl, about id (failovers s') = [Unhealthy id hl] ∧ ip hl = server_address e.
Proof.
  intros Hc Hrun Hid Hmax Ht Hb Hn Hreq Hst.
  assert ((open_bound k a).2 = None) as Hfd.
  { unfold open_bound. destruct (socket_made a); [|done]. by rewrite Hb. }
  destruct (silence_counted cfg cfg' zk argv h r k a evs id i e Hc Hrun Hid Hmax Ht Hn)
    as (s' & E & Hu & Ho).
  - rewrite Hfd. by intros [? ?].
  - rewrite Hfd.
    rewrite bool_decide_false by (by intros [? ?]). apply Forall_forall. intros ev Hin.
    destruct ev as [now [d|]|now|now sid [addr|]| |]; try done. cbn. intros ->. by apply (Hreq now).
  - exists s'. split; [done|]. split; [done|]. by case_decide.
Qed.

(** [head_healthy_cluster_servers] is set by heartbeats only: while none
    arrives, checks that mark every server unhealthy leave it as it was. *)
Theorem healthy_gauge_lags (s s' : HeadState (R := R)) (evs : list head_event) :
  (∀ now d, Datagram now (Some d) ∉ evs) → head_serve s evs = Some s' → metrics s' = metrics s.
Proof.
  revert s. induction evs as [|ev evs IH]; intros s Hn; cbn [head_serve]; [by intros [= ->]|].
  destruct (head_turn s ev) as [s1|] eqn:E; [|done]. cbn [mbind option_bind]. intros Hs.
  rewrite (IH s1) by (done || (intros now d Hin; by apply (Hn now d); right)).
  unfold head_turn in E. case_decide; [by injection E as ->|].
  destruct ev as [now [d|]|now|now sid addr| |].
  - by destruct (Hn now d); left.
  - unfold heartbeat_receiver_thread in E. destruct (receiver s); [|by injection E as ->].
    cbn in E. injection E as <-. by destruct (head_running s).
  - injection E as <-. unfold health_check_thread. destruct (checking s); [|done].
    by destruct (check_health _ _).
  - destruct (step_health _ _). by injection E as <-.
  - by injection E as <-.
  - injection E as <-. unfold main_turn. by destruct (head_running s).
Qed.
End detection.

(** Server 7 never reports, server 1 does once; ten checks later server 7 is
    failed over. *)
Section demo.
#[local] Existing Instance net_protobuf.
Definition quiet_minutes : list head_event :=
  Datagram 2 (Some (build_frame demo_heartbeat)) :: replicate 10 (TenSeconds (100 * sec)).

Lemma silent_server_fails_over_witness : ∃ s',
  head_serve (start_threads (R := Registered) two_head None ∅ (mkSetup (Some 5) true true true))
    quiet_minutes = Some s' ∧
  ∃ hl, about 7 (failovers s') = [Unhealthy 7 hl] ∧ ip hl = lit "h2:8081".
Proof.
  pose proof (silent_server_fails_over (R := Registered) 0 (λ _, None) (λ _, None) (λ _, (1, 1))
              two_servers two_servers (mkZk ∅ ∅) [lit "dfg"] two_head None ∅
              (mkSetup (Some 5) true true true) quiet_minutes 7 1 (mkClusterServer 7 (lit "h2") 8081)
              eq_refl started_two_running) as Hfail.
  rewrite decide_False in Hfail by (intros [_ Hex]; revert Hex; by_decision).
  destruct Hfail as (s' & E & _ & Ho).
  - by vm_compute.
  - by vm_compute.
  - done.
  - by_decision.
  - repeat constructor; by vm_compute.
  - exists s'. split; [exact E|]. case_decide as Hd; [|exfalso; apply Hd; by vm_compute].
    destruct Ho as (hl & Hl & Hip). exists hl. split; [exact Hl|]. rewrite Hip. by vm_compute.
Defined.
End demo.
