(* ===== verification/CliSession.v ===== *)
(** * CliSession: a management command of [dfg] from its settings to its exit code
    (src/src/cli/dfg_cli.cpp 64-164)

    The requests are those of [ControlClient]; here is where they are sent, on
    which descriptor, what of the answer is printed, and the exit code. *)
From Stdlib Require Import Lia.
From S2P Require Import Prelude.
From S2P Require Import Text.
From S2P Require Import Config.
From S2P Require Import Registry.
From S2P Require Import Health.
From S2P Require Import Http.
From S2P Require Import Net.
From S2P Require Import JsonText.
From S2P Require Import ControlApi.
From S2P Require Import ControlClient.
From S2P Require Import CliMain.
From S2P Require Import HeadMain.
From S2P Require Import Sockets.
Local Open Scope Z_scope.

(** [std::string(resp)] of a zeroed buffer: up to the first zero byte. *)
Fixpoint c_string (s : bytes) : bytes :=
  match s with
  | [] => []
  | c :: r => if decide (c = "000"%char) then [] else c :: c_string r
  end.

(** Where the head server's control API is taken to be. *)
Definition head_target (getenv : bytes → option bytes) (cfg : ConfigLoader) : bytes * Z :=
  (get_string getenv cfg (lit "head_server.host") (lit "127.0.0.1"),
   get_int getenv cfg (lit "head_server.control_port") 9670).

Record Exchange := mkExchange {
  code : Z;
  on_wire : bytes;
  shown : option bytes;
  left_open : Descriptors
}.

(** What the three commands share.  [evs]: the answers to [send]; [answer]: what
    the only [recv] finds; [room]: the size of [resp].  [None]: still blocked in
    [send_all]. *)
Definition exchange (room : Z) (request : bytes) (k : Descriptors) (a : Attempt)
    (evs : list send_event) (answer : option bytes) : option Exchange :=
  match connect_with_timeout k a with
  | (k, None) => Some (mkExchange 1 [] None k)
  | (k, Some (sock, _)) =>
      '(_, wire) ← send_all evs request;
      Some (mkExchange 0 wire (http_body (c_string (take (Z.to_nat (room - 1)) (default [] answer))))
              (close sock k))
  end.

(** The request of a management command, and the room for its answer. *)
Definition management (head_host : bytes) (act : dfg_action) : option (bytes * Z) :=
  match act with
  | AddServer h p => Some (cmd_add_server head_host h p, 2048)
  | RemoveServer id => Some (cmd_remove_server head_host id, 2048)
  | ListServers => Some (cmd_list_servers head_host, 8192)
  | _ => None
  end.

(** ** What comes of it *)
Lemma c_string_id s : "000"%char ∉ s → c_string s = s.
Proof.
  induction s as [|c r IH]; [done|]. rewrite not_elem_of_cons. intros [Hc Hr]. cbn [c_string].
  rewrite decide_False by congruence. by rewrite IH.
Qed.

(** The exit code only tells whether the connection was made: it is 0 whatever
    the head server answers, and when the request could not be sent. *)
Theorem exit_code_is_connection (room : Z) (request : bytes) (k : Descriptors) (a : Attempt)
    (evs : list send_event) (answer : option bytes) (x : Exchange) :
  exchange room request k a evs answer = Some x →
  (code x = 0 ∨ code x = 1) ∧
  (code x = 0 ↔ is_Some (connect_with_timeout k a).2) ∧
  (fresh (new_socket a) k → left_open x = k).
Proof.
  unfold exchange. intros E. pose proof (connect_keeps_descriptors k a) as Hc.
  destruct (connect_with_timeout k a) as [k' [[sock fl]|]].
  - destruct (send_all evs request) as [[ok wire]|]; [|done]. injection E as <-.
    cbn. split; [by left|]. split; [by split; [intros _; eexists|]|].
    intros Hf. destruct (Hc Hf) as [[Hs ->] _]. apply open_close. unfold fresh in Hf. by rewrite Hs in Hf.
  - injection E as <-. cbn. split; [by right|]. split; [split; [done|by intros [? ?]]|].
    intros Hf. by destruct (Hc Hf) as [-> _].
Qed.

(** What is printed: the body of the answer, if the answer arrives in one
    piece, fits and has no zero byte; the start of it otherwise. *)
Section session.
Variable reachable : bytes → Z → bool.

Lemma shown_body (now : Z) (s : Head) (request : bytes) (room : Z) (k : Descriptors) (a : Attempt)
    (evs : list send_event) (body : bytes) (sock : Z) (fl : bool) (k' : Descriptors) :
  connect_with_timeout k a = (k', Some (sock, fl)) → send_all evs request = Some (true, request) →
  request ≠ [] →
  let answer := response (handle_request reachable now s request).2 in
  Z.of_nat (length answer) < room → "000"%char ∉ answer →
  ∃ status body, status ∈ codes ∧ answer = make_response status body ∧
    exchange room request k a evs (Some answer) =
      Some (mkExchange 0 request (Some body) (close sock k')).
Proof.
  intros Hc Hs Hne answer Hlen Hz.
  destruct (control_responses_framed reachable now s request Hne) as (status & b & Hin & Hr & _).
  exists status, b. split; [done|]. split; [done|]. unfold exchange. rewrite Hc, Hs.
  cbn [mbind option_bind default from_option id]. assert (length answer ≤ Z.to_nat (room - 1))%nat by lia.
  rewrite take_ge by done. rewrite c_string_id by done. unfold answer. by rewrite Hr, make_response_body.
Qed.

(** The whole of [dfg add-server]: the registry of the head server that was
    reached has the endpoint, the command prints that server's answer. *)
Theorem add_server_session (prog : bytes) (now : Z) (s : Head) (head_host h : bytes) (p : Z)
    (k k' : Descriptors) (a : Attempt) (evs : list send_event) (sock : Z) (fl : bool) :
  word head_host → plain_host h → port_ok p →
  let request := cmd_add_server head_host h p in
  let '(s', o) := handle_request reachable now s request in
  connect_with_timeout k a = (k', Some (sock, fl)) → send_all evs request = Some (true, request) →
  Z.of_nat (length (response o)) < 2048 → "000"%char ∉ response o →
  management head_host (dfg_main [prog; lit "add-server"; lit "--host"; h; lit "--port"; show_Z p]) =
    Some (request, 2048) ∧
  (∃ id e, reg_servers (registry s') !! id = Some e ∧ host e = h ∧ Registry.port e = p) ∧
  ∃ status body, response o = make_response status body ∧
    exchange 2048 request k a evs (Some (response o)) =
      Some (mkExchange 0 request (Some body) (close sock k')).
Proof.
  intros Hw Hh Hp request.
  pose proof (cli_add_server_registers reachable now s head_host h p Hw Hh Hp) as Hreg.
  pose proof (shown_body now s request 2048 k a evs [] sock fl k') as Hs. unfold request in *.
  destruct (handle_request reachable now s _) as [s' o]. cbn [fst snd] in *.
  intros Hc Hsend Hlen Hz. split; [|split].
  - unfold dfg_main. cbn [dfg_options].
    assert (INT_MIN ≤ p ≤ INT_MAX) as Hr by (unfold port_ok, INT_MIN, INT_MAX in *; lia).
    rewrite stoi_show by done. assert (h ≠ []) by (by destruct Hh as [[[? _] _] _]). by destruct h.
  - destruct Hreg as (id & e & H1 & H2 & H3 & _). by exists id, e.
  - destruct (Hs Hc Hsend ltac:(done) Hlen Hz) as (status & body & _ & H1 & H2). by exists status, body.
Qed.
End session.

(** ** Two keys for one port *)

(** A head server and a [dfg] command with the same configuration file and no
    environment: the server listens where [control_api.port] says, the command
    connects to [head_server.control_port]. *)
Theorem command_misses_head_server (fuel : nat) (files : Files) (times : nat → Z * Z)
    (cfg : ConfigLoader) (zk : Zk.ZkStore) (prog : bytes) (h : HeadServer) (port : Z) :
  let getenv := λ _ : bytes, @None bytes in
  INT_MIN ≤ port ≤ INT_MAX →
  values cfg !! lit "control_api.port" = Some (show_Z port) →
  values cfg !! lit "head_server.control_port" = None →
  run_head_server fuel getenv files times cfg zk [prog] = Running h →
  hd_control_port h = port ∧ (head_target getenv cfg).2 = 9670.
Proof.
  intros getenv Hp Hv Hn Hrun.
  assert (∀ key, env_override getenv key = None) as He.
  { intros key. unfold env_override, env_value, env_alias. cbn. by repeat case_match. }
  split.
  - unfold run_head_server in Hrun. cbn [load_given argument_pairs zip drop] in Hrun.
    case_decide; [done|]. cbn [port_arguments mbind] in Hrun.
    assert (get_int getenv cfg (lit "control_api.port") 9670 = port) as Hport.
    { unfold get_int, get_string. rewrite He, Hv. cbn [default from_option id].
      destruct (show_Z port) as [|c r] eqn:E; [by destruct (word_show_Z port)|].
      by rewrite <- E, stoi_show. }
    rewrite Hport in Hrun. destruct (load_servers _ _ _) as [reg m]. by injection Hrun as <-.
  - cbn [head_target snd]. unfold get_int, get_string. by rewrite He, Hn.
Qed.
