(* ===== verification/ClientStart.v ===== *)
(** * ClientStart: what the client declares, opens and connects
    (src/src/client/client.cpp 31-59, 259-318, 414-482, 583-705)

    [CliMain.client_main] takes what the argparse library answers; here are the
    arguments the program declares to it, and what the library promises of them.
    Then the parts of the commands before the protocol of [Client]: hashing the
    local file, and the connection. *)
From Stdlib Require Import Lia.
From S2P Require Import Prelude.
From S2P Require Import Text.
From S2P Require Import Sha256.
From S2P Require Import Client.
From S2P Require Import CliMain.
From S2P Require Import Sockets.
Local Open Scope Z_scope.

#[export] Instance subcommand_eq_dec : EqDecision subcommand.
Proof. solve_decision. Defined.

(** ** The declared arguments *)
Inductive preset :=
  | Required                   (* a positional argument without a default *)
  | NoValue                    (* an option without a default: [present] tells *)
  | Str (v : bytes)
  | Num (v : Z)
  | Off.                       (* a flag: [default_value(false)] *)
(** The names of an argument, the first one being the name it is asked by. *)
Record argument := mkArgument { names : list bytes; value : preset; optional : bool }.

Section declarations.
Variable getenv : bytes → option bytes.

Definition server_arguments : list argument :=
  [mkArgument [lit "--server_ip"; lit "--si"; lit "-s"] (Str (get_default_server_ip getenv)) true;
   mkArgument [lit "--server_port"; lit "--sp"; lit "-p"] (Num (get_default_server_port getenv)) true].
Definition output_argument : argument := mkArgument [lit "-o"; lit "--output"] (Str []) true.

Definition program_arguments : list argument :=
  server_arguments ++
  [mkArgument [lit "--upload"] NoValue true;
   mkArgument [lit "--download"] NoValue true;
   mkArgument [lit "--downlaod"] NoValue true;
   output_argument;
   mkArgument [lit "--list"] Off true;
   mkArgument [lit "--test"] Off true].

Definition subcommand_arguments (c : subcommand) : list argument :=
  match c with
  | CmdUpload =>
      [mkArgument [lit "filepath"] Required false; mkArgument [lit "filename"] (Str []) true]
      ++ server_arguments
  | CmdDownload =>
      [mkArgument [lit "filename"] Required false; mkArgument [lit "output_path"] (Str []) true;
       output_argument] ++ server_arguments
  | CmdDelete => mkArgument [lit "filename"] Required false :: server_arguments
  | CmdList | CmdTest => server_arguments
  | CmdHelp | CmdVersion => []
  end.

(** The library: what a parser answers of a declared argument that was not
    given on the command line. *)
Definition answers_default (p : ArgParser) (a : argument) : Prop :=
  Forall (λ n, is_used p n = false →
            match value a with
            | Required => True
            | NoValue => present p n = None
            | Str v => get_str p n = v
            | Num v => get_num p n = v
            | Off => get_flag p n = false
            end) (names a).
Definition declared (p : ArgParser) (args : list argument) : Prop := Forall (answers_default p) args.

Lemma default_port_valid : validate_port (get_default_server_port getenv) = true.
Proof.
  unfold get_default_server_port.
  assert (validate_port 9669 = true) as H by done.
  destruct (match getenv _ with Some v => Some v | None => _ end) as [env|]; [|done].
  destruct (stoi env) as [p|]; [|done]. by destruct (validate_port p) eqn:E.
Qed.

Lemma default_answer p args n v :
  declared p args → mkArgument n v true ∈ args → ∀ m, m ∈ n → is_used p m = false →
  match v with
  | Required => True
  | NoValue => present p m = None
  | Str s => get_str p m = s
  | Num z => get_num p m = z
  | Off => get_flag p m = false
  end.
Proof.
  intros Hd Hin m Hm Hu. unfold declared in Hd. rewrite Forall_forall in Hd.
  specialize (Hd _ Hin). unfold answers_default in Hd. rewrite Forall_forall in Hd. by apply Hd.
Qed.

Section defaults.
Variables (program : ArgParser) (subparser : subcommand → ArgParser).
Hypothesis Hprogram : declared program program_arguments.
Hypothesis Hsub : ∀ c, declared (subparser c) (subcommand_arguments c).

Lemma server_declared c args :
  c ∈ [CmdUpload; CmdDownload; CmdList; CmdDelete; CmdTest] →
  args ∈ server_arguments → args ∈ subcommand_arguments c.
Proof.
  intros Hc Ha. rewrite !elem_of_cons in Hc. rewrite elem_of_nil in Hc.
  destruct Hc as [->|[->|[->|[->|[->|[]]]]]]; cbn [subcommand_arguments]; try done.
  - apply elem_of_app. by right.
  - apply elem_of_app. by right.
  - by right.
Qed.

Lemma default_target c :
  c ∈ [CmdUpload; CmdDownload; CmdList; CmdDelete; CmdTest] →
  (∀ n, n ∈ [lit "--server_ip"; lit "--server_port"] →
     is_used (subparser c) n = false ∧ is_used program n = false) →
  resolve_server_target (subparser c) program =
    (get_default_server_ip getenv, get_default_server_port getenv).
Proof.
  intros Hc Hn. unfold resolve_server_target.
  destruct (Hn (lit "--server_ip")) as [H1 H2]; [by left|].
  destruct (Hn (lit "--server_port")) as [H3 H4]; [by right; left|].
  rewrite H1, H2, H3, H4. f_equal.
  - refine (default_answer (subparser c) _ [lit "--server_ip"; lit "--si"; lit "-s"] (Str _) (Hsub c) _
              (lit "--server_ip") _ H1); [apply server_declared; [done|by left]|by left].
  - refine (default_answer (subparser c) _ [lit "--server_port"; lit "--sp"; lit "-p"] (Num _) (Hsub c) _
              (lit "--server_port") _ H3); [apply server_declared; [done|by right; left]|by left].
Qed.

(** Without server options every subcommand runs, and against the default
    head server: the environment's when it names one, the local one otherwise;
    an upload or download without a second name uses the file's own. *)
Theorem client_defaults (argc : Z) (used : subcommand → bool) (c : subcommand) :
  2 ≤ argc →
  c ∈ [CmdUpload; CmdDownload; CmdList; CmdDelete; CmdTest] →
  (∀ d, used d = bool_decide (d = c)) →
  (∀ n, n ∈ [lit "--server_ip"; lit "--server_port"] →
     is_used (subparser c) n = false ∧ is_used program n = false) →
  (∀ n, n ∈ [lit "filename"; lit "output_path"; lit "-o"] → c = CmdUpload ∨ n ≠ lit "filename" →
     is_used (subparser c) n = false) →
  client_main argc true program subparser used =
    RunAgainst (get_default_server_ip getenv) (get_default_server_port getenv)
      (match c with
       | CmdUpload => let path := get_str (subparser c) (lit "filepath") in
                      FileUpload path (extract_filename path)
       | CmdDownload => let name := get_str (subparser c) (lit "filename") in FileDownload name name
       | CmdDelete => FileDelete (get_str (subparser c) (lit "filename"))
       | CmdTest => ClientTest
       | _ => FileList
       end).
Proof.
  intros Hargc Hc Hu Hn Hf. pose proof (default_target c Hc Hn) as Ht.
  assert (∀ run, against_sub program subparser c run =
    RunAgainst (get_default_server_ip getenv) (get_default_server_port getenv) run) as Hrun.
  { intros run. unfold against_sub, against. rewrite Ht. cbn [fst snd]. by rewrite default_port_valid. }
  unfold client_main. rewrite decide_False by lia. rewrite !Hu.
  rewrite !elem_of_cons, elem_of_nil in Hc. destruct Hc as [->|[->|[->|[->|[->|[]]]]]].
  - rewrite !bool_decide_false by done. rewrite bool_decide_true by done. cbn [negb]. rewrite Hrun.
    assert (get_str (subparser CmdUpload) (lit "filename") = []) as ->; [|done].
    refine (default_answer _ _ [lit "filename"] (Str []) (Hsub CmdUpload) _ (lit "filename") _ _);
      [by right; left|by left|]. apply Hf; [by left|by left].
  - rewrite !bool_decide_false by done. rewrite bool_decide_true by done. cbn [negb]. rewrite Hrun.
    unfold download_output.
    assert (get_str (subparser CmdDownload) (lit "output_path") = []) as ->.
    { refine (default_answer _ _ [lit "output_path"] (Str []) (Hsub CmdDownload) _ (lit "output_path") _ _);
        [by right; left|by left|]. apply Hf; [by right; left|by right]. }
    rewrite (Hf (lit "-o")); [done|by right; right; left|by right].
  - rewrite !bool_decide_false by done. rewrite bool_decide_true by done. by rewrite Hrun.
  - rewrite !bool_decide_false by done. rewrite bool_decide_true by done. by rewrite Hrun.
  - rewrite !bool_decide_false by done. rewrite bool_decide_true by done. by rewrite Hrun.
Qed.

(** With none of the options given the client only says so, and exits with 1. *)
Theorem nothing_to_do (argc : Z) (used : subcommand → bool) :
  2 ≤ argc → (∀ d, used d = false) → (∀ n, is_used program n = false) →
  client_main argc true program subparser used = ExitWith 1.
Proof.
  intros Hargc Hu Hn. unfold client_main. rewrite decide_False by lia. rewrite !Hu. cbn [negb].
  assert (∀ n v, mkArgument [n] v true ∈ program_arguments →
    match v with
    | Required => True | NoValue => present program n = None | Str s => get_str program n = s
    | Num z => get_num program n = z | Off => get_flag program n = false
    end) as Ha.
  { intros n v Hin. apply (default_answer program _ [n] v Hprogram Hin n); [by left|apply Hn]. }
  assert (get_num program (lit "--server_port") = get_default_server_port getenv) as Hp.
  { refine (default_answer program _ [lit "--server_port"; lit "--sp"; lit "-p"] (Num _) Hprogram _
              (lit "--server_port") _ (Hn _)); [by right; left|by left]. }
  cbn [snd]. rewrite Hp, default_port_valid. cbn [negb].
  assert (∀ i a, program_arguments !! i = Some a → a ∈ program_arguments) as Hin
    by (intros i a; apply list_elem_of_lookup_2).
  rewrite (Ha (lit "--list") Off (Hin 6%nat _ eq_refl)), (Ha (lit "--test") Off (Hin 7%nat _ eq_refl)).
  rewrite (Ha (lit "--upload") NoValue (Hin 2%nat _ eq_refl)).
  rewrite (Ha (lit "--download") NoValue (Hin 3%nat _ eq_refl)).
  by rewrite (Ha (lit "--downlaod") NoValue (Hin 4%nat _ eq_refl)).
Qed.
End defaults.
End declarations.

(** A parser that answers the defaults, with a path and a name given. *)
Definition plain_parser (getenv : bytes → option bytes) (path : bytes) : ArgParser :=
  mkParser (λ n, bool_decide (n = lit "filepath"))
    (λ n, if decide (n = lit "filepath") then path
          else if decide (n = lit "--server_ip" ∨ n = lit "--si" ∨ n = lit "-s")
          then get_default_server_ip getenv else [])
    (λ _, get_default_server_port getenv) (λ _, false) (λ _, None).

Lemma plain_parser_declared getenv path args :
  args = program_arguments getenv ∨ (∃ c, args = subcommand_arguments getenv c) →
  declared (plain_parser getenv path) args.
Proof.
  assert (Forall (answers_default (plain_parser getenv path)) (server_arguments getenv)) as Hs.
  { repeat constructor. }
  intros [->|[c ->]]; [|destruct c; cbn [subcommand_arguments]]; unfold declared, program_arguments;
    rewrite ?Forall_app, ?Forall_cons; split_and?; try done; repeat constructor; done.
Qed.

Lemma client_defaults_witness :
  let getenv (v : bytes) := if decide (v = lit "DFG_HEAD_HOST") then Some (lit "10.0.0.9") else None in
  let p := plain_parser getenv (lit "docs/a.txt") in
  client_main 3 true p (λ _, p) (λ d, bool_decide (d = CmdUpload)) =
    RunAgainst (lit "10.0.0.9") 9669 (FileUpload (lit "docs/a.txt") (lit "a.txt")).
Proof.
  intros getenv p.
  rewrite (client_defaults getenv p (λ _, p)
             (λ c, plain_parser_declared getenv _ _ (or_intror (ex_intro _ c eq_refl)))
             3 (λ d, bool_decide (d = CmdUpload)) CmdUpload).
  - by vm_compute.
  - done.
  - by left.
  - done.
  - intros n Hn. rewrite !elem_of_cons, elem_of_nil in Hn. by destruct Hn as [->|[->|[]]].
  - intros n Hn _. rewrite !elem_of_cons, elem_of_nil in Hn. by destruct Hn as [->|[->|[->|[]]]].
Defined.

(** ** Hashing the local file *)

(** The file is read into a buffer of [size] bytes; a short read ends the loop. *)
Fixpoint hash_loop (size fuel : nat) (rest : bytes) (hasher : SHA256) : option SHA256 :=
  match fuel with
  | O => None
  | S fuel =>
      let piece := take size rest in
      let hasher := match piece with [] => hasher | _ => update_bytes hasher piece end in
      if decide (length piece < size)%nat then Some hasher      (* [in_file] is false *)
      else hash_loop size fuel (drop size rest) hasher
  end.
(** [buffer(64 * 1024)]. *)
Definition buffer_length : nat := Z.to_nat (64 * 1024).
Definition hash_file (content : bytes) : option bytes :=
  digest <$> hash_loop buffer_length (S (length content)) content Sha256.fresh.

Lemma hash_loop_spec size fuel : ∀ rest hasher,
  (0 < size)%nat → (length rest < fuel)%nat →
  ∃ ds, hash_loop size fuel rest hasher = Some (fold_left update_bytes ds hasher) ∧ concat ds = rest.
Proof.
  induction fuel as [|fuel IH]; intros rest hasher Hb Hf; [lia|]. cbn [hash_loop].
  destruct (decide (length (take size rest) < size)%nat) as [Hs|Hs].
  - assert (take size rest = rest) as E.
    { apply take_ge. rewrite length_take in Hs. lia. }
    rewrite E. destruct rest as [|c r]; [by exists []|].
    exists [c :: r]. split; [done|]. cbn [concat]. by rewrite app_nil_r.
  - rewrite length_take in Hs.
    destruct (IH (drop size rest) (update_bytes hasher (take size rest)) Hb) as (ds & E & Hc).
    { rewrite length_drop. lia. }
    exists (take size rest :: ds). split.
    + cbn [fold_left]. rewrite <- E. destruct (take size rest) as [|c r] eqn:Et; [|done].
      apply (f_equal length) in Et. rewrite length_take in Et. cbn [length] in Et. lia.
    + cbn [concat]. by rewrite Hc, take_drop.
Qed.

(** The checksum of the upload request, read in pieces, is the file's. *)
Theorem hash_file_sha256 (content : bytes) : hash_file content = Some (sha256 content).
Proof.
  unfold hash_file.
  destruct (hash_loop_spec buffer_length (S (length content)) content Sha256.fresh) as (ds & -> & Hc);
    [unfold buffer_length; lia|lia|].
  cbn. by rewrite sha256_pieces, Hc.
Qed.

(** [file_upload] before the connection: the request for the head server;
    [None]: the file cannot be opened. *)
Definition upload_request (CHUNK_SIZE : Z) (file : option bytes) (file_name : bytes) : option bytes :=
  match file with
  | None => None
  | Some content =>
      match hash_file content with
      | None => None
      | Some hash =>
          Some (lit "UPLOAD " ++ file_name ++ sp :: show_Z (Z.of_nat (length content)) ++ sp ::
                show_Z (num_chunks CHUNK_SIZE (Z.of_nat (length content))) ++ sp :: hash ++ [nl])
      end
  end.

Lemma upload_request_cmd CHUNK_SIZE content file_name :
  upload_request CHUNK_SIZE (Some content) file_name = Some (upload_cmd CHUNK_SIZE file_name content).
Proof. unfold upload_request. by rewrite hash_file_sha256. Qed.

(** ** The connection to the head server *)
Record Dial := mkDial { dial_socket : option Z; dial_numeric : bool; dial_connected : bool }.

(** [file_list] and [file_upload] close the socket of a failed connection;
    [file_delete] and [file_download] do not. *)
Definition dial (careful : bool) (k : Descriptors) (d : Dial) : Descriptors * option Z :=
  match dial_socket d with
  | None => (k, None)
  | Some sock =>
      let k := {[sock]} ∪ k in
      if dial_numeric d && dial_connected d then (k, Some sock)
      else (if careful then close sock k else k, None)
  end.

(** [sent]: the only [send] succeeded; [reply]: what the server sends until it
    closes. *)
Definition run_list (k : Descriptors) (d : Dial) (sent : bool) (reply : bytes)
  : Descriptors * Z * list bytes :=
  match dial true k d with
  | (k, None) => (k, 1, [])
  | (k, Some sock) =>
      if negb sent then (close sock k, 1, [])
      else match file_list reply with
           | None => (close sock k, 1, [])
           | Some files => (close sock k, 0, files)
           end
  end.

(** [reply]: what one [recv] finds; [send]'s answer is not looked at. *)
Definition run_delete (k : Descriptors) (d : Dial) (reply : option bytes) : Descriptors * Z :=
  match dial false k d with
  | (k, None) => (k, 1)
  | (k, Some sock) =>
      (close sock k, match reply with Some (c :: r) => delete_exit (take 255 (c :: r)) | _ => 1 end)
  end.

(** [list] exits with 0 exactly when it was connected, sent its request and got
    a listing without an error line, and leaves no descriptor open. *)
Theorem run_list_exit (k : Descriptors) (d : Dial) (sent : bool) (reply : bytes) :
  fresh (dial_socket d) k →
  let '(k', code, files) := run_list k d sent reply in
  k' = k ∧ (code = 0 ∨ code = 1) ∧
  (code = 0 ↔ is_Some (dial true k d).2 ∧ sent = true ∧ file_list reply = Some files).
Proof.
  intros Hf. unfold run_list. unfold fresh in Hf. destruct (dial true k d) as [k1 [sock|]] eqn:E.
  - unfold dial in E. destruct (dial_socket d) as [s|]; [|done].
    destruct (dial_numeric d && dial_connected d); [|done]. injection E as <- <-.
    destruct sent; cbn [negb].
    + destruct (file_list reply) as [files|]; cbn [snd].
      * rewrite open_close by done. split; [done|]. split; [by left|]. split; [|done].
        intros _. split; [by eexists|done].
      * rewrite open_close by done. split; [done|]. split; [by right|]. split; [done|by intros (_ & _ & ?)].
    + rewrite open_close by done. split; [done|]. split; [by right|]. split; [done|by intros (_ & ? & _)].
  - unfold dial in E. split.
    + destruct (dial_socket d) as [s|]; [|by injection E as <-].
      destruct (dial_numeric d && dial_connected d); [done|]. injection E as <-. by apply open_close.
    + split; [by right|]. split; [done|]. by intros ([? ?] & _).
Qed.

(** A [delete] that cannot reach the server leaves its socket open. *)
Theorem run_delete_leaks (k : Descriptors) (d : Dial) (sock : Z) (reply : option bytes) :
  dial_socket d = Some sock → dial_numeric d && dial_connected d = false →
  run_delete k d reply = ({[sock]} ∪ k, 1).
Proof. intros Hs Hc. unfold run_delete, dial. by rewrite Hs, Hc. Qed.
