(* ===== verification/Endings.v ===== *)
(** * Endings: how the processes end, and the one that is forked
    (src/src/zk_monitor/zk_monitor.cpp 870-892, 918-1007, 1062-1096;
    src/src/health_checker/health_checker.cpp 446-465, 514-520;
    src/src/head_server/redis_handler.hpp 777-843)

    A [std::thread] that is a member of an object must be joined before the
    object is destroyed: the destructor of a joinable thread calls
    [std::terminate].  [start_server] forks twice; what [fork], [setsid] and
    [execlp] answer is an argument. *)
From Stdlib Require Import Lia.
From S2P Require Import Prelude.
From S2P Require Import Text.
From S2P Require Import ZkMonitor.
From S2P Require Import ZkMain.
From S2P Require Import RedisStore.
Local Open Scope Z_scope.

(** ** Threads that are members *)
Inductive ending := Exits (code : Z) | Terminates.
(** [main] returns [code] or [exit(code)] is called: the statics are destroyed. *)
Definition leave_process (joinable : bool) (code : Z) : ending :=
  if joinable then Terminates else Exits code.

(** The monitor's flag and [master_api_thread]. *)
Record MonitorThreads := mkThreads { mt_running : bool; mt_api_joinable : bool }.
Definition start_monitor : MonitorThreads := mkThreads true true.
(** [join] returns: the port's loop ends with [running]. *)
Definition stop_monitor (t : MonitorThreads) : MonitorThreads := mkThreads false false.
(** SIGINT or SIGTERM; [None]: there is no monitor yet. *)
Definition signal_handler (t : option MonitorThreads) : ending :=
  leave_process (from_option mt_api_joinable false (stop_monitor <$> t)) 0.

(** [run_interactive_mode]: the lines of the input with the clock and [rand()]
    of each; the end of the input ends it like [quit]. *)
Fixpoint run_interactive_mode (input : list (Z * Z * Z * Z * bytes)) (mon : Monitor) : Monitor :=
  match input with
  | [] => mon
  | (now, c, m, k, line) :: input =>
      match interactive_line now c m k line mon with
      | Some mon => run_interactive_mode input mon
      | None => mon
      end
  end.

(** [run_zk_monitor] from the command line to the end of the process.
    [signalled]: a signal comes before the input ends; without one the
    non-interactive monitor never ends ([None]). *)
Definition monitor_process (st : Start) (cfg_hosts : bytes) (argv : list bytes)
    (input : list (Z * Z * Z * Z * bytes)) (signalled : bool) : option ending :=
  match run_zk_monitor st cfg_hosts argv with
  | None => Some (Exits 0)                                      (* help *)
  | Some (mon, interactive) =>
      if signalled then Some (signal_handler (Some start_monitor))
      else if interactive then Some (leave_process (mt_api_joinable start_monitor) 0)
      else None
  end.

(** The health checker: [start] may throw once [ui_thread] runs (the reactor
    cannot be made, [epoll_wait] fails); [stopped]: [stop] has joined it. *)
Definition checker_process (exporter_made : bool) (start_throws stopped : bool) : option ending :=
  if negb exporter_made then Some (Exits 1)                     (* no object yet *)
  else if start_throws then Some (leave_process (negb stopped) 1)
  else if stopped then Some (leave_process false 0)
  else None.

(** [quit] (and the end of the input) aborts the monitor; only a signal ends it
    with exit code 0. *)
Theorem quit_aborts (st : Start) (hosts : bytes) (argv : list bytes) (input : list (Z * Z * Z * Z * bytes))
    (zk_hosts : bytes) :
  zk_arguments (drop 1 argv) hosts false = Some (zk_hosts, true) →
  monitor_process st hosts argv input false = Some Terminates ∧
  monitor_process st hosts argv input true = Some (Exits 0).
Proof. intros E. unfold monitor_process, run_zk_monitor. by rewrite E. Qed.

(** The checker's exit code 1 is never seen once its page is served. *)
Theorem checker_failure_aborts (start_throws : bool) :
  start_throws = true → checker_process true start_throws false = Some Terminates.
Proof. by intros ->. Qed.

(** Registrations are the only lines that change the state the monitor keeps. *)
Lemma interactive_until_quit input now c m k rest mon :
  run_interactive_mode (input ++ (now, c, m, k, lit "quit") :: rest) mon = run_interactive_mode input mon.
Proof.
  revert mon. induction input as [|[[[[t a] b] d] line] input IH]; intros mon; cbn [app run_interactive_mode].
  - assert (interactive_line now c m k (lit "quit") mon = None) as ->; [|done].
    unfold interactive_line. by vm_compute.
  - destruct (interactive_line t a b d line mon); [apply IH|done].
Qed.

(** ** The address of the monitor's host *)

(** A datagram socket, connected to 8.8.8.8; the address [getsockname] gives. *)
Definition get_local_ip_address (made connected : bool) (named : option bytes) : bytes :=
  if made && connected then default (lit "unknown") named else lit "unknown".

(** ** [start_server]: the Redis server of the head server *)

(** The processes it leaves: the one that called it, which goes on with the
    returned code, the intermediate one, and the daemon. *)
Inductive fate :=
  | GoesOn (code : Z)
  | Exited (code : Z)
  | Became (program : bytes).

Definition server_paths : list bytes :=
  map lit ["redis-server"; "/usr/bin/redis-server"; "/usr/local/bin/redis-server";
           "/opt/homebrew/bin/redis-server"]%string.

(** The daemon after the second fork, by what can be executed. *)
Definition become (executable : bytes → bool) : fate :=
  match filter (λ p, executable p = true) server_paths with
  | p :: _ => Became p
  | [] => Exited 1
  end.

(** With Redis; [forks1], [forks2]: the forks succeed. *)
Definition start_server (running forks1 session forks2 : bool) (executable : bytes → bool) : list fate :=
  if running then [GoesOn 0]
  else if negb forks1 then [GoesOn 1]
  else GoesOn 0 ::
    (if negb session then [Exited 1]
     else if negb forks2 then [Exited 1]
     else [Exited 0; become executable]).
(** Without Redis. *)
Definition simulated_start_server : Z := 0.

Definition returned_code (fates : list fate) : Z :=
  match fates with GoesOn code :: _ => code | _ => 0 end.

Definition server_started (f : fate) : option bytes :=
  match f with Became p => Some p | _ => None end.

(** [start_server] reports success whenever the first fork succeeds: that there
    is a server is found out by [start_daemon]'s second ping alone.  One process
    becomes the first installed server when every call succeeds; otherwise
    none does. *)
Theorem start_server_outcome (running forks1 session forks2 : bool) (executable : bytes → bool) :
  let fates := start_server running forks1 session forks2 executable in
  (returned_code fates = 0 ↔ running = true ∨ forks1 = true) ∧
  omap server_started fates =
    if negb running && forks1 && session && forks2
    then take 1 (filter (λ p, executable p = true) server_paths) else [].
Proof.
  unfold start_server, become.
  destruct running, forks1, session, forks2; cbn [negb andb returned_code];
    (split; [intuition (done || discriminate)|]); try done.
  by destruct (filter _ server_paths).
Qed.
